(* ===== verification/_CoqProject ===== *)
-Q . S2P
Prelude.v
Cursor.v
Text.v
VarLen.v
CircularQueue.v
Trie.v
TrieRemove.v
Encap.v
Routing.v
Ether2.v
Ip4.v
Udp.v
Icmp.v
Arp.v
VarAddr.v
Overlay.v
Ptp.v
Dns.v
DnsPrint.v
DnsServer.v
NetAccess.v
Async.v
ArpTool.v
Analyzer.v
MsgBoundary.v
Posix.v
Tcp.v
TcpMain.v
Multiplexer.v
Filters.v
Proxy.v
Onion.v
Traceroute.v
Packets.v
MultiSend.v
Netcat.v
Hosts.v
DnsMain.v
DnsRecords.v
PingMain.v
TracerouteMain.v
PtpMain.v
Hexdump.v
Commands.v
OnionMain.v
DirectConns.v
Bandwidth.v
Vpn.v
VirtualNet.v
Interfaces.v
AnalyzerMain.v
Hardware.v
