(* ===== verification/Prelude.v ===== *)
(** * Networking-Framework: a verification library

    The program (C++20; paths are relative to its root) is a framework for protocol stacks in user space.  A net access
    ([src/abstract/net_access]) is a place to send bytes to and to receive bytes from; a protocol
    ([src/protocols]) puts its header in front of the data it is handed ([send]) and, connected to the receiving
    side of an access ([connect_recv]), takes the header off, filters, and passes the rest on; accesses of a protocol
    ([net_access_single], [net_access_broadcast]) are accesses again, so that protocols stack.  Tools
    ([src/tools]) and programs ([src/main]) are written against accesses, receivers and queues.

    ** Conventions

    - A value of an unsigned type is a [Z] with its range ([byte_ok], [u16_ok], ...), conversions are remainders ([u8],
      [u16], [u32], [u64]); a byte string, a [std::string] and a [vector<uint8_t>] are a [list Z].  The host is
      little-endian.
    - What can go wrong is a value of [fault] in the monad [res] (below): undefined behaviour that the code can reach,
      [abort], an uncaught exception, and running out of fuel.  A [nullptr] or an empty [optional] that the code
      itself tests is [None].
    - Buffers are written and read through cursors ([Cursor]: the monads [wr] and [rd], with the
      position that the code keeps in a pointer); [write_in_network_order] and [extract_from_network_order] of each type
      are a definition each, and a store or load past the end of the buffer is a fault.
    - Loops with a bound in the data are structural or take the length as fuel; loops that can run for ever (the
      parsers of EMP, NSP and EAP addresses, the extraction of DNS names, the ARP scan, the callbacks between accesses) take
      fuel, and there are theorems that say how much is enough, or that none is (3 for an access over a device, 17 for the DNS
      programs, the deepest chain of callbacks).
    - Waiting is modelled by observations: the list of what the successive calls of [front] gave.  What a system call returns is an
      argument.  Clocks and prints to the standard error are left out.

    ** Files

    - [Prelude] (this file): the error monad, machine integers, list lemmas, tactics.
    - [Cursor]: buffers and cursors; the relations [writes] and [reads] of a writer or reader to the bytes it
      handles, with a hint database [wire] and the tactics [solve_writes], [solve_reads] that prove them.
    - [Text]: the parts of [std::string], [strtoul], [sscanf] and streams that the parsers use, and [lib/split_str].
    - [VarLen]: [lib/var_len_encoding], the copy in [utils/udata.h].
    - [CircularQueue]: [utils/circular_queue.h] against the promise [BoundedQueue]; [recv_queue].
    - [Trie], [TrieRemove]: [utils/trie.h] as a set of words and as a map; removal of words, over a parameter for the missing [count_children].
    - [Encap]: the class of what [send] and [connect_recv] of a protocol promise to each other; stacks of two
      protocols are again an instance.
    - [Routing]: [abstract/routing/routing_table.h], generic in the masks.
    - [Ether2], [Ip4], [Udp], [Icmp] (with the ping tool), [Arp]: the protocols of these names.
    - [VarAddr], [Overlay]: addresses of variable length; EMP, NSP and EAP.
    - [Ptp]: the path protocol, its node, its accesses, its action lists and their text.
    - [Dns], [DnsPrint], [DnsServer]: DNS messages, and their text; the record database, the server's [handle_query], the client's loop.
    - [NetAccess]: accesses, multi receivers and the generators of accesses, as objects of a store; sets of pointers are sorted by addresses
      that any allocator chose ([HeapOrder]), and everything on the store is proved for all of them.
    - [Async]: [async_recv_listener] as a labelled transition system over [BoundedQueue], and the mailbox that it refines.
    - [ArpTool], [Analyzer], [AnalyzerMain]: the ARP tool; the parser of captured frames, and the program around it.
    - [MsgBoundary], [Multiplexer], [Packets]: the separator of a byte stream into messages; [utils/multiplexer.h]; the packet
      buffers of [abstract/constructive_packet] and the data counter.
    - [Filters], [MultiSend]: firewalls and sniffers around accesses; the sender to many media.
    - [Proxy], [Onion], [OnionMain], [Traceroute]: the IP proxy; the onion network's client and node with the UDP ends, over a class of what they
      rely on, and their programs; the loops of traceroute.
    - [DirectConns]: clients and servers over ICMP and EMP, over a class of stacks with two labels, and their life on a gateway.
    - [Bandwidth], [Vpn]: the bandwidth indicator on a sniffer; the VPN's filters, daemon, client and commands.
    - [VirtualNet]: [lib/linux/virtual_net] and its copy for macOS, over a class of local datagram sockets.
    - [Netcat]: the netcat programs over IPv4 and over Ethernet, as one program over a class of protocols.
    - [Posix]: error codes, and sequences of system calls that end at the first failure.
    - [Tcp], [TcpMain]: TCP connections with their workers, sessions that preserve boundaries, the server with its accepting thread and
      its set of sessions, and clients, as steps of threads; netcat over TCP and the remote shell.
    - [Interfaces], [Hardware]: the interfaces of the machine with the handler of captured frames, over [Async]; their addresses and the
      default gateway, out of the text or the bytes of the system's routing table.
    - [Hexdump]: [lib/hexdump.cpp].
    - [Hosts], [DnsMain], [DnsRecords]: the host on an IPv4 network that the programs wire; the DNS server and client on it; the record files.
    - [PtpMain]: netcat over the path protocol, with its nodes and path generator on the store of [NetAccess].
    - [PingMain], [TracerouteMain]: the ping program on that host, with frames and timeouts as events; the accesses of traceroute.
    - [Commands]: what each [main] makes of its options; the ARP programs over Ethernet.

    ** What the theorems show

    - Round trips: every header, packet, message and text that has both directions is read back as it was written, up to
      what the code loses, which the statement names (IPv4 flags, the high half of DNS times to live, the padding of
      ARP); packets survive a whole stack ([Udp.udp_ip4_ether2_stack]); a DNS query is answered over the wire from the
      database ([DnsServer.dns_resolve]), and from one device to another ([DnsMain.dns_over_network]); a packet sent along a path reaches its end and its reply
      returns ([Ptp.ptp_path_and_reply]).
    - Checksums: the Internet checksum is that of RFC 1071, and sent headers verify; the CRC is the bitwise one.
    - Data structures: the queue refines a list, the trie a set (also under removals, which take the extensions of a word with it) and a map, the routing table a longest match.
    - Receivers: whatever is done with accesses that share a device, a packet reaches exactly the live
      receivers, and which those are; the generators open one access per packet; the asynchronous receiver is a bounded mailbox that
      refuses only when it is full and delivers to the listener of the moment, delivers all when its worker does not sleep, and can lose a wake-up.
    - Tools: ping and the ARP search end at the right reply after the right number of requests; an ARP scan requests
      each address of its walk once and reports the first reply of each; the analyzer names the layers of a frame.
    - Programs: what leaves the device of the DNS server for a frame that arrives is a function of the frame
      ([DnsMain.dns_server_refines]), out of a database with the records of its files ([DnsRecords.dns_server_loads_records]); the ping program sends the echos of its loop ([PingMain.ping_main_refines]); what is typed at a
      netcat client is printed by the addressed server and by no other, but over the path protocol the server uses a destroyed object
      with its first or its second packet ([PtpMain.netcat_ptp_exchange]); the frames of the
      spoofing attack redirect exactly the victims; netcat over TCP prints each side's lines on the other
      ([TcpMain.netcat_tcp_exchange]) as long as they fit a message, but a session that it erases leaves its worker behind ([TcpMain.netcat_erase_dangles]); the remote shell answers a command
      with its output, past the end of a buffer if it is long ([TcpMain.shell_answers]); the virtual network refines a medium on which everyone hears
      everyone else, in a directory whose name leaves room for the files' names in a socket's address ([VirtualNet.virtual_net_refines]); which options make a program throw.
    - The machine: frames captured are stored in order or refused by a full queue, and what is stored comes to the sniffer, or to nobody while none is set
      ([Interfaces.iface_in_order]), which prints those that can be parsed so that they can be read back ([AnalyzerMain.analyzer_prints]); the default gateway is that of the first default route ([Hardware.default_gateway_found]).
    - Around the medium: filters and sniffers against what they let pass; the proxy's rewriting; the onion's round trip through its
      nodes, each packet carried by its destination, along the path that the options name; the multiplexer, the separator, the packet buffers and the multiple sender against their
      specifications; the bytes that the bandwidth indicator reports and those it misses ([Bandwidth.bandwidth_reports]); the frames that the VPN's
      gateway passes ([Vpn.vpn_gateway_passes]), the tunnel over its separator, and the moments in the daemon's constructor at which a connection
      breaks it ([Vpn.vpn_daemon_starts]).
    - Errors and termination: short or malformed input is a fault where the code reads past it, and parsers
      that cannot end are shown to run out of any fuel; which replies the printing of DNS messages reads past the end of
      ([DnsPrint.dns_print_received]).

    ** What is not modelled

    The kernel and libpcap are input and output: what their calls return is an argument, or a class (the local datagram sockets of the virtual
    network).  The gateway, the aggregators and the atomic queue are in comments.  The VPN, the
    programs of the onion network and the direct connections are written against an earlier interface that the tree no longer has: its missing
    parts are parameters or classes; so are the TCP sessions, whose missing parts ([recv_forwarder], [send_msg_t] with its capacity,
    [SEND_MEDIUM_ERROR]) are classes of [Tcp], and the capacity of [send_msg_t] one of [Proxy].  An object keeps its
    address for ever: that memory is used again after [delete] is not modelled.  Data races are named where they occur, and modelled as though the step held a lock.
    [net_access_save_send_access], which four programs
    call, is not in the tree: it is a parameter of [Hosts] and [DnsMain], with what the comment beside its call says
    as hypothesis.  Destruction by reference count is explicit where it has an effect ([NetAccess.delete_generated], [NetAccess.destroy])
    and left out elsewhere.  The firewall header and [recv_msg_t.h] cannot be compiled,
    and are modelled as they read. *)

From Stdlib Require Import ZArith Lia.
From stdpp Require Import base decidable list numbers.

#[global] Open Scope Z_scope.

(** * Faults and the error monad

    What can go wrong in the program besides returning a value.  [OutOfBounds],
    [BadShift], [BadRange], [BadConversion], [DivByZero] and [NullDeref] are the undefined behaviours the code
    can reach (a load or store past the end of a buffer, a shift by at least the
    width of the type, an iterator pair that is not a range, a scanned number that does
    not fit its type, a division by zero, a pointer that is null or whose object is gone);
    [Aborted] is [abort()], [Thrown] a C++ exception; [OutOfFuel] is a loop that
    has not finished within the fuel it was given. *)
Inductive fault : Type :=
  | OutOfBounds | BadShift | BadRange | BadConversion | DivByZero | NullDeref | Aborted | Thrown | OutOfFuel.

#[export] Instance fault_eq_dec : EqDecision fault.
Proof. solve_decision. Defined.

Inductive res (A : Type) : Type :=
  | Ok (a : A)
  | Fault (f : fault).
Arguments Ok {_} _.
Arguments Fault {_} _.

#[export] Instance res_eq_dec `{EqDecision A} : EqDecision (res A).
Proof. solve_decision. Defined.

#[export] Instance res_ret : MRet res := λ A a, Ok a.
#[export] Instance res_bind : MBind res := λ A B f m,
  match m with Ok a => f a | Fault e => Fault e end.
#[export] Instance res_fmap : FMap res := λ A B f m,
  match m with Ok a => Ok (f a) | Fault e => Fault e end.

(** [of_option e o] reads an optional value, faulting with [e] when there is none. *)
Definition of_option {A} (e : fault) (o : option A) : res A :=
  match o with Some a => Ok a | None => Fault e end.

(** A result that is a value satisfying [P]. *)
Definition succeeds {A} (P : A → Prop) (m : res A) : Prop :=
  match m with Ok a => P a | Fault _ => False end.
#[export] Instance succeeds_dec {A} (P : A → Prop) `{∀ a, Decision (P a)} m : Decision (succeeds P m).
Proof. destruct m; simpl; apply _. Defined.

Lemma of_option_ok {A} e (o : option A) x : of_option e o = Ok x → o = Some x.
Proof. destruct o; [by intros [= ->]|done]. Qed.
Lemma bind_Ok {A B} (m : res A) (f : A → res B) (a : A) : m = Ok a → (m ≫= f) = f a.
Proof. by intros ->. Qed.
Lemma res_bind_ok {A B} (m : res A) (f : A → res B) (b : B) :
  (m ≫= f) = Ok b → ∃ a, m = Ok a ∧ f a = Ok b.
Proof. destruct m as [a|e]; [by exists a | done]. Qed.

(** [r2] is what [r1] would be with more fuel. *)
Definition more_fuel {A} (r1 r2 : res A) : Prop := r1 = Fault OutOfFuel ∨ r1 = r2.
#[export] Instance more_fuel_refl {A} : Reflexive (more_fuel (A := A)).
Proof. by right. Qed.
Lemma more_fuel_bind {A B} (m1 m2 : res A) (f1 f2 : A → res B) :
  more_fuel m1 m2 → (∀ a, more_fuel (f1 a) (f2 a)) → more_fuel (m1 ≫= f1) (m2 ≫= f2).
Proof. intros [-> | ->] Hf; [by left|]. destruct m2; [apply Hf|done]. Qed.
Lemma more_fuel_ok {A} (r1 r2 : res A) a : more_fuel r1 r2 → r1 = Ok a → r2 = Ok a.
Proof. intros [H|H] E; congruence. Qed.
(** The bodies of the two calls, step by step; [call] is for the calls in them. *)
Tactic Notation "more_fuel_steps" tactic3(call) :=
  repeat first
    [ call
    | apply more_fuel_bind; [|intros ?]
    | reflexivity
    | case_match ].

(** [send_medium::err_t]: what [send_data] of a medium returns. *)
Inductive err_t := OK | ERR.

(** * Machine integers

    A value of an unsigned type of width [w] is a [Z] in [0, 2^w); a conversion to
    that type is the remainder modulo [2^w]. *)
Definition u8 (z : Z) : Z := z `mod` 2 ^ 8.
Definition u16 (z : Z) : Z := z `mod` 2 ^ 16.
Definition u32 (z : Z) : Z := z `mod` 2 ^ 32.
Definition u64 (z : Z) : Z := z `mod` 2 ^ 64.

Definition byte_ok (b : Z) : Prop := 0 ≤ b < 2 ^ 8.
Definition u16_ok (z : Z) : Prop := 0 ≤ z < 2 ^ 16.
Definition u32_ok (z : Z) : Prop := 0 ≤ z < 2 ^ 32.
Abbreviation bytes_ok := (Forall byte_ok).

#[export] Instance byte_ok_dec b : Decision (byte_ok b).
Proof. unfold byte_ok. apply _. Defined.
#[export] Instance u16_ok_dec b : Decision (u16_ok b).
Proof. unfold u16_ok. apply _. Defined.
#[export] Instance u32_ok_dec b : Decision (u32_ok b).
Proof. unfold u32_ok. apply _. Defined.

Create HintDb wire.

(** * Arrays of bytes compared by the loops of [operator==] and [operator<] *)

Fixpoint array_eqb (a b : list Z) : bool :=
  match a, b with
  | x :: a, y :: b => if negb (x =? y) then false else array_eqb a b
  | _, _ => true
  end.
Fixpoint array_ltb (a b : list Z) : bool :=
  match a, b with
  | x :: a, y :: b => if negb (x =? y) then x <? y else array_ltb a b
  | _, _ => false
  end.

Lemma array_eqb_spec a b : length a = length b → array_eqb a b = bool_decide (a = b).
Proof.
  revert b. induction a as [|x a IH]; intros [|y b] Hl; try done. simpl in *.
  destruct (Z.eqb_spec x y) as [->|]; simpl; [|by rewrite bool_decide_false by congruence].
  rewrite IH by lia. apply bool_decide_ext. naive_solver.
Qed.
Lemma array_ltb_irrefl a : array_ltb a a = false.
Proof. induction a as [|x a IH]; [done|]. simpl. by rewrite Z.eqb_refl. Qed.
Lemma array_ltb_trans a b c :
  length a = length b → length b = length c →
  array_ltb a b = true → array_ltb b c = true → array_ltb a c = true.
Proof.
  revert b c. induction a as [|x a IH]; intros [|y b] [|z c] H1 H2; try done. simpl in *.
  destruct (Z.eqb_spec x y) as [->|], (Z.eqb_spec y z) as [->|]; simpl; intros Hab Hbc.
  - apply (IH b c); (done || lia).
  - done.
  - by rewrite (proj2 (Z.eqb_neq x z)) by done.
  - destruct (Z.eqb_spec x z); simpl; [lia|]. apply Z.ltb_lt. lia.
Qed.
Lemma array_ltb_total a b :
  length a = length b → array_ltb a b = true ∨ a = b ∨ array_ltb b a = true.
Proof.
  revert b. induction a as [|x a IH]; intros [|y b] Hl; try done; [by right; left|]. simpl in *.
  destruct (Z.eqb_spec x y) as [->|]; simpl.
  - rewrite Z.eqb_refl. simpl. destruct (IH b) as [?|[->|?]]; auto with lia.
  - rewrite (proj2 (Z.eqb_neq y x)) by done. simpl.
    destruct (Z.lt_total x y) as [?|[?|?]]; [left; lia|done|right; right; lia].
Qed.

Lemma u8_ok z : byte_ok (u8 z).
Proof. apply Z.mod_pos_bound; lia. Qed.
Lemma u16_in_range z : u16_ok (u16 z).
Proof. apply Z.mod_pos_bound; lia. Qed.
Lemma u32_in_range z : u32_ok (u32 z).
Proof. apply Z.mod_pos_bound; lia. Qed.
Lemma u8_small z : byte_ok z → u8 z = z.
Proof. apply Z.mod_small. Qed.
Lemma u16_small z : u16_ok z → u16 z = z.
Proof. apply Z.mod_small. Qed.
Lemma u32_small z : u32_ok z → u32 z = z.
Proof. apply Z.mod_small. Qed.
Lemma byte_u16 z : byte_ok z → u16_ok z.
Proof. unfold byte_ok, u16_ok. lia. Qed.
#[export] Hint Resolve u8_ok u16_in_range u32_in_range byte_u16 : wire.

(** A decidable fact about bytes is checked on the 256 of them. *)
Lemma byte_forall (P : Z → bool) :
  forallb P (seqZ 0 256) = true → ∀ b, byte_ok b → P b = true.
Proof.
  intros H b Hb. rewrite forallb_forall in H. apply H, list_elem_of_In, elem_of_seqZ.
  unfold byte_ok in Hb. lia.
Qed.

(** [solve_bytes] closes goals that some bytes or integers are in range. *)
Ltac solve_bytes :=
  unfold byte_ok, u16_ok, u32_ok, u8, u16, u32 in *;
  repeat (apply Forall_cons_2 || apply Forall_nil_2 || apply Forall_app_2 || split);
  try assumption; try (Z.div_mod_to_equations; lia).

(** The host is little-endian (x86, arm64): [*(uint16_t* )p = v] stores the low byte
    first.  [le16]/[le32] are the bytes of such a store, [of_le16]/[of_le32] the
    values of the loads; [be16]/[be32] are the network (big-endian) layouts. *)
Definition le16 (v : Z) : list Z := [v `mod` 256; (v `div` 256) `mod` 256].
Definition le32 (v : Z) : list Z :=
  [v `mod` 256; (v `div` 256) `mod` 256; (v `div` 65536) `mod` 256; (v `div` 16777216) `mod` 256].
Definition be16 (v : Z) : list Z := [(v `div` 256) `mod` 256; v `mod` 256].
Definition be32 (v : Z) : list Z :=
  [(v `div` 16777216) `mod` 256; (v `div` 65536) `mod` 256; (v `div` 256) `mod` 256; v `mod` 256].
Definition of_le16 (b0 b1 : Z) : Z := b0 + 256 * b1.
Definition of_le32 (b0 b1 b2 b3 : Z) : Z := b0 + 256 * b1 + 65536 * b2 + 16777216 * b3.

(** The byte-order conversions of <netinet/in.h> on a little-endian host; the
    parameter is converted to the type first. *)
Definition htons (v : Z) : Z := (v `mod` 256) * 256 + (v `div` 256) `mod` 256.
Definition ntohs (v : Z) : Z := htons v.
Definition htonl (v : Z) : Z :=
  (v `mod` 256) * 16777216 + ((v `div` 256) `mod` 256) * 65536
  + ((v `div` 65536) `mod` 256) * 256 + (v `div` 16777216) `mod` 256.
Definition ntohl (v : Z) : Z := htonl v.

Lemma le16_htons v : le16 (htons v) = be16 v.
Proof. unfold le16, be16, htons. f_equal; [|f_equal]; Z.div_mod_to_equations; lia. Qed.
Lemma ntohs_le16 v : u16_ok v → ntohs (of_le16 ((v `div` 256) `mod` 256) (v `mod` 256)) = v.
Proof. unfold u16_ok, ntohs, htons, of_le16. intros. Z.div_mod_to_equations; lia. Qed.
Lemma of_le16_le16 v : u16_ok v → of_le16 (v `mod` 256) ((v `div` 256) `mod` 256) = v.
Proof. unfold u16_ok, of_le16. intros. Z.div_mod_to_equations; lia. Qed.
Lemma htons_u16 v : u16_ok (htons v).
Proof. unfold u16_ok, htons. Z.div_mod_to_equations; lia. Qed.

Lemma digits32 a b c d :
  byte_ok a → byte_ok b → byte_ok c → byte_ok d →
  le32 (a * 16777216 + b * 65536 + c * 256 + d) = [d; c; b; a].
Proof.
  unfold byte_ok, le32. intros. repeat f_equal; Z.div_mod_to_equations; lia.
Qed.
Lemma mod256_ok v : byte_ok (v `mod` 256).
Proof. apply Z.mod_pos_bound. lia. Qed.
#[export] Hint Resolve mod256_ok : wire.
Lemma le32_htonl v : le32 (htonl v) = be32 v.
Proof. apply digits32; auto with wire. Qed.
Lemma htonl_digits v : htonl (of_le32 (v `mod` 256) ((v `div` 256) `mod` 256)
  ((v `div` 65536) `mod` 256) ((v `div` 16777216) `mod` 256)) = htonl v.
Proof.
  set (a := v `mod` 256). set (b := (v `div` 256) `mod` 256).
  set (c := (v `div` 65536) `mod` 256). set (d := (v `div` 16777216) `mod` 256).
  assert (Ha : byte_ok a) by apply mod256_ok. assert (Hb : byte_ok b) by apply mod256_ok.
  assert (Hc : byte_ok c) by apply mod256_ok. assert (Hd : byte_ok d) by apply mod256_ok.
  pose proof (digits32 d c b a Hd Hc Hb Ha) as H. unfold le32 in H.
  unfold htonl, of_le32. fold a b c d.
  replace (a + 256 * b + 65536 * c + 16777216 * d)
    with (d * 16777216 + c * 65536 + b * 256 + a) by lia.
  injection H as -> -> -> ->. done.
Qed.
Lemma htonl_be32 v : u32_ok v →
  ntohl (of_le32 ((v `div` 16777216) `mod` 256) ((v `div` 65536) `mod` 256)
    ((v `div` 256) `mod` 256) (v `mod` 256)) = v.
Proof.
  intros Hv. unfold ntohl.
  set (a := v `mod` 256). set (b := (v `div` 256) `mod` 256).
  set (c := (v `div` 65536) `mod` 256). set (d := (v `div` 16777216) `mod` 256).
  assert (Ha : byte_ok a) by apply mod256_ok. assert (Hb : byte_ok b) by apply mod256_ok.
  assert (Hc : byte_ok c) by apply mod256_ok. assert (Hd : byte_ok d) by apply mod256_ok.
  pose proof (digits32 a b c d Ha Hb Hc Hd) as H. unfold le32 in H.
  unfold htonl, of_le32.
  replace (d + 256 * c + 65536 * b + 16777216 * a)
    with (a * 16777216 + b * 65536 + c * 256 + d) by lia.
  injection H as -> -> -> ->. subst a b c d. unfold u32_ok in Hv.
  Z.div_mod_to_equations; lia.
Qed.
