(* ===== verification/Cursor.v ===== *)
(** Buffers and cursors: the pointer walks of the [write_in_network_order] and
    [extract_from_network_order] functions.

    A write function runs in the monad [wr]: the state is the destination buffer and
    the position of the local pointer [dest] in it.  A store outside the buffer is the
    fault [OutOfBounds].  An extract function runs in [rd]: the buffer is read-only.
    [writes w bs a] says completely what a write function does, [reads r bs a] what a
    read function returns on bytes it recognises, and [rd_size r n] that it consumes
    [n] bytes, or faults when fewer are left. *)

From Stdlib Require Import ZArith Lia.
From stdpp Require Import base decidable list numbers.
From S2P Require Import Prelude.

(** * Buffers *)

(** [blit buf pos bs]: the buffer after [bs] is stored at [pos]. *)
Definition blit (buf : list Z) (pos : nat) (bs : list Z) : list Z :=
  take pos buf ++ bs ++ drop (pos + length bs) buf.

(** [memcpy(buf + pos, bs, |bs|)]. *)
Definition memcpy (buf : list Z) (pos : nat) (bs : list Z) : res (list Z) :=
  if decide (pos + length bs ≤ length buf)%nat then Ok (blit buf pos bs) else Fault OutOfBounds.

(** The range constructor [vector<uint8_t>(p + first, p + last)] over a buffer. *)
Definition subvector (buf : list Z) (first last : nat) : res (list Z) :=
  if decide (last ≤ length buf)%nat then
    if decide (first ≤ last)%nat then Ok (take (last - first) (drop first buf))
    else Fault BadRange
  else Fault OutOfBounds.

Lemma blit_length buf pos bs :
  (pos + length bs ≤ length buf)%nat → length (blit buf pos bs) = length buf.
Proof. intros. unfold blit. rewrite !length_app, length_take, length_drop. lia. Qed.

Lemma blit_nil buf pos : (pos ≤ length buf)%nat → blit buf pos [] = buf.
Proof. intros. unfold blit. simpl. rewrite Nat.add_0_r. apply take_drop. Qed.

Lemma blit_blit buf pos b1 b2 :
  (pos + length (b1 ++ b2) ≤ length buf)%nat →
  blit (blit buf pos b1) (pos + length b1) b2 = blit buf pos (b1 ++ b2).
Proof.
  rewrite length_app. intros. unfold blit.
  assert (Hp : length (take pos buf) = pos) by (rewrite length_take; lia).
  rewrite (app_assoc (take pos buf) b1).
  rewrite take_app_length' by (rewrite length_app; lia).
  rewrite drop_app_ge by (rewrite length_app; lia).
  rewrite drop_drop, !length_app, <- !app_assoc. do 3 f_equal. f_equal. lia.
Qed.

Lemma blit_exact n bs : length bs = n → ∀ buf, length buf = n → blit buf 0 bs = bs.
Proof.
  intros <- buf Hb. unfold blit. simpl. rewrite drop_ge by lia. by rewrite app_nil_r.
Qed.

Lemma blit_prefix buf bs :
  (length bs ≤ length buf)%nat → blit buf 0 bs = bs ++ drop (length bs) buf.
Proof. done. Qed.

(** Storing a second block of the same size over the first. *)
Lemma blit_overwrite buf pos b1 b2 :
  length b1 = length b2 → (pos + length b1 ≤ length buf)%nat →
  blit (blit buf pos b1) pos b2 = blit buf pos b2.
Proof.
  intros Hl Hb. unfold blit.
  rewrite take_app_le, take_take by (rewrite length_take; lia).
  rewrite Nat.min_id. f_equal. f_equal.
  rewrite (app_assoc (take pos buf) b1), drop_app_ge by (rewrite length_app, length_take; lia).
  rewrite drop_drop, length_app, length_take. f_equal. lia.
Qed.

Lemma memcpy_ok buf pos bs :
  (pos + length bs ≤ length buf)%nat → memcpy buf pos bs = Ok (blit buf pos bs).
Proof. intros. unfold memcpy. by rewrite decide_True. Qed.
Lemma memcpy_overflow buf pos bs :
  (length buf < pos + length bs)%nat → memcpy buf pos bs = Fault OutOfBounds.
Proof. intros. unfold memcpy. rewrite decide_False by lia. done. Qed.

Lemma subvector_suffix pre post :
  subvector (pre ++ post) (length pre) (length (pre ++ post)) = Ok post.
Proof.
  unfold subvector. rewrite !decide_True by (rewrite ?length_app; lia).
  rewrite drop_app_length, length_app. f_equal. apply take_ge. lia.
Qed.

Lemma subvector_prefix pre post : subvector (pre ++ post) 0 (length pre) = Ok pre.
Proof.
  unfold subvector. rewrite !decide_True by (rewrite ?length_app; lia).
  rewrite drop_0, Nat.sub_0_r. f_equal. apply take_app_length.
Qed.

(** * Writers *)

Definition wr (A : Type) : Type := list Z → nat → res (A * list Z * nat).

#[export] Instance wr_ret : MRet wr := λ A a buf pos, Ok (a, buf, pos).
#[export] Instance wr_bind : MBind wr := λ A B f m buf pos,
  match m buf pos with
  | Ok (a, buf', pos') => f a buf' pos'
  | Fault e => Fault e
  end.

Definition wr_fault {A} (e : fault) : wr A := λ _ _, Fault e.
(** A computation that does not touch the buffer. *)
Definition wr_lift {A} (r : res A) : wr A := λ buf pos, a ← r; Ok (a, buf, pos).

(** A block store, [memcpy(dest, bs, n); dest += n]. *)
Definition put_bytes (bs : list Z) : wr () := λ buf pos,
  match memcpy buf pos bs with
  | Ok buf' => Ok (tt, buf', (pos + length bs)%nat)
  | Fault e => Fault e
  end.
(** [*dest++ = v], [*(uint16_t* )dest = v; dest += 2], [*(uint32_t* )dest = v; dest += 4]. *)
Definition put8 (v : Z) : wr () := put_bytes [u8 v].
Definition put16 (v : Z) : wr () := put_bytes (le16 v).
Definition put32 (v : Z) : wr () := put_bytes (le32 v).

(** [dest += write_in_network_order(dest, x)]: the callee's pointer is its own, the
    caller's moves by the count the callee returns. *)
Definition advance (w : wr nat) : wr () := λ buf pos,
  match w buf pos with
  | Ok (n, buf', _) => Ok (tt, buf', (pos + n)%nat)
  | Fault e => Fault e
  end.
(** [curr = dest; ...; return curr - dest]. *)
Definition counted (w : wr ()) : wr nat := λ buf pos,
  match w buf pos with
  | Ok (_, buf', pos') => Ok ((pos' - pos)%nat, buf', pos')
  | Fault e => Fault e
  end.

(** A call [write_in_network_order(buf.data(), x)]: the buffer afterwards and the count. *)
Definition run_write (w : wr nat) (buf : list Z) : res (list Z * nat) :=
  match w buf 0%nat with
  | Ok (n, buf', _) => Ok (buf', n)
  | Fault e => Fault e
  end.

(** [writes w bs a]: from any position inside any buffer, [w] stores exactly [bs], moves
    by its length and returns [a] when the block fits, and overflows otherwise. *)
Definition writes {A} (w : wr A) (bs : list Z) (a : A) : Prop :=
  ∀ buf pos, (pos ≤ length buf)%nat →
    w buf pos =
      if decide (pos + length bs ≤ length buf)%nat
      then Ok (a, blit buf pos bs, (pos + length bs)%nat)
      else Fault OutOfBounds.

Lemma writes_ret {A} (a : A) : writes (mret a) [] a.
Proof.
  intros buf pos H. rewrite decide_True by (simpl; lia).
  by rewrite blit_nil, Nat.add_0_r.
Qed.

Lemma writes_bind {A B} (m : wr A) (f : A → wr B) b1 b2 a b :
  writes m b1 a → writes (f a) b2 b → writes (m ≫= f) (b1 ++ b2) b.
Proof.
  intros Hm Hf buf pos Hp. unfold mbind, wr_bind. rewrite (Hm buf pos Hp).
  case_decide as H1.
  - rewrite Hf by (rewrite blit_length; lia).
    rewrite blit_length by lia. rewrite length_app.
    case_decide as H2.
    + rewrite decide_True by lia. rewrite blit_blit by (rewrite length_app; lia).
      by rewrite Nat.add_assoc.
    + by rewrite decide_False by lia.
  - rewrite length_app. by rewrite decide_False by lia.
Qed.

Lemma writes_lift {A} (r : res A) a : r = Ok a → writes (wr_lift r) [] a.
Proof. intros ->. apply writes_ret. Qed.
Lemma writes_put_bytes bs : writes (put_bytes bs) bs tt.
Proof. intros buf pos Hp. unfold put_bytes, memcpy. case_decide; done. Qed.
Lemma writes_put8 v : writes (put8 v) [u8 v] tt.
Proof. apply writes_put_bytes. Qed.
Lemma writes_put16 v : writes (put16 v) (le16 v) tt.
Proof. apply writes_put_bytes. Qed.
Lemma writes_put32 v : writes (put32 v) (le32 v) tt.
Proof. apply writes_put_bytes. Qed.
Lemma writes_put16_htons v : writes (put16 (htons v)) (be16 v) tt.
Proof. rewrite <- le16_htons. apply writes_put16. Qed.
Lemma writes_put32_htonl v : writes (put32 (htonl v)) (be32 v) tt.
Proof. rewrite <- le32_htonl. apply writes_put32. Qed.

Lemma writes_advance (w : wr nat) bs n : writes w bs n → n = length bs → writes (advance w) bs tt.
Proof. intros Hw -> buf pos Hp. unfold advance. rewrite Hw by done. by case_decide. Qed.

Lemma writes_counted (w : wr ()) bs : writes w bs tt → writes (counted w) bs (length bs).
Proof.
  intros Hw buf pos Hp. unfold counted. rewrite Hw by done. case_decide; [|done].
  repeat f_equal. lia.
Qed.

Lemma writes_cast {A} (w : wr A) bs bs' a a' : writes w bs a → bs = bs' → a = a' → writes w bs' a'.
Proof. by intros ? <- <-. Qed.

Lemma run_write_fits w bs n buf :
  writes w bs n → (length bs ≤ length buf)%nat → run_write w buf = Ok (blit buf 0 bs, n).
Proof. intros Hw Hl. unfold run_write. rewrite Hw by lia. rewrite decide_True by (simpl; lia). done. Qed.

Lemma run_write_overflow w bs n buf :
  writes w bs n → (length buf < length bs)%nat → run_write w buf = Fault OutOfBounds.
Proof. intros Hw Hl. unfold run_write. rewrite Hw by lia. rewrite decide_False by (simpl; lia). done. Qed.

(** * Readers *)

Definition rd (A : Type) : Type := list Z → nat → res (A * nat).

#[export] Instance rd_ret : MRet rd := λ A a buf pos, Ok (a, pos).
#[export] Instance rd_bind : MBind rd := λ A B f m buf pos,
  match m buf pos with
  | Ok (a, pos') => f a buf pos'
  | Fault e => Fault e
  end.
#[export] Instance rd_fmap : FMap rd := λ A B f m buf pos,
  match m buf pos with
  | Ok (a, pos') => Ok (f a, pos')
  | Fault e => Fault e
  end.

Definition rd_fault {A} (e : fault) : rd A := λ _ _, Fault e.
Definition rd_lift {A} (r : res A) : rd A := λ buf pos, a ← r; Ok (a, pos).

(** [*src] without moving, [*src++], and the host-order loads that move by 2 and 4. *)
Definition peek8 : rd Z := λ buf pos,
  match buf !! pos with Some b => Ok (b, pos) | None => Fault OutOfBounds end.
Definition get8 : rd Z := λ buf pos,
  match buf !! pos with Some b => Ok (b, S pos) | None => Fault OutOfBounds end.
Definition get16 : rd Z := b0 ← get8; b1 ← get8; mret (of_le16 b0 b1).
Definition get32 : rd Z :=
  b0 ← get8; b1 ← get8; b2 ← get8; b3 ← get8; mret (of_le32 b0 b1 b2 b3).
(** [memcpy(dest, src, n); src += n], or [vector<uint8_t>(src, src + n)]. *)
Fixpoint get_bytes (n : nat) : rd (list Z) :=
  match n with
  | O => mret []
  | S n => b ← get8; bs ← get_bytes n; mret (b :: bs)
  end.

(** [src += extract_from_network_order(&x, src)]. *)
Definition take_in {A} (r : rd (A * nat)) : rd A := λ buf pos,
  match r buf pos with
  | Ok ((a, n), _) => Ok (a, (pos + n)%nat)
  | Fault e => Fault e
  end.
(** [curr = src; ...; return curr - src]. *)
Definition rd_counted {A} (r : rd A) : rd (A * nat) := λ buf pos,
  match r buf pos with
  | Ok (a, pos') => Ok ((a, (pos' - pos)%nat), pos')
  | Fault e => Fault e
  end.

(** A call [extract_from_network_order(&x, buf.data())]. *)
Definition run_extract {A} (r : rd (A * nat)) (buf : list Z) : res (A * nat) :=
  match r buf 0%nat with
  | Ok (x, _) => Ok x
  | Fault e => Fault e
  end.

Definition reads {A} (r : rd A) (bs : list Z) (a : A) : Prop :=
  ∀ pre post, r (pre ++ bs ++ post) (length pre) = Ok (a, (length pre + length bs)%nat).

Lemma reads_ret {A} (a : A) : reads (mret a) [] a.
Proof. intros pre post. unfold mret, rd_ret. simpl. by rewrite Nat.add_0_r. Qed.

Lemma reads_bind {A B} (m : rd A) (f : A → rd B) b1 b2 a b :
  reads m b1 a → reads (f a) b2 b → reads (m ≫= f) (b1 ++ b2) b.
Proof.
  intros Hm Hf pre post. unfold mbind, rd_bind.
  rewrite <- app_assoc. rewrite Hm.
  specialize (Hf (pre ++ b1) post). rewrite length_app, <- app_assoc in Hf.
  rewrite Hf. f_equal. f_equal. rewrite length_app. lia.
Qed.

Lemma reads_fmap {A B} (f : A → B) (m : rd A) bs a : reads m bs a → reads (f <$> m) bs (f a).
Proof. intros Hm pre post. unfold fmap, rd_fmap. by rewrite Hm. Qed.

Lemma reads_lift {A} (r : res A) a : r = Ok a → reads (rd_lift r) [] a.
Proof. intros ->. apply reads_ret. Qed.
Lemma reads_get8 b : reads get8 [b] b.
Proof.
  intros pre post. unfold get8. simpl. rewrite list_lookup_middle by done.
  simpl. by rewrite Nat.add_1_r.
Qed.
(** Executing a load against the byte under the cursor. *)
Lemma get8_step {A} (f : Z → rd A) b pre post :
  (get8 ≫= f) (pre ++ b :: post) (length pre) = f b ((pre ++ [b]) ++ post) (length (pre ++ [b])).
Proof.
  unfold mbind, rd_bind. pose proof (reads_get8 b pre post) as H. simpl in H. rewrite H.
  by rewrite length_app, <- app_assoc.
Qed.
Lemma reads_get16 b0 b1 : reads get16 [b0; b1] (of_le16 b0 b1).
Proof.
  apply (reads_bind get8 _ [b0] [b1] b0); [apply reads_get8|].
  apply (reads_bind get8 _ [b1] [] b1); [apply reads_get8|apply reads_ret].
Qed.
Lemma reads_get32 b0 b1 b2 b3 : reads get32 [b0; b1; b2; b3] (of_le32 b0 b1 b2 b3).
Proof.
  apply (reads_bind get8 _ [b0] [b1; b2; b3] b0); [apply reads_get8|].
  apply (reads_bind get8 _ [b1] [b2; b3] b1); [apply reads_get8|].
  apply (reads_bind get8 _ [b2] [b3] b2); [apply reads_get8|].
  apply (reads_bind get8 _ [b3] [] b3); [apply reads_get8|apply reads_ret].
Qed.
Lemma reads_ntohs v : u16_ok v → reads (ntohs <$> get16) (be16 v) v.
Proof.
  intros Hv. rewrite <- (ntohs_le16 v Hv) at 2. apply (reads_fmap ntohs), reads_get16.
Qed.
Lemma reads_le16 v : u16_ok v → reads get16 (le16 v) v.
Proof. intros Hv. rewrite <- (of_le16_le16 v Hv) at 2. apply reads_get16. Qed.
Lemma reads_ntohl v : u32_ok v → reads (ntohl <$> get32) (be32 v) v.
Proof.
  intros Hv. rewrite <- (htonl_be32 v Hv) at 2. apply (reads_fmap ntohl), reads_get32.
Qed.
Lemma reads_get_bytes bs : reads (get_bytes (length bs)) bs bs.
Proof.
  induction bs as [|b bs IH]; [apply reads_ret|].
  apply (reads_bind get8 _ [b] bs b); [apply reads_get8|].
  rewrite <- (app_nil_r bs) at 2. apply (reads_bind _ _ bs [] bs); [done|apply reads_ret].
Qed.
Lemma reads_get_bytes' n bs : n = length bs → reads (get_bytes n) bs bs.
Proof. intros ->. apply reads_get_bytes. Qed.

Lemma reads_take_in {A} (r : rd (A * nat)) bs a :
  reads r bs (a, length bs) → reads (take_in r) bs a.
Proof. intros Hr pre post. unfold take_in. by rewrite Hr. Qed.
Lemma reads_counted {A} (r : rd A) bs a : reads r bs a → reads (rd_counted r) bs (a, length bs).
Proof. intros Hr pre post. unfold rd_counted. rewrite Hr. repeat f_equal. lia. Qed.
Lemma reads_cast {A} (r : rd A) bs bs' a a' : reads r bs a → bs = bs' → a = a' → reads r bs' a'.
Proof. by intros ? <- <-. Qed.

Lemma run_extract_reads {A} (r : rd (A * nat)) bs x post :
  reads r bs x → run_extract r (bs ++ post) = Ok x.
Proof. intros Hr. unfold run_extract. specialize (Hr [] post). simpl in Hr. by rewrite Hr. Qed.

(** Consuming exactly [n] bytes, or faulting on a shorter rest. *)
Definition rd_size {A} (r : rd A) (n : nat) : Prop :=
  ∀ buf pos, (pos ≤ length buf)%nat →
    match r buf pos with
    | Ok (_, p) => p = (pos + n)%nat ∧ (pos + n ≤ length buf)%nat
    | Fault e => e = OutOfBounds ∧ (length buf < pos + n)%nat
    end.
(** The same for an extract function, with the count [c] its caller moves by. *)
Definition extract_size {A} (r : rd (A * nat)) (n c : nat) : Prop :=
  ∀ buf pos, (pos ≤ length buf)%nat →
    match r buf pos with
    | Ok ((_, c'), _) => c' = c ∧ (pos + n ≤ length buf)%nat
    | Fault e => e = OutOfBounds ∧ (length buf < pos + n)%nat
    end.

Lemma rd_size_ret {A} (a : A) : rd_size (mret a) 0.
Proof. intros buf pos Hp. simpl. lia. Qed.
Lemma rd_size_bind {A B} (m : rd A) (f : A → rd B) n1 n2 :
  rd_size m n1 → (∀ a, rd_size (f a) n2) → rd_size (m ≫= f) (n1 + n2).
Proof.
  intros Hm Hf buf pos Hp. unfold mbind, rd_bind. specialize (Hm buf pos Hp).
  destruct (m buf pos) as [[a p]|e]; [|destruct Hm; split; [done|lia]].
  destruct Hm as [-> Hm]. specialize (Hf a buf (pos + n1)%nat Hm).
  destruct (f a buf (pos + n1)%nat) as [[b p']|e]; destruct Hf; split; (done || lia).
Qed.
Lemma rd_size_fmap {A B} (f : A → B) (m : rd A) n : rd_size m n → rd_size (f <$> m) n.
Proof.
  intros Hm buf pos Hp. unfold fmap, rd_fmap. specialize (Hm buf pos Hp).
  by destruct (m buf pos) as [[a p]|e].
Qed.
Lemma rd_size_get8 : rd_size get8 1.
Proof.
  intros buf pos Hp. unfold get8. destruct (buf !! pos) eqn:E.
  - apply lookup_lt_Some in E. lia.
  - apply lookup_ge_None in E. split; [done|lia].
Qed.
Lemma rd_size_get16 : rd_size get16 2.
Proof.
  apply (rd_size_bind _ _ 1 1 rd_size_get8); intros.
  apply (rd_size_bind _ _ 1 0 rd_size_get8); intros. apply rd_size_ret.
Qed.
Lemma rd_size_get32 : rd_size get32 4.
Proof.
  apply (rd_size_bind _ _ 1 3 rd_size_get8); intros.
  apply (rd_size_bind _ _ 1 2 rd_size_get8); intros.
  apply (rd_size_bind _ _ 1 1 rd_size_get8); intros.
  apply (rd_size_bind _ _ 1 0 rd_size_get8); intros. apply rd_size_ret.
Qed.
Lemma rd_size_get_bytes n : rd_size (get_bytes n) n.
Proof.
  induction n as [|n IH]; [apply rd_size_ret|].
  apply (rd_size_bind _ _ 1 n rd_size_get8); intros.
  rewrite <- (Nat.add_0_r n) at 2. apply rd_size_bind; [done|]. intros. apply rd_size_ret.
Qed.

Lemma extract_size_ret {A} (a : A) c : extract_size (mret (a, c)) 0 c.
Proof. intros buf pos Hp. simpl. lia. Qed.
Lemma extract_size_bind {A B} (m : rd A) (f : A → rd (B * nat)) n1 n2 c :
  rd_size m n1 → (∀ a, extract_size (f a) n2 c) → extract_size (m ≫= f) (n1 + n2) c.
Proof.
  intros Hm Hf buf pos Hp. unfold mbind, rd_bind. specialize (Hm buf pos Hp).
  destruct (m buf pos) as [[a p]|e]; [|destruct Hm; split; [done|lia]].
  destruct Hm as [-> Hm]. specialize (Hf a buf (pos + n1)%nat Hm).
  destruct (f a buf (pos + n1)%nat) as [[[b c'] p']|e]; destruct Hf; split; (done || lia).
Qed.
Lemma rd_size_take_in {A} (r : rd (A * nat)) n : extract_size r n n → rd_size (take_in r) n.
Proof.
  intros Hr buf pos Hp. unfold take_in. specialize (Hr buf pos Hp).
  destruct (r buf pos) as [[[a c] p]|e]; [|done]. destruct Hr as [-> ?]. done.
Qed.
Lemma extract_size_cast {A} (r : rd (A * nat)) n n' c :
  extract_size r n c → n = n' → extract_size r n' c.
Proof. by intros ? <-. Qed.
Lemma extract_size_short {A} (r : rd (A * nat)) n c buf :
  extract_size r n c → (length buf < n)%nat → run_extract r buf = Fault OutOfBounds.
Proof.
  intros Hr Hl. specialize (Hr buf 0%nat (Nat.le_0_l _)). unfold run_extract.
  destruct (r buf 0%nat) as [[[a c'] p]|e]; [lia|]. by destruct Hr as [-> _].
Qed.
Lemma extract_size_long {A} (r : rd (A * nat)) n c buf :
  extract_size r n c → (n ≤ length buf)%nat → ∃ a, run_extract r buf = Ok (a, c).
Proof.
  intros Hr Hl. specialize (Hr buf 0%nat (Nat.le_0_l _)). unfold run_extract.
  destruct (r buf 0%nat) as [[[a c'] p]|e]; [|lia]. destruct Hr as [-> _]. by exists a.
Qed.

(** * Packets: a header in front of the data *)

Lemma packet_build w hb n k data :
  writes w hb n → length hb = k →
  (run_write w (replicate (k + length data) 0) ≫= λ '(buff, _), memcpy buff k data) = Ok (hb ++ data).
Proof.
  intros Hw <-. rewrite (run_write_fits w hb n) by (done || rewrite length_replicate; lia). cbn.
  rewrite memcpy_ok by (rewrite blit_length; rewrite length_replicate; lia). f_equal.
  rewrite <- (Nat.add_0_l (length hb)) at 2. rewrite blit_blit by (rewrite length_app, length_replicate; lia).
  apply (blit_exact (length (hb ++ data))); [done|]. by rewrite length_app, length_replicate.
Qed.
Lemma packet_parse {A} (r : rd (A * nat)) hb x k data :
  reads r hb x → length hb = k →
  run_extract r (hb ++ data) = Ok x ∧ subvector (hb ++ data) k (length (hb ++ data)) = Ok data.
Proof. intros Hr <-. split; [by apply run_extract_reads|apply subvector_suffix]. Qed.

(** * Automation

    The specifications of the primitives and of the structs' functions are hints of the
    database [wire]; [solve_writes], [solve_reads] and [solve_size] walk along a cursor
    program with them and leave the equation between the byte lists, if any. *)
#[export] Hint Resolve writes_ret writes_put_bytes writes_put8 writes_put16_htons
  writes_put32_htonl | 1 : wire.
#[export] Hint Resolve writes_put16 writes_put32 | 2 : wire.
#[export] Hint Resolve reads_ret reads_get8 reads_ntohs reads_ntohl reads_get_bytes'
  reads_get_bytes | 1 : wire.
#[export] Hint Resolve rd_size_ret rd_size_get8 rd_size_get16 rd_size_get32
  rd_size_get_bytes rd_size_fmap extract_size_ret rd_size_take_in : wire.

Ltac solve_writes :=
  repeat first
    [ eapply writes_bind; [solve [eauto with wire] | cbv beta]
    | solve [eauto with wire] ].
Ltac solve_reads :=
  repeat first
    [ eapply reads_bind; [solve [eauto with wire] | cbv beta]
    | solve [eauto with wire] ].
Ltac solve_size :=
  repeat first
    [ eapply extract_size_bind; [solve [eauto with wire] | intros; cbv beta]
    | eapply rd_size_bind; [solve [eauto with wire] | intros; cbv beta]
    | solve [eauto with wire] ].

(** ** What a reader returns

    [yields r P]: whatever [r] returns from a buffer of bytes satisfies [P]. *)
Definition yields {A} (r : rd A) (P : A → Prop) : Prop :=
  ∀ buf pos a pos', bytes_ok buf → r buf pos = Ok (a, pos') → P a.

Lemma yields_weaken {A} (r : rd A) (P Q : A → Prop) : yields r P → (∀ a, P a → Q a) → yields r Q.
Proof. intros Hr Hpq buf pos a pos' Hb E. eauto. Qed.
Lemma yields_ret {A} (a : A) (P : A → Prop) : P a → yields (mret a) P.
Proof. intros Ha buf pos a' pos' _ [= <- _]. done. Qed.
Lemma yields_bind {A B} (m : rd A) (f : A → rd B) (P : A → Prop) (Q : B → Prop) :
  yields m P → (∀ a, P a → yields (f a) Q) → yields (m ≫= f) Q.
Proof.
  intros Hm Hf buf pos b pos' Hb. unfold mbind, rd_bind. destruct (m buf pos) as [[a p]|] eqn:E; [|done]. intros E'.
  eapply Hf; [by eapply Hm|done|done].
Qed.
Lemma yields_fmap {A B} (f : A → B) (m : rd A) (P : B → Prop) : yields m (λ a, P (f a)) → yields (f <$> m) P.
Proof.
  intros Hm buf pos b pos' Hb. unfold fmap, rd_fmap. destruct (m buf pos) as [[a p]|] eqn:E; [|done]. intros [= <- _]. by eapply Hm.
Qed.
Lemma yields_lift {A} (r : res A) (P : A → Prop) : (∀ a, r = Ok a → P a) → yields (rd_lift r) P.
Proof. intros Hr buf pos a pos' _. unfold rd_lift. destruct r; cbn; [|done]. intros [= <- _]. by apply Hr. Qed.
Lemma yields_fault {A} e (P : A → Prop) : yields (rd_fault e) P.
Proof. by intros buf pos a pos' _. Qed.
Lemma yields_get8 : yields get8 byte_ok.
Proof.
  intros buf pos b pos' Hb. unfold get8. destruct (buf !! pos) eqn:E; [|done]. intros [= <- _]. by eapply Forall_lookup_1.
Qed.
Lemma of_le16_ok b0 b1 : byte_ok b0 → byte_ok b1 → u16_ok (of_le16 b0 b1).
Proof. unfold byte_ok, u16_ok, of_le16. lia. Qed.
Lemma of_le32_ok b0 b1 b2 b3 : byte_ok b0 → byte_ok b1 → byte_ok b2 → byte_ok b3 → u32_ok (of_le32 b0 b1 b2 b3).
Proof. unfold byte_ok, u32_ok, of_le32. lia. Qed.
Lemma yields_get16 : yields get16 u16_ok.
Proof.
  unfold get16. eapply yields_bind; [apply yields_get8|]. intros b0 H0. eapply yields_bind; [apply yields_get8|]. intros b1 H1.
  apply yields_ret. by apply of_le16_ok.
Qed.
Lemma yields_get32 : yields get32 u32_ok.
Proof.
  unfold get32. do 4 (eapply yields_bind; [apply yields_get8|]; intros ? ?). apply yields_ret. by apply of_le32_ok.
Qed.
Lemma yields_ntohs {m : rd Z} : yields (ntohs <$> m) u16_ok.
Proof. apply yields_fmap. intros buf pos a pos' _ _. apply htons_u16. Qed.
Lemma yields_ntohl : yields (ntohl <$> get32) u32_ok.
Proof.
  apply yields_fmap. eapply yields_weaken; [apply yields_get32|]. intros a Ha. unfold ntohl, htonl, u32_ok in *.
  pose proof (Z.mod_pos_bound a 256). pose proof (Z.mod_pos_bound (a `div` 256) 256).
  pose proof (Z.mod_pos_bound (a `div` 65536) 256). pose proof (Z.mod_pos_bound (a `div` 16777216) 256). lia.
Qed.
Lemma yields_get_bytes n : yields (get_bytes n) (λ bs, length bs = n ∧ bytes_ok bs).
Proof.
  induction n as [|n IH]; [by apply yields_ret|]. cbn [get_bytes]. eapply yields_bind; [apply yields_get8|]. intros b Hb.
  eapply yields_bind; [apply IH|]. intros bs [Hl Hbs]. apply yields_ret. split; [by cbn; rewrite Hl|by apply Forall_cons_2].
Qed.
Lemma yields_take_in {A} (r : rd (A * nat)) (P : A → Prop) : yields r (λ x, P (fst x)) → yields (take_in r) P.
Proof.
  intros Hr buf pos a pos' Hb. unfold take_in. destruct (r buf pos) as [[[a' n] p]|] eqn:E; [|done]. intros [= <- _].
  by apply (Hr _ _ _ _ Hb E).
Qed.
Lemma yields_counted {A} (r : rd A) (P : A → Prop) : yields r P → yields (rd_counted r) (λ x, P (fst x)).
Proof.
  intros Hr buf pos a pos' Hb. unfold rd_counted. destruct (r buf pos) as [[a' p]|] eqn:E; [|done]. intros [= <- _].
  by apply (Hr _ _ _ _ Hb E).
Qed.
Lemma run_extract_yields {A} (r : rd (A * nat)) (P : A → Prop) buf x :
  yields r (λ x, P (fst x)) → bytes_ok buf → run_extract r buf = Ok x → P (fst x).
Proof. intros Hr Hb. unfold run_extract. destruct (r buf 0%nat) as [[? ?]|] eqn:E; [|done]. intros [= <-]. by apply (Hr _ _ _ _ Hb E). Qed.
