(* ===== verification/Text.v ===== *)
(** Strings: what the code uses of <string>, <cstdio>, <sstream> and of its own
    [lib/split_str.cpp].  A [std::string] is the list of its bytes. *)

From Stdlib Require Import ZArith Lia.
From Stdlib Require Import String Ascii.
From stdpp Require Import base decidable list numbers sets.
From S2P Require Import Prelude.

(** A string literal as bytes. *)
Fixpoint str (s : string) : list Z :=
  match s with
  | EmptyString => []
  | String c s => Z.of_N (N_of_ascii c) :: str s
  end.
Arguments str s%_string.

(** * Characters *)

Definition is_space (c : Z) : bool := (c =? 32) || ((9 <=? c) && (c <=? 13)).
Definition digit_val (base c : Z) : option Z :=
  let d := if (48 <=? c) && (c <=? 57) then c - 48
           else if (97 <=? c) && (c <=? 122) then c - 87
           else if (65 <=? c) && (c <=? 90) then c - 55
           else base in
  if d <? base then Some d else None.
Definition digit_char (d : Z) : Z := if d <? 10 then 48 + d else 87 + d.

(** * Numbers in text *)

(** The digits of [strtoul] and of the scanf conversions. *)
Fixpoint scan_num (base : Z) (s : list Z) (acc : Z) : Z * list Z :=
  match s with
  | c :: r => match digit_val base c with
              | Some d => scan_num base r (acc * base + d)
              | None => (acc, s)
              end
  | [] => (acc, [])
  end.

Fixpoint skip_spaces (s : list Z) : list Z :=
  match s with
  | c :: r => if is_space c then skip_spaces r else s
  | [] => []
  end.

(** An optional sign: is it a minus, and the rest. *)
Definition scan_sign (s : list Z) : bool * list Z :=
  match s with
  | c :: r => if c =? 45 then (true, r) else if c =? 43 then (false, r) else (false, s)
  | [] => (false, [])
  end.

(** The optional [0x] that base 16 accepts, when a hexadecimal digit follows. *)
Definition skip_0x (s : list Z) : list Z :=
  match s with
  | z :: x :: d :: r =>
      if (z =? 48) && ((x =? 120) || (x =? 88)) && bool_decide (is_Some (digit_val 16 d))
      then d :: r else s
  | _ => s
  end.

Definition starts_digit (base : Z) (s : list Z) : bool :=
  match s with c :: _ => bool_decide (is_Some (digit_val base c)) | [] => false end.

(** [std::stoul(s, nullptr, 16)]: throws when there is no number or it exceeds
    [unsigned long]; a minus sign negates modulo 2^64. *)
Definition stoul16 (s : list Z) : res Z :=
  let '(neg, s) := scan_sign (skip_spaces s) in
  let s := skip_0x s in
  if starts_digit 16 s then
    let v := fst (scan_num 16 s 0) in
    if 2 ^ 64 <=? v then Fault Thrown else Ok (if neg then u64 (- v) else v)
  else Fault Thrown.

(** [std::stoi(s)]. *)
Definition stoi (s : list Z) : res Z :=
  let '(neg, s) := scan_sign (skip_spaces s) in
  if starts_digit 10 s then
    let v := fst (scan_num 10 s 0) in
    let v := if neg then - v else v in
    if (- 2 ^ 31 <=? v) && (v <? 2 ^ 31) then Ok v else Fault Thrown
  else Fault Thrown.

(** The scanf conversion [%u]: [None] when it does not match; a value that does not
    fit [unsigned int] is undefined behaviour. *)
Definition scan_u (s : list Z) : option (res Z * list Z) :=
  let '(neg, s) := scan_sign (skip_spaces s) in
  if starts_digit 10 s then
    let '(v, r) := scan_num 10 s 0 in
    Some (if 2 ^ 32 <=? v then Fault BadConversion else Ok (u32 (if neg then - v else v)), r)
  else None.

(** The digits of a non-negative number: [std::to_string] and [std::hex]. *)
Fixpoint print_num (fuel : nat) (base n : Z) (acc : list Z) : list Z :=
  match fuel with
  | O => acc
  | S fuel =>
      let acc := digit_char (n `mod` base) :: acc in
      if n `div` base =? 0 then acc else print_num fuel base (n `div` base) acc
  end.
Definition to_string (n : Z) : list Z := print_num 10 10 n [].
Definition hex_string (n : Z) : list Z := print_num 8 16 n [].
(** [%02x]. *)
Definition hex2 (n : Z) : list Z :=
  let h := hex_string n in if (List.length h <? 2)%nat then 48 :: h else h.

(** * Substrings *)

Fixpoint starts_with (p s : list Z) : bool :=
  match p, s with
  | [], _ => true
  | a :: p, b :: s => (a =? b) && starts_with p s
  | _, [] => false
  end.

(** [s.find(p)], [npos] as [None]. *)
Fixpoint find_sub (p s : list Z) : option nat :=
  if starts_with p s then Some O
  else match s with
       | [] => None
       | _ :: s => S <$> find_sub p s
       end.

(** [s.substr(pos, n)] throws past the end. *)
Definition substr (s : list Z) (pos n : nat) : res (list Z) :=
  if (List.length s <? pos)%nat then Fault Thrown else Ok (take n (drop pos s)).

(** [std::stringstream] over a string: the rest still to read while the stream is good,
    [None] once a read met the end.  [getline] erases and fills its string only
    when the stream is good. *)
Definition stream : Type := option (list Z).
Fixpoint find_char (c : Z) (s : list Z) : option nat :=
  match s with
  | [] => None
  | d :: s => if d =? c then Some O else S <$> find_char c s
  end.
Definition getline (ss : stream) (old : list Z) (delim : Z) : list Z * stream :=
  match ss with
  | None => (old, None)
  | Some s => match find_char delim s with
              | Some i => (take i s, Some (drop (S i) s))
              | None => (s, None)
              end
  end.
(** [ss >> word]. *)
Fixpoint word_prefix (s : list Z) : list Z :=
  match s with
  | c :: s => if is_space c then [] else c :: word_prefix s
  | [] => []
  end.
Definition read_word (ss : stream) (old : list Z) : list Z * stream :=
  match ss with
  | None => (old, None)
  | Some s =>
      let s := skip_spaces s in
      if (List.length s =? 0)%nat then (old, None)
      else
        let w := word_prefix s in
        let r := drop (List.length w) s in
        (w, if (List.length r =? 0)%nat then None else Some r)
  end.

(** [(char* ) v.data()] as a string: up to the first NUL, past the end when there is none. *)
Fixpoint c_string (v : list Z) : res (list Z) :=
  match v with
  | [] => Fault OutOfBounds
  | c :: v => if c =? 0 then Ok [] else s ← c_string v; Ok (c :: s)
  end.

(** * lib/split_str.cpp

    The loop removes each token with its delimiter from [str]; it runs once per
    delimiter found, so [length str] iterations are enough for a non-empty one. *)
Fixpoint split_str_loop (fuel : nat) (s delimiter : list Z) (tokens : list (list Z)) : res (list (list Z)) :=
  match fuel with
  | O => Fault OutOfFuel
  | S fuel =>
      match find_sub delimiter s with
      | Some pos =>
          split_str_loop fuel (drop (pos + List.length delimiter) s) delimiter (tokens ++ [take pos s])
      | None => Ok (tokens ++ [s])
      end
  end.
Definition split_str (s delimiter : list Z) : res (list (list Z)) :=
  split_str_loop (S (List.length s)) s delimiter [].

(** Joining tokens with a delimiter, the inverse of [split_str]. *)
Fixpoint join (delimiter : list Z) (tokens : list (list Z)) : list Z :=
  match tokens with
  | [] => []
  | [t] => t
  | t :: ts => t ++ delimiter ++ join delimiter ts
  end.

(** * Lemmas *)

Lemma starts_with_app p s : starts_with p (p ++ s) = true.
Proof. induction p as [|a p IH]; [done|]. simpl. by rewrite Z.eqb_refl. Qed.

Lemma digit_val_char base d : 2 ≤ base ≤ 16 → 0 ≤ d < base → digit_val base (digit_char d) = Some d.
Proof.
  intros Hb Hd. unfold digit_char, digit_val.
  destruct (Z.ltb_spec d 10).
  - replace (48 <=? 48 + d) with true by (symmetry; apply Z.leb_le; lia).
    replace (48 + d <=? 57) with true by (symmetry; apply Z.leb_le; lia).
    simpl. replace (48 + d - 48) with d by lia.
    by replace (d <? base) with true by (symmetry; apply Z.ltb_lt; lia).
  - replace (87 + d <=? 57) with false by (symmetry; apply Z.leb_gt; lia).
    rewrite andb_false_r.
    replace (97 <=? 87 + d) with true by (symmetry; apply Z.leb_le; lia).
    replace (87 + d <=? 122) with true by (symmetry; apply Z.leb_le; lia).
    simpl. replace (87 + d - 87) with d by lia.
    by replace (d <? base) with true by (symmetry; apply Z.ltb_lt; lia).
Qed.

(** The digits of a printed number: what [print_num] puts in front of [acc]. *)
Definition digits_of (base n : Z) (ds : list Z) : Prop :=
  ds ≠ [] ∧ Forall (λ c, is_Some (digit_val base c)) ds ∧
  ∀ a rest, scan_num base (ds ++ rest) a
    = scan_num base rest (a * base ^ Z.of_nat (List.length ds) + n).

Lemma digits_of_one base d : 2 ≤ base ≤ 16 → 0 ≤ d < base → digits_of base d [digit_char d].
Proof.
  intros Hb Hd. assert (E := digit_val_char base d Hb Hd). split; [done|]. split.
  - apply Forall_cons_2; [|apply Forall_nil_2]. by rewrite E.
  - intros a rest. simpl. rewrite E. f_equal. lia.
Qed.

Lemma digits_of_snoc base q r ds :
  2 ≤ base ≤ 16 → 0 ≤ r < base → digits_of base q ds →
  digits_of base (q * base + r) (ds ++ [digit_char r]).
Proof.
  intros Hb Hr (Hn & Hd & Hs).
  destruct (digits_of_one base r Hb Hr) as (_ & Hd1 & Hs1). split; [by destruct ds|]. split.
  - by apply Forall_app_2.
  - intros a rest. rewrite <- app_assoc, Hs, Hs1, length_app. simpl. f_equal.
    rewrite Nat2Z.inj_add, Z.pow_add_r by lia. change (Z.of_nat 1) with 1.
    rewrite Z.pow_1_r. lia.
Qed.

Lemma print_num_digits base fuel n acc :
  2 ≤ base ≤ 16 → (0 < fuel)%nat → 0 ≤ n < base ^ Z.of_nat fuel →
  ∃ ds, print_num fuel base n acc = ds ++ acc ∧ digits_of base n ds.
Proof.
  intros Hb. revert n acc. induction fuel as [|fuel IH]; intros n acc Hf Hn; [lia|].
  cbn [print_num].
  assert (Hr : 0 ≤ n `mod` base < base) by (apply Z.mod_pos_bound; lia).
  assert (Hq : 0 ≤ n `div` base) by (apply Z.div_pos; lia).
  assert (Hdiv : n = n `div` base * base + n `mod` base) by (rewrite Z.mul_comm; apply Z.div_mod; lia).
  destruct (Z.eqb_spec (n `div` base) 0) as [E|E].
  - exists [digit_char (n `mod` base)]. split; [done|].
    replace n with (n `mod` base) at 1 by lia. by apply digits_of_one.
  - rewrite Nat2Z.inj_succ, Z.pow_succ_r in Hn by lia.
    assert (Hlt : n `div` base < base ^ Z.of_nat fuel) by (apply Z.div_lt_upper_bound; lia).
    destruct fuel as [|fuel]; [simpl in Hlt; lia|].
    destruct (IH (n `div` base) (digit_char (n `mod` base) :: acc)) as (ds & -> & Hds); [lia|lia|].
    exists (ds ++ [digit_char (n `mod` base)]). split; [by rewrite <- app_assoc|].
    rewrite Hdiv at 1. by apply digits_of_snoc.
Qed.

Lemma to_string_digits n : 0 ≤ n < 2 ^ 32 → digits_of 10 n (to_string n).
Proof.
  intros Hn. unfold to_string.
  destruct (print_num_digits 10 10 n []) as (ds & -> & H); [lia|lia| |by rewrite app_nil_r].
  change (10 ^ Z.of_nat 10) with 10000000000. lia.
Qed.
Lemma hex_string_digits n : 0 ≤ n < 2 ^ 32 → digits_of 16 n (hex_string n).
Proof.
  intros Hn. unfold hex_string.
  destruct (print_num_digits 16 8 n []) as (ds & -> & H); [lia|lia| |by rewrite app_nil_r].
  change (16 ^ Z.of_nat 8) with 4294967296. lia.
Qed.

(** Scanning printed digits stops at the first character that is not a digit. *)
Lemma scan_digits_of base n ds rest :
  digits_of base n ds → starts_digit base rest = false → scan_num base (ds ++ rest) 0 = (n, rest).
Proof.
  intros (_ & _ & Hs) Hr. rewrite Hs, Z.mul_0_l, Z.add_0_l.
  destruct rest as [|c rest]; [done|]. simpl in *.
  destruct (digit_val base c); [|done]. by rewrite bool_decide_true in Hr by eauto.
Qed.

(** A digit is neither a space nor a sign. *)
Lemma digit_val_range base c : is_Some (digit_val base c) → 48 ≤ c ≤ 122.
Proof.
  intros [d Hd]. unfold digit_val in Hd.
  destruct (Z.leb_spec 48 c), (Z.leb_spec c 57), (Z.leb_spec 97 c), (Z.leb_spec c 122),
    (Z.leb_spec 65 c), (Z.leb_spec c 90); simpl in Hd; try lia; by rewrite Z.ltb_irrefl in Hd.
Qed.
Lemma digit_not_sign base c :
  is_Some (digit_val base c) → is_space c = false ∧ c ≠ 45 ∧ c ≠ 43 ∧ c ≠ 46.
Proof.
  intros H%digit_val_range. unfold is_space. split; [|lia].
  rewrite (proj2 (Z.eqb_neq c 32)), (proj2 (Z.leb_gt c 13)) by lia. apply andb_false_r.
Qed.

Lemma digits_prefix base n ds rest :
  digits_of base n ds →
  scan_sign (skip_spaces (ds ++ rest)) = (false, ds ++ rest) ∧ starts_digit base (ds ++ rest) = true.
Proof.
  intros (Hn & Hd & _). destruct ds as [|c ds]; [done|].
  pose proof (Forall_inv Hd) as Hc.
  destruct (digit_not_sign base c Hc) as (Hs & H1 & H2 & _). simpl. rewrite Hs. simpl.
  rewrite (proj2 (Z.eqb_neq _ _) H1), (proj2 (Z.eqb_neq _ _) H2). split; [done|].
  by apply bool_decide_true.
Qed.

Lemma scan_u_to_string n rest :
  0 ≤ n < 2 ^ 32 → starts_digit 10 rest = false →
  scan_u (to_string n ++ rest) = Some (Ok n, rest).
Proof.
  intros Hn Hr. pose proof (to_string_digits n Hn) as Hd. unfold scan_u.
  destruct (digits_prefix 10 n _ rest Hd) as [-> ->].
  rewrite (scan_digits_of 10 n _ rest Hd Hr).
  destruct (Z.leb_spec (2 ^ 32) n); [lia|]. rewrite u32_small; [done|]. unfold u32_ok. lia.
Qed.

Lemma stoi_to_string n : 0 ≤ n < 2 ^ 31 → stoi (to_string n) = Ok n.
Proof.
  intros Hn. pose proof (to_string_digits n ltac:(lia)) as Hd. unfold stoi.
  destruct (digits_prefix 10 n _ [] Hd) as [Hp Hs]. rewrite app_nil_r in Hp, Hs. rewrite Hp, Hs.
  pose proof (scan_digits_of 10 n _ [] Hd eq_refl) as Hv. rewrite app_nil_r in Hv. rewrite Hv.
  cbn [fst]. rewrite (proj2 (Z.leb_le _ _)), (proj2 (Z.ltb_lt _ _)) by lia. done.
Qed.
Lemma substr_ok s pos n : (pos ≤ List.length s)%nat → substr s pos n = Ok (take n (drop pos s)).
Proof. intros. unfold substr. by rewrite (proj2 (Nat.ltb_ge _ _)) by done. Qed.
Lemma find_char_skip c a b : c ∉ a → find_char c (a ++ c :: b) = Some (List.length a).
Proof.
  induction a as [|x a IH]; intros Hc; [simpl; by rewrite Z.eqb_refl|].
  apply not_elem_of_cons in Hc as [Hne Hc]. cbn [app find_char].
  rewrite (proj2 (Z.eqb_neq x c)) by done. by rewrite (IH Hc).
Qed.
Lemma to_string_chars n : 0 ≤ n < 2 ^ 32 → Forall (λ c, 48 ≤ c ≤ 122) (to_string n).
Proof.
  intros Hn. destruct (to_string_digits n Hn) as (_ & Hd & _).
  eapply Forall_impl; [exact Hd|]. intros c. apply digit_val_range.
Qed.
Lemma join_cons d t ts : join d (t :: ts) = t ++ concat ((λ t, d ++ t) <$> ts).
Proof.
  revert t. induction ts as [|t' ts IH]; intros t; [simpl; by rewrite app_nil_r|].
  change (join d (t :: t' :: ts)) with (t ++ d ++ join d (t' :: ts)). rewrite IH. simpl. by rewrite !app_assoc.
Qed.
Lemma join_forall (P : Z → Prop) d ts : Forall P d → Forall (Forall P) ts → Forall P (join d ts).
Proof.
  intros Hd Hts. induction Hts as [|t ts Ht Hts IH]; [apply Forall_nil_2|].
  destruct ts as [|t' ts]; [done|]. change (Forall P (t ++ d ++ join d (t' :: ts))).
  by repeat apply Forall_app_2.
Qed.

(** Two digits of [%02x] read back by [stoul] in base 16. *)
Definition is_hex (c : Z) : bool := bool_decide (is_Some (digit_val 16 c)).
Lemma hex2_spec b :
  byte_ok b → ∃ c d, hex2 b = [c; d] ∧ is_hex c = true ∧ is_hex d = true ∧ stoul16 [c; d] = Ok b
    ∧ c ≠ 58 ∧ d ≠ 58 ∧ is_space c = false ∧ is_space d = false.
Proof.
  intros Hb.
  pose (f b := match hex2 b with
               | [c; d] => is_hex c && is_hex d && bool_decide (stoul16 [c; d] = Ok b)
                           && negb (c =? 58) && negb (d =? 58) && negb (is_space c) && negb (is_space d)
               | _ => false
               end).
  assert (Hf : f b = true) by by apply (byte_forall f).
  unfold f in Hf. destruct (hex2 b) as [|c [|d [|]]]; try done.
  repeat (apply andb_prop in Hf as [Hf ?]). exists c, d.
  repeat split; try done; try (by apply negb_true_iff); try (by apply Z.eqb_neq, negb_true_iff).
  by eapply bool_decide_eq_true_1.
Qed.

(** [split_str] inverts [join] when no token contains the delimiter's first byte. *)
Lemma find_sub_here p s : starts_with p s = true → find_sub p s = Some O.
Proof. destruct s; simpl; by intros ->. Qed.
Lemma find_sub_skip c d t s :
  c ∉ t → find_sub (c :: d) (t ++ (c :: d) ++ s) = Some (List.length t).
Proof.
  induction t as [|a t IH]; intros Hc.
  - apply find_sub_here, (starts_with_app (c :: d)).
  - assert (c ≠ a ∧ c ∉ t) as [Hca Hct] by set_solver.
    change (find_sub (c :: d) (a :: (t ++ (c :: d) ++ s)) = Some (S (List.length t))).
    cbn [find_sub starts_with]. rewrite (proj2 (Z.eqb_neq _ _) Hca). cbn [andb].
    change (c :: d ++ s) with ((c :: d) ++ s). by rewrite IH.
Qed.
Lemma find_sub_none c d t : c ∉ t → find_sub (c :: d) t = None.
Proof.
  induction t as [|a t IH]; intros Hc; [done|].
  assert (c ≠ a ∧ c ∉ t) as [Hca Hct] by set_solver.
  cbn [find_sub starts_with]. rewrite (proj2 (Z.eqb_neq _ _) Hca). cbn [andb]. by rewrite IH.
Qed.

(** The same when the second byte of the delimiter differs from the first and is not in
    the token, as for [" ; "] in texts with spaces. *)
Lemma find_sub_skip2 c e d t s :
  c ≠ e → e ∉ t → find_sub (c :: e :: d) (t ++ (c :: e :: d) ++ s) = Some (List.length t).
Proof.
  intros Hce. induction t as [|a t IH]; intros Ht.
  - apply find_sub_here, (starts_with_app (c :: e :: d)).
  - assert (e ∉ t) as Het by set_solver.
    change (find_sub (c :: e :: d) (a :: (t ++ (c :: e :: d) ++ s)) = Some (S (List.length t))).
    cbn [find_sub]. replace (starts_with (c :: e :: d) (a :: t ++ (c :: e :: d) ++ s)) with false.
    { by rewrite IH. }
    cbn [starts_with]. destruct (c =? a); [|done]. cbn [andb]. destruct t as [|b t]; cbn [app starts_with].
    + by rewrite (proj2 (Z.eqb_neq e c)).
    + rewrite (proj2 (Z.eqb_neq e b)) by set_solver. done.
Qed.
Lemma find_sub_none2 c e d t : e ∉ t → find_sub (c :: e :: d) t = None.
Proof.
  induction t as [|a t IH]; intros Ht; [done|]. assert (e ∉ t) as Het by set_solver.
  cbn [find_sub]. replace (starts_with (c :: e :: d) (a :: t)) with false; [by rewrite IH|].
  cbn [starts_with]. destruct (c =? a); [|done]. cbn [andb]. destruct t as [|b t]; [done|].
  cbn [starts_with]. by rewrite (proj2 (Z.eqb_neq e b)) by set_solver.
Qed.

(** A token that [split_str] finds whole in front of the delimiter. *)
Definition clean_token (d t : list Z) : Prop :=
  (∀ s, find_sub d (t ++ d ++ s) = Some (List.length t)) ∧ find_sub d t = None.
Lemma clean_first c d t : c ∉ t → clean_token (c :: d) t.
Proof. intros H. split; [intros s; by apply find_sub_skip|by apply find_sub_none]. Qed.
Lemma clean_second c e d t : c ≠ e → e ∉ t → clean_token (c :: e :: d) t.
Proof. intros H Ht. split; [intros s; by apply find_sub_skip2|by apply find_sub_none2]. Qed.

Lemma split_str_loop_join d ts acc fuel :
  d ≠ [] → ts ≠ [] → Forall (clean_token d) ts → (List.length (join d ts) < fuel)%nat →
  split_str_loop fuel (join d ts) d acc = Ok (acc ++ ts).
Proof.
  intros Hd. revert acc fuel. induction ts as [|t ts IH]; [done|]. intros acc fuel _ Hts Hf.
  apply Forall_cons_1 in Hts as [[Ht1 Ht2] Hts]. destruct fuel as [|fuel]; [lia|].
  destruct ts as [|t' ts].
  - cbn [split_str_loop join]. by rewrite Ht2.
  - change (join d (t :: t' :: ts)) with (t ++ d ++ join d (t' :: ts)) in *.
    cbn [split_str_loop]. rewrite Ht1.
    rewrite drop_app_ge, drop_app_length' by lia.
    rewrite take_app_length. rewrite IH; [by rewrite <- app_assoc|done|done|].
    rewrite !length_app in Hf. destruct d; [done|]. simpl in Hf |- *. lia.
Qed.

Lemma split_str_join d ts :
  d ≠ [] → ts ≠ [] → Forall (clean_token d) ts → split_str (join d ts) d = Ok ts.
Proof. intros. apply split_str_loop_join; [done|done|done|lia]. Qed.

(** ** NUL-terminated strings *)

Lemma c_string_ok n rest : Forall (λ c, c ≠ 0) n → c_string (n ++ 0 :: rest) = Ok n.
Proof.
  induction 1 as [|c n Hc Hn IH]; [done|]. cbn [app c_string]. rewrite (proj2 (Z.eqb_neq c 0)) by done.
  by rewrite IH.
Qed.
(** The text before the first NUL. *)
Fixpoint until_nul (v : list Z) : list Z :=
  match v with [] => [] | c :: v => if c =? 0 then [] else c :: until_nul v end.
Lemma c_string_until v rest : c_string (v ++ 0 :: rest) = Ok (until_nul v).
Proof. induction v as [|c v IH]; [done|]. cbn [app c_string until_nul]. destruct (c =? 0); [done|]. by rewrite IH. Qed.
