(* ===== verification/VarLen.v ===== *)
(** Variable-length encodings: [lib/var_len_encoding.h], [lib/var_len_encoding.cpp] and
    their twins in [src/utils/udata.h].  Byte strings of any length are written with the
    escape byte 0x00 doubled and the two bytes 0x00,0x01 as the end mark; numbers in groups of seven
    bits, lowest first, the top bit of a byte telling that another follows. *)

From Stdlib Require Import ZArith Lia.
From stdpp Require Import base decidable list numbers.
From S2P Require Import Prelude Cursor.

Definition ENCODE_ESCAPE_BYTE : Z := 0.
Definition ENCODE_DELIMITER : Z := 1.

(** * Byte strings *)

(** The loop over [src_data], then the end mark; [total_bytes] is the count returned. *)
Fixpoint encode_escaped (src_data : list Z) (total_bytes : nat) : wr nat :=
  match src_data with
  | b :: src_data =>
      if b =? ENCODE_ESCAPE_BYTE then
        put8 ENCODE_ESCAPE_BYTE;; put8 b;; encode_escaped src_data (total_bytes + 2)
      else
        put8 b;; encode_escaped src_data (total_bytes + 1)
  | [] =>
      put8 ENCODE_ESCAPE_BYTE;; put8 ENCODE_DELIMITER;; mret (total_bytes + 2)%nat
  end.

Definition var_len_encode_bytes (src_data : list Z) : wr nat := encode_escaped src_data 0.
Definition encode_data (src_data : list Z) : wr nat := encode_escaped src_data 0.

(** The decoding loop.  Every iteration reads a byte further, so as many iterations
    as there are bytes left in the buffer, and one, are enough. *)
Fixpoint decode_escaped (fuel : nat) (dest_data : list Z) (total_bytes : nat) : rd (list Z * nat) :=
  match fuel with
  | O => rd_fault OutOfFuel
  | S fuel =>
      b ← get8;
      if b =? ENCODE_ESCAPE_BYTE then
        c ← get8;
        if c =? ENCODE_DELIMITER then mret (dest_data, (total_bytes + 2)%nat)
        else decode_escaped fuel (dest_data ++ [c]) (total_bytes + 2)
      else decode_escaped fuel (dest_data ++ [b]) (total_bytes + 1)
  end.

Definition var_len_decode_bytes : rd (list Z * nat) :=
  λ buf pos, decode_escaped (S (length buf - pos)) [] 0 buf pos.
Definition decode_data : rd (list Z * nat) :=
  λ buf pos, decode_escaped (S (length buf - pos)) [] 0 buf pos.

(** * Numbers *)

(** [~((uint8_t) 0) ^ (((uint8_t) 1) << 7)], computed in [int]: the bits but the seventh. *)
Definition low_seven_mask : Z := Z.lxor (Z.lnot 0) (Z.shiftl 1 7).

(** A conversion to [int]. *)
Definition s32 (z : Z) : Z := (z + 2 ^ 31) `mod` 2 ^ 32 - 2 ^ 31.

(** [NUM_TYPE] is an unsigned type of at most 64 bits: ten groups are enough. *)
Fixpoint encode_num_loop (fuel : nat) (num : Z) (cnt : nat) : wr nat :=
  match fuel with
  | O => wr_fault OutOfFuel
  | S fuel =>
      if num =? 0 then mret cnt
      else
        let next_byte := u8 (Z.lor 0 (Z.land num low_seven_mask)) in
        let num := Z.shiftr num 7 in
        let next_byte := if negb (num =? 0) then Z.lor next_byte (Z.shiftl 1 7) else next_byte in
        put8 next_byte;; encode_num_loop fuel num (cnt + 1)
  end.
Definition var_len_encode_num (num : Z) : wr nat :=
  if num =? 0 then put8 0;; mret 1%nat else encode_num_loop 11 num 0.
Definition encode_number (num : Z) : wr nat :=
  if num =? 0 then put8 0;; mret 1%nat else encode_num_loop 11 num 0.

(** [next_bits << bits_cnt] is a shift of an [int]: undefined from 32 on, which the
    sixth iteration reaches.  [w] is the width of [NUM_TYPE]. *)
Fixpoint decode_num_loop (fuel : nat) (w res_num : Z) (res_cnt : nat) (bits_cnt : Z) : rd (Z * nat) :=
  match fuel with
  | O => rd_fault OutOfFuel
  | S fuel =>
      b ← get8;
      let next_bits := u8 (Z.land b low_seven_mask) in
      if 32 <=? bits_cnt then rd_fault BadShift
      else
        let res_num := Z.lor res_num (s32 (Z.shiftl next_bits bits_cnt) `mod` 2 ^ w) in
        let has_next := negb (Z.land b (Z.shiftl 1 7) =? 0) in
        if has_next then decode_num_loop fuel w res_num (res_cnt + 1) (bits_cnt + 7)
        else mret (res_num, (res_cnt + 1)%nat)
  end.
Definition var_len_decode_num (w : Z) : rd (Z * nat) :=
  b ← peek8;
  if b =? 0 then mret (0, 1%nat) else decode_num_loop 6 w 0 0 0.
Definition decode_number (w : Z) : rd (Z * nat) :=
  b ← peek8;
  if b =? 0 then mret (0, 1%nat) else decode_num_loop 6 w 0 0 0.

(** * The encoded bytes *)

Fixpoint escaped (bs : list Z) : list Z :=
  match bs with
  | b :: bs => if b =? 0 then 0 :: b :: escaped bs else b :: escaped bs
  | [] => [0; 1]
  end.
Abbreviation var_len_bytes := escaped.

Lemma escaped_bytes_ok bs : bytes_ok bs → bytes_ok (escaped bs).
Proof.
  induction 1 as [|b bs Hb Hbs IH]; simpl; [solve_bytes|].
  case_match; repeat (apply Forall_cons_2; [solve_bytes|]); done.
Qed.
Lemma escaped_length bs : (length bs + 2 ≤ length (escaped bs) ≤ 2 * length bs + 2)%nat.
Proof. induction bs as [|b bs IH]; simpl; [lia|]. case_match; simpl; lia. Qed.

(** No end mark inside: the encoding is prefix-free, so a decoder needs no length. *)
Lemma escaped_prefix_free a b p q : escaped a ++ p = escaped b ++ q → a = b.
Proof.
  revert b. induction a as [|x a IH]; intros [|y b]; simpl; [done| | |].
  - destruct (Z.eqb_spec y 0) as [->|]; simpl; congruence.
  - destruct (Z.eqb_spec x 0) as [->|]; simpl; congruence.
  - destruct (Z.eqb_spec x 0) as [->|], (Z.eqb_spec y 0) as [->|]; simpl; intros E; simplify_eq;
      f_equal; by apply IH.
Qed.

Lemma writes_encode_escaped bs n :
  bytes_ok bs → writes (encode_escaped bs n) (escaped bs) (n + length (escaped bs))%nat.
Proof.
  intros Hbs. revert n. induction Hbs as [|b bs Hb Hbs IH]; intros n; simpl.
  - eapply writes_cast; [solve_writes|done|simpl; lia].
  - unfold ENCODE_ESCAPE_BYTE. destruct (Z.eqb_spec b 0) as [->|_]; simpl.
    + eapply writes_cast; [solve_writes|done|simpl; lia].
    + eapply writes_cast; [solve_writes|by rewrite u8_small|simpl; lia].
Qed.

Lemma decode_escaped_spec bs pre post dest n fuel :
  (length (escaped bs) ≤ fuel)%nat →
  decode_escaped fuel dest n (pre ++ escaped bs ++ post) (length pre)
  = Ok ((dest ++ bs, (n + length (escaped bs))%nat), (length pre + length (escaped bs))%nat).
Proof.
  revert pre dest n fuel. induction bs as [|b bs IH]; intros pre dest n fuel Hf;
    (destruct fuel as [|fuel]; [exfalso; revert Hf; simpl; repeat case_match; simpl; lia|]);
    cbn [decode_escaped escaped] in *; unfold ENCODE_ESCAPE_BYTE.
  - cbn [app]. rewrite get8_step. cbn [Z.eqb]. rewrite get8_step. cbn.
    rewrite app_nil_r, !length_app. unfold mret, rd_ret. simpl. f_equal. apply pair_equal_spec; split; [apply pair_equal_spec; split|]; (done || lia).
  - destruct (Z.eqb_spec b 0) as [->|Hb]; cbn [app length] in *; rewrite get8_step; cbn [Z.eqb].
    + rewrite get8_step. cbn [Z.eqb ENCODE_DELIMITER]. rewrite IH by lia.
      rewrite <- !app_assoc, !length_app. simpl. f_equal. apply pair_equal_spec; split; [apply pair_equal_spec; split|]; (done || lia).
    + rewrite (proj2 (Z.eqb_neq b 0) Hb). rewrite IH by lia.
      rewrite <- !app_assoc, !length_app. simpl. f_equal. apply pair_equal_spec; split; [apply pair_equal_spec; split|]; (done || lia).
Qed.

(** The loop ends within its fuel, whatever the buffer holds. *)
Lemma decode_escaped_total fuel buf pos dest n :
  (length buf - pos < fuel)%nat →
  match decode_escaped fuel dest n buf pos with Ok _ => True | Fault e => e = OutOfBounds end.
Proof.
  revert pos dest n. induction fuel as [|fuel IH]; intros pos dest n Hf; [lia|].
  cbn [decode_escaped]. unfold mbind, rd_bind, get8.
  destruct (buf !! pos) as [b|] eqn:E; [|done]. apply lookup_lt_Some in E.
  destruct (b =? ENCODE_ESCAPE_BYTE); [|apply IH; lia].
  destruct (buf !! S pos) as [c|] eqn:E2; [|done]. apply lookup_lt_Some in E2.
  destruct (c =? ENCODE_DELIMITER); [done|apply IH; lia].
Qed.

Lemma writes_var_len bs :
  bytes_ok bs → writes (var_len_encode_bytes bs) (var_len_bytes bs) (length (var_len_bytes bs)).
Proof. apply (writes_encode_escaped bs 0). Qed.
Lemma reads_var_len bs : reads var_len_decode_bytes (var_len_bytes bs) (bs, length (var_len_bytes bs)).
Proof.
  intros pre post. unfold var_len_decode_bytes.
  rewrite decode_escaped_spec; [done|]. rewrite !length_app. lia.
Qed.
#[export] Hint Resolve writes_var_len reads_var_len : wire.

(** * The number codec *)

Definition low7 (n : Z) : Z := n `mod` 128.

(** The groups of [num], lowest first, with the continuation bits. *)
Fixpoint num_groups (fuel : nat) (num : Z) : list Z :=
  match fuel with
  | O => []
  | S fuel =>
      if num `div` 128 =? 0 then [low7 num] else (low7 num + 128) :: num_groups fuel (num `div` 128)
  end.

Lemma low_seven_land n : u8 (Z.land n low_seven_mask) = low7 n.
Proof.
  unfold u8, low7. rewrite <- Z.land_ones by lia. rewrite <- Z.land_assoc.
  change (Z.land low_seven_mask (Z.ones 8)) with (Z.ones 7).
  by rewrite Z.land_ones by lia.
Qed.
Lemma low7_range n : 0 ≤ low7 n < 128.
Proof. apply Z.mod_pos_bound. lia. Qed.

Lemma low7_small l : 0 ≤ l < 128 → low7 l = l.
Proof. apply Z.mod_small. Qed.
Lemma low7_continued l : 0 ≤ l < 128 → low7 (l + 128) = l.
Proof. intros. unfold low7. Z.div_mod_to_equations; lia. Qed.

(** Setting a bit above a number is adding it. *)
Lemma lor_disjoint a b k : 0 ≤ k → 0 ≤ a < 2 ^ k → Z.lor a (b * 2 ^ k) = a + b * 2 ^ k.
Proof.
  intros Hk Ha. rewrite <- Z.shiftl_mul_pow2 by lia. symmetry. apply Z.add_nocarry_lor.
  apply Z.bits_inj_iff'. intros i Hi. rewrite Z.land_spec, Z.bits_0.
  destruct (Z.ltb_spec i k).
  - rewrite Z.shiftl_spec_low by lia. apply andb_false_r.
  - rewrite <- (Z.mod_small a (2 ^ k)) by lia. by rewrite Z.mod_pow2_bits_high by lia.
Qed.

Lemma div128_num num : Z.shiftr num 7 = num `div` 128.
Proof. by rewrite Z.shiftr_div_pow2 by lia. Qed.

Lemma writes_num_loop fuel num cnt :
  0 < num < 2 ^ (7 * Z.of_nat fuel) →
  writes (encode_num_loop (S fuel) num cnt) (num_groups fuel num)
    (cnt + length (num_groups fuel num))%nat.
Proof.
  revert num cnt. induction fuel as [|fuel IH]; intros num cnt Hn; [simpl in Hn; lia|].
  remember (S fuel) as f'. cbn [encode_num_loop]. subst f'.
  rewrite (proj2 (Z.eqb_neq num 0)) by lia.
  rewrite div128_num, Z.lor_0_l, low_seven_land. cbn [num_groups].
  pose proof (low7_range num) as Hl.
  destruct (Z.eqb_spec (num `div` 128) 0) as [E|E]; cbn [negb].
  - eapply writes_cast; [eapply writes_bind; [apply writes_put8|]| |].
    + cbn [encode_num_loop]. rewrite E. apply writes_ret.
    + simpl. rewrite u8_small by solve_bytes. done.
    + simpl. lia.
  - replace (Z.lor (low7 num) (Z.shiftl 1 7)) with (low7 num + 128).
    2: { rewrite <- (lor_disjoint _ 1 7) by lia. done. }
    eapply writes_cast; [eapply writes_bind; [apply writes_put8|apply IH]| |].
    + split; [assert (0 <= num `div` 128) by (apply Z.div_pos; lia); lia|].
      apply Z.div_lt_upper_bound; [lia|].
      replace (7 * Z.of_nat (S fuel)) with (7 + 7 * Z.of_nat fuel) in Hn by lia.
      rewrite Z.pow_add_r in Hn by lia. lia.
    + simpl. rewrite u8_small by solve_bytes. done.
    + simpl. lia.
Qed.

(** [var_len_encode_num] writes the groups of any 64-bit number. *)
Definition num_bytes (num : Z) : list Z := num_groups 10 num.
Lemma writes_var_len_num num :
  0 ≤ num < 2 ^ 64 → writes (var_len_encode_num num) (num_bytes num) (length (num_bytes num)).
Proof.
  intros Hn. unfold var_len_encode_num. destruct (Z.eqb_spec num 0) as [->|H0].
  - eapply writes_cast; [solve_writes|done|done].
  - apply (writes_num_loop 10 num 0). split; [lia|]. apply Z.lt_le_trans with (2 ^ 64); [lia|].
    by compute.
Qed.

Lemma continuation_bit b :
  byte_ok b → negb (Z.land b (Z.shiftl 1 7) =? 0) = (128 <=? b).
Proof.
  intros Hb. apply eqb_prop.
  by apply (byte_forall (λ b, eqb (negb (Z.land b (Z.shiftl 1 7) =? 0)) (128 <=? b))).
Qed.
Lemma s32_mod z w : 0 ≤ w ≤ 32 → s32 z `mod` 2 ^ w = z `mod` 2 ^ w.
Proof.
  intros Hw. unfold s32.
  replace ((z + 2 ^ 31) `mod` 2 ^ 32 - 2 ^ 31)
    with (z + (- ((z + 2 ^ 31) `div` 2 ^ 32) * 2 ^ (32 - w)) * 2 ^ w).
  - apply Z.mod_add. apply Z.pow_nonzero; lia.
  - rewrite <- Z.mul_assoc, <- Z.pow_add_r by lia. replace (32 - w + w) with 32 by lia.
    pose proof (Z.div_mod (z + 2 ^ 31) (2 ^ 32)). lia.
Qed.

(** One group: its bits join the accumulator. *)
Lemma join_group w acc l bits :
  0 ≤ bits → w ≤ 32 → 0 ≤ acc < 2 ^ bits → 0 ≤ l → l * 2 ^ bits < 2 ^ w →
  Z.lor acc (s32 (Z.shiftl l bits) `mod` 2 ^ w) = acc + l * 2 ^ bits.
Proof.
  intros Hb Hw Ha Hl Hlt. assert (0 < 2 ^ bits) by lia.
  destruct (Z.ltb_spec w 0); [rewrite (Z.pow_neg_r 2 w) in Hlt by lia; nia|].
  rewrite s32_mod, Z.shiftl_mul_pow2, Z.mod_small by nia. by apply lor_disjoint.
Qed.

(** Decoding group by group: after [bits / 7] groups the accumulator holds the low
    [bits] bits. *)
Lemma decode_num_groups k fuel w num acc cnt bits pre post :
  0 ≤ bits → w ≤ 32 → 0 ≤ acc < 2 ^ bits → 0 < num → acc + num * 2 ^ bits < 2 ^ w →
  num < 2 ^ (7 * Z.of_nat k) → num < 2 ^ (7 * Z.of_nat fuel) →
  decode_num_loop fuel w acc cnt bits (pre ++ num_groups k num ++ post) (length pre)
  = Ok (acc + num * 2 ^ bits, (cnt + length (num_groups k num))%nat,
        (length pre + length (num_groups k num))%nat).
Proof.
  revert fuel num acc cnt bits pre.
  induction k as [|k IH]; intros fuel num acc cnt bits pre Hb Hw Ha Hn Hlt Hk Hf; [simpl in Hk; lia|].
  destruct fuel as [|fuel]; [simpl in Hf; lia|].
  pose proof (low7_range num) as Hl. cbn [decode_num_loop num_groups].
  assert (Hdiv : num = num `div` 128 * 128 + low7 num) by (unfold low7; Z.div_mod_to_equations; lia).
  assert (Hq : 0 ≤ num `div` 128) by (apply Z.div_pos; lia).
  assert (Hbw : bits < 32).
  { apply (Z.pow_lt_mono_r_iff 2); [lia|lia|]. assert (2 ^ w ≤ 2 ^ 32) by (apply Z.pow_le_mono_r; lia). nia. }
  assert (Hj : Z.lor acc (s32 (Z.shiftl (low7 num) bits) `mod` 2 ^ w) = acc + low7 num * 2 ^ bits)
    by (apply join_group; [lia..|nia]).
  destruct (Z.eqb_spec (num `div` 128) 0) as [E|E]; cbn [app length]; rewrite get8_step.
  - rewrite low_seven_land, continuation_bit by solve_bytes.
    rewrite (low7_small (low7 num)) by done.
    rewrite (proj2 (Z.leb_gt 32 bits) Hbw), (proj2 (Z.leb_gt 128 _)), Hj by lia.
    unfold mret, rd_ret. rewrite length_app, E in *. f_equal. f_equal. f_equal. lia.
  - rewrite low_seven_land, continuation_bit by solve_bytes.
    rewrite (low7_continued (low7 num)) by done.
    rewrite (proj2 (Z.leb_gt 32 bits) Hbw), (proj2 (Z.leb_le 128 _)), Hj by lia.
    assert (Hp : 2 ^ (bits + 7) = 2 ^ bits * 128) by by rewrite Z.pow_add_r by lia.
    rewrite !Nat2Z.inj_succ, !Z.mul_succ_r, !Z.pow_add_r in Hk, Hf by lia.
    rewrite IH; rewrite ?Hp; [|nia..].
    rewrite length_app. f_equal. f_equal; [f_equal; [nia|lia]|simpl; lia].
Qed.

Lemma num_groups_head k num post :
  0 < num < 2 ^ (7 * Z.of_nat k) → ∃ b rest, num_groups k num ++ post = b :: rest ∧ b ≠ 0.
Proof.
  intros Hn. destruct k as [|k]; [simpl in Hn; lia|]. cbn [num_groups].
  pose proof (low7_range num). case_match eqn:E; [|eexists _, _; split; [done|lia]].
  eexists _, _. split; [done|]. apply Z.eqb_eq in E. unfold low7. Z.div_mod_to_equations; lia.
Qed.

(** The final position of the callee's own pointer is not observable. *)
Lemma decode_num_bytes w num pre post :
  0 ≤ w ≤ 32 → 0 ≤ num < 2 ^ w →
  ∃ p, var_len_decode_num w (pre ++ num_bytes num ++ post) (length pre)
    = Ok (num, length (num_bytes num), p).
Proof.
  intros Hw Hn. destruct (Z.eqb_spec num 0) as [->|H0].
  { unfold var_len_decode_num, mbind, rd_bind, peek8. change (num_bytes 0) with [0].
    cbn [app]. rewrite list_lookup_middle by done. by eexists. }
  assert (2 ^ w ≤ 2 ^ 32) by (apply Z.pow_le_mono_r; lia).
  destruct (num_groups_head 10 num post) as (b & rest & Hg & Hb0); [split; [lia|simpl; lia]|].
  pose proof (decode_num_groups 10 6 w num 0 0 0 pre post) as Hd.
  unfold var_len_decode_num, num_bytes in *. unfold mbind, rd_bind, peek8.
  rewrite Hg in Hd |- *. rewrite list_lookup_middle by done. rewrite (proj2 (Z.eqb_neq b 0) Hb0).
  rewrite Hd by (simpl; lia). eexists. by rewrite Z.mul_1_r.
Qed.

(** Past 35 bits the decoder shifts an [int] by 35: the sixth group is undefined behaviour. *)
Lemma decode_num_sixth j k w num acc cnt pre post :
  2 ^ (7 * Z.of_nat j) ≤ num < 2 ^ (7 * Z.of_nat k) → (j ≤ 5)%nat →
  decode_num_loop (S j) w acc cnt (7 * (5 - Z.of_nat j)) (pre ++ num_groups k num ++ post) (length pre)
  = Fault BadShift.
Proof.
  revert k num acc cnt pre. induction j as [|j IH]; intros k num acc cnt pre [Hn Hk] Hj.
  - destruct k as [|k]; [simpl in Hk; lia|]. cbn [decode_num_loop num_groups].
    destruct (num `div` 128 =? 0); cbn [app]; by rewrite get8_step.
  - destruct k as [|k]; [assert (0 < 2 ^ (7 * Z.of_nat (S j))) by lia; simpl in Hk; lia|].
    remember (S j) as j'. cbn [decode_num_loop num_groups]. subst j'.
    pose proof (low7_range num) as Hl.
    rewrite !Nat2Z.inj_succ, !Z.mul_succ_r, !Z.pow_add_r in Hn, Hk by lia.
    assert (2 ^ (7 * Z.of_nat j) ≤ num `div` 128) by (apply Z.div_le_lower_bound; lia).
    rewrite (proj2 (Z.eqb_neq _ 0)) by lia.
    cbn [app]. rewrite get8_step, continuation_bit by solve_bytes.
    rewrite (proj2 (Z.leb_gt 32 _)), (proj2 (Z.leb_le 128 _)) by lia.
    replace (7 * (5 - Z.of_nat (S j)) + 7) with (7 * (5 - Z.of_nat j)) by lia.
    apply IH; [|lia]. split; [done|]. apply Z.div_lt_upper_bound; lia.
Qed.

(** * Properties *)

(** Decoding the encoding of any number of an unsigned type of at most 32 bits, wherever
    it stands in a buffer, gives the number back and the number of bytes the encoder wrote. *)
Theorem var_len_num_roundtrip (w num : Z) (pre post buf : list Z) :
  0 ≤ w ≤ 32 → 0 ≤ num < 2 ^ w → (length (num_bytes num) ≤ length buf)%nat →
  ∃ buf' n p, run_write (var_len_encode_num num) buf = Ok (buf', n) ∧
    var_len_decode_num w (pre ++ buf' ++ post) (length pre) = Ok (num, n, p).
Proof.
  intros Hw Hn Hb. assert (2 ^ w ≤ 2 ^ 64) by (apply Z.pow_le_mono_r; lia).
  rewrite (run_write_fits _ _ _ _ (writes_var_len_num num ltac:(lia)) Hb).
  rewrite blit_prefix by done.
  destruct (decode_num_bytes w num pre (drop (length (num_bytes num)) buf ++ post)) as [p Hp]; [done..|].
  eexists _, _, p. split; [done|]. by rewrite <- app_assoc.
Qed.
Lemma var_len_num_roundtrip_witness :
  ∃ buf' n p, run_write (var_len_encode_num 4294967295) (replicate 8 0) = Ok (buf', n) ∧
    var_len_decode_num 32 ([7] ++ buf' ++ [9]) 1%nat = Ok (4294967295, n, p).
Proof. apply (var_len_num_roundtrip 32 4294967295 [7] [9]); [lia|lia|simpl; lia]. Defined.

(** A 64-bit number from [2^35] on is encoded, but decoding the encoding reaches
    the undefined shift of an [int] by 35. *)
Theorem var_len_num_wide_fault (w num : Z) (pre post : list Z) :
  2 ^ 35 ≤ num < 2 ^ 64 →
  run_write (var_len_encode_num num) (num_bytes num) = Ok (num_bytes num, length (num_bytes num)) ∧
  var_len_decode_num w (pre ++ num_bytes num ++ post) (length pre) = Fault BadShift.
Proof.
  intros Hn. split.
  - rewrite (run_write_fits _ _ _ _ (writes_var_len_num num ltac:(lia)) (Nat.le_refl _)).
    by rewrite (blit_exact (length (num_bytes num))).
  - unfold num_bytes. destruct (num_groups_head 10 num post) as (b & rest & Hg & Hb0); [split; [lia|simpl; lia]|].
    pose proof (decode_num_sixth 5 10 w num 0 0 pre post) as Hd.
    unfold var_len_decode_num, mbind, rd_bind, peek8.
    rewrite Hg in Hd |- *. rewrite list_lookup_middle by done. rewrite (proj2 (Z.eqb_neq b 0) Hb0).
    change (7 * (5 - Z.of_nat 5)) with 0 in Hd. rewrite Hd; [done| |done]. simpl. lia.
Qed.
Lemma var_len_num_wide_fault_witness :
  run_write (var_len_encode_num (2 ^ 35)) (num_bytes (2 ^ 35))
    = Ok (num_bytes (2 ^ 35), length (num_bytes (2 ^ 35))) ∧
  var_len_decode_num 64 ([] ++ num_bytes (2 ^ 35) ++ [1]) 0%nat = Fault BadShift.
Proof. apply (var_len_num_wide_fault 64 (2 ^ 35) [] [1]). lia. Defined.

(** Byte strings of any length round-trip: the encoder stores an encoding that the decoder,
    started at it in any buffer, reads back exactly, returning the same count. *)
Theorem var_len_bytes_roundtrip (bs pre post buf : list Z) :
  bytes_ok bs → (2 * length bs + 2 ≤ length buf)%nat →
  ∃ buf' n, run_write (var_len_encode_bytes bs) buf = Ok (buf', n) ∧
    (length bs + 2 ≤ n ≤ 2 * length bs + 2)%nat ∧
    var_len_decode_bytes (pre ++ buf' ++ post) (length pre) = Ok (bs, n, (length pre + n)%nat).
Proof.
  intros Hbs Hl. pose proof (escaped_length bs) as Hn.
  rewrite (run_write_fits _ _ _ _ (writes_var_len bs Hbs)) by lia.
  rewrite blit_prefix by lia. eexists _, _. split; [done|]. split; [lia|].
  rewrite <- app_assoc. apply reads_var_len.
Qed.
Lemma var_len_bytes_roundtrip_witness :
  ∃ buf' n, run_write (var_len_encode_bytes [0; 1; 0]) (replicate 8 9) = Ok (buf', n) ∧
    (length [0%Z; 1%Z; 0%Z] + 2 ≤ n ≤ 2 * length [0%Z; 1%Z; 0%Z] + 2)%nat ∧
    var_len_decode_bytes ([5] ++ buf' ++ [6]) 1%nat = Ok ([0; 1; 0], n, (1 + n)%nat).
Proof. apply (var_len_bytes_roundtrip [0; 1; 0] [5] [6]); [by repeat constructor|simpl; lia]. Defined.

(** The byte decoder stops on every buffer: with a value, or at a read past the end
    when there is no end mark; it never runs out of the fuel the model gives it. *)
Theorem var_len_decode_total (buf : list Z) (pos : nat) :
  match var_len_decode_bytes buf pos with Ok _ => True | Fault e => e = OutOfBounds end.
Proof. apply decode_escaped_total. lia. Qed.
