(* ===== verification/CircularQueue.v ===== *)
(** The fixed-size circular queue of [src/utils/circular_queue.h] and its client
    [recv_queue] of [src/abstract/receiving/recv_queue.h].

    [BoundedQueue] is what the queue promises to its clients: it behaves as a list of at
    most [q_capacity] elements.  [circular_queue_bounded] is the refinement theorem that
    the array with its base and count implements it.  Indices are an [int] in the code and integers here: they agree up to a
    capacity of 2^30. *)

From Stdlib Require Import ZArith Lia.
From stdpp Require Import base decidable list numbers.
From S2P Require Import Prelude.

(** * The promise to the clients *)

Class BoundedQueue (Q T : Type) := {
  q_capacity : nat;
  q_repr : Q → list T → Prop;
  q_empty : Q → bool;
  q_full : Q → bool;
  q_front : Q → option T;
  q_push_back : T → Q → bool * Q;
  q_pop_front : Q → bool * Q;
  q_repr_fun q xs ys : q_repr q xs → q_repr q ys → xs = ys;
  q_bound q xs : q_repr q xs → (length xs ≤ q_capacity)%nat;
  q_empty_spec q xs : q_repr q xs → q_empty q = bool_decide (xs = []);
  q_full_spec q xs : q_repr q xs → q_full q = bool_decide (length xs = q_capacity);
  q_front_spec q xs : q_repr q xs → q_front q = head xs;
  q_push_back_spec q xs x : q_repr q xs →
    q_push_back x q = (bool_decide (length xs < q_capacity)%nat, snd (q_push_back x q)) ∧
    q_repr (snd (q_push_back x q)) (if bool_decide (length xs < q_capacity)%nat then xs ++ [x] else xs);
  q_pop_front_spec q xs : q_repr q xs →
    q_pop_front q = (bool_decide (xs ≠ []), snd (q_pop_front q)) ∧
    q_repr (snd (q_pop_front q)) (tail xs)
}.

(** * The array implementation *)

Record circular_queue (T : Type) := CircularQueue {
  buff : list T;
  base_in : Z;
  count : Z
}.
Arguments CircularQueue {_} _ _ _.
Arguments buff {_} _.
Arguments base_in {_} _.
Arguments count {_} _.

Section circular.
Context {T : Type} (BUFF_SZ : Z).

(** A fresh queue over the array as it was constructed. *)
Definition new_queue (arr : list T) : circular_queue T := CircularQueue arr 0 0.

Definition is_empty (q : circular_queue T) : bool := count q =? 0.
Definition is_full (q : circular_queue T) : bool := count q =? BUFF_SZ.

(** The index of the last element. *)
Definition rear_index (q : circular_queue T) : Z := Z.rem (base_in q + count q - 1) BUFF_SZ.

(** The waiting loops of [front] and [rear].  While the queue is empty the thread polls;
    an observation is the queue as another thread left it at the check, with the clock
    read after the check.  [None]: the observations end while it still waits;
    [Some None] is [nullptr], [Some (Some i)] the address [&buff[i]]. *)
Fixpoint wait_loop {TIME : Type} (expired : TIME → bool) (found : circular_queue T → Z)
    (obs : list (circular_queue T * TIME)) : option (option Z) :=
  match obs with
  | [] => None
  | (q, now) :: obs =>
      if is_empty q then if expired now then Some None else wait_loop expired found obs
      else Some (Some (found q))
  end.
Definition front (timeout start : Z) (q : circular_queue T) (obs : list (circular_queue T * Z)) :
    option (option Z) :=
  if negb (is_empty q) then Some (Some (base_in q))
  else wait_loop (λ curr, timeout <? curr - start) base_in obs.
Definition rear (timeout start : Z) (q : circular_queue T) (obs : list (circular_queue T * Z)) :
    option (option Z) :=
  if negb (is_empty q) then Some (Some (rear_index q))
  else wait_loop (λ curr, timeout <? curr - start) rear_index obs.

Definition pop_front (q : circular_queue T) : bool * circular_queue T :=
  if is_empty q then (false, q)
  else (true, CircularQueue (buff q) (Z.rem (base_in q + 1) BUFF_SZ) (count q - 1)).

Definition pop_back (q : circular_queue T) : bool * circular_queue T :=
  if is_empty q then (false, q)
  else (true, CircularQueue (buff q) (base_in q) (count q - 1)).

Definition clear (q : circular_queue T) : circular_queue T :=
  CircularQueue (buff q) (base_in q) 0.

Definition push_back (val : T) (q : circular_queue T) : bool * circular_queue T :=
  if is_full q then (false, q)
  else (true, CircularQueue (<[Z.to_nat (Z.rem (base_in q + count q) BUFF_SZ) := val]> (buff q))
                (base_in q) (count q + 1)).

Definition push_front (val : T) (q : circular_queue T) : bool * circular_queue T :=
  if is_full q then (false, q)
  else
    let base_in' := Z.rem (base_in q - 1 + BUFF_SZ) BUFF_SZ in
    (true, CircularQueue (<[Z.to_nat base_in' := val]> (buff q)) base_in' (count q + 1)).

(** ** The list a queue stands for *)

(** The slot of the [i]-th element. *)
Definition slot (q : circular_queue T) (i : nat) : nat :=
  Z.to_nat ((base_in q + Z.of_nat i) `mod` BUFF_SZ).

Record queue_repr (q : circular_queue T) (xs : list T) : Prop := {
  repr_size : Z.of_nat (length (buff q)) = BUFF_SZ;
  repr_base : 0 ≤ base_in q < BUFF_SZ;
  repr_count : count q = Z.of_nat (length xs);
  repr_bound : count q ≤ BUFF_SZ;
  repr_slots : ∀ i, (i < length xs)%nat → buff q !! slot q i = xs !! i
}.

Lemma repr_new arr : 0 < BUFF_SZ → Z.of_nat (length arr) = BUFF_SZ → queue_repr (new_queue arr) [].
Proof. intros. split; simpl; try lia. Qed.

Lemma repr_is_empty q xs : queue_repr q xs → is_empty q = bool_decide (xs = []).
Proof.
  intros H. unfold is_empty. rewrite (repr_count _ _ H).
  destruct xs; [done|]. rewrite bool_decide_false by done. simpl. lia.
Qed.
Lemma repr_is_full q xs :
  queue_repr q xs → is_full q = bool_decide (length xs = Z.to_nat BUFF_SZ).
Proof.
  intros H. unfold is_full. rewrite (repr_count _ _ H). pose proof (repr_base _ _ H).
  case_bool_decide; [apply Z.eqb_eq|apply Z.eqb_neq]; lia.
Qed.

Lemma slot_lt q xs i : queue_repr q xs → (slot q i < length (buff q))%nat.
Proof.
  intros H. pose proof (repr_base _ _ H). pose proof (repr_size _ _ H). unfold slot.
  pose proof (Z.mod_pos_bound (base_in q + Z.of_nat i) BUFF_SZ). lia.
Qed.
(** Different positions below the capacity use different slots. *)
Lemma slot_inj q xs i j :
  queue_repr q xs → (i < j)%nat → Z.of_nat j < BUFF_SZ + Z.of_nat i → slot q i ≠ slot q j.
Proof.
  intros H Hij Hj E. pose proof (repr_base _ _ H). unfold slot in E.
  assert (Hm : (base_in q + Z.of_nat i) `mod` BUFF_SZ = (base_in q + Z.of_nat j) `mod` BUFF_SZ).
  { pose proof (Z.mod_pos_bound (base_in q + Z.of_nat i) BUFF_SZ).
    pose proof (Z.mod_pos_bound (base_in q + Z.of_nat j) BUFF_SZ). lia. }
  pose proof (Z.div_mod (base_in q + Z.of_nat i) BUFF_SZ ltac:(lia)) as E1.
  pose proof (Z.div_mod (base_in q + Z.of_nat j) BUFF_SZ ltac:(lia)) as E2. rewrite Hm in E1.
  set (d := (base_in q + Z.of_nat j) `div` BUFF_SZ - (base_in q + Z.of_nat i) `div` BUFF_SZ).
  assert (BUFF_SZ * d = Z.of_nat j - Z.of_nat i) by (unfold d; lia).
  destruct (Z.le_gt_cases d 0); nia.
Qed.

Lemma repr_unique q xs ys : queue_repr q xs → queue_repr q ys → xs = ys.
Proof.
  intros Hx Hy. pose proof (repr_count _ _ Hx). pose proof (repr_count _ _ Hy).
  apply list_eq. intros i. destruct (decide (i < length xs)%nat).
  - rewrite <- (repr_slots _ _ Hx), <- (repr_slots _ _ Hy) by lia. done.
  - rewrite !lookup_ge_None_2 by lia. done.
Qed.

Lemma repr_head q xs :
  queue_repr q xs → (if is_empty q then None else buff q !! Z.to_nat (base_in q)) = head xs.
Proof.
  intros H. rewrite (repr_is_empty q xs H). destruct xs as [|x xs]; [done|].
  rewrite bool_decide_false by done. pose proof (repr_slots _ _ H 0%nat ltac:(simpl; lia)) as Hs.
  unfold slot in Hs. pose proof (repr_base _ _ H).
  rewrite Z.add_0_r, Z.mod_small in Hs by lia. exact Hs.
Qed.

Lemma repr_last q xs :
  queue_repr q xs → (if is_empty q then None else buff q !! Z.to_nat (rear_index q)) = list.last xs.
Proof.
  intros H. rewrite (repr_is_empty q xs H).
  destruct (decide (xs = [])) as [->|Hne]; [done|]. rewrite bool_decide_false by done.
  assert (length xs ≠ 0)%nat by by destruct xs.
  rewrite last_lookup, <- (repr_slots _ _ H) by lia. f_equal.
  unfold rear_index, slot. pose proof (repr_base _ _ H). pose proof (repr_count _ _ H).
  rewrite Z.rem_mod_nonneg by lia.
  by replace (base_in q + count q - 1) with (base_in q + Z.of_nat (Nat.pred (length xs))) by lia.
Qed.

Lemma repr_push_back q xs x :
  queue_repr q xs → (length xs < Z.to_nat BUFF_SZ)%nat →
  fst (push_back x q) = true ∧ queue_repr (snd (push_back x q)) (xs ++ [x]).
Proof.
  intros H Hl. pose proof (repr_base _ _ H). pose proof (repr_count _ _ H) as Hc.
  unfold push_back. rewrite (repr_is_full q xs H), bool_decide_false by lia.
  split; [done|]. split; cbn [snd buff base_in count].
  - rewrite length_insert. apply H.
  - done.
  - rewrite length_app. simpl. lia.
  - lia.
  - intros i Hi. rewrite length_app in Hi. simpl in Hi.
    rewrite Z.rem_mod_nonneg, Hc by lia. fold (slot q (length xs)).
    change (slot _ i) with (slot q i).
    destruct (decide (i = length xs)) as [->|].
    + rewrite list_lookup_insert by by eapply slot_lt.
      rewrite decide_True by (split; [done|by eapply slot_lt]). by rewrite list_lookup_middle.
    + rewrite lookup_app_l by lia. rewrite list_lookup_insert_ne; [by apply H; lia|].
      apply not_eq_sym, (slot_inj q xs); [done|lia|lia].
Qed.

Lemma repr_push_front q xs x :
  queue_repr q xs → (length xs < Z.to_nat BUFF_SZ)%nat →
  fst (push_front x q) = true ∧ queue_repr (snd (push_front x q)) (x :: xs).
Proof.
  intros H Hl. pose proof (repr_base _ _ H). pose proof (repr_count _ _ H) as Hc.
  unfold push_front. rewrite (repr_is_full q xs H), bool_decide_false by lia.
  rewrite Z.rem_mod_nonneg by lia. set (b := (base_in q - 1 + BUFF_SZ) `mod` BUFF_SZ).
  assert (Hb : 0 ≤ b < BUFF_SZ) by (apply Z.mod_pos_bound; lia).
  assert (Hslot : ∀ i, slot q i = Z.to_nat ((b + Z.of_nat (S i)) `mod` BUFF_SZ)).
  { intros i. unfold slot, b. f_equal. rewrite Zplus_mod_idemp_l.
    replace (base_in q - 1 + BUFF_SZ + Z.of_nat (S i))
      with (base_in q + Z.of_nat i + 1 * BUFF_SZ) by lia. by rewrite Z.mod_add by lia. }
  split; [done|]. split; cbn [snd buff base_in count].
  - rewrite length_insert. apply H.
  - done.
  - simpl. lia.
  - lia.
  - intros i Hi. unfold slot; cbn [base_in].
    destruct i as [|i].
    + rewrite Z.add_0_r, Z.mod_small by lia. apply list_lookup_insert_eq.
      pose proof (repr_size _ _ H). lia.
    + rewrite <- Hslot. rewrite list_lookup_insert_ne.
      { simpl in *. apply (repr_slots _ _ H). lia. }
      rewrite Hslot. simpl in Hi.
      replace b with ((b + Z.of_nat 0) `mod` BUFF_SZ) at 1 by (rewrite Z.add_0_r; apply Z.mod_small; lia).
      apply (slot_inj (CircularQueue (<[0%nat := x]> (buff q)) b 0) []); [|lia|lia].
      split; cbn; [rewrite length_insert; apply H|done|done|lia|lia].
Qed.

Lemma repr_pop_front q x xs :
  queue_repr q (x :: xs) → fst (pop_front q) = true ∧ queue_repr (snd (pop_front q)) xs.
Proof.
  intros H. pose proof (repr_base _ _ H). pose proof (repr_count _ _ H) as Hc. simpl in Hc.
  unfold pop_front. rewrite (repr_is_empty q _ H), bool_decide_false by done.
  pose proof (repr_bound _ _ H).
  split; [done|]. split; cbn [snd buff base_in count].
  - apply H.
  - rewrite Z.rem_mod_nonneg by lia. apply Z.mod_pos_bound. lia.
  - lia.
  - lia.
  - intros i Hi. pose proof (repr_slots _ _ H (S i) ltac:(simpl; lia)) as Hs. simpl in Hs.
    rewrite <- Hs. unfold slot; cbn [base_in]. rewrite Z.rem_mod_nonneg, Zplus_mod_idemp_l by lia.
    do 3 f_equal. lia.
Qed.

Lemma repr_pop_back q xs x :
  queue_repr q (xs ++ [x]) → fst (pop_back q) = true ∧ queue_repr (snd (pop_back q)) xs.
Proof.
  intros H. pose proof (repr_base _ _ H). pose proof (repr_count _ _ H) as Hc.
  pose proof (repr_bound _ _ H). rewrite length_app in Hc. simpl in Hc.
  unfold pop_back. rewrite (repr_is_empty q _ H), bool_decide_false by by destruct xs.
  split; [done|]. split; cbn [snd buff base_in count].
  - apply H.
  - done.
  - lia.
  - lia.
  - intros i Hi. pose proof (repr_slots _ _ H i) as Hs. rewrite length_app in Hs.
    rewrite lookup_app_l in Hs by lia. apply Hs. simpl. lia.
Qed.

Lemma repr_clear q xs : queue_repr q xs → queue_repr (clear q) [].
Proof. intros H. pose proof (repr_base _ _ H). split; simpl; try apply H; lia. Qed.

Lemma repr_pop_empty q :
  queue_repr q [] → pop_front q = (false, q) ∧ pop_back q = (false, q).
Proof. intros H. unfold pop_front, pop_back. by rewrite (repr_is_empty q [] H). Qed.
Lemma repr_push_full q xs x :
  queue_repr q xs → length xs = Z.to_nat BUFF_SZ →
  push_back x q = (false, q) ∧ push_front x q = (false, q).
Proof.
  intros H Hl. unfold push_back, push_front. rewrite (repr_is_full q xs H).
  by rewrite bool_decide_true.
Qed.

(** ** The operations as steps *)

Inductive queue_op : Type :=
  | PushBack (x : T) | PushFront (x : T) | PopFront | PopBack | Clear.

(** One call: what it returns, and the queue after it. *)
Definition queue_step (q : circular_queue T) (o : queue_op) : bool * circular_queue T :=
  match o with
  | PushBack x => push_back x q
  | PushFront x => push_front x q
  | PopFront => pop_front q
  | PopBack => pop_back q
  | Clear => (true, clear q)
  end.
(** The specification: a list of at most [BUFF_SZ] elements. *)
Definition list_step (xs : list T) (o : queue_op) : bool * list T :=
  let room := bool_decide (length xs < Z.to_nat BUFF_SZ)%nat in
  match o with
  | PushBack x => (room, if room then xs ++ [x] else xs)
  | PushFront x => (room, if room then x :: xs else xs)
  | PopFront => (bool_decide (xs ≠ []), tail xs)
  | PopBack => (bool_decide (xs ≠ []), removelast xs)
  | Clear => (true, [])
  end.

Lemma queue_step_refines q xs o :
  queue_repr q xs →
  fst (queue_step q o) = fst (list_step xs o) ∧ queue_repr (snd (queue_step q o)) (snd (list_step xs o)).
Proof.
  intros H. pose proof (repr_bound _ _ H). pose proof (repr_count _ _ H).
  destruct o as [x|x| | |]; cbn [queue_step list_step fst snd].
  - destruct (decide (length xs < Z.to_nat BUFF_SZ)%nat).
    + rewrite bool_decide_true by done. by apply repr_push_back.
    + rewrite bool_decide_false by done. destruct (repr_push_full q xs x H) as [-> _]; [lia|done].
  - destruct (decide (length xs < Z.to_nat BUFF_SZ)%nat).
    + rewrite bool_decide_true by done. by apply repr_push_front.
    + rewrite bool_decide_false by done. destruct (repr_push_full q xs x H) as [_ ->]; [lia|done].
  - destruct xs as [|x xs]; [destruct (repr_pop_empty q H) as [-> _]; done|].
    rewrite bool_decide_true by done. by apply (repr_pop_front _ x).
  - destruct (decide (xs = [])) as [->|Hne]; [destruct (repr_pop_empty q H) as [_ ->]; done|].
    rewrite bool_decide_true by done. destruct (exists_last Hne) as (xs' & x & ->).
    rewrite removelast_last. by apply (repr_pop_back _ _ x).
  - split; [done|by eapply repr_clear].
Qed.

(** Running a sequence of calls: the results, and the final state. *)
Fixpoint run_ops {S : Type} (step : S → queue_op → bool * S) (s : S) (ops : list queue_op) : list bool * S :=
  match ops with
  | [] => ([], s)
  | o :: ops =>
      let '(b, s') := step s o in
      let '(bs, s'') := run_ops step s' ops in (b :: bs, s'')
  end.

Lemma run_ops_refines ops q xs :
  queue_repr q xs →
  fst (run_ops queue_step q ops) = fst (run_ops list_step xs ops) ∧
  queue_repr (snd (run_ops queue_step q ops)) (snd (run_ops list_step xs ops)).
Proof.
  revert q xs. induction ops as [|o ops IH]; intros q xs H; [done|]. cbn [run_ops].
  destruct (queue_step_refines q xs o H) as [Hb Hr].
  destruct (queue_step q o) as [b q'], (list_step xs o) as [b' xs']. cbn [fst snd] in *. subst b'.
  destruct (IH q' xs' Hr) as [Hb' Hr'].
  destruct (run_ops queue_step q' ops), (run_ops list_step xs' ops). cbn [fst snd] in *. by subst.
Qed.
End circular.

Arguments queue_repr {T} _ _ _.
Arguments PushBack {T} _.
Arguments PushFront {T} _.
Arguments PopFront {T}.
Arguments PopBack {T}.
Arguments Clear {T}.

(** * The array implements the promise *)

Section bounded.
Context {T : Type} (BUFF_SZ : Z).

(** What the clients do with the result of [front]: dereference it when not null. *)
Definition front_value (q : circular_queue T) : option T :=
  if is_empty q then None else buff q !! Z.to_nat (base_in q).

#[local] Lemma push_law (q : circular_queue T) (xs : list T) (x : T) :
  queue_repr BUFF_SZ q xs →
  push_back BUFF_SZ x q
    = (bool_decide (length xs < Z.to_nat BUFF_SZ)%nat, snd (push_back BUFF_SZ x q)) ∧
  queue_repr BUFF_SZ (snd (push_back BUFF_SZ x q))
    (if bool_decide (length xs < Z.to_nat BUFF_SZ)%nat then xs ++ [x] else xs).
Proof.
  intros H. destruct (queue_step_refines BUFF_SZ q xs (PushBack x) H) as [Hb Hr].
  cbn [queue_step list_step fst snd] in *. split; [|done]. rewrite <- Hb. apply surjective_pairing.
Qed.
#[local] Lemma pop_law (q : circular_queue T) (xs : list T) :
  queue_repr BUFF_SZ q xs →
  pop_front BUFF_SZ q = (bool_decide (xs ≠ []), snd (pop_front BUFF_SZ q)) ∧
  queue_repr BUFF_SZ (snd (pop_front BUFF_SZ q)) (tail xs).
Proof.
  intros H. destruct (queue_step_refines BUFF_SZ q xs PopFront H) as [Hb Hr].
  cbn [queue_step list_step fst snd] in *. split; [|done]. rewrite <- Hb. apply surjective_pairing.
Qed.
#[local] Lemma bound_law (q : circular_queue T) (xs : list T) : queue_repr BUFF_SZ q xs → (length xs ≤ Z.to_nat BUFF_SZ)%nat.
Proof. intros H. pose proof (repr_bound _ _ _ H). pose proof (repr_count _ _ _ H). lia. Qed.

Definition circular_bounded : BoundedQueue (circular_queue T) T := {|
  q_capacity := Z.to_nat BUFF_SZ;
  q_repr := queue_repr BUFF_SZ;
  q_empty := is_empty;
  q_full := is_full BUFF_SZ;
  q_front := front_value;
  q_push_back := push_back BUFF_SZ;
  q_pop_front := pop_front BUFF_SZ;
  q_repr_fun := repr_unique BUFF_SZ;
  q_bound := bound_law;
  q_empty_spec := repr_is_empty BUFF_SZ;
  q_full_spec := repr_is_full BUFF_SZ;
  q_front_spec := repr_head BUFF_SZ;
  q_push_back_spec := push_law;
  q_pop_front_spec := pop_law
|}.
End bounded.

(** The default capacity. *)
#[export] Instance circular_queue_bounded {T} : BoundedQueue (circular_queue T) T := circular_bounded 2000.

(** * recv_queue *)

Section recv_queue.
Context {Q T : Type} `{!BoundedQueue Q T}.

(** [recv_queue::handle_recv] ignores the result of [push_back]. *)
Definition recv_queue_handle_recv (queue : Q) (data : T) : Q := snd (q_push_back data queue).

Lemma recv_queue_repr queue xs msgs :
  q_repr queue xs →
  q_repr (foldl recv_queue_handle_recv queue msgs) (xs ++ take (q_capacity - length xs) msgs).
Proof.
  revert queue xs. induction msgs as [|m msgs IH]; intros queue xs H.
  - by rewrite take_nil, app_nil_r.
  - cbn [foldl]. destruct (q_push_back_spec queue xs m H) as [_ Hr]. pose proof (q_bound _ _ H).
    unfold recv_queue_handle_recv at 2. case_bool_decide.
    + specialize (IH _ _ Hr). rewrite <- app_assoc, length_app in IH.
      replace (q_capacity - length xs)%nat with (S (q_capacity - (length xs + 1))) by lia. apply IH.
    + specialize (IH _ _ Hr). by replace (q_capacity - length xs)%nat with 0%nat in * by lia.
Qed.
End recv_queue.

(** * Properties *)

(** C22: the array with its base and count behaves as a list of at most [BUFF_SZ] elements
    under every sequence of calls to push_back, push_front, pop_front, pop_back and clear: the same
    results, full and empty cases included, and a state that stands for the same list. *)
Theorem circular_queue_refines_list {T} (BUFF_SZ : Z) (arr : list T) (ops : list (@queue_op T)) :
  0 < BUFF_SZ → Z.of_nat (length arr) = BUFF_SZ →
  let '(rs, q) := run_ops (queue_step BUFF_SZ) (new_queue arr) ops in
  let '(rs', xs) := run_ops (list_step BUFF_SZ) [] ops in
  rs = rs' ∧ queue_repr BUFF_SZ q xs ∧ is_empty q = bool_decide (xs = []) ∧
  front_value q = head xs ∧
  (if is_empty q then None else buff q !! Z.to_nat (rear_index BUFF_SZ q)) = list.last xs.
Proof.
  intros Hn Ha. pose proof (run_ops_refines BUFF_SZ ops _ _ (repr_new BUFF_SZ arr Hn Ha)) as [Hb Hr].
  destruct (run_ops (queue_step BUFF_SZ) (new_queue arr) ops) as [rs q].
  destruct (run_ops (list_step BUFF_SZ) [] ops) as [rs' xs]. cbn [fst snd] in *.
  split; [done|]. split; [done|]. split; [by apply (repr_is_empty BUFF_SZ)|].
  split; [by apply (repr_head BUFF_SZ)|by apply repr_last].
Qed.
Lemma circular_queue_refines_list_witness :
  let '(rs, q) := run_ops (queue_step 2) (new_queue [0; 0])
                    [PushBack 1; PushFront 2; PushBack 3; PopFront; PushBack 4] in
  let '(rs', xs) := run_ops (list_step 2) [] [PushBack 1; PushFront 2; PushBack 3; PopFront; PushBack 4] in
  rs = rs' ∧ queue_repr 2 q xs ∧ is_empty q = bool_decide (xs = []) ∧
  front_value q = head xs ∧
  (if is_empty q then None else buff q !! Z.to_nat (rear_index 2 q)) = list.last xs.
Proof.
  apply (circular_queue_refines_list 2 [0; 0] [PushBack 1; PushFront 2; PushBack 3; PopFront; PushBack 4]);
    [lia|done].
Defined.

(** A receiving queue keeps the messages it is handed in the order they arrive until its
    capacity of 2000 is reached, and drops every later one without an error. *)
Theorem recv_queue_keeps_first {T} (queue : circular_queue T) (xs msgs : list T) :
  q_repr queue xs →
  q_repr (foldl recv_queue_handle_recv queue msgs) (xs ++ take (2000 - length xs) msgs).
Proof. exact (recv_queue_repr queue xs msgs). Qed.
Lemma recv_queue_keeps_first_witness :
  q_repr (foldl recv_queue_handle_recv (new_queue (replicate 2000 0)) [5; 6])
    ([] ++ take (2000 - length (@nil Z)) [5; 6]).
Proof. apply (recv_queue_keeps_first (new_queue (replicate 2000 0)) [] [5; 6]). by apply (repr_new 2000). Defined.

(** A timed wait on [front] returns null exactly when the queue stayed empty at every check up to
    one whose clock reading is past the timeout; otherwise it returns the front of the queue as it was
    at the first check that found it filled. *)
Theorem front_waits {T} (timeout start : Z) (q : circular_queue T) (before : list (circular_queue T * Z))
    (q' : circular_queue T) (now : Z) (after : list (circular_queue T * Z)) :
  is_empty q = true →
  Forall (λ o, is_empty (fst o) = true ∧ snd o - start ≤ timeout) before →
  front timeout start q (before ++ (q', now) :: after) =
    if is_empty q' then
      if decide (timeout < now - start) then Some None else front timeout start q after
    else Some (Some (base_in q')).
Proof.
  intros Hq Hb. unfold front. rewrite Hq. cbn [negb].
  induction Hb as [|[q0 t0] before [He Ht] Hb IH]; cbn [app wait_loop fst snd] in *.
  - destruct (is_empty q'); [|done]. case_decide as Hd; [by rewrite (proj2 (Z.ltb_lt _ _) Hd)|].
    by rewrite (proj2 (Z.ltb_ge _ _)) by lia.
  - rewrite He, (proj2 (Z.ltb_ge _ _)) by lia. exact IH.
Qed.
Lemma front_waits_witness :
  front 10 0 (new_queue [0; 0]) ([(new_queue [0; 0], 4)] ++ (new_queue [0; 0], 11) :: []) = Some None.
Proof.
  rewrite (front_waits 10 0 (new_queue [0; 0]) [(new_queue [0; 0], 4)] (new_queue [0; 0]) 11 []);
    [done|done|]. by repeat constructor.
Defined.
