(* ===== verification/Trie.v ===== *)
(** The trie of [src/utils/trie.h].

    A node owns an array of [RANGE] child pointers; the array is modelled by the map of
    its non-null entries, and an index outside it is the fault [OutOfBounds].  The key of
    a node is [None] until it is assigned (a default-constructed [KEY]).

    [remove_word] and the destructor are in [TrieRemove]. *)

From Stdlib Require Import ZArith Lia.
From stdpp Require Import base decidable list numbers gmap sets.
From S2P Require Import Prelude.

#[warnings="-register-all"]
Inductive trie_node (KEY : Type) : Type :=
  TrieNode (marked : bool) (children : gmap Z (trie_node KEY)) (child_count : Z) (key : option KEY).
Arguments TrieNode {_} _ _ _ _.

Section trie.
Context {KEY : Type} (RANGE : Z) (ASSIGN_INDEX : Z → Z).
Implicit Types t : trie_node KEY.
Implicit Types s : list Z.

Definition marked t : bool := let 'TrieNode m _ _ _ := t in m.
Definition children t : gmap Z (trie_node KEY) := let 'TrieNode _ c _ _ := t in c.
Definition child_count t : Z := let 'TrieNode _ _ n _ := t in n.
Definition node_key t : option KEY := let 'TrieNode _ _ _ k := t in k.

(** [new trie_node]. *)
Definition empty_node : trie_node KEY := TrieNode false ∅ 0 None.

(** [children[in]]. *)
Definition child_at t (i : Z) : res (option (trie_node KEY)) :=
  if (0 <=? i) && (i <? RANGE) then Ok (children t !! i) else Fault OutOfBounds.

Definition get_child t (val : Z) : res (option (trie_node KEY)) := child_at t (ASSIGN_INDEX val).

(** The child under [val], created when it is missing, and the node with it. *)
Definition create_child t (val : Z) : res (trie_node KEY * trie_node KEY) :=
  let i := ASSIGN_INDEX val in
  c ← child_at t i;
  match c with
  | Some child => Ok (child, t)
  | None =>
      let 'TrieNode m cs n k := t in
      Ok (empty_node, TrieNode m (<[i := empty_node]> cs) (n + 1) k)
  end.

Definition remove_child t (val : Z) : res (trie_node KEY) :=
  let i := ASSIGN_INDEX val in
  c ← child_at t i;
  match c with
  | None => Ok t
  | Some _ => let 'TrieNode m cs n k := t in Ok (TrieNode m (delete i cs) (n - 1) k)
  end.

Fixpoint search t s : res (option (trie_node KEY)) :=
  match s with
  | [] => Ok (Some t)
  | c :: s =>
      child ← get_child t c;
      match child with None => Ok None | Some child => search child s end
  end.

(** Writing a child back into its parent: the tree is mutated through pointers. *)
Definition set_child t (val : Z) (child : trie_node KEY) : trie_node KEY :=
  let 'TrieNode m cs n k := t in TrieNode m (<[ASSIGN_INDEX val := child]> cs) n k.

(** The walk of [add_word] with [f] applied at its last node: the caller assigns the
    key through the pointer that [add_word] returns. *)
Fixpoint add_word_walk (f : trie_node KEY → trie_node KEY) t s : res (trie_node KEY) :=
  match s with
  | [] => Ok (f t)
  | c :: s =>
      child ← get_child t c;
      '(child, t) ← (match child with None => create_child t c | Some child => Ok (child, t) end);
      child ← add_word_walk f child s;
      Ok (set_child t c child)
  end.

Definition mark t : trie_node KEY := let 'TrieNode _ cs n k := t in TrieNode true cs n k.
Definition set_key (key : KEY) t : trie_node KEY :=
  let 'TrieNode m cs n _ := t in TrieNode m cs n (Some key).

(** [add_word(str)]: [None] is the null pointer it returns for the empty word. *)
Definition add_word t s : option (res (trie_node KEY)) :=
  match s with [] => None | _ => Some (add_word_walk mark t s) end.
(** [add_word(str)->key = key]. *)
Definition add_word_key t s (key : KEY) : res (trie_node KEY) :=
  match s with
  | [] => Fault NullDeref
  | _ => add_word_walk (λ n, set_key key (mark n)) t s
  end.

Definition contains_word t s : res bool :=
  node ← search t s;
  Ok (match node with Some n => marked n | None => false end).
Definition is_prefix t s : res bool :=
  node ← search t s;
  Ok (match node with Some _ => true | None => false end).
Fixpoint contains_prefix t s : res bool :=
  match s with
  | [] => Ok false
  | c :: s =>
      child ← get_child t c;
      match child with
      | None => Ok false
      | Some child => if marked child then Ok true else contains_prefix child s
      end
  end.

(** * Lemmas *)

(** Characters whose index is inside the array, distinct ones with distinct indices. *)
(** A [char] whose index is inside the array. *)
Definition char_ok (c : Z) : Prop := byte_ok c ∧ 0 ≤ ASSIGN_INDEX c < RANGE.
Abbreviation word_ok := (Forall char_ok).
Hypothesis assign_inj : ∀ c d, char_ok c → char_ok d → ASSIGN_INDEX c = ASSIGN_INDEX d → c = d.

(** The node a word leads to. *)
Fixpoint node_at t s : option (trie_node KEY) :=
  match s with
  | [] => Some t
  | c :: s => child ← children t !! ASSIGN_INDEX c; node_at child s
  end.

Lemma child_at_ok t c : char_ok c → get_child t c = Ok (children t !! ASSIGN_INDEX c).
Proof.
  unfold get_child, child_at, char_ok. intros [_ [H1 H2]].
  by rewrite (proj2 (Z.leb_le _ _) H1), (proj2 (Z.ltb_lt _ _) H2).
Qed.
Lemma get_child_fault t c : ¬ (0 ≤ ASSIGN_INDEX c < RANGE) → get_child t c = Fault OutOfBounds.
Proof.
  unfold get_child, child_at. intros H.
  destruct (Z.leb_spec 0 (ASSIGN_INDEX c)), (Z.ltb_spec (ASSIGN_INDEX c) RANGE); simpl; try done; lia.
Qed.

Lemma search_ok t s : word_ok s → search t s = Ok (node_at t s).
Proof.
  intros Hs. revert t. induction Hs as [|c s Hc Hs IH]; intros t; [done|].
  cbn [search node_at]. rewrite child_at_ok by done. cbn.
  by destruct (children t !! ASSIGN_INDEX c).
Qed.

(** The node a character leads to, an empty one if it is new. *)
Abbreviation child_or_new t c := (default empty_node (children t !! ASSIGN_INDEX c)).

Lemma add_walk_step f t c s :
  char_ok c → word_ok s →
  ∃ n', add_word_walk f t (c :: s)
    = (child ← add_word_walk f (child_or_new t c) s;
       Ok (TrieNode (marked t) (<[ASSIGN_INDEX c := child]> (children t)) n' (node_key t))).
Proof.
  intros Hc Hs. cbn [add_word_walk]. rewrite (child_at_ok t c) by done. cbn.
  destruct t as [m cs n k]; cbn. destruct (cs !! ASSIGN_INDEX c) as [child|] eqn:E; cbn.
  - by exists n.
  - exists (n + 1). unfold create_child. fold (get_child (TrieNode m cs n k) c).
    rewrite child_at_ok by done. cbn. rewrite E. cbn.
    destruct (add_word_walk f empty_node s); cbn; [|done]. by rewrite insert_insert_eq.
Qed.

Lemma add_walk_ok f t s : word_ok s → ∃ t', add_word_walk f t s = Ok t'.
Proof.
  intros Hs. revert t. induction Hs as [|c s Hc Hs IH]; intros t; [by eexists|].
  destruct (add_walk_step f t c s Hc Hs) as [n' ->].
  destruct (IH (child_or_new t c)) as [t' ->]. by eexists.
Qed.

Lemma node_at_empty c s : node_at empty_node (c :: s) = None.
Proof. done. Qed.

(** [f] changes the mark and the key of a node, not its children. *)
Definition keeps_children (f : trie_node KEY → trie_node KEY) : Prop :=
  ∀ t, children (f t) = children t.
Lemma mark_keeps : keeps_children mark.
Proof. by intros []. Qed.
Lemma set_key_mark_keeps k : keeps_children (λ n, set_key k (mark n)).
Proof. by intros []. Qed.

(** What a walk changes: the node of the word itself becomes [f] of what it was; a
    prefix of the word now leads to a node, new and blank if there was none; nothing
    else changes. *)
Lemma node_at_add f t s t' p :
  keeps_children f → word_ok s → word_ok p → add_word_walk f t s = Ok t' →
  (marked <$> node_at t' p, node_key <$> node_at t' p) =
    if decide (p = s) then
      (Some (marked (f (default empty_node (node_at t s)))),
       Some (node_key (f (default empty_node (node_at t s)))))
    else if decide (p `prefix_of` s) then
      (Some (default false (marked <$> node_at t p)), Some (default None (node_key <$> node_at t p)))
    else (marked <$> node_at t p, node_key <$> node_at t p).
Proof.
  intros Hf Hs. revert t t' p. induction Hs as [|c s Hc Hs IH]; intros t t' p Hp Ht.
  - cbn in Ht. simplify_eq. destruct Hp as [|d p Hd Hp]; [done|].
    rewrite decide_False by done. rewrite decide_False by (by intros [? ?]).
    cbn. by rewrite Hf.
  - destruct (add_walk_step f t c s Hc Hs) as [n' E]. rewrite E in Ht. clear E.
    destruct (add_word_walk f (child_or_new t c) s) as [child'|] eqn:E; cbn in Ht; [|done].
    simplify_eq. destruct Hp as [|d p Hd Hp].
    + rewrite decide_False by done. rewrite decide_True by apply prefix_nil. done.
    + cbn [node_at children].
      destruct (decide (d = c)) as [->|Hne].
      * rewrite lookup_insert_eq. cbn. specialize (IH _ _ p Hp E). rewrite IH.
        destruct (children t !! ASSIGN_INDEX c) as [child|] eqn:Ec; cbn.
        -- destruct (decide (p = s)) as [->|]; [by rewrite !decide_True|].
           rewrite (decide_False (P := c :: p = c :: s)) by congruence.
           destruct (decide (p `prefix_of` s)).
           ++ rewrite decide_True by by apply prefix_cons. done.
           ++ rewrite decide_False; [done|]. by intros ?%prefix_cons_inv_2.
        -- destruct (decide (p = s)) as [->|].
           { rewrite !decide_True by done. by destruct s. }
           rewrite (decide_False (P := c :: p = c :: s)) by congruence.
           destruct (decide (p `prefix_of` s)) as [?|Hnp].
           ++ rewrite decide_True by by apply prefix_cons. by destruct p.
           ++ rewrite decide_False; [|by intros ?%prefix_cons_inv_2].
              destruct p; [by destruct Hnp; apply prefix_nil|done].
      * rewrite decide_False by congruence.
        rewrite decide_False by (by intros ?%prefix_cons_inv_1).
        rewrite lookup_insert_ne; [done|]. intros Heq. apply Hne, assign_inj; [done|done|congruence].
Qed.

Lemma node_at_prefix t p q : is_Some (node_at t (p ++ q)) → is_Some (node_at t p).
Proof.
  revert t. induction p as [|c p IH]; intros t; [by eexists|]. cbn.
  destruct (children t !! ASSIGN_INDEX c); cbn; [apply IH|done].
Qed.

(** ** The words of a trie *)

(** Adding a list of words to a new trie. *)
Fixpoint add_words t (ws : list (list Z)) : res (trie_node KEY) :=
  match ws with
  | [] => Ok t
  | w :: ws =>
      match add_word t w with
      | None => add_words t ws
      | Some r => t' ← r; add_words t' ws
      end
  end.

(** [t] stands for the set [ws] of non-empty words: its marked nodes are theirs and it
    has no node that leads to none of them. *)
Record trie_repr t (ws : gset (list Z)) : Prop := {
  repr_marked : ∀ s, word_ok s → (marked <$> node_at t s = Some true ↔ s ∈ ws);
  repr_node : ∀ s, word_ok s → (is_Some (node_at t s) ↔ s = [] ∨ ∃ w, w ∈ ws ∧ s `prefix_of` w);
  repr_nonempty : ∀ w, w ∈ ws → w ≠ [] ∧ word_ok w
}.

Lemma trie_repr_empty : trie_repr empty_node ∅.
Proof.
  split; intros s Hs.
  - split; [by destruct s|set_solver].
  - split; [|intros [->|(w & ? & _)]; [by eexists|set_solver]].
    destruct s; [by left|intros [? ?]; done].
  - set_solver.
Qed.

Lemma trie_repr_add t ws w :
  trie_repr t ws → word_ok w → w ≠ [] →
  ∃ t', add_word t w = Some (Ok t') ∧ trie_repr t' ({[w]} ∪ ws).
Proof.
  intros Hr Hw Hne. destruct (add_walk_ok mark t w Hw) as [t' Ht].
  exists t'. split; [destruct w; [done|]; unfold add_word; by rewrite Ht|].
  assert (Hat : ∀ p, word_ok p → _) by (intros p Hp; exact (node_at_add mark t w t' p mark_keeps Hw Hp Ht)).
  split.
  - intros s Hs. specialize (Hat s Hs). apply (f_equal fst) in Hat. cbn in Hat.
    destruct (decide (s = w)) as [->|Hsw]; [|destruct (decide (s `prefix_of` w)) as [Hp|Hp]]; cbn in Hat; rewrite Hat.
    + destruct (default empty_node (node_at t w)); cbn. set_solver.
    + rewrite elem_of_union, elem_of_singleton. rewrite <- (repr_marked _ _ Hr s Hs).
      destruct (node_at t s) as [n|]; cbn; (split; [|by intros [?|?]]); [by right|done].
    + rewrite (repr_marked _ _ Hr s Hs), elem_of_union, elem_of_singleton. tauto.
  - intros s Hs. specialize (Hat s Hs). apply (f_equal fst) in Hat. cbn in Hat.
    rewrite <- (fmap_is_Some marked), Hat.
    destruct (decide (s = w)) as [->|Hsw]; [|destruct (decide (s `prefix_of` w)) as [Hp|Hp]]; cbn.
    + split; [|by eexists]. intros _. right. exists w. split; [set_solver|done].
    + split; [|by eexists]. intros _. right. exists w. split; [set_solver|done].
    + rewrite fmap_is_Some, (repr_node _ _ Hr s Hs). split.
      { intros [?|(w' & ? & ?)]; [by left|]. right. exists w'. split; [by apply elem_of_union_r|done]. }
      intros [?|(w' & [->%elem_of_singleton|?]%elem_of_union & ?)]; [by left|done|]. right. by exists w'.
  - intros w' [->%elem_of_singleton|H]%elem_of_union; [done|by apply (repr_nonempty _ _ Hr)].
Qed.

Lemma add_words_repr ws t vs :
  trie_repr t vs → Forall (λ w, w ≠ [] → word_ok w) ws →
  ∃ t', add_words t ws = Ok t' ∧ trie_repr t' (vs ∪ (list_to_set (filter (λ w, w ≠ []) ws))).
Proof.
  intros Hr Hws. revert t vs Hr. induction Hws as [|w ws Hw Hws IH]; intros t vs Hr.
  { exists t. split; [done|]. rewrite filter_nil. cbn. by rewrite (right_id_L ∅ (∪)). }
  cbn [add_words]. destruct (decide (w = [])) as [->|Hne].
  - destruct (IH t vs Hr) as (t' & ? & ?). exists t'. split; [done|].
    rewrite filter_cons_False; [done|]. intros Hnn. by apply Hnn.
  - destruct (trie_repr_add t vs w Hr (Hw Hne) Hne) as (t1 & -> & Hr1).
    destruct (IH _ _ Hr1) as (t' & ? & Ht'). exists t'. split; [done|].
    rewrite filter_cons_True by done. cbn [list_to_set].
    by rewrite (assoc_L (∪)), (comm_L (∪) vs {[w]}).
Qed.

Lemma contains_prefix_ok t s :
  word_ok s →
  ∃ b, contains_prefix t s = Ok b ∧
    (b = true ↔ ∃ p, p ≠ [] ∧ p `prefix_of` s ∧ marked <$> node_at t p = Some true).
Proof.
  intros Hs. revert t. induction Hs as [|c s Hc Hs IH]; intros t.
  { exists false. split; [done|]. split; [done|]. intros (p & Hp & [k E] & _). by destruct p. }
  cbn [contains_prefix]. rewrite child_at_ok by done. cbn.
  assert (Hpre : ∀ p, p `prefix_of` (c :: s) ↔ p = [] ∨ ∃ q, p = c :: q ∧ q `prefix_of` s).
  { intros [|d p]; [split; [by left|intros _; apply prefix_nil]|]. split.
    - intros H. right. exists p. split; [f_equal; by eapply prefix_cons_inv_1|by eapply prefix_cons_inv_2].
    - intros [?|(q & ? & ?)]; [done|]. simplify_eq. by apply prefix_cons. }
  destruct (children t !! ASSIGN_INDEX c) as [child|] eqn:E.
  - destruct (marked child) eqn:Hm.
    + exists true. split; [done|]. split; [intros _|done]. exists [c].
      split; [done|]. split; [apply Hpre; right; exists []; split; [done|apply prefix_nil]|].
      cbn. rewrite E. cbn. by rewrite Hm.
    + destruct (IH child) as (b & -> & Hb). exists b. split; [done|]. rewrite Hb. split.
      * intros (p & Hne & Hp & Hn). exists (c :: p). split; [done|].
        split; [by apply prefix_cons|]. cbn. by rewrite E.
      * intros (p & Hne & [?|(q & -> & Hq)]%Hpre & Hn); [done|].
        cbn in Hn. rewrite E in Hn. cbn in Hn. exists q. split; [|done].
        intros ->. cbn in Hn. congruence.
  - exists false. split; [done|]. split; [done|].
    intros (p & Hne & [?|(q & -> & Hq)]%Hpre & Hn); [done|]. cbn in Hn. by rewrite E in Hn.
Qed.
(** ** The keys of a trie *)

(** The key of a word: that of its node, when it is marked. *)
Definition word_key t s : option KEY :=
  node ← node_at t s; if marked node then node_key node else None.
(** [t] stands for the map [m] from words to keys. *)
Definition trie_map t (m : gmap (list Z) KEY) : Prop := ∀ s, word_ok s → word_key t s = m !! s.

Lemma word_key_alt t s :
  word_key t s = b ← marked <$> node_at t s; k ← node_key <$> node_at t s; if (b : bool) then k else None.
Proof. unfold word_key. by destruct (node_at t s) as [[[] ? ? ?]|]. Qed.
Lemma trie_map_empty : trie_map empty_node ∅.
Proof. intros [|c s] Hs; by rewrite lookup_empty. Qed.
Lemma trie_map_add t m s key :
  trie_map t m → word_ok s → s ≠ [] → ∃ t', add_word_key t s key = Ok t' ∧ trie_map t' (<[s := key]> m).
Proof.
  intros Hm Hs Hne. destruct (add_walk_ok (λ n, set_key key (mark n)) t s Hs) as [t' Ht]. exists t'.
  split; [by destruct s|]. intros p Hp.
  pose proof (node_at_add _ t s t' p (set_key_mark_keeps key) Hs Hp Ht) as E.
  specialize (Hm p Hp). rewrite word_key_alt in Hm |- *. destruct (decide (p = s)) as [->|Hps].
  - injection E as -> ->. rewrite lookup_insert_eq. cbn. by destruct (default _ _).
  - rewrite lookup_insert_ne by congruence. rewrite <- Hm.
    destruct (decide _); injection E as -> ->; [|done]. by destruct (node_at t p) as [[[] ? ? ?]|].
Qed.
(** A character outside the array. *)
Lemma add_walk_fault f t p c s :
  word_ok p → ¬ (0 ≤ ASSIGN_INDEX c < RANGE) → add_word_walk f t (p ++ c :: s) = Fault OutOfBounds.
Proof.
  intros Hp Hc. revert t. induction Hp as [|d p Hd Hp IH]; intros t; cbn [app add_word_walk].
  - by rewrite get_child_fault.
  - rewrite child_at_ok by done. cbn. destruct (children t !! ASSIGN_INDEX d) eqn:E; cbn; [by rewrite IH|].
    unfold create_child. fold (get_child t d). rewrite child_at_ok by done. cbn. rewrite E. destruct t. cbn. by rewrite IH.
Qed.
End trie.

(** * Properties *)

(** C23: after adding words to a new trie, a word is contained exactly when it was added (and is not
    empty), a string is a prefix exactly when it begins an added word or is empty, and
    contains_prefix answers whether some added word begins the string; no call leaves the child array. *)
Theorem trie_is_word_set {KEY} (RANGE : Z) (ASSIGN_INDEX : Z → Z) (ws : list (list Z)) (s : list Z) :
  (∀ c d, char_ok RANGE ASSIGN_INDEX c → char_ok RANGE ASSIGN_INDEX d →
     ASSIGN_INDEX c = ASSIGN_INDEX d → c = d) →
  Forall (Forall (char_ok RANGE ASSIGN_INDEX)) ws → Forall (char_ok RANGE ASSIGN_INDEX) s →
  ∃ t : trie_node KEY, add_words RANGE ASSIGN_INDEX empty_node ws = Ok t ∧
    contains_word RANGE ASSIGN_INDEX t s = Ok (bool_decide (s ≠ [] ∧ s ∈ ws)) ∧
    (∃ b, is_prefix RANGE ASSIGN_INDEX t s = Ok b ∧
       (b = true ↔ s = [] ∨ ∃ w, w ∈ ws ∧ s `prefix_of` w)) ∧
    (∃ b, contains_prefix RANGE ASSIGN_INDEX t s = Ok b ∧
       (b = true ↔ ∃ w, w ≠ [] ∧ w ∈ ws ∧ w `prefix_of` s)).
Proof.
  intros Hinj Hws Hs.
  destruct (add_words_repr (KEY:=KEY) RANGE ASSIGN_INDEX Hinj ws empty_node ∅) as (t & Ht & Hr).
  { exact (trie_repr_empty RANGE ASSIGN_INDEX Hinj). }
  { eapply Forall_impl; [exact Hws|done]. }
  rewrite (left_id_L ∅ (∪)) in Hr.
  assert (Hin : ∀ w, w ∈ (list_to_set (filter (λ w, w ≠ []) ws) : gset (list Z)) ↔ w ≠ [] ∧ w ∈ ws).
  { intros w. by rewrite elem_of_list_to_set, list_elem_of_filter. }
  exists t. split; [done|]. split; [|split].
  - unfold contains_word. rewrite search_ok by done. cbn. f_equal. apply eq_true_iff_eq.
    rewrite bool_decide_eq_true, <- Hin, <- (repr_marked _ _ _ _ Hr s Hs).
    destruct (node_at ASSIGN_INDEX t s); cbn; split; congruence.
  - unfold is_prefix. rewrite search_ok by done. cbn. eexists. split; [done|].
    transitivity (is_Some (node_at ASSIGN_INDEX t s)).
    { destruct (node_at ASSIGN_INDEX t s); by split. }
    rewrite (repr_node _ _ _ _ Hr s Hs). setoid_rewrite Hin. split; [naive_solver|].
    intros [?|(w & ? & Hp)]; [by left|]. destruct s as [|c s]; [by left|].
    right. exists w. split; [|done]. split; [|done]. intros ->. by destruct Hp.
  - destruct (contains_prefix_ok RANGE ASSIGN_INDEX t s Hs) as (b & -> & Hb). exists b. split; [done|].
    rewrite Hb. split; intros (w & H1).
    + destruct H1 as (Hne & Hp & Hm). exists w. 
      rewrite (repr_marked _ _ _ _ Hr) in Hm; [apply Hin in Hm; naive_solver|].
      destruct Hp as [k ->]. by apply Forall_app in Hs as [? _].
    + exists w. destruct H1 as (Hne & Hw & Hp). split; [done|]. split; [done|].
      apply (repr_marked _ _ _ _ Hr); [|by apply Hin].
      destruct Hp as [k ->]. by apply Forall_app in Hs as [? _].
Qed.
Lemma trie_is_word_set_witness :
  ∃ t : trie_node Z, add_words 256 id empty_node [[97; 98]; []; [97]] = Ok t ∧
    contains_word 256 id t [97] = Ok (bool_decide ([97] ≠ [] ∧ [97] ∈ [[97; 98]; []; [97]])) ∧
    (∃ b, is_prefix 256 id t [97] = Ok b ∧
       (b = true ↔ [97] = [] ∨ ∃ w, w ∈ [[97; 98]; []; [97]] ∧ [97] `prefix_of` w)) ∧
    (∃ b, contains_prefix 256 id t [97] = Ok b ∧
       (b = true ↔ ∃ w, w ≠ [] ∧ w ∈ [[97; 98]; []; [97]] ∧ w `prefix_of` [97])).
Proof.
  apply (trie_is_word_set 256 id [[97; 98]; []; [97]] [97]); [done|..];
    repeat constructor; unfold char_ok, byte_ok; simpl; lia.
Defined.
