(* ===== verification/TrieRemove.v ===== *)
(** Removal from the trie of [src/utils/trie.h]: [remove_word], and what it does to the set of words of [Trie].

    [remove_word] asks a node for [count_children()], a member that the class does not have: it is a parameter here,
    relied on for what the comment beside its call says, whether the node contributes to other words.  The pointer
    [lowest_ans_par] is the number of characters on the way to its node.  The nodes that a removed child's destructor frees, and those
    that it leaks, are memory that no pointer of the tree reaches any more. *)

From Stdlib Require Import ZArith Lia.
From stdpp Require Import base decidable list numbers gmap sets.
From S2P Require Import Prelude Trie.

Section trie_remove.
Context {KEY : Type} (RANGE : Z) (ASSIGN_INDEX : Z → Z) (count_children : trie_node KEY → Z).
Implicit Types t n : trie_node KEY.
Implicit Types s w : list Z.
Abbreviation child_under := (get_child (KEY := KEY) RANGE ASSIGN_INDEX).
Abbreviation node_at := (node_at (KEY := KEY) ASSIGN_INDEX).
Abbreviation char_ok := (char_ok RANGE ASSIGN_INDEX).
Abbreviation word_ok := (Forall char_ok).
Abbreviation trie_repr := (trie_repr RANGE ASSIGN_INDEX).

(** The loop of [remove_word] at the node [t], after [i] characters: [None] when it returns, the lowest node and the value so far
    ([low]) and the node of the word otherwise. *)
Fixpoint remove_walk t s (i : nat) (low : nat * Z) : res (option ((nat * Z) * trie_node KEY)) :=
  match s with
  | [] => Ok (Some (low, t))
  | c :: s =>
      child ← child_under t c;
      match child with
      | None => Ok None
      | Some child => remove_walk child s (S i) (if marked t || (1 <? count_children t) then (i, c) else low)
      end
  end.
(** [f] through the pointer to the node of [s]. *)
Fixpoint change_at (f : trie_node KEY → res (trie_node KEY)) t s : res (trie_node KEY) :=
  match s with
  | [] => f t
  | c :: s =>
      child ← child_under t c;
      child ← of_option NullDeref child;
      child ← change_at f child s;
      Ok (set_child ASSIGN_INDEX t c child)
  end.
Definition remove_word t s : res (trie_node KEY) :=
  match s with
  | [] => Ok t
  | c :: _ =>
      o ← remove_walk t s 0 (0%nat, c);
      match o with
      | None => Ok t
      | Some ((lowest_ans_par, lowest_ans_val), curr_node) =>
          if negb (marked curr_node) then Ok t
          else change_at (λ n, remove_child RANGE ASSIGN_INDEX n lowest_ans_val) t (take lowest_ans_par s)
      end
  end.

(** The loop of [remove_all_children] from the child [i] on, [n] children before the end: how many nodes it frees.  It returns at the first
    missing child. *)
Fixpoint remove_all_children_loop (destructor : trie_node KEY → res nat) t (n : nat) (i : Z) : res nat :=
  match n with
  | O => Ok 0%nat
  | S n =>
      match children t !! i with
      | None => Ok 0%nat
      | Some child => freed ← destructor child; others ← remove_all_children_loop destructor t n (i + 1); Ok (freed + others)%nat
      end
  end.
(** [~trie_node]: [remove_all_children] of the node and of those it deletes; the depth of the tree is fuel enough. *)
Fixpoint destructor (fuel : nat) t : res nat :=
  match fuel with
  | O => Fault OutOfFuel
  | S fuel => freed ← remove_all_children_loop (destructor fuel) t (Z.to_nat RANGE) 0; Ok (S freed)
  end.

(** * Lemmas *)

(** The node has a mark or more than one child. *)
Definition branching n : Prop := marked n = true ∨ (1 < size (children n))%nat.

Context (assign_inj : ∀ c d, char_ok c → char_ok d → ASSIGN_INDEX c = ASSIGN_INDEX d → c = d).
Context (count_children_law : ∀ n, count_children n = Z.of_nat (size (children n))).

Lemma contributes n : marked n || (1 <? count_children n) = true ↔ branching n.
Proof using count_children_law.
  unfold branching. rewrite orb_true_iff, count_children_law, Z.ltb_lt. split; (intros [?|?]; [by left|right; lia]).
Qed.

(** Where the loop ends: at the node of the word, with the last node on the way that branches, or with what it began with. *)
Lemma remove_walk_ok s : word_ok s → ∀ t i low,
  match node_at t s with
  | None => remove_walk t s i low = Ok None
  | Some n => ∃ low', remove_walk t s i low = Ok (Some (low', n)) ∧
      ∃ j, (∀ k m, (j < k < length s)%nat → node_at t (take k s) = Some m → ¬ branching m) ∧
        ((low' = low ∧ j = 0%nat ∧ (s ≠ [] → ¬ branching t)) ∨
         ∃ c m, low' = ((i + j)%nat, c) ∧ s !! j = Some c ∧ node_at t (take j s) = Some m ∧ branching m)
  end.
Proof using count_children_law.
  induction 1 as [|c s Hc Hs IH]; intros t i low.
  { exists low. split; [done|]. exists 0%nat. split; [intros k m [? Hk]; simpl in Hk; lia|left; by split_and!]. }
  cbn [Trie.node_at remove_walk]. rewrite child_at_ok by done. cbn [mbind res_bind option_bind].
  destruct (children t !! ASSIGN_INDEX c) as [child|] eqn:E; cbn [mbind option_bind]; [|done].
  specialize (IH child (S i) (if marked t || (1 <? count_children t) then (i, c) else low)).
  destruct (node_at child s) as [n|]; [|done]. destruct IH as (low' & -> & j & Hj & Hl). exists low'. split; [done|].
  assert (Hlater : ∀ k m, (S j < k < length (c :: s))%nat → node_at t (take k (c :: s)) = Some m → ¬ branching m).
  { intros [|k] m Hk; [lia|]. cbn [take Trie.node_at]. rewrite E. cbn [mbind option_bind]. apply Hj. simpl in Hk. lia. }
  destruct Hl as [(-> & -> & Hn)|(d & m & -> & Hd & Hm & Hb)].
  - exists 0%nat. split.
    + intros [|[|k]] m Hk; [lia| |apply Hlater; lia]. cbn. rewrite E. cbn. intros [= <-]. apply Hn. intros ->. simpl in Hk. lia.
    + destruct (marked t || _) eqn:Eb.
      * right. exists c, t. split_and!; [by rewrite Nat.add_0_r|done..|by apply contributes].
      * left. split_and!; [done..|]. intros _ Hb%contributes. congruence.
  - exists (S j). split; [exact Hlater|]. right. exists d, m. split_and!; [f_equal; lia|done| |done].
    cbn. by rewrite E.
Qed.

Lemma node_at_app t p s : node_at t (p ++ s) = n ← node_at t p; node_at n s.
Proof. revert t. induction p as [|c p IH]; intros t; [done|]. cbn. destruct (children t !! _); [apply IH|done]. Qed.
Lemma one_child n i j x y : ¬ (1 < size (children n))%nat → children n !! i = Some x → children n !! j = Some y → i = j.
Proof.
  intros Hs Hi Hj. destruct (decide (i = j)) as [|Hne]; [done|]. destruct Hs.
  rewrite <- (insert_delete_id _ _ _ Hi), map_size_insert_None by apply lookup_delete_eq.
  rewrite <- (insert_delete_id (delete i _) j y), map_size_insert_None; [lia|apply lookup_delete_eq|by rewrite lookup_delete_ne].
Qed.

Lemma other_child n i : (1 < size (children n))%nat → ∃ k, k ≠ i ∧ is_Some (children n !! k).
Proof.
  intros Hs. destruct (map_size_ne_0_lookup_1 (delete i (children n))) as [k [x [Hne Hk]%lookup_delete_Some]].
  - rewrite map_size_delete. destruct (children n !! i); cbn; lia.
  - exists k. split; [done|by exists x].
Qed.

(** The marks of a node are kept and it gets no child. *)
Definition shrinks n n' : Prop := marked n' = marked n ∧ ∀ i, is_Some (children n' !! i) → is_Some (children n !! i).
Lemma shrinks_refl o : option_Forall2 shrinks o o.
Proof. destruct o; constructor. by split. Qed.

(** Removing the child [c] of the node of [q]: nothing but the subtree is lost. *)
Lemma remove_at_ok c q : char_ok c → word_ok q → ∀ t m child, node_at t q = Some m → children m !! ASSIGN_INDEX c = Some child →
  ∃ t', change_at (λ n, remove_child RANGE ASSIGN_INDEX n c) t q = Ok t' ∧ marked t' = marked t ∧
    (∀ i, is_Some (children t' !! i) → is_Some (children t !! i)) ∧
    ∀ s, word_ok s → if decide ((q ++ [c]) `prefix_of` s) then node_at t' s = None else option_Forall2 shrinks (node_at t s) (node_at t' s).
Proof using assign_inj.
  intros Hc. induction 1 as [|d q Hd Hq IH]; intros t m child Hm Hch.
  - injection Hm as ->. destruct m as [b cs n k]. cbn [children] in Hch. exists (TrieNode b (delete (ASSIGN_INDEX c) cs) (n - 1) k). cbn [change_at]. split.
    { unfold remove_child. fold (child_under (TrieNode b cs n k) c). rewrite child_at_ok by done. cbn. by rewrite Hch. }
    split; [done|]. assert (Hsub : ∀ i, is_Some (delete (ASSIGN_INDEX c) cs !! i) → is_Some (cs !! i)).
    { intros i [x [_ Hx]%lookup_delete_Some]. by exists x. }
    split; [exact Hsub|]. intros [|e s] Hs.
    + rewrite decide_False by (by intros [? ?]). by constructor.
    + apply Forall_cons_1 in Hs as [He Hs]. cbn. destruct (decide (e = c)) as [->|Hne].
      * rewrite decide_True by (apply prefix_cons, prefix_nil). by rewrite lookup_delete_eq.
      * rewrite decide_False by (intros ?%prefix_cons_inv_1; congruence).
        rewrite lookup_delete_ne by (intros He'; by apply Hne, assign_inj). apply shrinks_refl.
  - cbn [Trie.node_at] in Hm. destruct (children t !! ASSIGN_INDEX d) as [x|] eqn:E; cbn in Hm; [|done].
    destruct (IH x m child Hm Hch) as (x' & Hx' & Hmk & Hsub & Hn). destruct t as [b cs n k]. cbn [children] in E.
    exists (TrieNode b (<[ASSIGN_INDEX d := x']> cs) n k). split.
    { cbn [change_at]. rewrite child_at_ok by done. cbn. rewrite E. cbn. by rewrite Hx'. }
    assert (Hk : ∀ i, is_Some (<[ASSIGN_INDEX d := x']> cs !! i) → is_Some (cs !! i)).
    { intros i Hi. destruct (decide (ASSIGN_INDEX d = i)) as [<-|Hne]; [by rewrite E|by rewrite lookup_insert_ne in Hi]. }
    split; [done|]. split; [exact Hk|]. intros [|e s] Hs.
    + rewrite decide_False by (by intros [? ?]). by constructor.
    + apply Forall_cons_1 in Hs as [He Hs]. cbn. destruct (decide (e = d)) as [->|Hne].
      * rewrite lookup_insert_eq, E. cbn. specialize (Hn s Hs). destruct (decide ((q ++ [c]) `prefix_of` s)).
        -- by rewrite decide_True by (by apply prefix_cons).
        -- by rewrite decide_False by (by intros ?%prefix_cons_inv_2).
      * rewrite decide_False by (intros ?%prefix_cons_inv_1; congruence).
        rewrite lookup_insert_ne by (intros He'; by apply Hne, assign_inj). apply shrinks_refl.
Qed.

(** Every child was made for a character. *)
Definition indexed t : Prop := ∀ s n i, word_ok s → node_at t s = Some n → is_Some (children n !! i) → ∃ d, char_ok d ∧ ASSIGN_INDEX d = i.
Lemma indexed_children t :
  (∀ i child, children t !! i = Some child → (∃ d, char_ok d ∧ ASSIGN_INDEX d = i) ∧ indexed child) → indexed t.
Proof.
  intros H [|c s] n i Hs Hn Hi.
  - injection Hn as <-. destruct Hi as [x Hx]. by destruct (H i x Hx).
  - cbn in Hn. destruct (children t !! ASSIGN_INDEX c) as [child|] eqn:E; cbn in Hn; [|done].
    destruct (H _ _ E) as [_ Hc]. apply Forall_cons_1 in Hs as [_ Hs]. by eapply Hc.
Qed.
Lemma indexed_child t c child : indexed t → char_ok c → children t !! ASSIGN_INDEX c = Some child → indexed child.
Proof. intros H Hc E s n i Hs Hn. apply (H (c :: s)); [by constructor|]. cbn. by rewrite E. Qed.
Lemma indexed_empty : indexed empty_node.
Proof. apply indexed_children. intros i child. cbn. by rewrite lookup_empty. Qed.
Lemma indexed_add w : word_ok w → ∀ t t', indexed t → add_word_walk RANGE ASSIGN_INDEX mark t w = Ok t' → indexed t'.
Proof using assign_inj.
  induction 1 as [|c w Hc Hw IH]; intros t t' Ht H.
  - injection H as <-. apply indexed_children. intros i child E. destruct t as [b cs n k]. cbn in E.
    destruct (Ht [] (TrieNode b cs n k) i) as (d & Hd & <-); [constructor|done|by exists child|]. split; [by exists d|by eapply indexed_child].
  - destruct (add_walk_step RANGE ASSIGN_INDEX mark t c w Hc Hw) as [n' E]. rewrite E in H. clear E.
    destruct (add_word_walk _ _ _ _ w) as [child'|] eqn:E in H; cbn in H; [|done]. injection H as <-.
    apply indexed_children. cbn. intros i child [[<- <-]|[Hne Hi]]%lookup_insert_Some.
    + split; [by exists c|]. refine (IH _ _ _ E). destruct (children t !! ASSIGN_INDEX c) eqn:E'; cbn; [by eapply indexed_child|apply indexed_empty].
    + destruct (Ht [] t i) as (d & Hd & <-); [constructor|done|by exists child|]. split; [by exists d|by eapply indexed_child].
Qed.

(** Below a chain of nodes that do not branch there are only the words below its end. *)
Lemma chain_words t ws w s j n : trie_repr t ws → indexed t → word_ok w → s ∈ ws → node_at t w = Some n →
  (∀ k m, (j < k < length w)%nat → node_at t (take k w) = Some m → ¬ branching m) →
  take (S j) w `prefix_of` s → w `prefix_of` s.
Proof using assign_inj.
  intros Hr Hi Hw Hs Hn Hb Hp.
  assert (∀ k, (j < k ≤ length w)%nat → take k w `prefix_of` s) as Hk; [|destruct (decide (j < length w)%nat)].
  - induction k as [|k IH]; [lia|]. intros Hjk. destruct (decide (j < k)%nat) as [Hlt|]; [|by replace k with j by lia].
    destruct (IH ltac:(lia)) as [rest ->]. destruct (lookup_lt_is_Some_2 w k ltac:(lia)) as [c Hc].
    destruct (repr_nonempty _ _ _ _ Hr _ Hs) as [_ [Hw1 Hrest]%Forall_app].
    rewrite <- (take_drop k w), (drop_S _ _ _ Hc), node_at_app in Hn. destruct (node_at t (take k w)) as [m|] eqn:Em; [|done].
    assert (Hnb : ¬ branching m) by (apply (Hb k); [lia|done]).
    destruct rest as [|d rest].
    { exfalso. apply Hnb. left. rewrite app_nil_r in Hs. apply (repr_marked _ _ _ _ Hr) in Hs; [|done]. rewrite Em in Hs. by injection Hs. }
    enough (d = c) as ->. { rewrite (take_S_r _ _ _ Hc). exists rest. by rewrite <- (assoc_L (++)). }
    apply Forall_cons_1 in Hrest as [Hd _]. assert (char_ok c) as Hc' by exact (Forall_lookup_1 _ _ _ _ Hw Hc).
    apply assign_inj; [done..|]. cbn in Hn. destruct (children m !! ASSIGN_INDEX c) as [x|] eqn:Ec; [|done].
    assert (Hnode : is_Some (node_at t (take k w ++ [d]))).
    { apply (repr_node _ _ _ _ Hr); [by apply Forall_app_2, Forall_singleton|]. right. exists (take k w ++ d :: rest). split; [done|].
      apply prefix_app, prefix_cons, prefix_nil. }
    rewrite node_at_app, Em in Hnode. cbn in Hnode. destruct (children m !! ASSIGN_INDEX d) as [y|] eqn:Ed; [|by destruct Hnode].
    apply (one_child m _ _ y x); [intros ?; apply Hnb; by right|done..].
  - rewrite <- (firstn_all w). apply Hk. lia.
  - by rewrite take_ge in Hp by lia.
Qed.

(** What is lost with the child [c] of the node of [take j w], when the nodes after it up to that of [w] do not branch. *)
Section subtree.
Context (t : trie_node KEY) (ws : gset (list Z)) (w : list Z) (j : nat) (c : Z) (m n : trie_node KEY).
Context (Hr : trie_repr t ws) (Hi : indexed t) (Hw : word_ok w) (Hin : w ∈ ws).
Context (Hc : w !! j = Some c) (Hm : node_at t (take j w) = Some m) (Hn : node_at t w = Some n).
Context (Hbranch : j = 0%nat ∨ branching m).
Context (Hchain : ∀ k m, (j < k < length w)%nat → node_at t (take k w) = Some m → ¬ branching m).
Abbreviation kept := (filter (λ v, ¬ w `prefix_of` v) ws).

Lemma cut_prefix : (take j w ++ [c]) `prefix_of` w.
Proof using Hc. rewrite <- (take_S_r _ _ _ Hc). exists (drop (S j) w). by rewrite take_drop. Qed.
Lemma below_cut s v : v ∈ ws → s `prefix_of` v → (take j w ++ [c]) `prefix_of` s → w `prefix_of` v.
Proof using Hr Hi Hw Hc Hn Hchain assign_inj.
  intros Hv Hp Hs. apply (chain_words t ws w v j n Hr Hi Hw Hv Hn Hchain). rewrite (take_S_r _ _ _ Hc). by trans s.
Qed.
(** Another word that the branching node leads to. *)
Lemma other_word : j ≠ 0%nat → ∃ v, v ∈ kept ∧ take j w `prefix_of` v.
Proof using Hr Hi Hw Hc Hm Hbranch assign_inj.
  intros Hj. destruct Hbranch as [|[Hmk|Hsz]]; [done|..].
  - exists (take j w). split; [|done]. apply elem_of_filter. split.
    + intros Hl%prefix_length. apply lookup_lt_Some in Hc. rewrite length_take in Hl. lia.
    + apply (repr_marked _ _ _ _ Hr); [by apply Forall_take|]. by rewrite Hm, <- Hmk.
  - destruct (other_child m (ASSIGN_INDEX c) Hsz) as (i & Hic & Hsome).
    destruct (Hi (take j w) m i ltac:(by apply Forall_take) Hm Hsome) as (d & Hd & <-).
    destruct (proj1 (repr_node _ _ _ _ Hr (take j w ++ [d]) ltac:(apply Forall_app_2; [by apply Forall_take|by apply Forall_singleton]))) as [E|(v & Hv & Hp)].
    { rewrite node_at_app, Hm. cbn. by destruct Hsome as [x ->]; eexists. }
    { by destruct (take j w). }
    exists v. split; [|etrans; [by eexists|exact Hp]]. apply elem_of_filter. split; [|done]. intros Hwv.
    destruct (prefix_weak_total (take j w ++ [d]) (take j w ++ [c]) v Hp) as [E|E]; [etrans; [exact cut_prefix|done]|..];
      apply prefix_app_inv, prefix_cons_inv_1 in E; congruence.
Qed.

Context (t' : trie_node KEY).
Context (Hlost : ∀ s, word_ok s → if decide ((take j w ++ [c]) `prefix_of` s) then node_at t' s = None
  else option_Forall2 shrinks (node_at t s) (node_at t' s)).
Lemma kept_repr : trie_repr t' kept ∧ indexed t'.
Proof using All.
  split; [split|].
  - intros s Hs. specialize (Hlost s Hs). rewrite elem_of_filter. destruct (decide _) as [Hp|Hp].
    + rewrite Hlost. split; [done|]. intros [Hw1 Hw2]. destruct Hw1. by apply (below_cut s).
    + assert (E : marked <$> node_at t' s = marked <$> node_at t s) by (destruct Hlost as [? ? [H _]|]; cbn; by rewrite ?H).
      rewrite E, (repr_marked _ _ _ _ Hr s Hs). split; [|by intros []]. intros ?. split; [|done]. intros Hp'. apply Hp. trans w; [apply cut_prefix|done].
  - intros s Hs. pose proof (Hlost s Hs) as Hl. destruct (decide _) as [Hp|Hp].
    + rewrite Hl. split; [by intros [? ?]|]. intros [->|(v & [Hnv Hv]%elem_of_filter & Hsv)]; [|destruct Hnv; by apply (below_cut s)].
      destruct Hp as [k E]. by destruct (take j w).
    + transitivity (is_Some (node_at t s)); [destruct Hl; split; intros []; by eexists|].
      rewrite (repr_node _ _ _ _ Hr s Hs). split; [|intros [?|(v & [_ ?]%elem_of_filter & ?)]; [by left|right; by exists v]].
      intros [?|(v & Hv & Hsv)]; [by left|]. destruct (decide (w `prefix_of` v)) as [Hwv|?]; [|right; exists v; by rewrite elem_of_filter].
      destruct (prefix_weak_total s (take j w ++ [c]) v Hsv) as [Hsq|Hsq]; [etrans; [exact cut_prefix|done]| |done].
      assert (Hq : s `prefix_of` take j w).
      { destruct Hsq as [k E]. destruct k as [|e k _] using rev_ind; [destruct Hp; by rewrite E, app_nil_r|].
        rewrite app_assoc in E. apply app_inj_tail in E as [-> _]. by eexists. }
      destruct (decide (j = 0%nat)) as [->|Hj]; [left; by apply prefix_nil_inv|]. right.
      destruct (other_word Hj) as (v' & Hv' & Hqv). exists v'. split; [done|]. by trans (take j w).
  - intros v [_ Hv]%elem_of_filter. by apply (repr_nonempty _ _ _ _ Hr).
  - intros s x i Hs Hx Hxi. specialize (Hlost s Hs). destruct (decide _); [congruence|]. rewrite Hx in Hlost.
    inversion Hlost as [y ? [_ Hsub] Ey|]; subst. symmetry in Ey. by eapply Hi, Hsub.
Qed.
End subtree.

Definition remove_spec w (ws : gset (list Z)) : gset (list Z) := if decide (w ∈ ws) then filter (λ v, ¬ w `prefix_of` v) ws else ws.
Lemma remove_word_repr t ws w : trie_repr t ws → indexed t → word_ok w →
  ∃ t', remove_word t w = Ok t' ∧ trie_repr t' (remove_spec w ws) ∧ indexed t'.
Proof using assign_inj count_children_law.
  intros Hr Hi Hw. unfold remove_spec. pose proof (repr_marked _ _ _ _ Hr w Hw) as Hmk. destruct w as [|c0 w0] eqn:Ew.
  { exists t. rewrite decide_False; [done|]. intros Hin. by destruct (repr_nonempty _ _ _ _ Hr _ Hin). }
  unfold remove_word. rewrite <- Ew in *. pose proof (remove_walk_ok w Hw t 0 (0%nat, c0)) as Hwalk.
  destruct (node_at t w) as [n|] eqn:En; [|rewrite Hwalk; exists t; rewrite decide_False; [done|]; intros Hin; by apply Hmk in Hin].
  destruct Hwalk as ([par val] & -> & j & Hchain & Hlow). cbn [mbind res_bind option_bind]. destruct (marked n) eqn:Em; cbn [negb].
  2: { exists t. rewrite decide_False; [done|]. intros Hin%Hmk. cbn in Hin. congruence. }
  assert (Hin : w ∈ ws) by (apply Hmk; cbn; by rewrite Em). rewrite decide_True by done.
  assert (∃ m, par = j ∧ w !! j = Some val ∧ node_at t (take j w) = Some m ∧ (j = 0%nat ∨ branching m)) as (m & -> & Hval & Hm & Hbr).
  { destruct Hlow as [([= -> ->] & -> & _)|(c & m & [= -> ->] & Hj & Hm & Hb)]; [exists t; rewrite Ew; split_and!; by try left|].
    exists m. split_and!; by try right. }
  assert (Hc : char_ok val) by exact (Forall_lookup_1 _ _ _ _ Hw Hval).
  assert (∃ child, children m !! ASSIGN_INDEX val = Some child) as [child Hch].
  { rewrite <- (take_drop j w), (drop_S _ _ _ Hval), node_at_app, Hm in En. cbn in En. destruct (children m !! _); [by eexists|done]. }
  destruct (remove_at_ok val (take j w) Hc ltac:(by apply Forall_take) t m child Hm Hch) as (t' & Ht' & _ & _ & Hlost).
  exists t'. split; [done|]. by apply (kept_repr t ws w j val m n).
Qed.

(** ** Any sequence of operations *)

Inductive trie_op := AddWord w | RemoveWord w.
Definition op_word (o : trie_op) : list Z := match o with AddWord w | RemoveWord w => w end.
Definition trie_step t (o : trie_op) : res (trie_node KEY) :=
  match o with
  | AddWord w => match add_word RANGE ASSIGN_INDEX t w with None => Ok t | Some r => r end
  | RemoveWord w => remove_word t w
  end.
Definition words_step (ws : gset (list Z)) (o : trie_op) : gset (list Z) :=
  match o with
  | AddWord w => if decide (w = []) then ws else {[w]} ∪ ws
  | RemoveWord w => remove_spec w ws
  end.
Fixpoint trie_run t (ops : list trie_op) : res (trie_node KEY) :=
  match ops with [] => Ok t | o :: ops => t ← trie_step t o; trie_run t ops end.

Lemma trie_step_repr t ws o : trie_repr t ws → indexed t → word_ok (op_word o) →
  ∃ t', trie_step t o = Ok t' ∧ trie_repr t' (words_step ws o) ∧ indexed t'.
Proof using assign_inj count_children_law.
  intros Hr Hi Hw. destruct o as [w|w]; cbn [trie_step words_step op_word] in *; [|by apply remove_word_repr].
  destruct (decide (w = [])) as [->|Hne]; [by exists t|].
  destruct (trie_repr_add RANGE ASSIGN_INDEX assign_inj t ws w Hr Hw Hne) as (t' & E & Hr'). exists t'. rewrite E. split; [done|]. split; [done|].
  eapply (indexed_add w Hw t); [done|]. unfold add_word in E. destruct w; [done|]. by injection E.
Qed.
Lemma trie_run_repr ops : ∀ t ws, trie_repr t ws → indexed t → Forall (λ o, word_ok (op_word o)) ops →
  ∃ t', trie_run t ops = Ok t' ∧ trie_repr t' (foldl words_step ws ops) ∧ indexed t'.
Proof using assign_inj count_children_law.
  induction ops as [|o ops IH]; intros t ws Hr Hi Hok; [by exists t|]. apply Forall_cons_1 in Hok as [Ho Hok].
  destruct (trie_step_repr t ws o Hr Hi Ho) as (t1 & E & Hr1 & Hi1). cbn [trie_run foldl]. rewrite E. by apply IH.
Qed.

(** * Properties *)

(** A trie holds a set of words under any sequence of additions and removals, when [count_children] is the number of children:
    adding puts the word in, and removing a word that is there takes out, besides it, every word that begins with it.  No
    operation leaves a child array or follows a null pointer. *)
Theorem trie_operations (ops : list trie_op) (s : list Z) : Forall (λ o, word_ok (op_word o)) ops → word_ok s →
  ∃ t, trie_run empty_node ops = Ok t ∧ contains_word RANGE ASSIGN_INDEX t s = Ok (bool_decide (s ∈ foldl words_step ∅ ops)) ∧
    is_prefix RANGE ASSIGN_INDEX t s = Ok (bool_decide (s = [] ∨ set_Exists (λ v, s `prefix_of` v) (foldl words_step ∅ ops))).
Proof using assign_inj count_children_law.
  intros Hok Hs. destruct (trie_run_repr ops empty_node ∅ (trie_repr_empty _ _ assign_inj) indexed_empty Hok) as (t & Ht & Hr & _).
  exists t. split; [done|]. unfold contains_word, is_prefix. rewrite search_ok by done. cbn [mbind res_bind]. split; f_equal; apply eq_true_iff_eq; rewrite bool_decide_eq_true.
  - rewrite <- (repr_marked _ _ _ _ Hr s Hs). destruct (node_at t s); cbn; split; congruence.
  - rewrite <- (repr_node _ _ _ _ Hr s Hs). destruct (node_at t s); split; by try (intros [? ?]).
Qed.

(** The destructor of a trie none of whose words begins with the character of index 0 frees its root alone: every other node is leaked. *)
Theorem destructor_leaks (ops : list trie_op) (fuel : nat) : Forall (λ o, word_ok (op_word o)) ops → (0 < fuel)%nat →
  set_Forall (λ v, ∀ c, head v = Some c → ASSIGN_INDEX c ≠ 0) (foldl words_step ∅ ops) →
  ∃ t, trie_run empty_node ops = Ok t ∧ destructor fuel t = Ok 1%nat.
Proof using assign_inj count_children_law.
  intros Hok Hf Hz. destruct (trie_run_repr ops empty_node ∅ (trie_repr_empty _ _ assign_inj) indexed_empty Hok) as (t & Ht & Hr & Hi).
  exists t. split; [done|]. destruct fuel as [|fuel]; [lia|]. cbn [destructor]. destruct (Z.to_nat RANGE) as [|n]; [done|]. cbn [remove_all_children_loop].
  destruct (children t !! 0) as [child|] eqn:E; [|done]. exfalso.
  destruct (Hi [] t 0) as (d & Hd & Ed); [constructor|done|by exists child|].
  destruct (proj1 (repr_node _ _ _ _ Hr [d] ltac:(by apply Forall_singleton))) as [?|(v & Hv & k & ->)]; [cbn; rewrite Ed, E; by eexists|done|].
  by apply (Hz _ Hv d).
Qed.
End trie_remove.

(** The word [ab] is lost with [a]. *)
Example remove_loses_extensions :
  (t ← trie_run 256 id (λ n : trie_node Z, Z.of_nat (size (children n))) empty_node [AddWord [97; 98]; AddWord [97]; AddWord [98]; RemoveWord [97]];
   b ← contains_word 256 id t [97; 98]; c ← contains_word 256 id t [98]; Ok (b, c)) = Ok (false, true).
Proof. reflexivity. Qed.
