(* ===== verification/Encap.v ===== *)
(** The contract between the protocols of the stack.

    Every protocol under [src/protocols] has the same two entry points: [send], which puts
    a header in front of the data and passes the packet to the send access below, and the
    [handle_recv] of [connect_recv], which takes the header off, checks it against the
    filters and passes the rest on.  [Encap] states what the two promise to
    each other; the net accesses built on a protocol, and stacks of protocols, are proved
    against it. *)

From Stdlib Require Import ZArith Lia.
From stdpp Require Import base decidable list numbers.
From S2P Require Import Prelude.

Class Encap (H F : Type) := {
  (** What [send] passes to [send_data]. *)
  encap_send : H → list Z → res (list Z);
  (** What the [handle_recv] of [connect_recv] passes to its receiver, if anything. *)
  encap_recv : F → list Z → res (option (H * list Z));
  (** The headers and data that [send] supports. *)
  encap_ok : H → list Z → Prop;
  (** The header as a receiver reads it: the computed fields are filled in. *)
  encap_seen : H → list Z → H;
  encap_match : F → H → bool;
  encap_bytes h d pkt : encap_ok h d → encap_send h d = Ok pkt → bytes_ok pkt;
  encap_total h d : encap_ok h d → ∃ pkt, encap_send h d = Ok pkt;
  encap_delivers h d f pkt : encap_ok h d → encap_send h d = Ok pkt →
    encap_recv f pkt = Ok (if encap_match f (encap_seen h d) then Some (encap_seen h d, d) else None)
}.

(** An optional filter of [connect_recv] rejects a value that differs from its own. *)
Definition filter_rejects {A} (eqb : A → A → bool) (filter : option A) (x : A) : bool :=
  match filter with Some y => negb (eqb x y) | None => false end.
Definition filter_accepts {A} (filter : option A) (x : A) : Prop :=
  match filter with Some y => x = y | None => True end.
#[export] Instance filter_accepts_dec `{EqDecision A} (f : option A) x : Decision (filter_accepts f x).
Proof. destruct f; simpl; apply _. Defined.

Lemma filter_rejects_spec `{EqDecision A} (eqb : A → A → bool) f x :
  (∀ y, f = Some y → eqb x y = bool_decide (x = y)) →
  filter_rejects eqb f x = bool_decide (¬ filter_accepts f x).
Proof.
  destruct f as [y|]; simpl; intros H.
  - rewrite (H y eq_refl). symmetry. apply bool_decide_not.
  - done.
Qed.

Lemma Z_filter_rejects f a : filter_rejects Z.eqb f a = bool_decide (¬ filter_accepts f a).
Proof. apply filter_rejects_spec. intros y _. apply eq_true_iff_eq. rewrite bool_decide_eq_true. apply Z.eqb_eq. Qed.

(** What a [send] passes on when its surface is there. *)
Definition sent (r : res (option (list Z))) : res (list Z) :=
  o ← r; of_option NullDeref o.

Lemma sent_inj p pkt : sent (Ok (Some p)) = Ok pkt → p = pkt.
Proof. unfold sent. cbn. congruence. Qed.

(** A receiver that may be missing: [if (recv_access != nullptr) recv_access->handle_recv(data)]. *)
Definition forward_if (recv_access_set : bool) {A} (x : option A) : option A :=
  if recv_access_set then x else None.

(** Two protocols on top of each other: the packet of the upper one is the data of the
    lower one, and what the lower one delivers is handled by the upper one. *)
Section two_layers.
Context {H1 F1 H2 F2 : Type} `{!Encap H1 F1} `{!Encap H2 F2}.

Definition stack_send (h1 : H1) (h2 : H2) (data : list Z) : res (list Z) :=
  pkt ← encap_send h2 data; encap_send h1 pkt.

Definition stack_recv (f1 : F1) (f2 : F2) (pkt : list Z) : res (option ((H1 * H2) * list Z)) :=
  o ← encap_recv f1 pkt;
  match o with
  | None => Ok None
  | Some (h1, inner) =>
      o2 ← encap_recv f2 inner;
      Ok (match o2 with None => None | Some (h2, data) => Some ((h1, h2), data) end)
  end.

Lemma stack_delivers h1 h2 data inner f1 f2 :
  encap_ok h2 data → encap_send h2 data = Ok inner → encap_ok h1 inner →
  ∃ pkt, stack_send h1 h2 data = Ok pkt ∧
    stack_recv f1 f2 pkt =
      Ok (if encap_match f1 (encap_seen h1 inner) && encap_match f2 (encap_seen h2 data)
          then Some ((encap_seen h1 inner, encap_seen h2 data), data) else None).
Proof.
  intros Ho2 Hs2 Ho1. destruct (encap_total h1 inner Ho1) as [pkt Hs1].
  exists pkt. unfold stack_send, stack_recv. rewrite Hs2. cbn. split; [done|].
  rewrite (encap_delivers h1 inner f1 pkt Ho1 Hs1). cbn.
  destruct (encap_match f1 (encap_seen h1 inner)); [|done].
  rewrite (encap_delivers h2 data f2 inner Ho2 Hs2). cbn.
  by destruct (encap_match f2 (encap_seen h2 data)).
Qed.
End two_layers.

(** The class of two stacked protocols: stacks of any height are built from it. *)
Section stack_instance.
Context {H1 F1 H2 F2 : Type} {E1 : Encap H1 F1} {E2 : Encap H2 F2}.

Definition stack_ok (h : H1 * H2) (d : list Z) : Prop :=
  encap_ok (snd h) d ∧ ∀ inner, encap_send (snd h) d = Ok inner → encap_ok (fst h) inner.
Definition stack_inner (h : H2) (d : list Z) : list Z :=
  match encap_send h d with Ok inner => inner | Fault _ => [] end.

#[local] Lemma stack_bytes h d pkt : stack_ok h d → stack_send (fst h) (snd h) d = Ok pkt → bytes_ok pkt.
Proof.
  intros [Ho Hi] (inner & Hs & Hs1)%res_bind_ok. by apply (encap_bytes (fst h) inner pkt (Hi _ Hs)).
Qed.
#[local] Lemma stack_total h d : stack_ok h d → ∃ pkt, stack_send (fst h) (snd h) d = Ok pkt.
Proof.
  intros [Ho Hi]. destruct (encap_total _ _ Ho) as [inner Hs].
  destruct (encap_total _ _ (Hi inner Hs)) as [pkt Hp]. exists pkt.
  unfold stack_send. by rewrite Hs.
Qed.
#[local] Lemma stack_delivers' h d f pkt :
  stack_ok h d → stack_send (fst h) (snd h) d = Ok pkt →
  stack_recv (fst f) (snd f) pkt
  = Ok (if encap_match (fst f) (encap_seen (fst h) (stack_inner (snd h) d))
           && encap_match (snd f) (encap_seen (snd h) d)
        then Some ((encap_seen (fst h) (stack_inner (snd h) d), encap_seen (snd h) d), d) else None).
Proof.
  intros [Ho Hi] Hp. destruct (encap_total _ _ Ho) as [inner Hs].
  destruct (stack_delivers (fst h) (snd h) d inner (fst f) (snd f) Ho Hs (Hi inner Hs)) as (pkt' & E & Hr).
  rewrite Hp in E. simplify_eq. unfold stack_inner. rewrite Hs. exact Hr.
Qed.

#[export] Instance stack_encap : Encap (H1 * H2) (F1 * F2) | 10 := {|
  encap_send h d := stack_send (fst h) (snd h) d;
  encap_recv f pkt := stack_recv (fst f) (snd f) pkt;
  encap_ok := stack_ok;
  encap_seen h d := (encap_seen (fst h) (stack_inner (snd h) d), encap_seen (snd h) d);
  encap_match f h := encap_match (fst f) (fst h) && encap_match (snd f) (snd h);
  encap_bytes := stack_bytes;
  encap_total := stack_total;
  encap_delivers := stack_delivers'
|}.
End stack_instance.
