(* ===== verification/Routing.v ===== *)
(** Routing tables: [src/abstract/routing/routing_table.h], and the longest-prefix search
    that [ip4_routing_table.h] and [ptp_local_conn_routing_table.h] implement alike.

    A route is a [shared_ptr<net_access>]: [None] is null. *)

From Stdlib Require Import ZArith Lia.
From stdpp Require Import base decidable list numbers.
From S2P Require Import Prelude.

Section routing.
(** A net mask, the number of its bits, and the test of an address against it, which
    may read out of bounds. *)
Context {MASK ADDR R : Type} (mask_bits : MASK → Z) (inside : MASK → ADDR → res bool).

Record routing_table := RoutingTable {
  rules : list (MASK * option R);
  default_gateway : option R
}.

Definition add_routing_rule (net_mask : MASK) (route : option R) (t : routing_table) : routing_table :=
  RoutingTable (rules t ++ [(net_mask, route)]) (default_gateway t).
Definition set_default_gateway (route : option R) (t : routing_table) : routing_table :=
  RoutingTable (rules t) route.

(** The loop of [impl_find_route], with its [closest_subnet] and [closest_route]. *)
Fixpoint closest_loop (rs : list (MASK * option R)) (addr : ADDR)
    (closest_subnet : option MASK) (closest_route : option R) : res (option R) :=
  match rs with
  | [] => Ok closest_route
  | (subnet, route) :: rs =>
      b ← inside subnet addr;
      if (b : bool) then
        match closest_subnet with
        | None => closest_loop rs addr (Some subnet) route
        | Some c =>
            if mask_bits c <? mask_bits subnet then closest_loop rs addr (Some subnet) route
            else closest_loop rs addr closest_subnet closest_route
        end
      else closest_loop rs addr closest_subnet closest_route
  end.
Definition impl_find_route (t : routing_table) (addr : ADDR) : res (option R) :=
  closest_loop (rules t) addr None None.

Definition find_route (t : routing_table) (addr : ADDR) : res (option R) :=
  route ← impl_find_route t addr;
  Ok (match route with Some r => Some r | None => default_gateway t end).

(** ** The best rule *)

(** [is_best rs addr i]: rule [i] matches, no matching rule has more bits, and every
    earlier matching rule has fewer. *)
Definition rule_matches (rs : list (MASK * option R)) (addr : ADDR) (i : nat) : Prop :=
  ∃ m r, rs !! i = Some (m, r) ∧ inside m addr = Ok true.
Definition is_best (rs : list (MASK * option R)) (addr : ADDR) (i : nat) (m : MASK) (r : option R) : Prop :=
  rs !! i = Some (m, r) ∧ inside m addr = Ok true ∧
  ∀ j m' r', rs !! j = Some (m', r') → inside m' addr = Ok true →
    mask_bits m' ≤ mask_bits m ∧ ((j < i)%nat → mask_bits m' < mask_bits m).

(** No test reads out of bounds. *)
Definition tests_ok (rs : list (MASK * option R)) (addr : ADDR) : Prop :=
  Forall (λ mr, ∃ b, inside (fst mr) addr = Ok b) rs.

Lemma is_best_snoc_other rs addr i m r m' r' :
  is_best rs addr i m r →
  (inside m' addr = Ok false ∨ mask_bits m' ≤ mask_bits m) →
  is_best (rs ++ [(m', r')]) addr i m r.
Proof.
  intros (Hi & Hin & Hb) Ho. split; [by apply lookup_app_l_Some|]. split; [done|].
  intros j m2 r2 [Hj|[Hlen Hj]]%lookup_app_Some H2; [by apply (Hb j m2 r2)|].
  apply list_lookup_singleton_Some in Hj as [Hj E]. simplify_eq.
  apply lookup_lt_Some in Hi. destruct Ho as [Ho|Ho]; [congruence|]. split; [done|lia].
Qed.
Lemma is_best_snoc_new rs addr m r :
  inside m addr = Ok true →
  (∀ j m' r', rs !! j = Some (m', r') → inside m' addr = Ok true → mask_bits m' < mask_bits m) →
  is_best (rs ++ [(m, r)]) addr (length rs) m r.
Proof.
  intros Hin Hlt. split; [by rewrite list_lookup_middle|]. split; [done|].
  intros j m2 r2 [Hj|[Hlen Hj]]%lookup_app_Some H2.
  - specialize (Hlt j m2 r2 Hj H2). lia.
  - apply list_lookup_singleton_Some in Hj as [Hj E]. simplify_eq. split; lia.
Qed.

(** The loop's invariant: what it has seen is summarised by the best rule so far. *)
Lemma closest_loop_spec todo addr : ∀ seen cs cr,
  tests_ok todo addr →
  match cs with
  | None => cr = None ∧ ∀ i, ¬ rule_matches seen addr i
  | Some m => ∃ i, is_best seen addr i m cr
  end →
  ∃ o, closest_loop todo addr cs cr = Ok o ∧
    ((∃ i m, is_best (seen ++ todo) addr i m o) ∨ (o = None ∧ ∀ i, ¬ rule_matches (seen ++ todo) addr i)).
Proof.
  induction todo as [|[m r] todo IH]; intros seen cs cr Ht Hinv.
  - exists cr. split; [done|]. rewrite app_nil_r. destruct cs; [left; naive_solver|by right].
  - apply Forall_cons_1 in Ht as [[b Hb] Ht]. simpl in Hb. cbn [closest_loop]. rewrite Hb. cbn.
    replace (seen ++ (m, r) :: todo) with ((seen ++ [(m, r)]) ++ todo) by by rewrite <- app_assoc.
    destruct b.
    + destruct cs as [c|].
      * destruct Hinv as [i Hi]. destruct (Z.ltb_spec (mask_bits c) (mask_bits m)).
        -- apply IH; [done|]. exists (length seen). apply is_best_snoc_new; [done|].
           intros j m' r' Hj Hin. destruct Hi as (_ & _ & Hi). specialize (Hi j m' r' Hj Hin). lia.
        -- apply IH; [done|]. exists i. apply is_best_snoc_other; [done|by right].
      * destruct Hinv as [-> Hno]. apply IH; [done|]. exists (length seen).
        apply is_best_snoc_new; [done|]. intros j m' r' Hj Hin. destruct (Hno j). by exists m', r'.
    + apply IH; [done|]. destruct cs as [c|].
      * destruct Hinv as [i Hi]. exists i. apply is_best_snoc_other; [done|by left].
      * destruct Hinv as [-> Hno]. split; [done|].
        intros i (m' & r' & [Hj|[Hlen Hj]]%lookup_app_Some & Hin); [destruct (Hno i); by exists m', r'|].
        apply list_lookup_singleton_Some in Hj as [Hj E]. simplify_eq. congruence.
Qed.

Lemma find_route_best t addr i m r :
  tests_ok (rules t) addr → is_best (rules t) addr i m r →
  find_route t addr = Ok (match r with Some x => Some x | None => default_gateway t end).
Proof.
  intros Ht (Hi & Hin & Hb). unfold find_route, impl_find_route.
  destruct (closest_loop_spec (rules t) addr [] None None Ht) as (o & -> & Ho).
  { split; [done|]. intros j (? & ? & Hj & _). by rewrite lookup_nil in Hj. }
  cbn [app] in Ho. destruct Ho as [(j & m' & Hj & Hin' & Hb')|[_ Hno]].
  - assert (i = j) as <-.
    { specialize (Hb j m' o Hj Hin'). specialize (Hb' i m r Hi Hin).
      destruct (Nat.lt_trichotomy i j) as [?|[?|?]]; [lia|done|lia]. }
    rewrite Hi in Hj. by simplify_eq.
  - destruct (Hno i). by exists m, r.
Qed.
Lemma find_route_default t addr :
  tests_ok (rules t) addr → (∀ i, ¬ rule_matches (rules t) addr i) →
  find_route t addr = Ok (default_gateway t).
Proof.
  intros Ht Hno. unfold find_route, impl_find_route.
  destruct (closest_loop_spec (rules t) addr [] None None Ht) as (o & -> & Ho).
  { split; [done|]. intros j (? & ? & Hj & _). by rewrite lookup_nil in Hj. }
  cbn [app] in Ho. destruct Ho as [(j & m' & Hj & Hin' & _)|[-> _]]; [|done].
  destruct (Hno j). by exists m', o.
Qed.
End routing.

Arguments RoutingTable {MASK R} _ _.
Arguments rules {MASK R} _.
Arguments default_gateway {MASK R} _.
Arguments routing_table : clear implicits.
