(* ===== verification/Ether2.v ===== *)
(** Ethernet: [src/protocols/ether2].

    MAC addresses with their order and text form, ethertypes, the 14-byte header, the CRC, the
    protocol's [send] and [connect_recv], and its two kinds of net access. *)

From Stdlib Require Import ZArith Lia String.
From stdpp Require Import base decidable list numbers.
From S2P Require Import Prelude Cursor Text Encap.

(** * mac_addr.h, mac_addr.cpp *)

Record mac_addr := MacAddr { mac_octets : list Z }.
#[export] Instance mac_addr_eq_dec : EqDecision mac_addr.
Proof. solve_decision. Defined.

(** [uint8_t octets[6]]. *)
Definition mac_ok (a : mac_addr) : Prop := length (mac_octets a) = 6%nat ∧ bytes_ok (mac_octets a).

Definition mac_eqb (a rhs : mac_addr) : bool := array_eqb (mac_octets a) (mac_octets rhs).
Definition mac_neb (a rhs : mac_addr) : bool := negb (mac_eqb rhs a).
Definition mac_ltb (a rhs : mac_addr) : bool := array_ltb (mac_octets a) (mac_octets rhs).
Definition mac_gtb (a rhs : mac_addr) : bool := mac_ltb rhs a.
Definition mac_leb (a rhs : mac_addr) : bool := negb (mac_ltb rhs a).
Definition mac_geb (a rhs : mac_addr) : bool := negb (mac_ltb a rhs).

Definition mac_addr_broadcast : mac_addr := MacAddr [255; 255; 255; 255; 255; 255].
Definition mac_addr_empty : mac_addr := MacAddr [0; 0; 0; 0; 0; 0].

(** [^([0-9A-Fa-f]{2}[:-]){5}([0-9A-Fa-f]{2})$] *)
Fixpoint mac_regex (groups : nat) (s : list Z) : bool :=
  match groups, s with
  | O, [c; d] => is_hex c && is_hex d
  | S groups, c :: d :: sep :: s =>
      is_hex c && is_hex d && ((sep =? 58) || (sep =? 45)) && mac_regex groups s
  | _, _ => false
  end.

(** The loop over the six octets: [n] of them are left. *)
Fixpoint mac_parse_loop (n : nat) (delim : Z) (ss : stream) (byteStr : list Z) (octets : list Z) :
    res (list Z) :=
  match n with
  | O => Ok octets
  | S n =>
      let '(byteStr, ss) :=
        if (0 <? n)%nat then getline ss byteStr delim else read_word ss byteStr in
      v ← stoul16 byteStr;
      mac_parse_loop n delim ss byteStr (octets ++ [u8 v])
  end.
Definition str_to_mac_addr (s : list Z) : res (option mac_addr) :=
  if negb (mac_regex 5 s) then Ok None
  else
    let delim := match find_char 58 s with Some _ => 58 | None => 45 end in
    octets ← mac_parse_loop 6 delim (Some s) [] [];
    Ok (Some (MacAddr octets)).

(** [snprintf] with [%02x:%02x:%02x:%02x:%02x:%02x]: the buffer of 18 bytes is enough for the
    17 characters. *)
Definition mac_addr_to_str (addr : mac_addr) : list Z := join [58] (hex2 <$> mac_octets addr).

Definition write_mac_addr (a : mac_addr) : wr nat := put_bytes (mac_octets a);; mret 6%nat.
Definition extract_mac_addr : rd (mac_addr * nat) := bs ← get_bytes 6; mret (MacAddr bs, 6%nat).

(** * ethertype.h, ethertype.cpp *)

(** [enum ethertype : uint16_t]: any 16-bit value can occur. *)
Definition ethertype_ip4 : Z := 2048.
Definition ethertype_arp : Z := 2054.
Definition ethertype_to_str (prot : Z) : option (list Z) :=
  if prot =? ethertype_arp then Some (str "arp")
  else if prot =? ethertype_ip4 then Some (str "ip4") else None.
Definition str_to_ethertype (s : list Z) : option Z :=
  if decide (s = str "arp") then Some ethertype_arp
  else if decide (s = str "ip4") then Some ethertype_ip4 else None.

(** * ethernet2_header.h, ethernet2_header.cpp *)

Record ethernet2_header := Ethernet2Header {
  eth_src_addr : mac_addr;
  eth_dest_addr : mac_addr;
  eth_prot : Z
}.
Definition ethernet2_header_ok (h : ethernet2_header) : Prop :=
  mac_ok (eth_src_addr h) ∧ mac_ok (eth_dest_addr h) ∧ u16_ok (eth_prot h).

(** [sizeof(ethernet2_header)]: 6 + 6 + 2 bytes, no padding. *)
Definition sizeof_ethernet2_header : nat := 14.

Definition write_ethernet2_header (h : ethernet2_header) : wr nat :=
  advance (write_mac_addr (eth_dest_addr h));;
  advance (write_mac_addr (eth_src_addr h));;
  put16 (htons (eth_prot h));;
  mret sizeof_ethernet2_header.
Definition extract_ethernet2_header : rd (ethernet2_header * nat) :=
  dest_addr ← take_in extract_mac_addr;
  src_addr ← take_in extract_mac_addr;
  prot ← ntohs <$> get16;
  mret (Ethernet2Header src_addr dest_addr prot, sizeof_ethernet2_header).

(** ** The CRC *)

Definition POLY : Z := 0xEDB88320.
Definition crc_step (crc : Z) : Z :=
  if negb (Z.land crc 1 =? 0) then Z.lxor POLY (Z.shiftr crc 1) else Z.shiftr crc 1.
Definition init_crc32_table : list Z := (λ i, Nat.iter 8 crc_step i) <$> seqZ 0 256.
Definition crc_byte (crc b : Z) : Z :=
  let index := u8 (Z.land (Z.lxor crc b) 255) in
  Z.lxor (Z.shiftr crc 8) (default 0 (init_crc32_table !! Z.to_nat index)).
Definition ethernet_calc_crc (data : list Z) : Z :=
  u32 (Z.lnot (foldl crc_byte 0xFFFFFFFF data)).

(** * ethernet2_protocol.h, ethernet2_protocol.cpp *)

(** [send]: the argument [surface] is whether [ether2_surface] is not null; the result is
    what is passed to [send_data], if anything. *)
Definition ether2_send (surface : bool) (header : ethernet2_header) (data : list Z) : res (option (list Z)) :=
  if negb surface then Ok None
  else
    let buff := replicate (sizeof_ethernet2_header + length data) 0 in
    '(buff, _) ← run_write (write_ethernet2_header header) buff;
    buff ← memcpy buff sizeof_ethernet2_header data;
    Ok (Some buff).

(** [handle_recv] of the receiver that [connect_recv] installs: what it passes to [recv]. *)
Definition ether2_handle_recv (src_addr dest_addr : option mac_addr) (type : option Z) (data : list Z) :
    res (option (ethernet2_header * list Z)) :=
  '(eth_header, _) ← run_extract extract_ethernet2_header data;
  encap_data ← subvector data sizeof_ethernet2_header (length data);
  if filter_rejects mac_eqb src_addr (eth_src_addr eth_header) then Ok None
  else if filter_rejects mac_eqb dest_addr (eth_dest_addr eth_header) then Ok None
  else if filter_rejects Z.eqb type (eth_prot eth_header) then Ok None
  else Ok (Some (eth_header, encap_data)).

(** The headers that the net accesses put on what they send. *)
Definition ether2_broadcast_header (dest_addr : option mac_addr) (prot : option Z) : ethernet2_header :=
  Ethernet2Header (default mac_addr_empty dest_addr) mac_addr_broadcast (default 0 prot).
Definition ether2_single_header (src_addr : mac_addr) (dest_addr : option mac_addr) (prot : option Z) :
    ethernet2_header :=
  Ethernet2Header (default mac_addr_empty dest_addr) src_addr (default 0 prot).

Definition ether2_broadcast_send (surface : bool) dest_addr prot (data : list Z) : res (option (list Z)) :=
  ether2_send surface (ether2_broadcast_header dest_addr prot) data.
Definition ether2_broadcast_recv (recv_access_set : bool) dest_addr prot (data : list Z) : res (option (list Z)) :=
  o ← ether2_handle_recv None dest_addr prot data;
  Ok (forward_if recv_access_set (snd <$> o)).
Definition ether2_single_send (surface : bool) src_addr dest_addr prot (data : list Z) : res (option (list Z)) :=
  ether2_send surface (ether2_single_header src_addr dest_addr prot) data.
Definition ether2_single_recv (recv_access_set : bool) src_addr dest_addr prot (data : list Z) :
    res (option (list Z)) :=
  o ← ether2_handle_recv (Some src_addr) dest_addr prot data;
  Ok (forward_if recv_access_set (snd <$> o)).

(** * Lemmas *)

Lemma mac_eqb_spec a b : mac_ok a → mac_ok b → mac_eqb a b = bool_decide (a = b).
Proof.
  destruct a as [a], b as [b]. intros [Ha _] [Hb _]. unfold mac_eqb. simpl in *.
  rewrite array_eqb_spec by congruence. apply bool_decide_ext. naive_solver.
Qed.

Lemma writes_mac a : mac_ok a → writes (write_mac_addr a) (mac_octets a) 6%nat.
Proof.
  intros [Hl _]. eapply writes_cast; [unfold write_mac_addr; solve_writes|apply app_nil_r|done].
Qed.
Lemma writes_mac_advance a : mac_ok a → writes (advance (write_mac_addr a)) (mac_octets a) tt.
Proof. intros H. eapply writes_advance; [by apply writes_mac|]. symmetry. apply H. Qed.
Lemma reads_mac a : mac_ok a → reads (take_in extract_mac_addr) (mac_octets a) a.
Proof.
  intros [Hl _]. destruct a as [o]. simpl in *. apply reads_take_in. rewrite Hl.
  eapply reads_cast; [eapply reads_bind; [apply reads_get_bytes'; by rewrite Hl|apply reads_ret]|by rewrite app_nil_r|done].
Qed.
Lemma size_mac : rd_size (take_in extract_mac_addr) 6.
Proof.
  apply rd_size_take_in. eapply extract_size_cast; [unfold extract_mac_addr; solve_size|done].
Qed.
#[export] Hint Resolve writes_mac_advance reads_mac size_mac : wire.

Definition ethernet2_bytes (h : ethernet2_header) : list Z :=
  mac_octets (eth_dest_addr h) ++ mac_octets (eth_src_addr h) ++ be16 (eth_prot h).

Lemma mac_empty_ok : mac_ok mac_addr_empty.
Proof. by repeat constructor. Qed.
Lemma mac_broadcast_ok : mac_ok mac_addr_broadcast.
Proof. split; [done|]. cbn. solve_bytes. Qed.
Lemma ethernet2_bytes_ok h : ethernet2_header_ok h → bytes_ok (ethernet2_bytes h).
Proof. intros ([_ Hs] & [_ Hde] & Hp). unfold ethernet2_bytes. solve_bytes. Qed.
Lemma ethernet2_bytes_length h : ethernet2_header_ok h → length (ethernet2_bytes h) = 14%nat.
Proof. intros ([H1 _] & [H2 _] & _). unfold ethernet2_bytes. rewrite !length_app, H1, H2. done. Qed.

Lemma writes_ethernet2 h :
  ethernet2_header_ok h → writes (write_ethernet2_header h) (ethernet2_bytes h) 14%nat.
Proof.
  intros (Hs & Hd & Hp). eapply writes_cast; [unfold write_ethernet2_header; solve_writes| |done].
  unfold ethernet2_bytes. by rewrite app_nil_r.
Qed.
Lemma reads_ethernet2 h :
  ethernet2_header_ok h → reads extract_ethernet2_header (ethernet2_bytes h) (h, 14%nat).
Proof.
  intros (Hs & Hd & Hp). destruct h as [s d p]. eapply reads_cast.
  - unfold extract_ethernet2_header. eapply reads_bind; [apply (reads_mac d), Hd|].
    eapply reads_bind; [apply (reads_mac s), Hs|].
    eapply reads_bind; [apply reads_ntohs, Hp|apply reads_ret].
  - unfold ethernet2_bytes. simpl. by rewrite ?app_nil_r, <- ?app_assoc.
  - done.
Qed.
Lemma size_ethernet2 : extract_size extract_ethernet2_header 14 14.
Proof. eapply extract_size_cast; [unfold extract_ethernet2_header; solve_size|done]. Qed.
#[export] Hint Resolve writes_ethernet2 reads_ethernet2 size_ethernet2 : wire.

Lemma ether2_send_ok h data :
  ethernet2_header_ok h → ether2_send true h data = Ok (Some (ethernet2_bytes h ++ data)).
Proof.
  intros Hh. pose proof (packet_build _ _ _ 14 data (writes_ethernet2 h Hh) (ethernet2_bytes_length h Hh)) as Hp.
  unfold ether2_send, sizeof_ethernet2_header. cbn [negb].
  destruct (run_write _ _) as [[buff n]|]; cbn in *; [by rewrite Hp|done].
Qed.

(** The filters of [connect_recv] against a header. *)
Definition ether2_filter : Type := option mac_addr * option mac_addr * option Z.
Definition ether2_match (f : ether2_filter) (h : ethernet2_header) : Prop :=
  filter_accepts (fst (fst f)) (eth_src_addr h) ∧ filter_accepts (snd (fst f)) (eth_dest_addr h) ∧
  filter_accepts (snd f) (eth_prot h).
#[export] Instance ether2_match_dec f h : Decision (ether2_match f h).
Proof. unfold ether2_match. apply _. Defined.

(** A MAC filter compares as equality does on the addresses of real headers. *)
Lemma mac_filter_rejects f a :
  mac_ok a → (∀ b, f = Some b → mac_ok b) →
  filter_rejects mac_eqb f a = bool_decide (¬ filter_accepts f a).
Proof. intros Ha Hf. apply filter_rejects_spec. intros y Hy. by apply mac_eqb_spec; [|apply Hf]. Qed.
(** A filter address as the code has it: six octets. *)
Record ether2_filters := Ether2Filters {
  ef_src : option mac_addr; ef_dest : option mac_addr; ef_type : option Z;
  ef_src_ok : ∀ b, ef_src = Some b → mac_ok b;
  ef_dest_ok : ∀ b, ef_dest = Some b → mac_ok b
}.
Definition ef_match (f : ether2_filters) : ethernet2_header → bool :=
  λ h, bool_decide (ether2_match (ef_src f, ef_dest f, ef_type f) h).

Lemma ether2_recv_ok f h data :
  ethernet2_header_ok h →
  ether2_handle_recv (ef_src f) (ef_dest f) (ef_type f) (ethernet2_bytes h ++ data)
  = Ok (if ef_match f h then Some (h, data) else None).
Proof.
  intros Hh. destruct (packet_parse _ _ _ 14 data (reads_ethernet2 h Hh) (ethernet2_bytes_length h Hh)) as [H1 H2].
  unfold ether2_handle_recv, sizeof_ethernet2_header. rewrite H1. cbn. rewrite H2. cbn.
  destruct Hh as (Hs & Hd & _).
  rewrite (mac_filter_rejects _ _ Hs (ef_src_ok f)), (mac_filter_rejects _ _ Hd (ef_dest_ok f)), Z_filter_rejects.
  unfold ef_match, ether2_match. cbn [fst snd].
  repeat case_bool_decide; naive_solver.
Qed.

Lemma ether2_recv_short src dest type data :
  (length data < 14)%nat → ether2_handle_recv src dest type data = Fault OutOfBounds.
Proof.
  intros Hl. unfold ether2_handle_recv. by rewrite (extract_size_short _ _ _ _ size_ethernet2 Hl).
Qed.

#[export] Program Instance ether2_encap : Encap ethernet2_header ether2_filters := {|
  encap_send h d := sent (ether2_send true h d);
  encap_recv f d := ether2_handle_recv (ef_src f) (ef_dest f) (ef_type f) d;
  encap_ok h d := ethernet2_header_ok h ∧ bytes_ok d;
  encap_seen h d := h;
  encap_match := ef_match
|}.
Next Obligation.
  intros h d pkt [Hh Hd]. rewrite ether2_send_ok by done. intros <-%sent_inj.
  apply Forall_app_2; [by apply ethernet2_bytes_ok|done].
Qed.
Next Obligation. intros h d [Hh Hd]. rewrite ether2_send_ok by done. by eexists. Qed.
Next Obligation.
  intros h d f pkt [Hh Hd]. rewrite ether2_send_ok by done. intros <-%sent_inj.
  by apply ether2_recv_ok.
Qed.

(** ** The text form *)

Lemma mac_parse_step n c d rest byteStr octets v :
  c ≠ 58 → d ≠ 58 → stoul16 [c; d] = Ok v → byte_ok v →
  mac_parse_loop (S (S n)) 58 (Some (c :: d :: 58 :: rest)) byteStr octets
  = mac_parse_loop (S n) 58 (Some rest) [c; d] (octets ++ [v]).
Proof.
  intros Hc Hd Hv Hb. remember (S n) as m eqn:Em. cbn [mac_parse_loop]. subst m.
  change (0 <? S n)%nat with true. cbn [getline find_char].
  rewrite (proj2 (Z.eqb_neq c 58) Hc), (proj2 (Z.eqb_neq d 58) Hd). cbn -[mac_parse_loop stoul16].
  rewrite Hv. cbn -[mac_parse_loop]. by rewrite u8_small.
Qed.
Lemma mac_parse_last c d byteStr octets v :
  is_space c = false → is_space d = false → stoul16 [c; d] = Ok v → byte_ok v →
  mac_parse_loop 1 58 (Some [c; d]) byteStr octets = Ok (octets ++ [v]).
Proof.
  intros Hc Hd Hv Hb. cbn -[stoul16 read_word]. unfold read_word. cbn -[stoul16].
  rewrite Hc. cbn -[stoul16]. rewrite Hc, Hd. cbn -[stoul16]. rewrite Hv. cbn. by rewrite u8_small.
Qed.

Lemma str_to_mac_to_str a : mac_ok a → str_to_mac_addr (mac_addr_to_str a) = Ok (Some a).
Proof.
  destruct a as [o]. intros [Hl Ho]. simpl in *.
  destruct o as [|o1 [|o2 [|o3 [|o4 [|o5 [|o6 [|]]]]]]]; try done. clear Hl.
  repeat match goal with H : Forall _ (_ :: _) |- _ => apply Forall_cons_1 in H as [? H] end.
  destruct (hex2_spec o1) as (a1 & b1 & E1 & ? & ? & V1 & ? & ? & _ & _); [done|].
  destruct (hex2_spec o2) as (a2 & b2 & E2 & ? & ? & V2 & ? & ? & _ & _); [done|].
  destruct (hex2_spec o3) as (a3 & b3 & E3 & ? & ? & V3 & ? & ? & _ & _); [done|].
  destruct (hex2_spec o4) as (a4 & b4 & E4 & ? & ? & V4 & ? & ? & _ & _); [done|].
  destruct (hex2_spec o5) as (a5 & b5 & E5 & ? & ? & V5 & ? & ? & _ & _); [done|].
  destruct (hex2_spec o6) as (a6 & b6 & E6 & ? & ? & V6 & ? & ? & ? & ?); [done|].
  unfold str_to_mac_addr, mac_addr_to_str. cbn [mac_octets fmap list_fmap].
  rewrite E1, E2, E3, E4, E5, E6. cbn [join app].
  assert (Hreg : mac_regex 5 [a1; b1; 58; a2; b2; 58; a3; b3; 58; a4; b4; 58; a5; b5; 58; a6; b6] = true).
  { cbn -[is_hex]. repeat match goal with H : is_hex _ = true |- _ => rewrite H; clear H end. done. }
  rewrite Hreg. cbn [negb find_char].
  rewrite (proj2 (Z.eqb_neq a1 58)), (proj2 (Z.eqb_neq b1 58)) by done. cbn [Z.eqb Pos.eqb fmap option_fmap option_map].
  rewrite !(mac_parse_step _ _ _ _ _ _ o1), !(mac_parse_step _ _ _ _ _ _ o2), !(mac_parse_step _ _ _ _ _ _ o3),
    !(mac_parse_step _ _ _ _ _ _ o4), !(mac_parse_step _ _ _ _ _ _ o5) by done.
  by rewrite (mac_parse_last _ _ _ _ o6).
Qed.

(** ** The CRC against its bitwise definition *)

(** One byte of the reflected CRC-32, bit by bit. *)
Definition crc_bitwise (crc b : Z) : Z := Nat.iter 8 crc_step (Z.lxor crc b).

Lemma crc_step_odd x : crc_step x = Z.lxor (if Z.odd x then POLY else 0) (Z.shiftr x 1).
Proof.
  unfold crc_step. change 1 with (Z.ones 1) at 1. rewrite Z.land_ones by lia.
  change (2 ^ 1) with 2. rewrite Zmod_odd. by destruct (Z.odd x).
Qed.
Lemma crc_step_lxor x y : crc_step (Z.lxor x y) = Z.lxor (crc_step x) (crc_step y).
Proof.
  rewrite !crc_step_odd, Z.shiftr_lxor, <- !Z.bit0_odd, Z.lxor_spec.
  destruct (Z.testbit x 0), (Z.testbit y 0); simpl; rewrite ?Z.lxor_0_l.
  - rewrite <- Z.lxor_assoc, (Z.lxor_comm (Z.lxor POLY _) POLY), <- Z.lxor_assoc, Z.lxor_nilpotent.
    by rewrite Z.lxor_0_l.
  - by rewrite Z.lxor_assoc.
  - by rewrite <- Z.lxor_assoc, (Z.lxor_comm POLY), Z.lxor_assoc.
  - done.
Qed.
Lemma crc_iter_lxor n x y :
  Nat.iter n crc_step (Z.lxor x y) = Z.lxor (Nat.iter n crc_step x) (Nat.iter n crc_step y).
Proof. induction n as [|n IH]; [done|]. rewrite !Nat.iter_succ, IH. apply crc_step_lxor. Qed.
Lemma crc_iter_shift n w : Nat.iter n crc_step (Z.shiftl w (Z.of_nat n)) = w.
Proof.
  revert w. induction n as [|n IH]; intros w; [apply Z.shiftl_0_r|].
  rewrite Nat.iter_succ_r. replace (crc_step (Z.shiftl w (Z.of_nat (S n)))) with (Z.shiftl w (Z.of_nat n)); [done|].
  rewrite crc_step_odd, <- Z.bit0_odd, Z.shiftl_spec_low, Z.lxor_0_l by lia.
  rewrite Z.shiftr_shiftl_l by lia. f_equal. lia.
Qed.

Lemma crc_byte_bitwise crc b : byte_ok b → crc_byte crc b = crc_bitwise crc b.
Proof.
  intros Hb. unfold crc_byte, crc_bitwise. set (z := Z.lxor crc b).
  assert (Hz : z = Z.lxor (Z.land z 255) (Z.shiftl (Z.shiftr z 8) 8)).
  { apply Z.bits_inj_iff'. intros i Hi. rewrite Z.lxor_spec, Z.land_spec.
    change 255 with (Z.ones 8). destruct (Z.ltb_spec i 8).
    - rewrite Z.ones_spec_low, Z.shiftl_spec_low, andb_true_r, xorb_false_r by lia. done.
    - rewrite Z.ones_spec_high, Z.shiftl_spec, Z.shiftr_spec, andb_false_r by lia.
      rewrite xorb_false_l. f_equal. lia. }
  assert (Hsh : Z.shiftr z 8 = Z.shiftr crc 8).
  { unfold z. rewrite Z.shiftr_lxor. replace (Z.shiftr b 8) with 0; [apply Z.lxor_0_r|].
    rewrite Z.shiftr_div_pow2, Z.div_small by (unfold byte_ok in Hb; lia). done. }
  assert (Hr : byte_ok (Z.land z 255)).
  { change 255 with (Z.ones 8). rewrite Z.land_ones by lia. apply mod256_ok. }
  rewrite u8_small by done. unfold init_crc32_table. rewrite list_lookup_fmap.
  rewrite lookup_seqZ_lt by (unfold byte_ok in Hr; lia). cbn [fmap option_fmap option_map default].
  rewrite Z.add_0_l, Z2Nat.id by (unfold byte_ok in Hr; lia).
  rewrite Hz at 2. rewrite crc_iter_lxor.
  change (Z.shiftl (Z.shiftr z 8) 8) with (Z.shiftl (Z.shiftr z 8) (Z.of_nat 8)).
  rewrite crc_iter_shift, Hsh. apply Z.lxor_comm.
Qed.

(** * Properties *)

(** A frame sent with [send] is the header in network order (destination, source, type) in front
    of the data; the receiver installed by [connect_recv] gives the header and the data back exactly when the three
    filters accept them, and nothing otherwise. *)
Theorem ether2_send_recv (h : ethernet2_header) (data : list Z) (f : ether2_filters) :
  ethernet2_header_ok h →
  ether2_send true h data = Ok (Some (ethernet2_bytes h ++ data)) ∧
  ether2_handle_recv (ef_src f) (ef_dest f) (ef_type f) (ethernet2_bytes h ++ data)
  = Ok (if decide (ether2_match (ef_src f, ef_dest f, ef_type f) h) then Some (h, data) else None).
Proof.
  intros Hh. split; [by apply ether2_send_ok|]. rewrite ether2_recv_ok by done. unfold ef_match.
  case_bool_decide; by case_decide.
Qed.
Definition mac_witness : ethernet2_header :=
  Ethernet2Header (MacAddr [2; 0; 0; 0; 0; 1]) mac_addr_broadcast ethertype_ip4.
Lemma ether2_send_recv_witness :
  ether2_send true mac_witness [1; 2] = Ok (Some (ethernet2_bytes mac_witness ++ [1; 2])) ∧
  ether2_handle_recv None None (Some ethertype_ip4) (ethernet2_bytes mac_witness ++ [1; 2])
  = Ok (if decide (ether2_match (None, None, Some ethertype_ip4) mac_witness) then Some (mac_witness, [1; 2]) else None).
Proof.
  apply (ether2_send_recv mac_witness [1; 2] (Ether2Filters None None (Some ethertype_ip4) ltac:(done) ltac:(done))).
  repeat split; repeat constructor; done.
Defined.

(** A frame shorter than the 14 bytes of a header is not rejected: the receiver reads past its
    end, whatever its filters. *)
Theorem ether2_short_frame (src dest : option mac_addr) (type : option Z) (data : list Z) :
  (length data < 14)%nat → ether2_handle_recv src dest type data = Fault OutOfBounds.
Proof. apply ether2_recv_short. Qed.
Lemma ether2_short_frame_witness : ether2_handle_recv None None None (replicate 13 0) = Fault OutOfBounds.
Proof. apply (ether2_short_frame None None None (replicate 13 0)). simpl. lia. Defined.

(** Printing a MAC address and parsing the text gives the address back; the comparison operators are
    the equality and a strict total order, which the others are derived from. *)
Theorem mac_addr_text_and_order (a b c : mac_addr) :
  mac_ok a → mac_ok b → mac_ok c →
  str_to_mac_addr (mac_addr_to_str a) = Ok (Some a) ∧
  (mac_eqb a b = true ↔ a = b) ∧
  mac_ltb a a = false ∧
  (mac_ltb a b = true → mac_ltb b c = true → mac_ltb a c = true) ∧
  (mac_ltb a b = true ∨ a = b ∨ mac_gtb a b = true) ∧
  mac_leb a b = negb (mac_gtb a b) ∧ mac_geb a b = negb (mac_ltb a b) ∧ mac_neb a b = negb (mac_eqb b a).
Proof.
  intros Ha Hb Hc. split; [by apply str_to_mac_to_str|].
  split; [rewrite mac_eqb_spec by done; apply bool_decide_eq_true|].
  destruct a as [a], b as [b], c as [c], Ha as [Ha _], Hb as [Hb _], Hc as [Hc _]. simpl in *.
  unfold mac_gtb, mac_ltb. simpl. split; [apply array_ltb_irrefl|].
  split; [apply array_ltb_trans; congruence|].
  split; [|done]. destruct (array_ltb_total a b) as [?|[->|?]]; [congruence|auto..].
Qed.
Lemma mac_addr_text_and_order_witness :
  str_to_mac_addr (mac_addr_to_str mac_addr_broadcast) = Ok (Some mac_addr_broadcast) ∧
  (mac_eqb mac_addr_broadcast mac_addr_empty = true ↔ mac_addr_broadcast = mac_addr_empty) ∧
  mac_ltb mac_addr_broadcast mac_addr_broadcast = false ∧
  (mac_ltb mac_addr_broadcast mac_addr_empty = true → mac_ltb mac_addr_empty mac_addr_empty = true →
   mac_ltb mac_addr_broadcast mac_addr_empty = true) ∧
  (mac_ltb mac_addr_broadcast mac_addr_empty = true ∨ mac_addr_broadcast = mac_addr_empty ∨
   mac_gtb mac_addr_broadcast mac_addr_empty = true) ∧
  mac_leb mac_addr_broadcast mac_addr_empty = negb (mac_gtb mac_addr_broadcast mac_addr_empty) ∧
  mac_geb mac_addr_broadcast mac_addr_empty = negb (mac_ltb mac_addr_broadcast mac_addr_empty) ∧
  mac_neb mac_addr_broadcast mac_addr_empty = negb (mac_eqb mac_addr_empty mac_addr_broadcast).
Proof.
  apply (mac_addr_text_and_order mac_addr_broadcast mac_addr_empty mac_addr_empty);
    (split; [done|repeat constructor; done]).
Defined.

(** The regular expression lets the two delimiters mix, and the parser then takes wrong octets:
    a well-formed looking text gives an address whose octets repeat. *)
Theorem str_to_mac_addr_mixed :
  str_to_mac_addr (str "01-02:03-04:05-06") = Ok (Some (MacAddr [1; 3; 5; 5; 5; 5])).
Proof. by vm_compute. Qed.

(** The table-driven CRC is the bitwise CRC-32 on every byte string. *)
Theorem ethernet_crc_bitwise (data : list Z) :
  bytes_ok data →
  ethernet_calc_crc data = u32 (Z.lnot (foldl crc_bitwise 0xFFFFFFFF data)).
Proof.
  intros Hd. unfold ethernet_calc_crc. do 2 f_equal. generalize 0xFFFFFFFF.
  induction Hd as [|b data Hb Hd IH]; intros crc; [done|]. cbn [foldl]. by rewrite crc_byte_bitwise.
Qed.
Lemma ethernet_crc_bitwise_witness :
  ethernet_calc_crc (str "123456789") = u32 (Z.lnot (foldl crc_bitwise 0xFFFFFFFF (str "123456789")))
  ∧ ethernet_calc_crc (str "123456789") = 0xCBF43926.
Proof.
  split; [apply (ethernet_crc_bitwise (str "123456789")); by repeat constructor|by vm_compute].
Defined.
