(* ===== verification/Ip4.v ===== *)
(** IPv4: [src/protocols/ip4].

    The Internet checksum, addresses and subnets with their text forms, the 20-byte
    header, the protocol's [send] and [connect_recv], the routing table and the net accesses. *)

From Stdlib Require Import ZArith Lia String.
From stdpp Require Import base decidable list numbers.
From S2P Require Import Prelude Cursor Text Encap Routing.

(** * internet_checksum.cpp *)

(** The sum of the 16-bit words in host order in a [uint32_t], and of the odd byte. *)
Fixpoint sum_words (buf : list Z) (sum : Z) : Z :=
  match buf with
  | b0 :: b1 :: buf => sum_words buf (u32 (sum + of_le16 b0 b1))
  | [b] => u32 (sum + b)
  | [] => sum
  end.
Definition fold_sum (sum : Z) : Z :=
  let sum := u32 (Z.shiftr sum 16 + Z.land sum 0xFFFF) in
  let sum := u32 (sum + Z.shiftr sum 16) in
  u16 (Z.lnot sum).
(** [internet_checksum(buf, no_bytes)]. *)
Definition internet_checksum (buf : list Z) (no_bytes : nat) : res Z :=
  if (no_bytes <=? length buf)%nat then Ok (fold_sum (sum_words (take no_bytes buf) 0))
  else Fault OutOfBounds.

(** * ip4_addr.h, ip4_addr.cpp *)

Record ip4_addr := Ip4Addr { ip4_octets : list Z }.
#[export] Instance ip4_addr_eq_dec : EqDecision ip4_addr.
Proof. solve_decision. Defined.
Definition ip4_ok (a : ip4_addr) : Prop := length (ip4_octets a) = 4%nat ∧ bytes_ok (ip4_octets a).

Definition ip4_eqb (a rhs : ip4_addr) : bool := array_eqb (ip4_octets a) (ip4_octets rhs).
Definition ip4_neb (a rhs : ip4_addr) : bool := negb (ip4_eqb rhs a).
Definition ip4_ltb (a rhs : ip4_addr) : bool := array_ltb (ip4_octets a) (ip4_octets rhs).
Definition ip4_gtb (a rhs : ip4_addr) : bool := ip4_ltb rhs a.
Definition ip4_leb (a rhs : ip4_addr) : bool := negb (ip4_ltb rhs a).
Definition ip4_geb (a rhs : ip4_addr) : bool := negb (ip4_ltb a rhs).

Definition ip4_addr_empty : ip4_addr := Ip4Addr [0; 0; 0; 0].
Definition ip4_addr_broadcast : ip4_addr := Ip4Addr [255; 255; 255; 255].

(** The loops of [generate_next_ip] go from the last octet to the first: over the octets
    in reverse, those equal to 255 become 0, the next one is incremented, the others are copied. *)
Fixpoint next_ip_loop (rev_octets : list Z) : list Z :=
  match rev_octets with
  | [] => []
  | b :: r => if b =? 255 then 0 :: next_ip_loop r else u8 (b + 1) :: r
  end.
Definition generate_next_ip (addr : ip4_addr) : ip4_addr :=
  Ip4Addr (rev (next_ip_loop (rev (ip4_octets addr)))).

(** [sscanf(str, "%u.%u.%u.%u", ...)] with [n] conversions left; [None] when fewer match. *)
Fixpoint scan_octets (n : nat) (s : list Z) (acc : list Z) : res (option (list Z)) :=
  match n with
  | O => Ok (Some acc)
  | S n =>
      match scan_u s with
      | None => Ok None
      | Some (rv, r) =>
          v ← rv;
          match n, r with
          | O, _ => Ok (Some (acc ++ [v]))
          | _, c :: r => if c =? 46 then scan_octets n r (acc ++ [v]) else Ok None
          | _, [] => Ok None
          end
      end
  end.
Definition str_to_ip4_addr (s : list Z) : res (option ip4_addr) :=
  o ← scan_octets 4 s [];
  Ok (match o with Some vs => Some (Ip4Addr (u8 <$> vs)) | None => None end).

Definition ip4_addr_to_str (ip_addr : ip4_addr) : list Z := join [46] (to_string <$> ip4_octets ip_addr).

Definition write_ip4_addr (a : ip4_addr) : wr nat := put_bytes (ip4_octets a);; mret 4%nat.
Definition extract_ip4_addr : rd (ip4_addr * nat) := bs ← get_bytes 4; mret (Ip4Addr bs, 4%nat).

(** ** Subnets *)

Record ip4_subnet_mask := Ip4SubnetMask { base_addr : ip4_addr; no_mask_bits : Z }.

Definition str_to_ip4_subnet_mask (s : list Z) : res (option ip4_subnet_mask) :=
  match find_char 47 s with
  | None => Ok None
  | Some slash =>
      pre ← substr s 0 slash;
      ip ← str_to_ip4_addr pre;
      match ip with
      | None => Ok None
      | Some ip =>
          (* try { ... } catch (...) { return {}; } *)
          match (suf ← substr s (slash + 1) (length s); stoi suf) with
          | Fault _ => Ok None
          | Ok mask =>
              if negb ((0 <=? mask) && (mask <=? 32)) then Ok None
              else Ok (Some (Ip4SubnetMask ip mask))
          end
      end
  end.
Definition ip4_subnet_mask_to_str (mask : ip4_subnet_mask) : list Z :=
  ip4_addr_to_str (base_addr mask) ++ [47] ++ to_string (no_mask_bits mask).

(** [octets[i]] of the array of four. *)
Definition octet_at (a : ip4_addr) (i : Z) : res Z :=
  if i <? 0 then Fault OutOfBounds else of_option OutOfBounds (ip4_octets a !! Z.to_nat i).

(** [(1 << bits) - 1]. *)
Definition low_bits (bits : Z) : Z := Z.shiftl 1 bits - 1.

Definition smallest_ip_addr_in_subnet (subnet : ip4_subnet_mask) : res ip4_addr :=
  let index := Z.quot (no_mask_bits subnet) 8 in
  let bits := Z.rem (no_mask_bits subnet) 8 in
  o ← octet_at (base_addr subnet) index;
  let i := Z.to_nat index in
  Ok (Ip4Addr (take i (ip4_octets (base_addr subnet)) ++ [Z.land o (low_bits bits)]
               ++ replicate (4 - S i) 0)).

(** The loop over the first [index] octets, stopping at the first difference. *)
Fixpoint same_prefix (n : nat) (a b : list Z) : res bool :=
  match n, a, b with
  | O, _, _ => Ok true
  | S n, x :: a, y :: b => if negb (x =? y) then Ok false else same_prefix n a b
  | S _, _, _ => Fault OutOfBounds
  end.
Definition is_inside_subnet (subnet : ip4_subnet_mask) (ip : ip4_addr) : res bool :=
  let index := Z.quot (no_mask_bits subnet) 8 in
  let bits := Z.rem (no_mask_bits subnet) 8 in
  inside_mask ← same_prefix (Z.to_nat index) (ip4_octets (base_addr subnet)) (ip4_octets ip);
  o ← octet_at (base_addr subnet) index;
  o' ← octet_at ip index;
  Ok (if negb (Z.land o (low_bits bits) =? Z.land o' (low_bits bits)) then false else inside_mask).

(** * ip4_header.h, ip4_header.cpp *)

Definition ip_prot_icmp : Z := 1.
Definition ip_prot_tcp : Z := 6.
Definition ip_prot_udp : Z := 17.
Definition ip_prot_to_str (prot : Z) : option (list Z) :=
  if prot =? ip_prot_icmp then Some (str "icmp")
  else if prot =? ip_prot_udp then Some (str "udp")
  else if prot =? ip_prot_tcp then Some (str "tcp") else None.
Definition str_to_ip_prot (s : list Z) : option Z :=
  if decide (s = str "icmp") then Some ip_prot_icmp
  else if decide (s = str "udp") then Some ip_prot_udp
  else if decide (s = str "tcp") then Some ip_prot_tcp else None.

Record ip4_header := Ip4Header {
  version : Z; header_len : Z; type_of_service : Z; total_len : Z; id : Z;
  flags : Z; frag_off : Z; ttl : Z; prot : Z; checksum : Z;
  src_addr : ip4_addr; dest_addr : ip4_addr
}.
Definition ip4_header_ok (h : ip4_header) : Prop :=
  0 ≤ version h < 16 ∧ 0 ≤ header_len h < 16 ∧ byte_ok (type_of_service h) ∧ u16_ok (total_len h) ∧
  u16_ok (id h) ∧ 0 ≤ flags h < 8 ∧ 0 ≤ frag_off h < 2 ^ 13 ∧ byte_ok (ttl h) ∧ byte_ok (prot h) ∧
  u16_ok (checksum h) ∧ ip4_ok (src_addr h) ∧ ip4_ok (dest_addr h).
(** [sizeof(ip4_header)]: packed. *)
Definition sizeof_ip4_header : nat := 20.

Definition write_ip4_header (h : ip4_header) : wr nat :=
  put8 (Z.shiftl (version h) 4 + header_len h);;
  put8 (type_of_service h);;
  put16 (htons (total_len h));;
  put16 (htons (id h));;
  put16 (htons (Z.shiftl (flags h) 13 + frag_off h));;
  put8 (ttl h);;
  put8 (prot h);;
  put16 (checksum h);;
  advance (write_ip4_addr (src_addr h));;
  advance (write_ip4_addr (dest_addr h));;
  mret sizeof_ip4_header.

(** The value assigned to [flags] is truncated to the three bits of the field. *)
Definition extract_ip4_header : rd (ip4_header * nat) :=
  b ← get8;
  type_of_service ← get8;
  total_len ← ntohs <$> get16;
  id ← ntohs <$> get16;
  w ← ntohs <$> get16;
  ttl ← get8;
  prot ← get8;
  checksum ← get16;
  src_addr ← take_in extract_ip4_addr;
  dest_addr ← take_in extract_ip4_addr;
  mret (Ip4Header (Z.shiftr (Z.land b 240) 4) (Z.land b 15) type_of_service total_len id
          (Z.land w 57344 `mod` 2 ^ 3) (Z.land w 8191) ttl prot checksum src_addr dest_addr,
        sizeof_ip4_header).

Definition set_checksum (c : Z) (h : ip4_header) : ip4_header :=
  Ip4Header (version h) (header_len h) (type_of_service h) (total_len h) (id h) (flags h)
    (frag_off h) (ttl h) (prot h) c (src_addr h) (dest_addr h).

(** * ip4_protocol.h, ip4_protocol.cpp *)

Definition ip4_send (surface : bool) (header : ip4_header) (data : list Z) : res (option (list Z)) :=
  if negb surface then Ok None
  else
    let buff := replicate (sizeof_ip4_header + length data) 0 in
    let tmp_header := set_checksum 0 header in
    '(buff, _) ← run_write (write_ip4_header tmp_header) buff;
    c ← internet_checksum buff sizeof_ip4_header;
    let tmp_header := set_checksum c tmp_header in
    '(buff, _) ← run_write (write_ip4_header tmp_header) buff;
    buff ← memcpy buff sizeof_ip4_header data;
    Ok (Some buff).

Definition ip4_handle_recv (src dest : option ip4_addr) (pr : option Z) (data : list Z) :
    res (option (ip4_header * list Z)) :=
  '(ip_header, _) ← run_extract extract_ip4_header data;
  encap_data ← subvector data sizeof_ip4_header (length data);
  if filter_rejects ip4_eqb src (src_addr ip_header) then Ok None
  else if filter_rejects ip4_eqb dest (dest_addr ip_header) then Ok None
  else if filter_rejects Z.eqb pr (prot ip_header) then Ok None
  else Ok (Some (ip_header, encap_data)).

(** The routing table of [ip4_routing_table.h]. *)
Definition ip4_find_route {R} (t : routing_table ip4_subnet_mask R) (addr : ip4_addr) : res (option R) :=
  find_route no_mask_bits is_inside_subnet t addr.

(** [send_data] of [create_send_access_from_routing_table]: the route that gets the packet,
    or [ERR] when there is none. *)
Definition ip4_routed_send_data {R} (t : routing_table ip4_subnet_mask R) (data : list Z) :
    res (option (R * list Z)) :=
  '(header, _) ← run_extract extract_ip4_header data;
  route ← ip4_find_route t (dest_addr header);
  Ok (match route with None => None | Some r => Some (r, data) end).
(** [send] through a routing table. *)
Definition ip4_send_routed {R} (t : routing_table ip4_subnet_mask R) (header : ip4_header) (data : list Z) :
    res (option (R * list Z)) :=
  route ← ip4_find_route t (dest_addr header);
  pkt ← ip4_send (bool_decide (is_Some route)) header data;
  Ok (r ← route; p ← pkt; Some (r, p)).

(** The header that the net accesses fill in; [total_len] converts an [int]. *)
Definition ip4_access_header (from to : ip4_addr) (pr : option Z) (data : list Z) : ip4_header :=
  let ip_packet_len := Z.of_nat sizeof_ip4_header + Z.of_nat (length data) in
  Ip4Header 4 5 0 (u16 ip_packet_len) 1234 0 0 255 (default 0 pr) 0 from to.
Definition ip4_broadcast_send (surface : bool) dest pr (data : list Z) : res (option (list Z)) :=
  ip4_send surface (ip4_access_header (default ip4_addr_empty dest) ip4_addr_broadcast pr data) data.
Definition ip4_broadcast_recv (recv_access_set : bool) dest pr (data : list Z) : res (option (list Z)) :=
  o ← ip4_handle_recv None dest pr data; Ok (forward_if recv_access_set (snd <$> o)).
Definition ip4_single_send (surface : bool) src dest pr (data : list Z) : res (option (list Z)) :=
  ip4_send surface (ip4_access_header (default ip4_addr_empty dest) src pr data) data.
Definition ip4_single_recv (recv_access_set : bool) src dest pr (data : list Z) : res (option (list Z)) :=
  o ← ip4_handle_recv (Some src) dest pr data; Ok (forward_if recv_access_set (snd <$> o)).

(** * The checksum *)

(** The sum of the words without the [uint32_t]'s wrap-around. *)
Fixpoint word_sum (buf : list Z) : Z :=
  match buf with
  | b0 :: b1 :: buf => of_le16 b0 b1 + word_sum buf
  | [b] => b
  | [] => 0
  end.
(** The representative of a sum modulo 65535 that end-around carry keeps: 0 only for 0. *)
Definition ones_rep (s : Z) : Z := if s =? 0 then 0 else (s - 1) `mod` 65535 + 1.

(** RFC 1071: addition with end-around carry, over the words of a buffer. *)
Definition ones_add (a b : Z) : Z := let s := a + b in if s <? 65536 then s else s - 65535.
Fixpoint host_words (buf : list Z) : list Z :=
  match buf with
  | b0 :: b1 :: buf => of_le16 b0 b1 :: host_words buf
  | [b] => [b]
  | [] => []
  end.

(** Induction two bytes at a time. *)
Lemma pairs_ind (P : list Z → Prop) :
  P [] → (∀ b, P [b]) → (∀ b0 b1 l, P l → P (b0 :: b1 :: l)) → ∀ l, P l.
Proof.
  intros H0 H1 H2. fix IH 1. intros [|b0 [|b1 l]]; [done|apply H1|apply H2, IH].
Qed.

Lemma word_sum_bound buf :
  bytes_ok buf → 0 ≤ word_sum buf ≤ 65535 * ((Z.of_nat (length buf) + 1) `div` 2).
Proof.
  induction buf as [|b|b0 b1 l IH] using pairs_ind; intros Hb.
  - cbn. done.
  - apply Forall_cons_1 in Hb as [Hb _]. unfold byte_ok in Hb.
    change (0 ≤ b ≤ 65535 * 1). lia.
  - apply Forall_cons_1 in Hb as [Hb0 Hb]. apply Forall_cons_1 in Hb as [Hb1 Hb].
    specialize (IH Hb). cbn [word_sum length]. unfold of_le16, byte_ok in *.
    replace ((Z.of_nat (S (S (length l))) + 1) `div` 2) with ((Z.of_nat (length l) + 1) `div` 2 + 1);
      [lia|]. rewrite <- Z.div_add by lia. f_equal. lia.
Qed.

Lemma sum_words_spec buf s :
  bytes_ok buf → 0 ≤ s → s + word_sum buf < 2 ^ 32 → sum_words buf s = s + word_sum buf.
Proof.
  revert s. induction buf as [|b|b0 b1 l IH] using pairs_ind; intros s Hb Hs Hlt.
  - cbn. lia.
  - cbn in *. apply Forall_cons_1 in Hb as [Hb _]. unfold byte_ok in Hb.
    rewrite u32_small by (unfold u32_ok; lia). lia.
  - apply Forall_cons_1 in Hb as [Hb0 Hb]. apply Forall_cons_1 in Hb as [Hb1 Hb].
    pose proof (word_sum_bound l Hb). cbn [sum_words word_sum] in *. unfold of_le16, byte_ok in *.
    rewrite u32_small by (unfold u32_ok; lia). rewrite IH by (done || lia). lia.
Qed.

Lemma word_sum_app a b : Nat.even (length a) = true → word_sum (a ++ b) = word_sum a + word_sum b.
Proof.
  induction a as [|x|x y a IH] using pairs_ind; intros He; [done|done|].
  cbn [app word_sum]. rewrite IH by done. lia.
Qed.

Lemma fold_sum_spec s : 0 ≤ s < 2 ^ 32 → fold_sum s = 65535 - ones_rep s.
Proof.
  intros Hs. unfold fold_sum. cbv zeta. change (Z.land s 0xFFFF) with (Z.land s (Z.ones 16)).
  rewrite Z.land_ones, !Z.shiftr_div_pow2 by lia. change (2 ^ 16) with 65536.
  assert (Hq : 0 ≤ s `div` 65536 < 65536) by (Z.div_mod_to_equations; lia).
  assert (Hr : 0 ≤ s `mod` 65536 < 65536) by (apply Z.mod_pos_bound; lia).
  assert (He : s = 65536 * (s `div` 65536) + s `mod` 65536) by (apply Z.div_mod; lia).
  rewrite (u32_small (s `div` 65536 + s `mod` 65536)) by (unfold u32_ok; lia).
  set (t := s `div` 65536 + s `mod` 65536) in *.
  assert (Htr : 0 ≤ t < 131071) by (unfold t; lia).
  assert (Ht : ones_rep s = if t <? 65536 then t else t - 65535).
  { unfold ones_rep. destruct (Z.eqb_spec s 0); [subst t; destruct (Z.ltb_spec (s `div` 65536 + s `mod` 65536) 65536); lia|].
    destruct (Z.ltb_spec t 65536).
    - rewrite <- (Z.mod_unique (s - 1) 65535 (s `div` 65536) (t - 1)); lia.
    - rewrite <- (Z.mod_unique (s - 1) 65535 (s `div` 65536 + 1) (t - 65535 - 1)); lia. }
  rewrite Ht. unfold Z.lnot, u16.
  assert (Hd : t `div` 65536 = if t <? 65536 then 0 else 1).
  { destruct (Z.ltb_spec t 65536); [apply Z.div_small; lia|].
    symmetry. apply (Z.div_unique t 65536 1 (t - 65536)); lia. }
  rewrite Hd. rewrite u32_small by (unfold u32_ok; destruct (t <? 65536); lia).
  unfold Z.pred. destruct (Z.ltb_spec t 65536).
  - symmetry. apply (Z.mod_unique _ _ (-1)); lia.
  - symmetry. apply (Z.mod_unique _ _ (-2)); lia.
Qed.

Lemma ones_rep_range s : 0 ≤ s → 0 ≤ ones_rep s ≤ 65535.
Proof.
  intros. unfold ones_rep. destruct (Z.eqb_spec s 0); [lia|].
  pose proof (Z.mod_pos_bound (s - 1) 65535). lia.
Qed.
Lemma ones_rep_add s w : 0 ≤ s → 0 ≤ w ≤ 65535 → ones_add (ones_rep s) w = ones_rep (s + w).
Proof.
  intros Hs Hw. unfold ones_add, ones_rep.
  destruct (Z.eqb_spec s 0) as [->|Hs0].
  - rewrite Z.add_0_l. destruct (Z.ltb_spec w 65536); [|lia].
    destruct (Z.eqb_spec w 0); [done|]. rewrite Z.mod_small by lia. lia.
  - rewrite (proj2 (Z.eqb_neq (s + w) 0)) by lia.
    pose proof (Z.div_mod (s - 1) 65535 ltac:(lia)) as E.
    pose proof (Z.mod_pos_bound (s - 1) 65535 ltac:(lia)) as Hm.
    set (m := (s - 1) `mod` 65535) in *. set (q := (s - 1) `div` 65535) in *.
    destruct (Z.ltb_spec (m + 1 + w) 65536).
    + rewrite <- (Z.mod_unique (s + w - 1) 65535 q (m + w)); lia.
    + rewrite <- (Z.mod_unique (s + w - 1) 65535 (q + 1) (m + w - 65535)); lia.
Qed.
Lemma foldl_ones_add buf s :
  bytes_ok buf → 0 ≤ s → foldl ones_add (ones_rep s) (host_words buf) = ones_rep (s + word_sum buf).
Proof.
  revert s. induction buf as [|b|b0 b1 l IH] using pairs_ind; intros s Hb Hs.
  - cbn. f_equal. lia.
  - apply Forall_cons_1 in Hb as [Hb _]. unfold byte_ok in Hb. cbn. apply ones_rep_add; lia.
  - apply Forall_cons_1 in Hb as [Hb0 Hb]. apply Forall_cons_1 in Hb as [Hb1 Hb].
    cbn [host_words foldl word_sum]. unfold byte_ok, of_le16 in *.
    rewrite ones_rep_add, IH by (done || lia). f_equal. lia.
Qed.

(** Up to 128 KiB the sum does not wrap. *)
Lemma internet_checksum_spec buf n :
  bytes_ok buf → (n ≤ length buf)%nat → Z.of_nat n ≤ 131072 →
  internet_checksum buf n = Ok (65535 - ones_rep (word_sum (take n buf))).
Proof.
  intros Hb Hn Hmax. unfold internet_checksum. rewrite (proj2 (Nat.leb_le _ _) Hn). f_equal.
  assert (Ht : bytes_ok (take n buf)) by by apply Forall_take.
  pose proof (word_sum_bound _ Ht) as Hs. rewrite length_take, Nat.min_l in Hs by done.
  assert (Hd : (Z.of_nat n + 1) `div` 2 < 65537) by (apply Z.div_lt_upper_bound; lia).
  rewrite sum_words_spec by (done || lia). rewrite Z.add_0_l. apply fold_sum_spec. lia.
Qed.

(** A buffer whose checksum field, at an even offset, holds the checksum computed while it was
    zero sums to zero. *)
Lemma checksum_verifies pre post c :
  bytes_ok pre → bytes_ok post → Nat.even (length pre) = true →
  Z.of_nat (length (pre ++ [0; 0] ++ post)) ≤ 131072 →
  internet_checksum (pre ++ [0; 0] ++ post) (length (pre ++ [0; 0] ++ post)) = Ok c →
  u16_ok c ∧
  internet_checksum (pre ++ le16 c ++ post) (length (pre ++ le16 c ++ post)) = Ok 0.
Proof.
  intros Hpre Hpost He Hl Hc.
  assert (H0 : bytes_ok (pre ++ [0; 0] ++ post)).
  { apply Forall_app_2; [done|]. apply Forall_app_2; [solve_bytes|done]. }
  rewrite internet_checksum_spec, take_ge in Hc by (done || lia). simplify_eq.
  change (pre ++ 0 :: 0 :: post) with (pre ++ [0; 0] ++ post) in *.
  set (s := word_sum (pre ++ [0; 0] ++ post)) in *.
  assert (Hs : 0 ≤ s) by apply (word_sum_bound _ H0).
  pose proof (ones_rep_range s Hs) as Hr.
  assert (Hc : u16_ok (65535 - ones_rep s)) by (unfold u16_ok; lia). split; [done|].
  assert (Hlen : length (pre ++ le16 (65535 - ones_rep s) ++ post) = length (pre ++ [0; 0] ++ post))
    by by rewrite !length_app.
  rewrite internet_checksum_spec; [|apply Forall_app_2; [done|apply Forall_app_2; [solve_bytes|done]]
    |done|by rewrite Hlen]. rewrite take_ge by done.
  assert (Hsum : word_sum (pre ++ le16 (65535 - ones_rep s) ++ post) = s + (65535 - ones_rep s)).
  { assert (E : s = word_sum pre + word_sum post).
    { unfold s. rewrite (word_sum_app pre _ He). cbn [app word_sum]. unfold of_le16. lia. }
    rewrite (word_sum_app pre _ He). clearbody s. subst s. unfold le16. cbn [app word_sum].
    rewrite of_le16_le16 by done. lia. }
  rewrite Hsum. f_equal. rewrite <- ones_rep_add by lia.
  unfold ones_add. replace (ones_rep s + (65535 - ones_rep s)) with 65535 by lia. done.
Qed.

(** * The header *)

Lemma ip4_eqb_spec a b : ip4_ok a → ip4_ok b → ip4_eqb a b = bool_decide (a = b).
Proof.
  destruct a as [a], b as [b]. intros [Ha _] [Hb _]. unfold ip4_eqb. simpl in *.
  rewrite array_eqb_spec by congruence. apply bool_decide_ext. naive_solver.
Qed.

Lemma writes_ip4_addr a : ip4_ok a → writes (advance (write_ip4_addr a)) (ip4_octets a) tt.
Proof.
  intros [Hl _]. eapply writes_advance; [|symmetry; exact Hl].
  eapply writes_cast; [unfold write_ip4_addr; solve_writes|apply app_nil_r|done].
Qed.
Lemma reads_ip4_addr a : ip4_ok a → reads (take_in extract_ip4_addr) (ip4_octets a) a.
Proof.
  intros [Hl _]. destruct a as [o]. simpl in *. apply reads_take_in. rewrite Hl.
  eapply reads_cast; [eapply reads_bind; [apply reads_get_bytes'; by rewrite Hl|apply reads_ret]|by rewrite app_nil_r|done].
Qed.
Lemma size_ip4_addr : rd_size (take_in extract_ip4_addr) 4.
Proof. apply rd_size_take_in. eapply extract_size_cast; [unfold extract_ip4_addr; solve_size|done]. Qed.
#[export] Hint Resolve writes_ip4_addr reads_ip4_addr size_ip4_addr : wire.

(** The bytes of a header, before and after the checksum field. *)
Definition ip4_front (h : ip4_header) : list Z :=
  [version h * 16 + header_len h; type_of_service h] ++ be16 (total_len h) ++ be16 (id h) ++
  be16 (flags h * 8192 + frag_off h) ++ [ttl h; prot h].
Definition ip4_back (h : ip4_header) : list Z := ip4_octets (src_addr h) ++ ip4_octets (dest_addr h).
Definition ip4_bytes (h : ip4_header) : list Z := ip4_front h ++ le16 (checksum h) ++ ip4_back h.

Lemma ip4_bytes_length h : ip4_header_ok h → length (ip4_bytes h) = 20%nat.
Proof.
  intros Hh. destruct Hh as (_&_&_&_&_&_&_&_&_&_&[Hs _]&[Hd _]).
  unfold ip4_bytes, ip4_back. rewrite !length_app, Hs, Hd. done.
Qed.
Lemma ip4_front_ok h : ip4_header_ok h → bytes_ok (ip4_front h).
Proof. intros (?&?&?&?&?&?&?&?&?&?&?&?). unfold ip4_front. solve_bytes. Qed.
Lemma ip4_back_ok h : ip4_header_ok h → bytes_ok (ip4_back h).
Proof. intros (_&_&_&_&_&_&_&_&_&_&[_ ?]&[_ ?]). by apply Forall_app_2. Qed.
Lemma ip4_empty_ok : ip4_ok ip4_addr_empty.
Proof. by repeat constructor. Qed.
Lemma ip4_broadcast_ok : ip4_ok ip4_addr_broadcast.
Proof. split; [done|]. cbn. solve_bytes. Qed.
Lemma ip4_bytes_ok h : ip4_header_ok h → bytes_ok (ip4_bytes h).
Proof.
  intros Hh. unfold ip4_bytes. apply Forall_app_2; [by apply ip4_front_ok|].
  apply Forall_app_2; [solve_bytes|by apply ip4_back_ok].
Qed.
Lemma set_checksum_ok c h : ip4_header_ok h → u16_ok c → ip4_header_ok (set_checksum c h).
Proof. unfold ip4_header_ok, set_checksum. cbn. tauto. Qed.

Lemma writes_ip4 h : ip4_header_ok h → writes (write_ip4_header h) (ip4_bytes h) 20%nat.
Proof.
  intros Hh. pose proof Hh as (?&?&?&?&?&?&?&?&?&?&?&?).
  eapply writes_cast; [unfold write_ip4_header; solve_writes| |done].
  rewrite !Z.shiftl_mul_pow2 by lia. change (2 ^ 4) with 16. change (2 ^ 13) with 8192.
  rewrite !u8_small by solve_bytes.
  unfold ip4_bytes, ip4_front, ip4_back. cbn [app be16 le16]. by rewrite app_nil_r.
Qed.

(** The header a receiver reads: the flags are always 0. *)
Definition clear_flags (h : ip4_header) : ip4_header :=
  Ip4Header (version h) (header_len h) (type_of_service h) (total_len h) (id h) 0
    (frag_off h) (ttl h) (prot h) (checksum h) (src_addr h) (dest_addr h).

Lemma land_240 v l : 0 ≤ v < 16 → 0 ≤ l < 16 →
  Z.shiftr (Z.land (v * 16 + l) 240) 4 = v ∧ Z.land (v * 16 + l) 15 = l.
Proof.
  intros Hv Hl. assert (Hb : byte_ok (v * 16 + l)) by solve_bytes.
  pose proof (byte_forall (λ b, (Z.shiftr (Z.land b 240) 4 =? b `div` 16) && (Z.land b 15 =? b `mod` 16))
    eq_refl _ Hb) as H.
  apply andb_prop in H as [H1%Z.eqb_eq H2%Z.eqb_eq]. rewrite H1, H2.
  split; Z.div_mod_to_equations; lia.
Qed.
Lemma flags_lost w : Z.land w 57344 `mod` 2 ^ 3 = 0.
Proof.
  rewrite <- Z.land_ones, <- Z.land_assoc by lia. change (Z.land 57344 (Z.ones 3)) with 0. apply Z.land_0_r.
Qed.
Lemma frag_low f g : 0 ≤ g < 2 ^ 13 → Z.land (f * 8192 + g) 8191 = g.
Proof.
  intros Hg. change 8191 with (Z.ones 13). rewrite Z.land_ones by lia. change (2 ^ 13) with 8192 in *.
  rewrite Z.add_comm, Z.mod_add, Z.mod_small; lia.
Qed.

Lemma reads_ip4 h : ip4_header_ok h → reads extract_ip4_header (ip4_bytes h) (clear_flags h, 20%nat).
Proof.
  intros Hh. pose proof Hh as (Hv&Hl&?&?&?&Hf&Hg&?&?&?&Hs&Hd).
  eapply reads_cast.
  - unfold extract_ip4_header.
    eapply reads_bind; [apply (reads_get8 (version h * 16 + header_len h))|].
    eapply reads_bind; [apply (reads_get8 (type_of_service h))|].
    eapply reads_bind; [apply (reads_ntohs (total_len h)); done|].
    eapply reads_bind; [apply (reads_ntohs (id h)); done|].
    eapply reads_bind; [apply (reads_ntohs (flags h * 8192 + frag_off h)); unfold u16_ok; lia|].
    eapply reads_bind; [apply (reads_get8 (ttl h))|].
    eapply reads_bind; [apply (reads_get8 (prot h))|].
    eapply reads_bind; [apply (reads_le16 (checksum h)); done|].
    eapply reads_bind; [apply (reads_ip4_addr (src_addr h)); done|].
    eapply reads_bind; [apply (reads_ip4_addr (dest_addr h)); done|apply reads_ret].
  - unfold ip4_bytes, ip4_front, ip4_back. cbn [app be16 le16]. by rewrite app_nil_r.
  - destruct (land_240 (version h) (header_len h) Hv Hl) as [-> ->].
    rewrite flags_lost, frag_low by done. done.
Qed.
Lemma size_ip4 : extract_size extract_ip4_header 20 20.
Proof. eapply extract_size_cast; [unfold extract_ip4_header; solve_size|done]. Qed.
#[export] Hint Resolve writes_ip4 reads_ip4 size_ip4 : wire.

(** * send and connect_recv *)

(** The checksum [send] stores. *)
Definition ip4_checksum (h : ip4_header) : Z := fold_sum (sum_words (ip4_bytes (set_checksum 0 h)) 0).
Definition ip4_sealed (h : ip4_header) : ip4_header := set_checksum (ip4_checksum h) h.

Lemma ip4_checksum_verifies h :
  ip4_header_ok h →
  ip4_header_ok (ip4_sealed h) ∧ internet_checksum (ip4_bytes (ip4_sealed h)) 20 = Ok 0.
Proof.
  intros Hh.
  assert (H0 : ip4_header_ok (set_checksum 0 h)) by (by apply set_checksum_ok; [|unfold u16_ok; lia]).
  pose proof (ip4_bytes_length _ H0) as Hl.
  destruct (checksum_verifies (ip4_front h) (ip4_back h) (ip4_checksum h)) as [Hc Hv].
  - by apply ip4_front_ok.
  - by apply ip4_back_ok.
  - done.
  - change (Z.of_nat (length (ip4_bytes (set_checksum 0 h))) ≤ 131072). rewrite Hl. lia.
  - change (internet_checksum (ip4_bytes (set_checksum 0 h)) (length (ip4_bytes (set_checksum 0 h)))
      = Ok (ip4_checksum h)).
    unfold internet_checksum. by rewrite Nat.leb_refl, take_ge.
  - assert (Hs : ip4_header_ok (ip4_sealed h)) by by apply set_checksum_ok.
    split; [done|]. rewrite <- (ip4_bytes_length _ Hs). exact Hv.
Qed.

Lemma ip4_send_ok h data :
  ip4_header_ok h → ip4_send true h data = Ok (Some (ip4_bytes (ip4_sealed h) ++ data)).
Proof.
  intros Hh. destruct (ip4_checksum_verifies h Hh) as [Hs _].
  assert (H0 : ip4_header_ok (set_checksum 0 h)) by (by apply set_checksum_ok; [|unfold u16_ok; lia]).
  pose proof (ip4_bytes_length _ H0) as Hl0. pose proof (ip4_bytes_length _ Hs) as Hl1.
  unfold ip4_send, sizeof_ip4_header. cbn [negb]. set (z := replicate (20 + length data) 0).
  assert (Hz : length z = (20 + length data)%nat) by apply length_replicate.
  rewrite (run_write_fits _ _ _ z (writes_ip4 _ H0)) by lia. cbn [mbind res_bind].
  unfold internet_checksum. rewrite blit_length by lia.
  rewrite (proj2 (Nat.leb_le _ _)) by lia. cbn [mbind res_bind].
  rewrite blit_prefix, take_app_length' by lia. fold (ip4_checksum h).
  change (set_checksum (ip4_checksum h) (set_checksum 0 h)) with (ip4_sealed h).
  rewrite <- blit_prefix by lia.
  rewrite (run_write_fits _ _ _ _ (writes_ip4 _ Hs)) by (rewrite blit_length; lia). cbn [mbind res_bind].
  rewrite blit_overwrite by lia. rewrite memcpy_ok by (rewrite blit_length; lia). cbn [mbind res_bind].
  do 2 f_equal. rewrite <- Hl1 at 1. rewrite <- (Nat.add_0_l (length (ip4_bytes _))).
  rewrite blit_blit by (rewrite length_app; lia). apply (blit_exact (20 + length data)); [|done].
  rewrite length_app. lia.
Qed.

Record ip4_filters := Ip4Filters {
  if_src : option ip4_addr; if_dest : option ip4_addr; if_prot : option Z;
  if_src_ok : ∀ b, if_src = Some b → ip4_ok b;
  if_dest_ok : ∀ b, if_dest = Some b → ip4_ok b
}.
Definition ip4_match (f : ip4_filters) (h : ip4_header) : bool :=
  bool_decide (filter_accepts (if_src f) (src_addr h) ∧ filter_accepts (if_dest f) (dest_addr h) ∧
               filter_accepts (if_prot f) (prot h)).

Lemma ip4_filter_rejects f a :
  ip4_ok a → (∀ b, f = Some b → ip4_ok b) →
  filter_rejects ip4_eqb f a = bool_decide (¬ filter_accepts f a).
Proof. intros Ha Hf. apply filter_rejects_spec. intros y Hy. by apply ip4_eqb_spec; [|apply Hf]. Qed.

Lemma ip4_recv_ok f h data :
  ip4_header_ok h →
  ip4_handle_recv (if_src f) (if_dest f) (if_prot f) (ip4_bytes h ++ data)
  = Ok (if ip4_match f h then Some (clear_flags h, data) else None).
Proof.
  intros Hh. destruct (packet_parse _ _ _ 20 data (reads_ip4 h Hh) (ip4_bytes_length h Hh)) as [H1 H2].
  unfold ip4_handle_recv, sizeof_ip4_header. rewrite H1. cbn [mbind res_bind]. rewrite H2.
  cbn [mbind res_bind src_addr dest_addr prot clear_flags].
  assert (Hs : ip4_ok (src_addr h)) by apply Hh. assert (Hd : ip4_ok (dest_addr h)) by apply Hh.
  rewrite (ip4_filter_rejects _ _ Hs (if_src_ok f)), (ip4_filter_rejects _ _ Hd (if_dest_ok f)), Z_filter_rejects.
  unfold ip4_match. repeat case_bool_decide; naive_solver.
Qed.

Lemma ip4_recv_short src dest pr data :
  (length data < 20)%nat → ip4_handle_recv src dest pr data = Fault OutOfBounds.
Proof. intros Hl. unfold ip4_handle_recv. by rewrite (extract_size_short _ _ _ _ size_ip4 Hl). Qed.

#[export] Program Instance ip4_encap : Encap ip4_header ip4_filters := {|
  encap_send h d := sent (ip4_send true h d);
  encap_recv f d := ip4_handle_recv (if_src f) (if_dest f) (if_prot f) d;
  encap_ok h d := ip4_header_ok h ∧ bytes_ok d;
  encap_seen h d := clear_flags (ip4_sealed h);
  encap_match := ip4_match
|}.
Next Obligation.
  intros h d pkt [Hh Hd]. rewrite ip4_send_ok by done. intros <-%sent_inj.
  apply Forall_app_2; [apply ip4_bytes_ok; by apply ip4_checksum_verifies|done].
Qed.
Next Obligation. intros h d [Hh Hd]. rewrite ip4_send_ok by done. by eexists. Qed.
Next Obligation.
  intros h d f pkt [Hh Hd]. rewrite ip4_send_ok by done. intros <-%sent_inj.
  rewrite ip4_recv_ok by by apply ip4_checksum_verifies. done.
Qed.

(** * Text and successor *)

Lemma scan_octets_join os :
  bytes_ok os → (0 < length os)%nat → ∀ acc,
  scan_octets (length os) (join [46] (to_string <$> os)) acc = Ok (Some (acc ++ os)).
Proof.
  intros Ho. induction Ho as [|o os Hb Ho IH]; intros Hl acc; [simpl in Hl; lia|].
  assert (Hr : 0 ≤ o < 2 ^ 32) by (unfold byte_ok in Hb; lia).
  destruct os as [|o' os].
  - cbn [length fmap list_fmap join scan_octets].
    rewrite <- (app_nil_r (to_string o)), scan_u_to_string by done. done.
  - change (join [46] (to_string <$> o :: o' :: os))
      with (to_string o ++ 46 :: join [46] (to_string <$> o' :: os)).
    cbn [length scan_octets]. rewrite scan_u_to_string by done. cbn [mbind res_bind].
    rewrite Z.eqb_refl. change (S (length os)) with (length (o' :: os)).
    etransitivity; [apply IH; simpl; lia|]. by rewrite <- app_assoc.
Qed.

Lemma str_to_ip4_to_str a : ip4_ok a → str_to_ip4_addr (ip4_addr_to_str a) = Ok (Some a).
Proof.
  destruct a as [o]. intros [Hl Ho]. simpl in Hl, Ho. unfold str_to_ip4_addr, ip4_addr_to_str. simpl ip4_octets.
  rewrite <- Hl, scan_octets_join by (done || lia). cbn. do 3 f_equal.
  clear Hl. induction Ho as [|b o Hb Ho IH]; [done|]. cbn. by rewrite u8_small, IH.
Qed.

(** The number an address stands for. *)
Fixpoint rev_value (rev_octets : list Z) : Z :=
  match rev_octets with [] => 0 | b :: r => b + 256 * rev_value r end.
Definition ip4_value (a : ip4_addr) : Z := rev_value (rev (ip4_octets a)).

Lemma rev_value_bound l : bytes_ok l → 0 ≤ rev_value l < 256 ^ Z.of_nat (length l).
Proof.
  induction 1 as [|b l Hb Hl IH]; [done|]. cbn [rev_value length].
  rewrite Nat2Z.inj_succ, Z.pow_succ_r by lia. unfold byte_ok in Hb. lia.
Qed.
Lemma next_ip_loop_spec l :
  bytes_ok l →
  bytes_ok (next_ip_loop l) ∧ length (next_ip_loop l) = length l ∧
  rev_value (next_ip_loop l) = (rev_value l + 1) `mod` 256 ^ Z.of_nat (length l).
Proof.
  induction 1 as [|b l Hb Hl IH]; [by repeat split|]. cbn [next_ip_loop].
  pose proof (rev_value_bound l Hl) as Hv. destruct IH as (IHb & IHl & IHv).
  assert (Hp : 256 ^ Z.of_nat (length (b :: l)) = 256 * 256 ^ Z.of_nat (length l)).
  { cbn [length]. rewrite Nat2Z.inj_succ, Z.pow_succ_r by lia. done. }
  rewrite Hp. unfold byte_ok in Hb. destruct (Z.eqb_spec b 255) as [->|Hne].
  - split; [apply Forall_cons_2; [solve_bytes|done]|]. split; [simpl; lia|].
    cbn [rev_value]. rewrite IHv, Z.add_0_l.
    replace (255 + 256 * rev_value l + 1) with (256 * (rev_value l + 1)) by lia.
    symmetry. apply Z.mul_mod_distr_l; lia.
  - rewrite u8_small by (unfold byte_ok; lia). split; [apply Forall_cons_2; [unfold byte_ok; lia|done]|].
    split; [done|]. cbn [rev_value]. rewrite Z.mod_small; lia.
Qed.

Lemma generate_next_ip_spec a :
  ip4_ok a → ip4_ok (generate_next_ip a) ∧ ip4_value (generate_next_ip a) = (ip4_value a + 1) `mod` 2 ^ 32.
Proof.
  destruct a as [o]. intros [Hl Ho]. simpl in *. unfold generate_next_ip, ip4_value. simpl.
  destruct (next_ip_loop_spec (rev o)) as (Hb & Hlen & Hv); [by apply Forall_rev|].
  rewrite length_rev, Hl in Hlen, Hv. rewrite rev_involutive, Hv. split; [|done].
  split; simpl; [by rewrite length_rev, Hlen|by apply Forall_rev].
Qed.
(** The octets are the digits of the number. *)
Lemma ip4_digits a : ip4_ok a →
  ∃ a0 a1 a2 a3, ip4_octets a = [a0; a1; a2; a3] ∧ byte_ok a0 ∧ byte_ok a1 ∧ byte_ok a2 ∧ byte_ok a3 ∧
    ip4_value a = a3 + 256 * (a2 + 256 * (a1 + 256 * a0)).
Proof.
  intros [Hl Hb]. destruct (ip4_octets a) as [|a0 [|a1 [|a2 [|a3 [|]]]]] eqn:E; try done.
  do 4 (apply Forall_cons_1 in Hb as [? Hb]). exists a0, a1, a2, a3. unfold ip4_value. rewrite E. cbn. do 5 (split; [done|]). lia.
Qed.
Lemma ip4_value_bound a : ip4_ok a → 0 ≤ ip4_value a < 2 ^ 32.
Proof.
  intros [Hl Hb]. pose proof (rev_value_bound (rev (ip4_octets a))) as H. rewrite length_rev, Hl in H.
  apply H. by apply Forall_rev.
Qed.
Lemma ip4_value_inj a b : ip4_ok a → ip4_ok b → ip4_value a = ip4_value b → a = b.
Proof.
  intros Ha Hb. destruct (ip4_digits a Ha) as (a0&a1&a2&a3&E&?&?&?&?&->), (ip4_digits b Hb) as (b0&b1&b2&b3&E'&?&?&?&?&->).
  destruct a as [la], b as [lb]. simpl in *. subst. unfold byte_ok in *. intros Hv.
  assert (a3 = b3 ∧ a2 = b2 ∧ a1 = b1 ∧ a0 = b0) by lia. naive_solver.
Qed.

(** * Subnets *)

Definition subnet_ok (m : ip4_subnet_mask) : Prop := ip4_ok (base_addr m) ∧ 0 ≤ no_mask_bits m ≤ 32.

Lemma same_prefix_spec n a b :
  (n ≤ length a)%nat → length a = length b → same_prefix n a b = Ok (bool_decide (take n a = take n b)).
Proof.
  revert a b. induction n as [|n IH]; intros a b Hn Hl; [done|].
  destruct a as [|x a], b as [|y b]; try done; simpl in *; [lia|].
  destruct (Z.eqb_spec x y) as [->|Hne]; simpl.
  - rewrite IH by lia. f_equal. apply bool_decide_ext. split; congruence.
  - rewrite bool_decide_false; [done|congruence].
Qed.
Lemma land_low_bits o b : 0 ≤ b → Z.land o (low_bits b) = o `mod` 2 ^ b.
Proof.
  intros Hb. unfold low_bits. rewrite Z.shiftl_mul_pow2, Z.mul_1_l by lia.
  rewrite <- Z.land_ones by lia. f_equal. rewrite Z.ones_equiv. lia.
Qed.

(** The test as written: the whole octets of the mask by value, the rest of its bits on the LOW
    bits of the next octet. *)
Lemma is_inside_subnet_eq m ip k b o o' :
  ip4_ok (base_addr m) → ip4_ok ip → no_mask_bits m = 8 * Z.of_nat k + b → 0 ≤ b < 8 →
  ip4_octets (base_addr m) !! k = Some o → ip4_octets ip !! k = Some o' →
  is_inside_subnet m ip =
    Ok (bool_decide (take k (ip4_octets (base_addr m)) = take k (ip4_octets ip)) &&
        (o `mod` 2 ^ b =? o' `mod` 2 ^ b)).
Proof.
  intros [Hl _] [Hl' _] Hm Hb Ho Ho'. unfold is_inside_subnet.
  rewrite Z.quot_div_nonneg, Z.rem_mod_nonneg by lia.
  assert (Hq : no_mask_bits m `div` 8 = Z.of_nat k) by (rewrite Hm; Z.div_mod_to_equations; lia).
  assert (Hr : no_mask_bits m `mod` 8 = b) by (rewrite Hm; Z.div_mod_to_equations; lia).
  rewrite Hq, Hr, Nat2Z.id. apply lookup_lt_Some in Ho as Hk.
  rewrite same_prefix_spec by lia. cbn [mbind res_bind].
  unfold octet_at. rewrite (proj2 (Z.ltb_ge _ _)), Nat2Z.id, Ho, Ho' by lia. cbn [of_option mbind res_bind].
  rewrite !land_low_bits by lia. f_equal. destruct (o `mod` 2 ^ b =? o' `mod` 2 ^ b); cbn.
  - by rewrite andb_true_r.
  - by rewrite andb_false_r.
Qed.

Lemma str_to_subnet_to_str m :
  subnet_ok m → str_to_ip4_subnet_mask (ip4_subnet_mask_to_str m) = Ok (Some m).
Proof.
  destruct m as [a n]. intros [Ha Hn]. simpl in *. unfold str_to_ip4_subnet_mask, ip4_subnet_mask_to_str.
  cbn [base_addr no_mask_bits].
  pose proof (str_to_ip4_to_str a Ha) as Hsa. set (s := ip4_addr_to_str a) in *.
  assert (Hs : 47 ∉ s).
  { assert (Hf : Forall (λ c, c ≠ 47) s).
    { apply join_forall; [by repeat constructor|]. destruct Ha as [_ Ha]. apply Forall_fmap.
      eapply List.Forall_impl; [|exact Ha]. intros o Ho.
      eapply List.Forall_impl; [|apply to_string_chars; unfold byte_ok in Ho; lia]. cbn. lia. }
    intros Hin. rewrite List.Forall_forall in Hf. by apply (Hf 47 (proj1 (list_elem_of_In _ _) Hin)). }
  change (s ++ [47] ++ to_string n) with (s ++ 47 :: to_string n). rewrite find_char_skip by done.
  rewrite (substr_ok _ 0) by lia. cbn [mbind res_bind].
  rewrite drop_0, take_app_length. rewrite Hsa. cbn [mbind res_bind].
  rewrite substr_ok by (rewrite length_app; simpl; lia). cbn [mbind res_bind].
  rewrite Nat.add_1_r. change (s ++ 47 :: to_string n) with (s ++ [47] ++ to_string n).
  rewrite app_assoc, drop_app_length' by (rewrite length_app; simpl; lia).
  rewrite take_ge by (rewrite !length_app; lia). rewrite stoi_to_string by lia.
  rewrite (proj2 (Z.leb_le 0 n)), (proj2 (Z.leb_le n 32)) by lia. done.
Qed.

(** * Properties *)

(** C35: the checksum routine computes, on every buffer of at most 128 KiB, the complement of the RFC 1071
    one's-complement sum (addition with end-around carry) of its 16-bit words, an odd last byte
    included; it reads out of bounds only when the count exceeds the buffer. *)
Theorem internet_checksum_is_rfc1071 (buf : list Z) (n : nat) :
  bytes_ok buf → Z.of_nat n ≤ 131072 →
  internet_checksum buf n =
    if decide (n ≤ length buf)%nat then Ok (65535 - foldl ones_add 0 (host_words (take n buf)))
    else Fault OutOfBounds.
Proof.
  intros Hb Hn. case_decide as Hl.
  - rewrite internet_checksum_spec by done. f_equal.
    symmetry. f_equal. exact (foldl_ones_add (take n buf) 0 (Forall_take _ _ _ Hb) ltac:(lia)).
  - unfold internet_checksum. by rewrite (proj2 (Nat.leb_gt _ _)) by lia.
Qed.
Lemma internet_checksum_is_rfc1071_witness :
  internet_checksum [1; 2; 255; 255; 7] 5 =
    if decide (5 ≤ length [1; 2; 255; 255; 7])%nat
    then Ok (65535 - foldl ones_add 0 (host_words (take 5 [1; 2; 255; 255; 7]))) else Fault OutOfBounds.
Proof. apply (internet_checksum_is_rfc1071 [1; 2; 255; 255; 7] 5); [by repeat constructor|lia]. Defined.

(** A packet sent with [send] starts with a 20-byte header whose own checksum verifies (the checksum of the
    emitted header is 0); the receiver of [connect_recv] gets the data and the header back, except
    that the flags read as 0, exactly when its filters accept the header; a packet shorter than a header
    makes it read out of bounds. *)
Theorem ip4_send_recv (h : ip4_header) (data : list Z) (f : ip4_filters) (short : list Z) :
  ip4_header_ok h → (length short < 20)%nat →
  ∃ pkt, ip4_send true h data = Ok (Some pkt) ∧
    internet_checksum pkt 20 = Ok 0 ∧
    ip4_handle_recv (if_src f) (if_dest f) (if_prot f) pkt
    = Ok (if ip4_match f h then Some (clear_flags (ip4_sealed h), data) else None) ∧
    ip4_handle_recv (if_src f) (if_dest f) (if_prot f) short = Fault OutOfBounds.
Proof.
  intros Hh Hsh. destruct (ip4_checksum_verifies h Hh) as [Hs Hv].
  exists (ip4_bytes (ip4_sealed h) ++ data). split; [by apply ip4_send_ok|].
  split; [|split; [by rewrite ip4_recv_ok|by apply ip4_recv_short]].
  pose proof (ip4_bytes_length _ Hs) as Hl. unfold internet_checksum in *.
  rewrite Hl, Nat.leb_refl, take_ge in Hv by lia.
  rewrite length_app, Hl, take_app_length' by done. by rewrite (proj2 (Nat.leb_le _ _)) by lia.
Qed.
Definition ip4_witness : ip4_header :=
  Ip4Header 4 5 0 22 1234 2 0 255 ip_prot_udp 0 (Ip4Addr [10; 0; 0; 1]) (Ip4Addr [10; 0; 0; 2]).
Lemma ip4_witness_ok : ip4_header_ok ip4_witness.
Proof. repeat split; try done; by repeat constructor. Qed.
Lemma ip4_send_recv_witness :
  ∃ pkt, ip4_send true ip4_witness [1; 2] = Ok (Some pkt) ∧
    internet_checksum pkt 20 = Ok 0 ∧
    ip4_handle_recv None None (Some ip_prot_udp) pkt
    = Ok (if ip4_match (Ip4Filters None None (Some ip_prot_udp) ltac:(done) ltac:(done)) ip4_witness
          then Some (clear_flags (ip4_sealed ip4_witness), [1; 2]) else None) ∧
    ip4_handle_recv None None (Some ip_prot_udp) [69] = Fault OutOfBounds.
Proof.
  apply (ip4_send_recv ip4_witness [1; 2] (Ip4Filters None None (Some ip_prot_udp) ltac:(done) ltac:(done)) [69]);
    [apply ip4_witness_ok|simpl; lia].
Defined.

(** Printing and parsing an address gives it back, printing and parsing a subnet with 0 to 32 mask bits
    gives it back, and the address after an address is its number plus one modulo 2^32. *)
Theorem ip4_text_and_next (a : ip4_addr) (m : ip4_subnet_mask) :
  ip4_ok a → subnet_ok m →
  str_to_ip4_addr (ip4_addr_to_str a) = Ok (Some a) ∧
  str_to_ip4_subnet_mask (ip4_subnet_mask_to_str m) = Ok (Some m) ∧
  ip4_ok (generate_next_ip a) ∧ ip4_value (generate_next_ip a) = (ip4_value a + 1) `mod` 2 ^ 32.
Proof.
  intros Ha Hm. split; [by apply str_to_ip4_to_str|]. split; [by apply str_to_subnet_to_str|].
  by apply generate_next_ip_spec.
Qed.
Lemma ip4_text_and_next_witness :
  str_to_ip4_addr (ip4_addr_to_str (Ip4Addr [10; 0; 255; 255])) = Ok (Some (Ip4Addr [10; 0; 255; 255])) ∧
  str_to_ip4_subnet_mask (ip4_subnet_mask_to_str (Ip4SubnetMask ip4_addr_empty 32))
    = Ok (Some (Ip4SubnetMask ip4_addr_empty 32)) ∧
  ip4_ok (generate_next_ip (Ip4Addr [10; 0; 255; 255])) ∧
  ip4_value (generate_next_ip (Ip4Addr [10; 0; 255; 255])) = (ip4_value (Ip4Addr [10; 0; 255; 255]) + 1) `mod` 2 ^ 32.
Proof.
  apply (ip4_text_and_next (Ip4Addr [10; 0; 255; 255]) (Ip4SubnetMask ip4_addr_empty 32));
    repeat split; try done; by repeat constructor.
Defined.

(** The subnet test compares the whole octets of the mask by value and the remaining mask bits on the
    LOW end of the next octet: for masks of 0, 8, 16 and 24 bits it is the prefix test, for the others it is
    not; with 32 bits it reads past the octets. *)
Theorem is_inside_subnet_spec (m : ip4_subnet_mask) (ip : ip4_addr) (k : nat) (b : Z) :
  subnet_ok m → ip4_ok ip → no_mask_bits m = 8 * Z.of_nat k + b → 0 ≤ b < 8 →
  is_inside_subnet m ip =
    match ip4_octets (base_addr m) !! k, ip4_octets ip !! k with
    | Some o, Some o' =>
        Ok (bool_decide (take k (ip4_octets (base_addr m)) = take k (ip4_octets ip)) &&
            (o `mod` 2 ^ b =? o' `mod` 2 ^ b))
    | _, _ => Fault OutOfBounds
    end.
Proof.
  intros [Ha Hbits] Hip Hm Hb. pose proof Ha as [Hl _]. pose proof Hip as [Hl' _].
  destruct (decide (k < 4)%nat) as [Hk|Hk].
  - destruct (lookup_lt_is_Some_2 (ip4_octets (base_addr m)) k) as [o Ho]; [lia|].
    destruct (lookup_lt_is_Some_2 (ip4_octets ip) k) as [o' Ho']; [lia|].
    rewrite Ho, Ho'. by apply is_inside_subnet_eq.
  - assert (k = 4%nat) as -> by lia. rewrite lookup_ge_None_2 by lia.
    assert (no_mask_bits m = 32) as E by lia. unfold is_inside_subnet. rewrite E.
    change (Z.quot 32 8) with 4. rewrite same_prefix_spec by lia. cbn [mbind res_bind].
    unfold octet_at. change (4 <? 0) with false. cbv iota. change (Z.to_nat 4) with 4%nat.
    by rewrite (lookup_ge_None_2 (ip4_octets (base_addr m))) by lia.
Qed.
Lemma is_inside_subnet_spec_witness :
  is_inside_subnet (Ip4SubnetMask (Ip4Addr [10; 0; 0; 0]) 8) (Ip4Addr [10; 1; 2; 3]) =
    match [10; 0; 0; 0] !! 1%nat, [10; 1; 2; 3] !! 1%nat with
    | Some o, Some o' =>
        Ok (bool_decide (take 1 [10; 0; 0; 0] = take 1 [10; 1; 2; 3]) && (o `mod` 2 ^ 0 =? o' `mod` 2 ^ 0))
    | _, _ => Fault OutOfBounds
    end.
Proof.
  apply (is_inside_subnet_spec (Ip4SubnetMask (Ip4Addr [10; 0; 0; 0]) 8) (Ip4Addr [10; 1; 2; 3]) 1 0);
    repeat split; simpl; (done || lia || by repeat constructor).
Defined.

(** The subnet test is not the CIDR test: 172.32.0.1 counts as inside 172.16.0.0/12 and 172.17.0.1 does
    not, and every test against a /32 rule reads out of bounds. *)
Theorem is_inside_subnet_not_cidr :
  is_inside_subnet (Ip4SubnetMask (Ip4Addr [172; 16; 0; 0]) 12) (Ip4Addr [172; 32; 0; 1]) = Ok true ∧
  is_inside_subnet (Ip4SubnetMask (Ip4Addr [172; 16; 0; 0]) 12) (Ip4Addr [172; 17; 0; 1]) = Ok false ∧
  is_inside_subnet (Ip4SubnetMask (Ip4Addr [10; 0; 0; 1]) 32) (Ip4Addr [10; 0; 0; 1]) = Fault OutOfBounds.
Proof. done. Qed.

(** The routing table gives the route of the first rule with the most mask bits among the rules that match,
    the default gateway when that rule's route is null or no rule matches, and a routed send hands the packet
    unchanged to that route. *)
Theorem ip4_routing_longest {R} (t : routing_table ip4_subnet_mask R) (addr : ip4_addr) (i : nat)
    (m : ip4_subnet_mask) (r : option R) (h : ip4_header) (data : list Z) :
  tests_ok is_inside_subnet (rules t) addr →
  is_best no_mask_bits is_inside_subnet (rules t) addr i m r →
  ip4_header_ok h → dest_addr h = addr →
  ip4_find_route t addr = Ok (match r with Some x => Some x | None => default_gateway t end) ∧
  ip4_routed_send_data t (ip4_bytes h ++ data) =
    Ok (x ← match r with Some x => Some x | None => default_gateway t end; Some (x, ip4_bytes h ++ data)).
Proof.
  intros Ht Hb Hh <-. assert (Hf : ip4_find_route t (dest_addr h) = _)
    by exact (find_route_best no_mask_bits is_inside_subnet t _ i m r Ht Hb).
  split; [done|]. unfold ip4_routed_send_data.
  destruct (packet_parse _ _ _ 20 data (reads_ip4 h Hh) (ip4_bytes_length h Hh)) as [H1 _].
  rewrite H1. cbn [mbind res_bind dest_addr clear_flags]. rewrite Hf. cbn.
  by destruct r as [x|], (default_gateway t).
Qed.
Definition table_witness : routing_table ip4_subnet_mask Z :=
  RoutingTable [(Ip4SubnetMask (Ip4Addr [10; 0; 0; 0]) 8, Some 1); (Ip4SubnetMask (Ip4Addr [10; 0; 0; 0]) 16, Some 2)]
    (Some 3).
Lemma ip4_routing_longest_witness :
  ip4_find_route table_witness (Ip4Addr [10; 0; 0; 2]) = Ok (Some 2) ∧
  ip4_routed_send_data table_witness (ip4_bytes ip4_witness ++ [1; 2]) = Ok (Some (2, ip4_bytes ip4_witness ++ [1; 2])).
Proof.
  apply (ip4_routing_longest table_witness (Ip4Addr [10; 0; 0; 2]) 1 (Ip4SubnetMask (Ip4Addr [10; 0; 0; 0]) 16) (Some 2)
    ip4_witness [1; 2]); [| |apply ip4_witness_ok|done].
  - repeat constructor; by eexists.
  - split; [done|]. split; [done|]. intros [|[|j]] m' r'; cbn; [| |done]; intros [= <- <-] _; simpl; lia.
Defined.

(** Two hosts that open single-address accesses to each other on the same protocol exchange data: what the one
    sends, the other's access delivers, whatever its length. *)
Theorem ip4_single_delivers (me peer : ip4_addr) (pr : Z) (data : list Z) :
  ip4_ok me → ip4_ok peer → byte_ok pr →
  ∃ pkt, ip4_single_send true peer (Some me) (Some pr) data = Ok (Some pkt) ∧
    ip4_single_recv true me (Some peer) (Some pr) pkt = Ok (Some data) ∧
    ip4_single_recv true peer (Some peer) (Some pr) pkt = Ok (if decide (me = peer) then Some data else None).
Proof.
  intros Hme Hpeer Hpr. unfold ip4_single_send, ip4_single_recv. cbn [default].
  set (h := ip4_access_header me peer (Some pr) data).
  assert (Hh : ip4_header_ok h).
  { unfold h, ip4_header_ok. cbn. repeat split; (lia || apply Hme || apply Hpeer || apply Hpr || apply u16_in_range). }
  assert (Hs : ip4_header_ok (ip4_sealed h)) by by apply ip4_checksum_verifies.
  eexists. split; [by apply ip4_send_ok|].
  split.
  - rewrite (ip4_recv_ok (Ip4Filters (Some me) (Some peer) (Some pr)
      ltac:(intros ? [= <-]; done) ltac:(intros ? [= <-]; done)) _ _ Hs).
    unfold ip4_match. rewrite bool_decide_true by done. done.
  - rewrite (ip4_recv_ok (Ip4Filters (Some peer) (Some peer) (Some pr)
      ltac:(intros ? [= <-]; done) ltac:(intros ? [= <-]; done)) _ _ Hs).
    unfold ip4_match. cbn. case_decide.
    + rewrite bool_decide_true by done. done.
    + rewrite bool_decide_false by naive_solver. done.
Qed.
Lemma ip4_single_delivers_witness :
  ∃ pkt, ip4_single_send true (Ip4Addr [10; 0; 0; 2]) (Some (Ip4Addr [10; 0; 0; 1])) (Some ip_prot_icmp) [7] = Ok (Some pkt) ∧
    ip4_single_recv true (Ip4Addr [10; 0; 0; 1]) (Some (Ip4Addr [10; 0; 0; 2])) (Some ip_prot_icmp) pkt = Ok (Some [7]) ∧
    ip4_single_recv true (Ip4Addr [10; 0; 0; 2]) (Some (Ip4Addr [10; 0; 0; 2])) (Some ip_prot_icmp) pkt
    = Ok (if decide (Ip4Addr [10; 0; 0; 1] = Ip4Addr [10; 0; 0; 2]) then Some [7] else None).
Proof.
  apply (ip4_single_delivers (Ip4Addr [10; 0; 0; 1]) (Ip4Addr [10; 0; 0; 2]) ip_prot_icmp [7]);
    repeat split; (done || by repeat constructor).
Defined.
