(* ===== verification/Udp.v ===== *)
(** UDP: [src/protocols/udp].  The 8-byte header, [send] and [connect_recv], and the net
    access to a single port. *)

From Stdlib Require Import ZArith Lia.
From stdpp Require Import base decidable list numbers.
From S2P Require Import Prelude Cursor Encap Ether2 Ip4.

(** * udp_header.h, udp_header.cpp *)

Record udp_header := UdpHeader { src_port : Z; dest_port : Z; udp_len : Z; udp_checksum : Z }.
Definition udp_header_ok (h : udp_header) : Prop :=
  u16_ok (src_port h) ∧ u16_ok (dest_port h) ∧ u16_ok (udp_len h) ∧ u16_ok (udp_checksum h).
Definition sizeof_udp_header : nat := 8.

Definition write_udp_header (h : udp_header) : wr nat :=
  put16 (htons (src_port h));;
  put16 (htons (dest_port h));;
  put16 (htons (udp_len h));;
  put16 (htons (udp_checksum h));;
  mret sizeof_udp_header.
Definition extract_udp_header : rd (udp_header * nat) :=
  src_port ← ntohs <$> get16;
  dest_port ← ntohs <$> get16;
  len ← ntohs <$> get16;
  checksum ← ntohs <$> get16;
  mret (UdpHeader src_port dest_port len checksum, sizeof_udp_header).

(** * udp_protocol.h, udp_protocol.cpp *)

(** The copy [tmp] that [send] completes: [len] converts a [size_t]. *)
Definition udp_sealed (header : udp_header) (data : list Z) : udp_header :=
  UdpHeader (src_port header) (dest_port header)
    (u16 (Z.of_nat sizeof_udp_header + Z.of_nat (length data))) 0.

Definition udp_send (surface : bool) (header : udp_header) (data : list Z) : res (option (list Z)) :=
  if negb surface then Ok None
  else
    let buff := replicate (sizeof_udp_header + length data) 0 in
    '(buff, _) ← run_write (write_udp_header (udp_sealed header data)) buff;
    buff ← memcpy buff sizeof_udp_header data;
    Ok (Some buff).

Definition udp_handle_recv (src dest : option Z) (data : list Z) : res (option (udp_header * list Z)) :=
  '(header, _) ← run_extract extract_udp_header data;
  encap_data ← subvector data sizeof_udp_header (length data);
  if filter_rejects Z.eqb src (src_port header) then Ok None
  else if filter_rejects Z.eqb dest (dest_port header) then Ok None
  else Ok (Some (header, encap_data)).

(** The net access to one port: [src] is the optional remote port, [dest] the local one.  The
    fields that [send] overwrites are left out of the header it fills in. *)
Definition udp_single_send (surface : bool) (src : option Z) (dest : Z) (data : list Z) : res (option (list Z)) :=
  udp_send surface (UdpHeader dest (default 0 src) 0 0) data.
Definition udp_single_recv (recv_access_set : bool) (src : option Z) (dest : Z) (data : list Z) :
    res (option (list Z)) :=
  o ← udp_handle_recv src (Some dest) data; Ok (forward_if recv_access_set (snd <$> o)).

(** * Lemmas *)

Definition udp_bytes (h : udp_header) : list Z :=
  be16 (src_port h) ++ be16 (dest_port h) ++ be16 (udp_len h) ++ be16 (udp_checksum h).

Lemma writes_udp h : writes (write_udp_header h) (udp_bytes h) 8%nat.
Proof. eapply writes_cast; [unfold write_udp_header; solve_writes|done|done]. Qed.
Lemma reads_udp h : udp_header_ok h → reads extract_udp_header (udp_bytes h) (h, 8%nat).
Proof.
  intros (?&?&?&?). destruct h as [s d l c]. eapply reads_cast.
  - unfold extract_udp_header.
    eapply reads_bind; [apply (reads_ntohs s); done|].
    eapply reads_bind; [apply (reads_ntohs d); done|].
    eapply reads_bind; [apply (reads_ntohs l); done|].
    eapply reads_bind; [apply (reads_ntohs c); done|apply reads_ret].
  - done.
  - done.
Qed.
Lemma size_udp : extract_size extract_udp_header 8 8.
Proof. eapply extract_size_cast; [unfold extract_udp_header; solve_size|done]. Qed.
Lemma udp_bytes_ok h : bytes_ok (udp_bytes h).
Proof. unfold udp_bytes. solve_bytes. Qed.
Lemma udp_sealed_ok h data : u16_ok (src_port h) → u16_ok (dest_port h) → udp_header_ok (udp_sealed h data).
Proof.
  intros. split; [done|]. split; [done|]. split; [apply u16_in_range|]. unfold u16_ok. simpl. lia.
Qed.

Lemma udp_send_ok h data : udp_send true h data = Ok (Some (udp_bytes (udp_sealed h data) ++ data)).
Proof.
  pose proof (packet_build _ _ _ 8 data (writes_udp (udp_sealed h data)) eq_refl) as Hp.
  unfold udp_send, sizeof_udp_header. cbn [negb].
  destruct (run_write _ _) as [[buff n]|]; cbn [mbind res_bind] in *; [by rewrite Hp|done].
Qed.

Definition udp_match (f : option Z * option Z) (h : udp_header) : bool :=
  bool_decide (filter_accepts (fst f) (src_port h) ∧ filter_accepts (snd f) (dest_port h)).

Lemma udp_recv_ok f h data :
  udp_header_ok h →
  udp_handle_recv (fst f) (snd f) (udp_bytes h ++ data) = Ok (if udp_match f h then Some (h, data) else None).
Proof.
  intros Hh. destruct (packet_parse _ _ _ 8 data (reads_udp h Hh) eq_refl) as [H1 H2].
  unfold udp_handle_recv, sizeof_udp_header. rewrite H1. cbn [mbind res_bind]. rewrite H2. cbn [mbind res_bind].
  rewrite !Z_filter_rejects. unfold udp_match. repeat case_bool_decide; naive_solver.
Qed.
Lemma udp_recv_short src dest data :
  (length data < 8)%nat → udp_handle_recv src dest data = Fault OutOfBounds.
Proof. intros Hl. unfold udp_handle_recv. by rewrite (extract_size_short _ _ _ _ size_udp Hl). Qed.

#[local] Obligation Tactic := idtac.

#[export] Program Instance udp_encap : Encap udp_header (option Z * option Z) := {|
  encap_send h d := sent (udp_send true h d);
  encap_recv f d := udp_handle_recv (fst f) (snd f) d;
  encap_ok h d := u16_ok (src_port h) ∧ u16_ok (dest_port h) ∧ bytes_ok d;
  encap_seen := udp_sealed;
  encap_match := udp_match
|}.
Next Obligation.
  intros h d pkt (Hs & Hd & Hb). cbv beta. rewrite udp_send_ok. intros <-%sent_inj. apply Forall_app_2; [apply udp_bytes_ok|done].
Qed.
Next Obligation. intros h d _. cbv beta. rewrite udp_send_ok. by eexists. Qed.
Next Obligation.
  intros h d f pkt (Hs & Hd & Hb). cbv beta. rewrite udp_send_ok. intros <-%sent_inj. apply udp_recv_ok. by apply udp_sealed_ok.
Qed.

(** * Properties *)

(** [send] fills in the length and a zero checksum whatever the caller put there, the receiver gets that
    header and the data exactly when both port filters accept, and a datagram shorter than a header
    makes it read out of bounds. *)
Theorem udp_send_recv (h : udp_header) (data : list Z) (src dest : option Z) (short : list Z) :
  u16_ok (src_port h) → u16_ok (dest_port h) → (length short < 8)%nat →
  ∃ pkt, udp_send true h data = Ok (Some pkt) ∧
    udp_handle_recv src dest pkt =
      Ok (if decide (filter_accepts src (src_port h) ∧ filter_accepts dest (dest_port h)) then
            Some (UdpHeader (src_port h) (dest_port h) ((8 + Z.of_nat (length data)) `mod` 65536) 0, data)
          else None) ∧
    udp_handle_recv src dest short = Fault OutOfBounds.
Proof.
  intros Hs Hd Hl. eexists. split; [apply udp_send_ok|]. split; [|by apply udp_recv_short].
  rewrite (udp_recv_ok (src, dest)) by by apply udp_sealed_ok. unfold udp_match. cbn [fst snd].
  case_bool_decide; by case_decide.
Qed.
Lemma udp_send_recv_witness :
  ∃ pkt, udp_send true (UdpHeader 1000 53 0 0) [1; 2] = Ok (Some pkt) ∧
    udp_handle_recv None (Some 53) pkt =
      Ok (if decide (filter_accepts None 1000 ∧ filter_accepts (Some 53) 53) then
            Some (UdpHeader 1000 53 ((8 + Z.of_nat (length [1; 2])) `mod` 65536) 0, [1; 2])
          else None) ∧
    udp_handle_recv None (Some 53) [1] = Fault OutOfBounds.
Proof. apply (udp_send_recv (UdpHeader 1000 53 0 0) [1; 2] None (Some 53) [1]); [done|done|simpl; lia]. Defined.

(** C1: a datagram sent through the whole stack, UDP in IPv4 in Ethernet, is delivered byte for byte by a stack of
    receivers whose filters accept the three headers, and is dropped otherwise; only the IPv4 flags are lost
    on the way. *)
Theorem udp_ip4_ether2_stack (eh : ethernet2_header) (ih : ip4_header) (uh : udp_header) (data : list Z)
    (ef : ether2_filters) (jf : ip4_filters) (uf : option Z * option Z) :
  ethernet2_header_ok eh → ip4_header_ok ih → u16_ok (src_port uh) → u16_ok (dest_port uh) → bytes_ok data →
  ∃ frame, encap_send (eh, (ih, uh)) data = Ok frame ∧ bytes_ok frame ∧
    encap_recv (ef, (jf, uf)) frame =
      Ok (if ef_match ef eh && (ip4_match jf (clear_flags (ip4_sealed ih)) && udp_match uf (udp_sealed uh data))
          then Some ((eh, (clear_flags (ip4_sealed ih), udp_sealed uh data)), data) else None).
Proof.
  intros He Hi Hs Hd Hb.
  assert (Hok : encap_ok (F:=ether2_filters * (ip4_filters * (option Z * option Z))) (eh, (ih, uh)) data).
  { assert (Hu : encap_ok (F:=option Z * option Z) uh data) by done.
    assert (H2 : encap_ok (F:=ip4_filters * (option Z * option Z)) (ih, uh) data).
    { split; [done|]. intros inner Hin. split; [done|].
      by apply (encap_bytes uh data inner Hu). }
    split; [done|]. intros inner Hin. split; [done|]. by apply (encap_bytes (ih, uh) data inner H2). }
  destruct (encap_total _ _ Hok) as [frame Hf]. exists frame. split; [done|].
  split; [by apply (encap_bytes _ _ _ Hok)|]. by rewrite (encap_delivers _ _ (ef, (jf, uf)) _ Hok Hf).
Qed.
Lemma udp_ip4_ether2_stack_witness :
  let ef := Ether2Filters None None (Some ethertype_ip4) ltac:(done) ltac:(done) in
  let jf := Ip4Filters None None (Some ip_prot_udp) ltac:(done) ltac:(done) in
  ∃ frame, encap_send (mac_witness, (ip4_witness, UdpHeader 1000 53 0 0)) [1; 2; 3] = Ok frame ∧ bytes_ok frame ∧
    encap_recv (ef, (jf, (None, Some 53))) frame =
      Ok (if ef_match ef mac_witness && (ip4_match jf (clear_flags (ip4_sealed ip4_witness))
             && udp_match (None, Some 53) (udp_sealed (UdpHeader 1000 53 0 0) [1; 2; 3]))
          then Some ((mac_witness, (clear_flags (ip4_sealed ip4_witness), udp_sealed (UdpHeader 1000 53 0 0) [1; 2; 3])), [1; 2; 3])
          else None).
Proof.
  intros ef jf. apply (udp_ip4_ether2_stack mac_witness ip4_witness (UdpHeader 1000 53 0 0) [1; 2; 3]).
  - repeat split; repeat constructor; done.
  - apply ip4_witness_ok.
  - done.
  - done.
  - by repeat constructor.
Defined.
