(* ===== verification/Icmp.v ===== *)
(** ICMP: [src/protocols/icmp], and its client [src/tools/ping/ping_tool.h]. *)

From Stdlib Require Import ZArith Lia.
From stdpp Require Import base decidable list numbers.
From S2P Require Import Prelude Cursor Encap Ether2 Ip4.

(** * icmp_header.h, icmp_header.cpp *)

Definition icmp_echoreply : Z := 0.
Definition icmp_dest_unreachable : Z := 3.
Definition icmp_redirect : Z := 5.
Definition icmp_echo : Z := 8.
Definition icmp_time_exceeded : Z := 11.

(** The union [content] is its [raw] member; the host is little-endian. *)
Record icmp_header := IcmpHeader { icmp_type : Z; icmp_code : Z; icmp_cksum : Z; icmp_raw : Z }.
Definition icmp_header_ok (h : icmp_header) : Prop :=
  byte_ok (icmp_type h) ∧ byte_ok (icmp_code h) ∧ u16_ok (icmp_cksum h) ∧ u32_ok (icmp_raw h).
Definition echo_id (h : icmp_header) : Z := icmp_raw h `mod` 65536.
Definition echo_sequence (h : icmp_header) : Z := icmp_raw h `div` 65536.
Definition echo_content (id sequence : Z) : Z := id + 65536 * sequence.

Definition sizeof_icmp_header : nat := 8.
Definition write_icmp_header (h : icmp_header) : wr nat :=
  put8 (icmp_type h);;
  put8 (icmp_code h);;
  put16 (icmp_cksum h);;
  put32 (htonl (icmp_raw h));;
  mret sizeof_icmp_header.
Definition extract_icmp_header : rd (icmp_header * nat) :=
  type ← get8;
  code ← get8;
  checksum ← get16;
  raw ← ntohl <$> get32;
  mret (IcmpHeader type code checksum raw, sizeof_icmp_header).

(** * icmp_protocol.cpp *)

Definition icmp_set_cksum (c : Z) (h : icmp_header) : icmp_header :=
  IcmpHeader (icmp_type h) (icmp_code h) c (icmp_raw h).

Definition icmp_send (surface : bool) (header : icmp_header) (data : list Z) : res (option (list Z)) :=
  if negb surface then Ok None
  else
    let buff := replicate (sizeof_icmp_header + length data) 0 in
    let tmp_header := icmp_set_cksum 0 header in
    '(buff, _) ← run_write (write_icmp_header tmp_header) buff;
    buff ← memcpy buff sizeof_icmp_header data;
    c ← internet_checksum buff (length buff);
    let tmp_header := icmp_set_cksum c tmp_header in
    '(buff, _) ← run_write (write_icmp_header tmp_header) buff;
    Ok (Some buff).

(** Unlike the other protocols the receiver gets the whole packet, header included. *)
Definition icmp_handle_recv (type : option Z) (data : list Z) : res (option (icmp_header * list Z)) :=
  '(header, _) ← run_extract extract_icmp_header data;
  if filter_rejects Z.eqb type (icmp_type header) then Ok None
  else Ok (Some (header, data)).

(** * ping_tool.h *)

(** What the switch over the type of a reply decides. *)
Definition ping_failed (my_id : Z) (r : icmp_header) : bool :=
  if icmp_type r =? icmp_time_exceeded then true
  else if icmp_type r =? icmp_dest_unreachable then true
  else if icmp_type r =? icmp_redirect then true
  else if icmp_type r =? icmp_echoreply then negb (echo_id r =? my_id)
  else true.
(** The inner loop of [ping] after an echo has been sent [sent] times.  An observation is
    one call of [front]: [None] when it timed out, [Some r] when it gave (and
    [pop_front] removed) the reply [r].  The result is the number of echos sent, and
    the observations left when a reply has ended the loop, [None] while it still waits. *)
Fixpoint ping_await (my_id : Z) (sent : nat) (obs : list (option icmp_header)) :
    nat * option (list (option icmp_header)) :=
  match obs with
  | [] => (sent, None)
  | None :: obs => ping_await my_id (S sent) obs
  | Some r :: obs =>
      if negb (echo_id r =? my_id) then ping_await my_id sent obs
      else if ping_failed my_id r then ping_await my_id (S sent) obs else (sent, Some obs)
  end.

Definition ping_id : Z := 0x1234.
Definition ping_echo (sequence : Z) : icmp_header := IcmpHeader icmp_echo 0 0 (echo_content ping_id sequence).

(** The outer loop: the queue is cleared before every iteration, so each has
    observations of its own; the result is the echos sent, in order, and whether the loop has ended. *)
Fixpoint ping_loop (sequence : Z) (rounds : list (list (option icmp_header))) : list icmp_header * bool :=
  match rounds with
  | [] => ([], true)
  | obs :: rounds =>
      match ping_await ping_id 1 obs with
      | (sent, None) => (replicate sent (ping_echo sequence), false)
      | (sent, Some _) =>
          let '(rest, ended) := ping_loop (u16 (sequence + 1)) rounds in (replicate sent (ping_echo sequence) ++ rest, ended)
      end
  end.
Definition ping (rounds : list (list (option icmp_header))) : list icmp_header * bool := ping_loop 10 rounds.

(** * Lemmas *)

Definition icmp_bytes (h : icmp_header) : list Z :=
  [icmp_type h; icmp_code h] ++ le16 (icmp_cksum h) ++ be32 (icmp_raw h).

Lemma writes_icmp h : icmp_header_ok h → writes (write_icmp_header h) (icmp_bytes h) 8%nat.
Proof.
  intros (?&?&?&?). eapply writes_cast; [unfold write_icmp_header; solve_writes| |done].
  by rewrite !u8_small.
Qed.
Lemma reads_icmp h : icmp_header_ok h → reads extract_icmp_header (icmp_bytes h) (h, 8%nat).
Proof.
  intros (?&?&?&?). destruct h as [t c k r]. eapply reads_cast.
  - unfold extract_icmp_header.
    eapply reads_bind; [apply (reads_get8 t)|].
    eapply reads_bind; [apply (reads_get8 c)|].
    eapply reads_bind; [apply (reads_le16 k); done|].
    eapply reads_bind; [apply (reads_ntohl r); done|apply reads_ret].
  - done.
  - done.
Qed.
Lemma size_icmp : extract_size extract_icmp_header 8 8.
Proof. eapply extract_size_cast; [unfold extract_icmp_header; solve_size|done]. Qed.
Lemma icmp_bytes_ok h : icmp_header_ok h → bytes_ok (icmp_bytes h).
Proof. intros (?&?&?&?). unfold icmp_bytes, be32. solve_bytes. Qed.

(** What [send] emits: the checksum is over the header and the data. *)
Definition icmp_checksum (h : icmp_header) (data : list Z) : Z :=
  fold_sum (sum_words (icmp_bytes (icmp_set_cksum 0 h) ++ data) 0).
Definition icmp_sealed (h : icmp_header) (data : list Z) : icmp_header :=
  icmp_set_cksum (icmp_checksum h data) h.

Lemma icmp_set_cksum_ok c h : icmp_header_ok h → u16_ok c → icmp_header_ok (icmp_set_cksum c h).
Proof. unfold icmp_header_ok, icmp_set_cksum. simpl. tauto. Qed.

Lemma fold_sum_ok s : u16_ok (fold_sum s).
Proof. apply u16_in_range. Qed.

Lemma icmp_send_ok h data :
  icmp_header_ok h → icmp_send true h data = Ok (Some (icmp_bytes (icmp_sealed h data) ++ data)).
Proof.
  intros Hh. assert (H0 : icmp_header_ok (icmp_set_cksum 0 h)) by (by apply icmp_set_cksum_ok; [|unfold u16_ok; lia]).
  assert (H1 : icmp_header_ok (icmp_sealed h data)) by (apply icmp_set_cksum_ok; [done|apply fold_sum_ok]).
  pose proof (packet_build _ _ _ 8 data (writes_icmp _ H0) eq_refl) as Hp.
  unfold icmp_send, sizeof_icmp_header. cbn [negb].
  destruct (run_write _ _) as [[buff n]|]; cbn [mbind res_bind] in *; [|done]. rewrite Hp. cbn [mbind res_bind].
  unfold internet_checksum. rewrite Nat.leb_refl, take_ge by done. cbn [mbind res_bind].
  fold (icmp_checksum h data).
  change (icmp_set_cksum (icmp_checksum h data) (icmp_set_cksum 0 h)) with (icmp_sealed h data).
  rewrite (run_write_fits _ _ _ _ (writes_icmp _ H1)) by (rewrite length_app; simpl; lia). cbn [mbind res_bind].
  by rewrite blit_prefix, drop_app_length' by (rewrite ?length_app; simpl; lia).
Qed.

Lemma icmp_emitted_verifies h data :
  icmp_header_ok h → bytes_ok data → Z.of_nat (length data) ≤ 131064 →
  let pkt := icmp_bytes (icmp_sealed h data) ++ data in
  internet_checksum pkt (length pkt) = Ok 0.
Proof.
  intros Hh Hd Hl. pose proof Hh as (?&?&?&?).
  apply (checksum_verifies [icmp_type h; icmp_code h] (be32 (icmp_raw h) ++ data) (icmp_checksum h data)).
  - solve_bytes.
  - apply Forall_app_2; [unfold be32; solve_bytes|done].
  - done.
  - rewrite !length_app. simpl. lia.
  - unfold internet_checksum. by rewrite Nat.leb_refl, take_ge.
Qed.

Lemma icmp_recv_ok type h data :
  icmp_header_ok h →
  icmp_handle_recv type (icmp_bytes h ++ data)
  = Ok (if decide (filter_accepts type (icmp_type h)) then Some (h, icmp_bytes h ++ data) else None).
Proof.
  intros Hh. unfold icmp_handle_recv. rewrite (run_extract_reads _ _ _ _ (reads_icmp h Hh)). cbn [mbind res_bind].
  rewrite Z_filter_rejects. by destruct (decide (filter_accepts type (icmp_type h)));
    [rewrite bool_decide_false by tauto|rewrite bool_decide_true].
Qed.

(** A reply that ends the loop, and one that makes it send again. *)
Definition ping_good (my_id : Z) (o : option icmp_header) : bool :=
  match o with Some r => (echo_id r =? my_id) && (icmp_type r =? icmp_echoreply) | None => false end.
Definition ping_resends (my_id : Z) (o : option icmp_header) : bool :=
  match o with Some r => (echo_id r =? my_id) && negb (icmp_type r =? icmp_echoreply) | None => true end.

Lemma ping_await_skip my_id sent pre obs :
  Forall (λ o, ping_good my_id o = false) pre →
  ping_await my_id sent (pre ++ obs)
  = ping_await my_id (sent + length (filter (λ o, ping_resends my_id o = true) pre)) obs.
Proof.
  intros Hp. revert sent. induction Hp as [|o pre Ho Hp IH]; intros sent; [by rewrite Nat.add_0_r|].
  cbn [app ping_await]. destruct o as [r|].
  - simpl in Ho. destruct (echo_id r =? my_id) eqn:Eid; cbn [negb andb] in *.
    + assert (E : icmp_type r =? icmp_echoreply = false) by done.
      rewrite filter_cons_True by (simpl; by rewrite Eid, E). cbn [length].
      replace (sent + S _)%nat with (S sent + length (filter (λ o, ping_resends my_id o = true) pre))%nat by lia.
      rewrite <- IH. unfold ping_failed. rewrite E. by repeat case_match.
    + rewrite filter_cons_False by (simpl; by rewrite Eid). apply IH.
  - rewrite filter_cons_True by done. cbn [length].
    replace (sent + S _)%nat with (S sent + length (filter (λ o, ping_resends my_id o = true) pre))%nat by lia.
    apply IH.
Qed.
Lemma ping_await_good my_id sent r obs :
  ping_good my_id (Some r) = true → ping_await my_id sent (Some r :: obs) = (sent, Some obs).
Proof.
  simpl. intros [Hid Ht]%andb_prop. unfold ping_failed. rewrite Hid. apply Z.eqb_eq in Ht. rewrite Ht. done.
Qed.

(** * Properties *)

(** A message sent with [send] verifies as a whole (the checksum over header and data is 0, for up to 131064 bytes
    of data); the receiver gets the header back when the type filter accepts, together with the packet itself: its 8
    header bytes are not taken off the data. *)
Theorem icmp_send_recv (h : icmp_header) (data : list Z) (type : option Z) :
  icmp_header_ok h → bytes_ok data → Z.of_nat (length data) ≤ 131064 →
  ∃ pkt, icmp_send true h data = Ok (Some pkt) ∧
    internet_checksum pkt (length pkt) = Ok 0 ∧ drop 8 pkt = data ∧
    icmp_handle_recv type pkt
    = Ok (if decide (filter_accepts type (icmp_type h)) then Some (icmp_sealed h data, pkt) else None).
Proof.
  intros Hh Hd Hl. exists (icmp_bytes (icmp_sealed h data) ++ data).
  split; [by apply icmp_send_ok|]. split; [by apply icmp_emitted_verifies|]. split; [done|].
  apply (icmp_recv_ok type (icmp_sealed h data)). apply icmp_set_cksum_ok; [done|apply fold_sum_ok].
Qed.
Lemma icmp_send_recv_witness :
  ∃ pkt, icmp_send true (ping_echo 10) [1; 2; 3] = Ok (Some pkt) ∧
    internet_checksum pkt (length pkt) = Ok 0 ∧ drop 8 pkt = [1; 2; 3] ∧
    icmp_handle_recv (Some icmp_echo) pkt
    = Ok (if decide (filter_accepts (Some icmp_echo) icmp_echo) then Some (icmp_sealed (ping_echo 10) [1; 2; 3], pkt) else None).
Proof.
  apply (icmp_send_recv (ping_echo 10) [1; 2; 3] (Some icmp_echo)); [|by repeat constructor|simpl; lia].
  repeat split; done.
Defined.

(** One round of ping ends at the first reply that carries its identifier and is an echo reply, of any sequence
    number; before it, every timeout and every other reply with its identifier makes it send the echo once more,
    and a reply with another identifier is skipped without sending. *)
Theorem ping_round_spec (my_id : Z) (pre : list (option icmp_header)) (r : icmp_header)
    (obs : list (option icmp_header)) :
  Forall (λ o, ping_good my_id o = false) pre → ping_good my_id (Some r) = true →
  ping_await my_id 1 (pre ++ Some r :: obs)
  = ((1 + length (filter (λ o, ping_resends my_id o = true) pre))%nat, Some obs).
Proof. intros Hp Hr. rewrite ping_await_skip by done. by apply ping_await_good. Qed.
Lemma ping_round_spec_witness :
  ping_await ping_id 1 ([None; Some (IcmpHeader 11 0 0 ping_id); Some (IcmpHeader 0 0 0 7)]
    ++ Some (IcmpHeader 0 0 0 (echo_content ping_id 3)) :: [])
  = ((1 + length (filter (λ o, ping_resends ping_id o = true)
             [None; Some (IcmpHeader 11 0 0 ping_id); Some (IcmpHeader 0 0 0 7)]))%nat, Some []).
Proof.
  apply (ping_round_spec ping_id [None; Some (IcmpHeader 11 0 0 ping_id); Some (IcmpHeader 0 0 0 7)]
    (IcmpHeader 0 0 0 (echo_content ping_id 3)) []); [by repeat constructor|done].
Defined.
