(* ===== verification/Arp.v ===== *)
(** ARP: [src/protocols/arp].  The header with its variable-size addresses, [send] and
    [connect_recv]. *)

From Stdlib Require Import ZArith Lia.
From stdpp Require Import base decidable list numbers.
From S2P Require Import Prelude Cursor Encap Ether2.

(** * arp_header.h, arp_header.cpp *)

Definition arp_op_request : Z := 1.
Definition arp_op_reply : Z := 2.

Record arp_header := ArpHeader {
  hard_type : Z; prot_type : Z; hard_addr_sz : Z; prot_addr_sz : Z; arp_op : Z;
  sender_hard_addr : list Z; sender_prot_addr : list Z;
  target_hard_addr : list Z; target_prot_addr : list Z
}.

(** The size of the header on the wire. *)
Definition arp_calc_sz (h : arp_header) : nat :=
  (8 + Z.to_nat (hard_addr_sz h) + Z.to_nat (prot_addr_sz h)
     + Z.to_nat (hard_addr_sz h) + Z.to_nat (prot_addr_sz h))%nat.

(** The four address blocks: [abort()] when the size of a vector is not the size announced. *)
Definition put_addr (addr : list Z) (sz : Z) : wr () :=
  if negb (Z.of_nat (length addr) =? sz) then wr_fault Aborted else put_bytes addr.
Definition write_arp_header (h : arp_header) : wr nat :=
  counted (
    put16 (htons (hard_type h));;
    put16 (htons (prot_type h));;
    put8 (hard_addr_sz h);;
    put8 (prot_addr_sz h);;
    put16 (htons (arp_op h));;
    put_addr (sender_hard_addr h) (hard_addr_sz h);;
    put_addr (sender_prot_addr h) (prot_addr_sz h);;
    put_addr (target_hard_addr h) (hard_addr_sz h);;
    put_addr (target_prot_addr h) (prot_addr_sz h)).

Definition extract_arp_header : rd (arp_header * nat) :=
  rd_counted (
    hard_type ← ntohs <$> get16;
    prot_type ← ntohs <$> get16;
    hard_addr_sz ← get8;
    prot_addr_sz ← get8;
    op ← ntohs <$> get16;
    sender_hard_addr ← get_bytes (Z.to_nat hard_addr_sz);
    sender_prot_addr ← get_bytes (Z.to_nat prot_addr_sz);
    target_hard_addr ← get_bytes (Z.to_nat hard_addr_sz);
    target_prot_addr ← get_bytes (Z.to_nat prot_addr_sz);
    mret (ArpHeader hard_type prot_type hard_addr_sz prot_addr_sz op
            sender_hard_addr sender_prot_addr target_hard_addr target_prot_addr)).

(** * arp_protocol.cpp *)

(** [sizeof(arp_header)] is the size of the struct in memory: 8 bytes of fields and four
    [vector]s of 24 bytes (64-bit libstdc++ and libc++), not the size of the header on the wire. *)
Definition sizeof_arp_header : nat := 104.

Definition arp_send (header : arp_header) : res (list Z) :=
  let buff := replicate sizeof_arp_header 0 in
  '(buff, _) ← run_write (write_arp_header header) buff;
  Ok buff.

Definition arp_handle_recv (op : option Z) (data : list Z) : res (option arp_header) :=
  '(header, _) ← run_extract extract_arp_header data;
  if filter_rejects Z.eqb op (arp_op header) then Ok None else Ok (Some header).

(** * Lemmas *)

Definition arp_header_ok (h : arp_header) : Prop :=
  u16_ok (hard_type h) ∧ u16_ok (prot_type h) ∧ byte_ok (hard_addr_sz h) ∧ byte_ok (prot_addr_sz h) ∧
  u16_ok (arp_op h).
Definition arp_sizes_match (h : arp_header) : Prop :=
  Z.of_nat (length (sender_hard_addr h)) = hard_addr_sz h ∧ Z.of_nat (length (sender_prot_addr h)) = prot_addr_sz h ∧
  Z.of_nat (length (target_hard_addr h)) = hard_addr_sz h ∧ Z.of_nat (length (target_prot_addr h)) = prot_addr_sz h.
#[export] Instance arp_sizes_match_dec h : Decision (arp_sizes_match h).
Proof. unfold arp_sizes_match. apply _. Defined.

Definition arp_bytes (h : arp_header) : list Z :=
  be16 (hard_type h) ++ be16 (prot_type h) ++ [hard_addr_sz h; prot_addr_sz h] ++ be16 (arp_op h) ++
  sender_hard_addr h ++ sender_prot_addr h ++ target_hard_addr h ++ target_prot_addr h.

Lemma arp_bytes_length h : arp_sizes_match h → length (arp_bytes h) = arp_calc_sz h.
Proof.
  intros (H1&H2&H3&H4). unfold arp_bytes, arp_calc_sz. rewrite <- H1, <- H2, !length_app. simpl. lia.
Qed.

Lemma writes_put_addr addr sz : Z.of_nat (length addr) = sz → writes (put_addr addr sz) addr tt.
Proof. intros <-. unfold put_addr. rewrite Z.eqb_refl. apply writes_put_bytes. Qed.
#[export] Hint Resolve writes_put_addr : wire.

Lemma writes_arp h :
  arp_header_ok h → arp_sizes_match h → writes (write_arp_header h) (arp_bytes h) (arp_calc_sz h).
Proof.
  intros (?&?&?&?&?) Hm. rewrite <- arp_bytes_length by done. apply writes_counted.
  pose proof Hm as (?&?&?&?). eapply writes_cast; [solve_writes| |done].
  by rewrite !u8_small.
Qed.
Lemma reads_arp h :
  arp_header_ok h → arp_sizes_match h → reads extract_arp_header (arp_bytes h) (h, arp_calc_sz h).
Proof.
  intros (?&?&?&?&?) Hm. rewrite <- arp_bytes_length by done. apply reads_counted.
  pose proof Hm as (E1&E2&E3&E4). destruct h as [ht pt hs ps op sh sp th tp]. simpl in *. eapply reads_cast.
  - eapply reads_bind; [apply (reads_ntohs ht); done|].
    eapply reads_bind; [apply (reads_ntohs pt); done|].
    eapply reads_bind; [apply (reads_get8 hs)|].
    eapply reads_bind; [apply (reads_get8 ps)|].
    eapply reads_bind; [apply (reads_ntohs op); done|].
    eapply reads_bind; [apply (reads_get_bytes' _ sh); lia|].
    eapply reads_bind; [apply (reads_get_bytes' _ sp); lia|].
    eapply reads_bind; [apply (reads_get_bytes' _ th); lia|].
    eapply reads_bind; [apply (reads_get_bytes' _ tp); lia|apply reads_ret].
  - unfold arp_bytes. simpl. by rewrite app_nil_r.
  - done.
Qed.

Lemma arp_send_ok h :
  arp_header_ok h → arp_sizes_match h → (arp_calc_sz h ≤ 104)%nat →
  arp_send h = Ok (arp_bytes h ++ replicate (104 - arp_calc_sz h) 0).
Proof.
  intros Ho Hm Hs. unfold arp_send. rewrite <- arp_bytes_length in * by done.
  rewrite (run_write_fits _ _ _ _ (writes_arp h Ho Hm)) by (rewrite length_replicate; unfold sizeof_arp_header; lia).
  cbn [mbind res_bind]. rewrite blit_prefix, drop_replicate by (rewrite length_replicate; unfold sizeof_arp_header; lia).
  done.
Qed.
Lemma arp_recv_ok op h post :
  arp_header_ok h → arp_sizes_match h →
  arp_handle_recv op (arp_bytes h ++ post) = Ok (if decide (filter_accepts op (arp_op h)) then Some h else None).
Proof.
  intros Ho Hm. unfold arp_handle_recv. rewrite (run_extract_reads _ _ _ _ (reads_arp h Ho Hm)). cbn [mbind res_bind].
  rewrite Z_filter_rejects. by destruct (decide (filter_accepts op (arp_op h)));
    [rewrite bool_decide_false by tauto|rewrite bool_decide_true].
Qed.
Lemma arp_send_overflow h :
  arp_header_ok h → arp_sizes_match h → (104 < arp_calc_sz h)%nat → arp_send h = Fault OutOfBounds.
Proof.
  intros Ho Hm Hs. unfold arp_send. rewrite <- arp_bytes_length in * by done.
  by rewrite (run_write_overflow _ _ _ _ (writes_arp h Ho Hm)) by (rewrite length_replicate; unfold sizeof_arp_header; lia).
Qed.

(** * Properties *)

(** A header whose four vectors have the announced sizes is sent as its wire form padded with zeros to the 104
    bytes of the struct (76 of them for Ethernet and IPv4 addresses) and read back by the receiver exactly, under its
    operation filter; addresses that make the wire form longer than the struct overflow the buffer. *)
Theorem arp_send_recv (h : arp_header) (op : option Z) :
  arp_header_ok h → arp_sizes_match h →
  if decide (arp_calc_sz h ≤ 104)%nat then
    ∃ pkt, arp_send h = Ok pkt ∧ length pkt = 104%nat ∧ take (arp_calc_sz h) pkt = arp_bytes h ∧
      drop (arp_calc_sz h) pkt = replicate (104 - arp_calc_sz h) 0 ∧
      arp_handle_recv op pkt = Ok (if decide (filter_accepts op (arp_op h)) then Some h else None)
  else arp_send h = Fault OutOfBounds.
Proof.
  intros Ho Hm. case_decide as Hs; [|apply arp_send_overflow; (done || lia)].
  eexists. split; [by apply arp_send_ok|]. pose proof (arp_bytes_length h Hm) as Hl.
  split; [rewrite length_app, length_replicate; lia|].
  split; [by rewrite take_app_length'|]. split; [by rewrite drop_app_length'|]. by apply arp_recv_ok.
Qed.
Definition arp_witness : arp_header :=
  ArpHeader 1 ethertype_ip4 6 4 arp_op_request [2; 0; 0; 0; 0; 1] [10; 0; 0; 1] [0; 0; 0; 0; 0; 0] [10; 0; 0; 2].
Lemma arp_send_recv_witness :
  if decide (arp_calc_sz arp_witness ≤ 104)%nat then
    ∃ pkt, arp_send arp_witness = Ok pkt ∧ length pkt = 104%nat ∧ take (arp_calc_sz arp_witness) pkt = arp_bytes arp_witness ∧
      drop (arp_calc_sz arp_witness) pkt = replicate (104 - arp_calc_sz arp_witness) 0 ∧
      arp_handle_recv (Some arp_op_request) pkt
      = Ok (if decide (filter_accepts (Some arp_op_request) arp_op_request) then Some arp_witness else None)
  else arp_send arp_witness = Fault OutOfBounds.
Proof. apply (arp_send_recv arp_witness (Some arp_op_request)); repeat split; done. Defined.
