(* ===== verification/VarAddr.v ===== *)
(** Addresses of variable length, vectors of octets: the routines that
    [emp_port.cpp], [nsp_id.cpp], [eap_addr.cpp], [ptp_addr.cpp] and [ptp_net_id.cpp] each
    have a copy of, written once.  The component files instantiate them under the names of
    the source. *)

From Stdlib Require Import ZArith Lia.
From stdpp Require Import base decidable list numbers.
From S2P Require Import Prelude Cursor VarLen Text.

(** * Comparison *)

(** [operator==]: the sizes, then the elements. *)
Definition vec_eqb (a rhs : list Z) : bool :=
  if negb (length a =? length rhs)%nat then false else array_eqb a rhs.

(** [operator<]: at the end of the shorter right-hand side it returns false, at the end of the left-hand side it
    compares the sizes. *)
Fixpoint vec_ltb (a rhs : list Z) : bool :=
  match a, rhs with
  | x :: a, y :: rhs => if negb (x =? y) then x <? y else vec_ltb a rhs
  | _ :: _, [] => false
  | [], _ => (0 <? length rhs)%nat
  end.

(** * Text *)

(** The loop of [str_to_...]: [i] is the index, [vals] the octets so far.  [advance] is how
    far the body moves [i] after an octet: 2 in [ptp_addr.cpp], 0 (the statement is
    missing) in the others. *)
Fixpoint octets_loop (advance : nat) (fuel : nat) (s : list Z) (i : nat) (vals : list Z) :
    res (option (list Z)) :=
  match fuel with
  | O => Fault OutOfFuel
  | S fuel =>
      if (i <? length s)%nat then
        let delimiter_ok := if negb (i =? 0)%nat then bool_decide (s !! i = Some 46) else true in
        if negb delimiter_ok then Ok None
        else
          let i := if negb (i =? 0)%nat then S i else i in
          if negb (2 <=? Z.of_nat (length s) - Z.of_nat i) then Ok None
          else
            (* try { ... } catch (...) { return {}; } *)
            match (t ← substr s i 2; stoul16 t) with
            | Fault _ => Ok None
            | Ok v => octets_loop advance fuel s (i + advance) (vals ++ [u8 v])
            end
      else Ok (Some vals)
  end.

(** [..._to_str]: the octets in hexadecimal, not padded, joined by dots. *)
Fixpoint octets_str_loop (first : bool) (vals : list Z) (acc : list Z) : list Z :=
  match vals with
  | [] => acc
  | v :: vals => octets_str_loop false vals (acc ++ (if first then [] else [46]) ++ hex_string v)
  end.
Definition octets_to_str (vals : list Z) : list Z := octets_str_loop true vals [].

(** * Prefix subnets of eap_addr.cpp and ptp_addr.cpp *)

(** [str.back() != '/'], undefined on the empty string. *)
Definition str_to_prefix (parse : list Z → res (option (list Z))) (s : list Z) : res (option (list Z)) :=
  match list.last s with
  | None => Fault OutOfBounds
  | Some c =>
      if negb (c =? 47) then Ok None
      else
        t ← substr s 0 (length s - 1);
        parse t
  end.
Definition prefix_to_str (prefix : list Z) : list Z := octets_to_str prefix ++ [47].
Definition smallest_in_prefix (prefix : list Z) : list Z := prefix ++ [0].
Definition is_inside_prefix (prefix addr : list Z) : bool :=
  if negb (length prefix <? length addr)%nat then false else array_eqb prefix addr.

(** * Sending through a fixed buffer *)

(** [uint8_t big_buff[cap]; header_sz = write_in_network_order(big_buff, &header);
    memcpy(big_buff + header_sz, data.data(), data.size()); vector(big_buff, big_buff + header_sz
    + data.size())].  What the buffer holds before the write is never read. *)
Definition big_buff_packet (cap : nat) (w : wr nat) (data : list Z) : res (list Z) :=
  '(big_buff, header_sz) ← run_write w (replicate cap 0);
  big_buff ← memcpy big_buff header_sz data;
  subvector big_buff 0 (header_sz + length data).

(** * Lemmas *)

Lemma vec_eqb_spec a b : vec_eqb a b = bool_decide (a = b).
Proof.
  unfold vec_eqb. destruct (Nat.eqb_spec (length a) (length b)) as [E|E]; simpl.
  - by apply array_eqb_spec.
  - rewrite bool_decide_false; [done|]. by intros ->.
Qed.

Lemma vec_ltb_irrefl a : vec_ltb a a = false.
Proof. induction a as [|x a IH]; [done|]. simpl. by rewrite Z.eqb_refl. Qed.
Lemma vec_ltb_trans a b c : vec_ltb a b = true → vec_ltb b c = true → vec_ltb a c = true.
Proof.
  revert b c. induction a as [|x a IH]; intros [|y b] [|z c]; simpl; try done.
  destruct (Z.eqb_spec x y) as [->|], (Z.eqb_spec y z) as [->|]; simpl; intros Hab Hbc.
  - rewrite ?Z.eqb_refl. simpl. by apply (IH b c).
  - done.
  - by rewrite (proj2 (Z.eqb_neq x z)) by done.
  - destruct (Z.eqb_spec x z); simpl; [lia|]. apply Z.ltb_lt. lia.
Qed.
Lemma vec_ltb_total a b : vec_ltb a b = true ∨ a = b ∨ vec_ltb b a = true.
Proof.
  revert b. induction a as [|x a IH]; intros [|y b]; simpl; [by right; left|by left|by right; right|].
  destruct (Z.eqb_spec x y) as [->|]; simpl.
  - rewrite Z.eqb_refl. simpl. destruct (IH b) as [?|[->|?]]; auto.
  - rewrite (proj2 (Z.eqb_neq y x)) by done. simpl.
    destruct (Z.lt_total x y) as [?|[?|?]]; [left; lia|done|right; right; lia].
Qed.

(** Without the advance, a text whose first two characters parse is never left. *)
Lemma octets_loop_stuck fuel s v vals :
  (2 ≤ length s)%nat → stoul16 (take 2 s) = Ok v → octets_loop 0 fuel s 0 vals = Fault OutOfFuel.
Proof.
  intros Hl Hv. revert vals. induction fuel as [|fuel IH]; intros vals; [done|]. cbn [octets_loop].
  rewrite (proj2 (Nat.ltb_lt _ _)) by lia. cbn [Nat.eqb negb].
  rewrite (proj2 (Z.leb_le _ _)) by lia. cbn [negb].
  rewrite substr_ok by lia. cbn [mbind res_bind]. rewrite drop_0, Hv. apply IH.
Qed.
(** On every other text it stops at once. *)
Lemma octets_loop_stops fuel s :
  s = [] ∨ (length s < 2)%nat ∨ (∃ e, stoul16 (take 2 s) = Fault e) →
  octets_loop 0 (S fuel) s 0 [] = Ok (if decide (s = []) then Some [] else None).
Proof.
  intros H. destruct s as [|c s]; [done|]. rewrite decide_False by done. cbn [octets_loop length Nat.ltb Nat.leb Nat.eqb negb].
  destruct H as [?|[H|[e He]]]; [done| |].
  - rewrite (proj2 (Z.leb_gt _ _)); [done|]. simpl in H. lia.
  - destruct (negb _) eqn:?; [done|]. rewrite substr_ok by (simpl; lia). cbn [mbind res_bind].
    by rewrite drop_0, He.
Qed.

(** With the advance, the loop leaves the text in at most a step per character. *)
Lemma octets_loop_total s fuel i vals :
  (length s - i < fuel)%nat → ∃ o, octets_loop 2 fuel s i vals = Ok o.
Proof.
  revert i vals. induction fuel as [|fuel IH]; intros i vals Hf; [lia|]. cbn [octets_loop].
  destruct (Nat.ltb_spec i (length s)) as [Hi|Hi]; [|by eexists].
  destruct (negb (i =? 0)%nat) eqn:E0.
  - destruct (negb (bool_decide _)); [by eexists|].
    destruct (negb (2 <=? _)) eqn:E2; [by eexists|]. apply negb_false_iff, Z.leb_le in E2.
    rewrite substr_ok by lia. cbn [mbind res_bind].
    destruct (stoul16 _); [|by eexists]. apply IH. lia.
  - cbn [negb]. destruct (negb (2 <=? _)) eqn:E2; [by eexists|]. apply negb_false_iff, Z.leb_le in E2.
    rewrite substr_ok by lia. cbn [mbind res_bind].
    destruct (stoul16 _); [|by eexists]. apply IH. lia.
Qed.

Lemma big_buff_ok cap w hb data :
  writes w hb (length hb) → (length hb + length data ≤ cap)%nat →
  big_buff_packet cap w data = Ok (hb ++ data).
Proof.
  intros Hw Hl. unfold big_buff_packet.
  rewrite (run_write_fits _ _ _ _ Hw) by (rewrite length_replicate; lia). cbn [mbind res_bind].
  assert (Hr : length (replicate cap 0) = cap) by apply length_replicate.
  rewrite memcpy_ok by (rewrite blit_length; lia). cbn [mbind res_bind].
  rewrite <- (Nat.add_0_l (length hb)) at 1. rewrite blit_blit by (rewrite length_app; lia).
  rewrite blit_prefix by (rewrite length_app; lia). rewrite <- length_app. apply subvector_prefix.
Qed.
Lemma big_buff_overflow cap w hb data :
  writes w hb (length hb) → (cap < length hb + length data)%nat →
  big_buff_packet cap w data = Fault OutOfBounds.
Proof.
  intros Hw Hl. unfold big_buff_packet. assert (Hr : length (replicate cap 0) = cap) by apply length_replicate.
  destruct (decide (length hb ≤ cap)%nat).
  - rewrite (run_write_fits _ _ _ _ Hw) by lia. cbn [mbind res_bind].
    by rewrite memcpy_overflow by (rewrite blit_length; lia).
  - by rewrite (run_write_overflow _ _ _ _ Hw) by lia.
Qed.

Lemma is_inside_prefix_spec prefix addr :
  is_inside_prefix prefix addr = true ↔ ∃ k, k ≠ [] ∧ addr = prefix ++ k.
Proof.
  unfold is_inside_prefix. destruct (Nat.ltb_spec (length prefix) (length addr)) as [Hl|Hl]; simpl.
  - revert addr Hl. induction prefix as [|x p IH]; intros [|y addr] Hl; simpl in *; try lia.
    + split; [|done]. intros _. by exists (y :: addr).
    + destruct (Z.eqb_spec x y) as [->|Hne]; simpl.
      * rewrite IH by lia. split; intros (k & Hk & E); exists k; split; congruence.
      * split; [done|]. intros (k & _ & E). congruence.
  - split; [done|]. intros (k & Hk & ->). rewrite length_app in Hl. destruct k; simpl in Hl; [done|lia].
Qed.

(** Two hexadecimal digits are printed for octets from 16 on, and read back. *)
Lemma hex_string_two b :
  16 ≤ b < 256 → ∃ c d, hex_string b = [c; d] ∧ stoul16 [c; d] = Ok b.
Proof.
  intros Hb.
  pose (f b := (b <? 16) || match hex_string b with
                            | [c; d] => bool_decide (stoul16 [c; d] = Ok b)
                            | _ => false
                            end).
  assert (Hf : f b = true) by (apply (byte_forall f); [done|unfold byte_ok; lia]).
  unfold f in Hf. rewrite (proj2 (Z.ltb_ge _ _)) in Hf by lia.
  destruct (hex_string b) as [|c [|d [|]]]; try done. exists c, d. split; [done|].
  by eapply bool_decide_eq_true_1.
Qed.

Lemma octets_str_loop_acc first vals acc :
  octets_str_loop first vals acc = acc ++ octets_str_loop first vals [].
Proof.
  revert first acc. induction vals as [|v vals IH]; intros first acc; [by rewrite app_nil_r|].
  cbn [octets_str_loop]. rewrite IH, (IH false (_ ++ _)). by rewrite <- !app_assoc.
Qed.

Lemma octets_loop_rest vals fuel pre done_vals :
  Forall (λ v, 16 ≤ v < 256) vals → pre ≠ [] → (length vals < fuel)%nat →
  octets_loop 2 fuel (pre ++ octets_str_loop false vals []) (length pre) done_vals = Ok (Some (done_vals ++ vals)).
Proof.
  intros Hv. revert fuel pre done_vals. induction Hv as [|v vals Hv Hvs IH]; intros fuel pre ds Hpre Hf;
    (destruct fuel as [|fuel]; [simpl in Hf; lia|]).
  - cbn [octets_str_loop octets_loop]. rewrite app_nil_r, Nat.ltb_irrefl. by rewrite app_nil_r.
  - destruct (hex_string_two v Hv) as (c & d & Hh & Hs).
    cbn [octets_str_loop]. rewrite octets_str_loop_acc, Hh. cbn [app].
    set (rest := octets_str_loop false vals []). cbn [octets_loop].
    rewrite (proj2 (Nat.ltb_lt _ _)) by (rewrite length_app; simpl; lia).
    assert (Hi : (length pre =? 0)%nat = false) by (apply Nat.eqb_neq; by destruct pre).
    rewrite Hi. cbn [negb]. rewrite list_lookup_middle by done. rewrite bool_decide_true by done. cbn [negb].
    rewrite (proj2 (Z.leb_le _ _)) by (rewrite length_app; simpl; lia). cbn [negb].
    replace (pre ++ 46 :: c :: d :: rest) with ((pre ++ [46]) ++ c :: d :: rest) by by rewrite <- app_assoc.
    rewrite substr_ok by (rewrite !length_app; simpl; lia). cbn [mbind res_bind].
    rewrite drop_app_length' by (rewrite length_app; simpl; lia). change (take 2 (c :: d :: rest)) with [c; d]. rewrite Hs.
    replace ((pre ++ [46]) ++ c :: d :: rest) with ((pre ++ [46; c; d]) ++ rest) by by rewrite <- !app_assoc.
    replace (S (length pre) + 2)%nat with (length (pre ++ [46; c; d])) by (rewrite length_app; simpl; lia).
    unfold rest. rewrite IH; [|by destruct pre|simpl in Hf; lia].
    rewrite u8_small by (unfold byte_ok; lia). by rewrite <- app_assoc.
Qed.

(** With the advance, printing and parsing give octets from 16 on back. *)
Lemma octets_roundtrip vals fuel :
  Forall (λ v, 16 ≤ v < 256) vals → (S (length vals) < fuel)%nat →
  octets_loop 2 fuel (octets_to_str vals) 0 [] = Ok (Some vals).
Proof.
  intros Hv Hf. destruct fuel as [|fuel]; [lia|]. destruct Hv as [|v vals Hv Hvs]; [done|].
  destruct (hex_string_two v Hv) as (c & d & Hh & Hs).
  unfold octets_to_str. cbn [octets_str_loop]. rewrite octets_str_loop_acc, Hh. cbn [app octets_loop].
  set (rest := octets_str_loop false vals []).
  cbn [length Nat.ltb Nat.leb Nat.eqb negb].
  rewrite (proj2 (Z.leb_le _ _)) by lia. cbn [negb].
  rewrite substr_ok by lia. cbn [mbind res_bind].
  change (take 2 (drop 0 (c :: d :: rest))) with [c; d]. rewrite Hs.
  change (c :: d :: rest) with ([c; d] ++ rest). change (0 + 2)%nat with (length [c; d]).
  unfold rest. rewrite octets_loop_rest; [|done|done|simpl in Hf; lia].
  rewrite u8_small by (unfold byte_ok; lia). done.
Qed.

(** An address inside a header. *)
Lemma writes_vec bs : bytes_ok bs → writes (advance (var_len_encode_bytes bs)) (var_len_bytes bs) tt.
Proof. intros H. by eapply writes_advance; [apply writes_var_len|]. Qed.
Lemma reads_vec bs : reads (take_in var_len_decode_bytes) (var_len_bytes bs) bs.
Proof. apply reads_take_in, reads_var_len. Qed.
#[export] Hint Resolve writes_vec reads_vec : wire.
