(* ===== verification/Overlay.v ===== *)
(** The overlay protocols with variable-length addresses: [src/protocols/emp] (ports),
    [src/protocols/nsp] (ids) and [src/protocols/eap] (addresses).  Their [send]s write into
    a buffer of 0x1000 bytes on the stack. *)

From Stdlib Require Import ZArith Lia String.
From stdpp Require Import base decidable list numbers.
From S2P Require Import Prelude Cursor VarLen Text Encap VarAddr.

(** [uint8_t big_buff[0x1000]]. *)
Definition big_buff_size : nat := Z.to_nat 0x1000.

(** * emp_port.cpp *)

(** [struct emp_port { vector<uint8_t> vals; }] is its vector. *)
Definition emp_port_eqb (a rhs : list Z) : bool := vec_eqb a rhs.
Definition emp_port_neb (a rhs : list Z) : bool := negb (emp_port_eqb rhs a).
Definition emp_port_empty : list Z := [0].
Definition str_to_emp_port (fuel : nat) (s : list Z) : res (option (list Z)) := octets_loop 0 fuel s 0 [].
Definition emp_port_to_str (port : list Z) : list Z := octets_to_str port.
Definition write_emp_port (port : list Z) : wr nat := var_len_encode_bytes port.
Definition extract_emp_port : rd (list Z * nat) := var_len_decode_bytes.

(** * emp_header.cpp, emp_protocol.cpp *)

Record emp_header := EmpHeader { emp_src_port : list Z; emp_dest_port : list Z }.
Definition write_emp_header (h : emp_header) : wr nat :=
  counted (advance (write_emp_port (emp_src_port h));; advance (write_emp_port (emp_dest_port h))).
Definition extract_emp_header : rd (emp_header * nat) :=
  rd_counted (
    src_port ← take_in extract_emp_port;
    dest_port ← take_in extract_emp_port;
    mret (EmpHeader src_port dest_port)).

Definition emp_send (surface : bool) (header : emp_header) (data : list Z) : res (option (list Z)) :=
  if negb surface then Ok None
  else pkt ← big_buff_packet big_buff_size (write_emp_header header) data; Ok (Some pkt).
Definition emp_handle_recv (src dest : option (list Z)) (data : list Z) : res (option (emp_header * list Z)) :=
  '(header, header_sz) ← run_extract extract_emp_header data;
  encap_data ← subvector data header_sz (length data);
  if filter_rejects emp_port_eqb src (emp_src_port header) then Ok None
  else if filter_rejects emp_port_eqb dest (emp_dest_port header) then Ok None
  else Ok (Some (header, encap_data)).

Definition emp_single_send (surface : bool) (src : option (list Z)) (dest : list Z) (data : list Z) :
    res (option (list Z)) :=
  emp_send surface (EmpHeader dest (default emp_port_empty src)) data.
Definition emp_single_recv (recv_access_set : bool) (src : option (list Z)) (dest : list Z) (data : list Z) :
    res (option (list Z)) :=
  o ← emp_handle_recv src (Some dest) data; Ok (forward_if recv_access_set (snd <$> o)).

(** * nsp_id.cpp *)

Definition nsp_id_eqb (a rhs : list Z) : bool := vec_eqb a rhs.
Definition nsp_id_neb (a rhs : list Z) : bool := negb (nsp_id_eqb rhs a).
Definition str_to_nsp_id (fuel : nat) (s : list Z) : res (option (list Z)) := octets_loop 0 fuel s 0 [].
Definition nsp_id_to_str (i : list Z) : list Z := octets_to_str i.
Definition write_nsp_id (i : list Z) : wr nat := var_len_encode_bytes i.
Definition extract_nsp_id : rd (list Z * nat) := var_len_decode_bytes.

(** * nsp_header.cpp, nsp_protocol.cpp *)

Record nsp_header := NspHeader { nsp_src_id : list Z; nsp_dest_id : list Z }.
Definition write_nsp_header (h : nsp_header) : wr nat :=
  counted (advance (write_nsp_id (nsp_src_id h));; advance (write_nsp_id (nsp_dest_id h))).
Definition extract_nsp_header : rd (nsp_header * nat) :=
  rd_counted (
    src_id ← take_in extract_nsp_id;
    dest_id ← take_in extract_nsp_id;
    mret (NspHeader src_id dest_id)).

Definition nsp_send (surface : bool) (header : nsp_header) (data : list Z) : res (option (list Z)) :=
  if negb surface then Ok None
  else pkt ← big_buff_packet big_buff_size (write_nsp_header header) data; Ok (Some pkt).
Definition nsp_handle_recv (src dest : option (list Z)) (data : list Z) : res (option (nsp_header * list Z)) :=
  '(header, header_sz) ← run_extract extract_nsp_header data;
  encap_data ← subvector data header_sz (length data);
  if filter_rejects nsp_id_eqb src (nsp_src_id header) then Ok None
  else if filter_rejects nsp_id_eqb dest (nsp_dest_id header) then Ok None
  else Ok (Some (header, encap_data)).

Definition nsp_single_send (surface : bool) (src dest : list Z) (data : list Z) : res (option (list Z)) :=
  nsp_send surface (NspHeader dest src) data.
Definition nsp_single_recv (recv_access_set : bool) (src dest : list Z) (data : list Z) : res (option (list Z)) :=
  o ← nsp_handle_recv (Some src) (Some dest) data; Ok (forward_if recv_access_set (snd <$> o)).

(** * eap_addr.cpp *)

Definition eap_addr_eqb (a rhs : list Z) : bool := vec_eqb a rhs.
Definition eap_addr_neb (a rhs : list Z) : bool := negb (eap_addr_eqb rhs a).
Definition eap_addr_ltb (a rhs : list Z) : bool := vec_ltb a rhs.
Definition eap_addr_gtb (a rhs : list Z) : bool := eap_addr_ltb rhs a.
Definition eap_addr_leb (a rhs : list Z) : bool := negb (eap_addr_ltb rhs a).
Definition eap_addr_geb (a rhs : list Z) : bool := negb (eap_addr_ltb a rhs).
Definition eap_addr_empty : list Z := [0].
Definition eap_addr_broadcast : list Z := [255].
Definition str_to_eap_addr (fuel : nat) (s : list Z) : res (option (list Z)) := octets_loop 0 fuel s 0 [].
Definition eap_addr_to_str (a : list Z) : list Z := octets_to_str a.
Definition write_eap_addr (a : list Z) : wr nat := var_len_encode_bytes a.
Definition extract_eap_addr : rd (list Z * nat) := var_len_decode_bytes.

(** [eap_subnet_mask] is its prefix. *)
Definition str_to_eap_subnet_mask (fuel : nat) (s : list Z) : res (option (list Z)) :=
  str_to_prefix (str_to_eap_addr fuel) s.
Definition eap_subnet_mask_to_str (prefix : list Z) : list Z := prefix_to_str prefix.
Definition eap_smallest_in_subnet (prefix : list Z) : list Z := smallest_in_prefix prefix.
Definition eap_is_inside_subnet (prefix addr : list Z) : bool := is_inside_prefix prefix addr.

(** * eap_header.cpp, eap_protocol.cpp, eap_protocol.h *)

Definition eap_prot_icmp : Z := 1.
Definition eap_prot_tcp : Z := 6.
Definition eap_prot_udp : Z := 17.
Definition eap_prot_to_str (prot : Z) : option (list Z) :=
  if prot =? eap_prot_icmp then Some (str "icmp")
  else if prot =? eap_prot_udp then Some (str "udp")
  else if prot =? eap_prot_tcp then Some (str "tcp") else None.
Definition str_to_eap_prot (s : list Z) : option Z :=
  if decide (s = str "icmp") then Some eap_prot_icmp
  else if decide (s = str "udp") then Some eap_prot_udp
  else if decide (s = str "tcp") then Some eap_prot_tcp else None.

Record eap_header := EapHeader {
  eap_src_addr : list Z; eap_dest_addr : list Z; eap_no_jumps : Z; eap_prot : Z
}.
Definition write_eap_header (h : eap_header) : wr nat :=
  counted (
    advance (write_eap_addr (eap_src_addr h));;
    advance (write_eap_addr (eap_dest_addr h));;
    put8 (eap_no_jumps h);;
    put8 (eap_prot h)).
Definition extract_eap_header : rd (eap_header * nat) :=
  rd_counted (
    src_addr ← take_in extract_eap_addr;
    dest_addr ← take_in extract_eap_addr;
    no_jumps ← get8;
    prot ← get8;
    mret (EapHeader src_addr dest_addr no_jumps prot)).

Definition eap_send (surface : bool) (header : eap_header) (data : list Z) : res (option (list Z)) :=
  if negb surface then Ok None
  else pkt ← big_buff_packet big_buff_size (write_eap_header header) data; Ok (Some pkt).
Definition eap_handle_recv (src dest : option (list Z)) (pr : option Z) (data : list Z) :
    res (option (eap_header * list Z)) :=
  '(header, header_sz) ← run_extract extract_eap_header data;
  encap_data ← subvector data header_sz (length data);
  if filter_rejects eap_addr_eqb src (eap_src_addr header) then Ok None
  else if filter_rejects eap_addr_eqb dest (eap_dest_addr header) then Ok None
  else if filter_rejects Z.eqb pr (eap_prot header) then Ok None
  else Ok (Some (header, encap_data)).

Definition eap_broadcast_send (surface : bool) dest pr (data : list Z) : res (option (list Z)) :=
  eap_send surface (EapHeader (default eap_addr_empty dest) eap_addr_broadcast 0 (default 0 pr)) data.
Definition eap_broadcast_recv (recv_access_set : bool) dest pr (data : list Z) : res (option (list Z)) :=
  o ← eap_handle_recv None dest pr data; Ok (forward_if recv_access_set (snd <$> o)).
Definition eap_single_send (surface : bool) src dest pr (data : list Z) : res (option (list Z)) :=
  eap_send surface (EapHeader (default eap_addr_empty dest) src 0 (default 0 pr)) data.
Definition eap_single_recv (recv_access_set : bool) src dest pr (data : list Z) : res (option (list Z)) :=
  o ← eap_handle_recv (Some src) dest pr data; Ok (forward_if recv_access_set (snd <$> o)).

(** * Lemmas *)

Lemma vec_filter f a : filter_rejects vec_eqb f a = bool_decide (¬ filter_accepts f a).
Proof. apply filter_rejects_spec. intros y _. apply vec_eqb_spec. Qed.

Definition emp_bytes (h : emp_header) : list Z := var_len_bytes (emp_src_port h) ++ var_len_bytes (emp_dest_port h).
Definition nsp_bytes (h : nsp_header) : list Z := var_len_bytes (nsp_src_id h) ++ var_len_bytes (nsp_dest_id h).
Definition eap_bytes (h : eap_header) : list Z :=
  var_len_bytes (eap_src_addr h) ++ var_len_bytes (eap_dest_addr h) ++ [eap_no_jumps h; eap_prot h].
Definition emp_header_ok (h : emp_header) : Prop := bytes_ok (emp_src_port h) ∧ bytes_ok (emp_dest_port h).
Definition nsp_header_ok (h : nsp_header) : Prop := bytes_ok (nsp_src_id h) ∧ bytes_ok (nsp_dest_id h).
Definition eap_header_ok (h : eap_header) : Prop :=
  bytes_ok (eap_src_addr h) ∧ bytes_ok (eap_dest_addr h) ∧ byte_ok (eap_no_jumps h) ∧ byte_ok (eap_prot h).

Lemma writes_emp h : emp_header_ok h → writes (write_emp_header h) (emp_bytes h) (length (emp_bytes h)).
Proof. intros [? ?]. apply writes_counted. unfold write_emp_port, emp_bytes. by apply (writes_bind _ _ _ _ tt); apply writes_vec. Qed.
Lemma reads_emp h : reads extract_emp_header (emp_bytes h) (h, length (emp_bytes h)).
Proof.
  apply reads_counted. destruct h as [s d]. eapply reads_cast.
  - eapply reads_bind; [apply (reads_vec s)|]. eapply reads_bind; [apply (reads_vec d)|apply reads_ret].
  - unfold emp_bytes. by rewrite app_nil_r.
  - done.
Qed.
Lemma writes_nsp h : nsp_header_ok h → writes (write_nsp_header h) (nsp_bytes h) (length (nsp_bytes h)).
Proof. intros [? ?]. apply writes_counted. unfold write_nsp_id, nsp_bytes. by apply (writes_bind _ _ _ _ tt); apply writes_vec. Qed.
Lemma reads_nsp h : reads extract_nsp_header (nsp_bytes h) (h, length (nsp_bytes h)).
Proof.
  apply reads_counted. destruct h as [s d]. eapply reads_cast.
  - eapply reads_bind; [apply (reads_vec s)|]. eapply reads_bind; [apply (reads_vec d)|apply reads_ret].
  - unfold nsp_bytes. by rewrite app_nil_r.
  - done.
Qed.
Lemma writes_eap h : eap_header_ok h → writes (write_eap_header h) (eap_bytes h) (length (eap_bytes h)).
Proof.
  intros (?&?&?&?). apply writes_counted. unfold write_eap_addr. eapply writes_cast; [solve_writes| |done].
  by rewrite !u8_small by done.
Qed.
Lemma reads_eap h : reads extract_eap_header (eap_bytes h) (h, length (eap_bytes h)).
Proof.
  apply reads_counted. destruct h as [s d j p]. eapply reads_cast.
  - eapply reads_bind; [apply (reads_vec s)|]. eapply reads_bind; [apply (reads_vec d)|].
    eapply reads_bind; [apply (reads_get8 j)|]. eapply reads_bind; [apply (reads_get8 p)|apply reads_ret].
  - done.
  - done.
Qed.

(** Sending and receiving through a header of any size: [send] either fits the buffer
    or overflows it, and the receiver splits the packet where the header ends. *)
Lemma overlay_parse {A} (r : rd (A * nat)) hb h data :
  reads r hb (h, length hb) →
  run_extract r (hb ++ data) = Ok (h, length hb) ∧
  subvector (hb ++ data) (length hb) (length (hb ++ data)) = Ok data.
Proof. intros Hr. by apply packet_parse. Qed.

Definition fits (hb data : list Z) : Prop := (length hb + length data ≤ big_buff_size)%nat.
#[export] Instance fits_dec hb data : Decision (fits hb data).
Proof. unfold fits. apply _. Defined.

Lemma emp_send_spec h data :
  emp_header_ok h →
  emp_send true h data = if decide (fits (emp_bytes h) data) then Ok (Some (emp_bytes h ++ data)) else Fault OutOfBounds.
Proof.
  intros Hh. unfold emp_send, fits. cbn [negb]. case_decide.
  - by rewrite (big_buff_ok _ _ _ _ (writes_emp h Hh)).
  - by rewrite (big_buff_overflow _ _ _ _ (writes_emp h Hh)) by lia.
Qed.
Lemma nsp_send_spec h data :
  nsp_header_ok h →
  nsp_send true h data = if decide (fits (nsp_bytes h) data) then Ok (Some (nsp_bytes h ++ data)) else Fault OutOfBounds.
Proof.
  intros Hh. unfold nsp_send, fits. cbn [negb]. case_decide.
  - by rewrite (big_buff_ok _ _ _ _ (writes_nsp h Hh)).
  - by rewrite (big_buff_overflow _ _ _ _ (writes_nsp h Hh)) by lia.
Qed.
Lemma eap_send_spec h data :
  eap_header_ok h →
  eap_send true h data = if decide (fits (eap_bytes h) data) then Ok (Some (eap_bytes h ++ data)) else Fault OutOfBounds.
Proof.
  intros Hh. unfold eap_send, fits. cbn [negb]. case_decide.
  - by rewrite (big_buff_ok _ _ _ _ (writes_eap h Hh)).
  - by rewrite (big_buff_overflow _ _ _ _ (writes_eap h Hh)) by lia.
Qed.

Definition emp_match (f : option (list Z) * option (list Z)) (h : emp_header) : bool :=
  bool_decide (filter_accepts (fst f) (emp_src_port h) ∧ filter_accepts (snd f) (emp_dest_port h)).
Definition nsp_match (f : option (list Z) * option (list Z)) (h : nsp_header) : bool :=
  bool_decide (filter_accepts (fst f) (nsp_src_id h) ∧ filter_accepts (snd f) (nsp_dest_id h)).
Definition eap_match (f : option (list Z) * option (list Z) * option Z) (h : eap_header) : bool :=
  bool_decide (filter_accepts (fst (fst f)) (eap_src_addr h) ∧ filter_accepts (snd (fst f)) (eap_dest_addr h) ∧
               filter_accepts (snd f) (eap_prot h)).

Lemma emp_recv_ok f h data :
  emp_handle_recv (fst f) (snd f) (emp_bytes h ++ data) = Ok (if emp_match f h then Some (h, data) else None).
Proof.
  destruct (overlay_parse _ _ _ data (reads_emp h)) as [H1 H2].
  unfold emp_handle_recv. rewrite H1. cbn [mbind res_bind]. rewrite H2. cbn [mbind res_bind].
  unfold emp_port_eqb. rewrite !vec_filter. unfold emp_match. repeat case_bool_decide; naive_solver.
Qed.
Lemma nsp_recv_ok f h data :
  nsp_handle_recv (fst f) (snd f) (nsp_bytes h ++ data) = Ok (if nsp_match f h then Some (h, data) else None).
Proof.
  destruct (overlay_parse _ _ _ data (reads_nsp h)) as [H1 H2].
  unfold nsp_handle_recv. rewrite H1. cbn [mbind res_bind]. rewrite H2. cbn [mbind res_bind].
  unfold nsp_id_eqb. rewrite !vec_filter. unfold nsp_match. repeat case_bool_decide; naive_solver.
Qed.
Lemma eap_recv_ok f h data :
  eap_handle_recv (fst (fst f)) (snd (fst f)) (snd f) (eap_bytes h ++ data)
  = Ok (if eap_match f h then Some (h, data) else None).
Proof.
  destruct (overlay_parse _ _ _ data (reads_eap h)) as [H1 H2].
  unfold eap_handle_recv. rewrite H1. cbn [mbind res_bind]. rewrite H2. cbn [mbind res_bind].
  unfold eap_addr_eqb. rewrite !vec_filter, Z_filter_rejects. unfold eap_match. repeat case_bool_decide; naive_solver.
Qed.

Lemma emp_bytes_ok h : emp_header_ok h → bytes_ok (emp_bytes h).
Proof. intros [? ?]. apply Forall_app_2; by apply escaped_bytes_ok. Qed.
Lemma nsp_bytes_ok h : nsp_header_ok h → bytes_ok (nsp_bytes h).
Proof. intros [? ?]. apply Forall_app_2; by apply escaped_bytes_ok. Qed.
Lemma eap_bytes_ok h : eap_header_ok h → bytes_ok (eap_bytes h).
Proof.
  intros (?&?&?&?). apply Forall_app_2; [by apply escaped_bytes_ok|].
  apply Forall_app_2; [by apply escaped_bytes_ok|solve_bytes].
Qed.

#[local] Obligation Tactic := idtac.

#[export] Program Instance emp_encap : Encap emp_header (option (list Z) * option (list Z)) := {|
  encap_send h d := sent (emp_send true h d);
  encap_recv f d := emp_handle_recv (fst f) (snd f) d;
  encap_ok h d := emp_header_ok h ∧ bytes_ok d ∧ fits (emp_bytes h) d;
  encap_seen h d := h;
  encap_match := emp_match
|}.
Next Obligation.
  intros h d pkt (Hh & Hb & Hf). cbv beta. rewrite emp_send_spec, decide_True by done. intros <-%sent_inj.
  apply Forall_app_2; [by apply emp_bytes_ok|done].
Qed.
Next Obligation. intros h d (Hh & Hb & Hf). cbv beta. rewrite emp_send_spec, decide_True by done. by eexists. Qed.
Next Obligation.
  intros h d f pkt (Hh & Hb & Hf). cbv beta. rewrite emp_send_spec, decide_True by done. intros <-%sent_inj.
  apply emp_recv_ok.
Qed.

#[export] Program Instance nsp_encap : Encap nsp_header (option (list Z) * option (list Z)) := {|
  encap_send h d := sent (nsp_send true h d);
  encap_recv f d := nsp_handle_recv (fst f) (snd f) d;
  encap_ok h d := nsp_header_ok h ∧ bytes_ok d ∧ fits (nsp_bytes h) d;
  encap_seen h d := h;
  encap_match := nsp_match
|}.
Next Obligation.
  intros h d pkt (Hh & Hb & Hf). cbv beta. rewrite nsp_send_spec, decide_True by done. intros <-%sent_inj.
  apply Forall_app_2; [by apply nsp_bytes_ok|done].
Qed.
Next Obligation. intros h d (Hh & Hb & Hf). cbv beta. rewrite nsp_send_spec, decide_True by done. by eexists. Qed.
Next Obligation.
  intros h d f pkt (Hh & Hb & Hf). cbv beta. rewrite nsp_send_spec, decide_True by done. intros <-%sent_inj.
  apply nsp_recv_ok.
Qed.

#[export] Program Instance eap_encap : Encap eap_header (option (list Z) * option (list Z) * option Z) := {|
  encap_send h d := sent (eap_send true h d);
  encap_recv f d := eap_handle_recv (fst (fst f)) (snd (fst f)) (snd f) d;
  encap_ok h d := eap_header_ok h ∧ bytes_ok d ∧ fits (eap_bytes h) d;
  encap_seen h d := h;
  encap_match := eap_match
|}.
Next Obligation.
  intros h d pkt (Hh & Hb & Hf). cbv beta. rewrite eap_send_spec, decide_True by done. intros <-%sent_inj.
  apply Forall_app_2; [by apply eap_bytes_ok|done].
Qed.
Next Obligation. intros h d (Hh & Hb & Hf). cbv beta. rewrite eap_send_spec, decide_True by done. by eexists. Qed.
Next Obligation.
  intros h d f pkt (Hh & Hb & Hf). cbv beta. rewrite eap_send_spec, decide_True by done. intros <-%sent_inj.
  apply eap_recv_ok.
Qed.

(** * Properties *)

(** Two EMP peers, and two NSP peers, that open accesses with each other's port (id) exchange data of any
    content: what one sends the other delivers, as long as header and data fit the 4096 bytes of the send
    buffer; one byte more overflows the stack buffer. *)
Theorem emp_nsp_single_delivers (me peer : list Z) (data : list Z) :
  bytes_ok me → bytes_ok peer →
  (if decide (fits (var_len_bytes me ++ var_len_bytes peer) data) then
     ∃ pkt, emp_single_send true (Some peer) me data = Ok (Some pkt) ∧
       emp_single_recv true (Some me) peer pkt = Ok (Some data) ∧
       nsp_single_send true peer me data = Ok (Some pkt) ∧
       nsp_single_recv true me peer pkt = Ok (Some data)
   else emp_single_send true (Some peer) me data = Fault OutOfBounds ∧
        nsp_single_send true peer me data = Fault OutOfBounds).
Proof.
  intros Hm Hp. unfold emp_single_send, nsp_single_send, emp_single_recv, nsp_single_recv. cbn [default]. unfold id.
  rewrite emp_send_spec, nsp_send_spec by done.
  change (emp_bytes (EmpHeader me peer)) with (var_len_bytes me ++ var_len_bytes peer).
  change (nsp_bytes (NspHeader me peer)) with (var_len_bytes me ++ var_len_bytes peer).
  case_decide; [|done]. eexists. split; [done|].
  change (var_len_bytes me ++ var_len_bytes peer) with (emp_bytes (EmpHeader me peer)) at 1.
  rewrite (emp_recv_ok (Some me, Some peer)). unfold emp_match. rewrite bool_decide_true by done.
  split; [done|]. split; [done|].
  change (var_len_bytes me ++ var_len_bytes peer) with (nsp_bytes (NspHeader me peer)).
  rewrite (nsp_recv_ok (Some me, Some peer)). unfold nsp_match. by rewrite bool_decide_true.
Qed.
Lemma emp_nsp_single_delivers_witness :
  if decide (fits (var_len_bytes [1; 0] ++ var_len_bytes [2]) [9; 9]) then
     ∃ pkt, emp_single_send true (Some [2]) [1; 0] [9; 9] = Ok (Some pkt) ∧
       emp_single_recv true (Some [1; 0]) [2] pkt = Ok (Some [9; 9]) ∧
       nsp_single_send true [2] [1; 0] [9; 9] = Ok (Some pkt) ∧
       nsp_single_recv true [1; 0] [2] pkt = Ok (Some [9; 9])
   else emp_single_send true (Some [2]) [1; 0] [9; 9] = Fault OutOfBounds ∧
        nsp_single_send true [2] [1; 0] [9; 9] = Fault OutOfBounds.
Proof. apply (emp_nsp_single_delivers [1; 0] [2] [9; 9]); by repeat constructor. Defined.

(** An EAP packet carries source, destination, jump count, protocol and data unchanged to the receiver when the three
    filters accept and is dropped otherwise; header and data beyond 4096 bytes overflow the send buffer. *)
Theorem eap_send_recv (h : eap_header) (data : list Z) (src dest : option (list Z)) (pr : option Z) :
  eap_header_ok h →
  if decide (fits (eap_bytes h) data) then
    ∃ pkt, eap_send true h data = Ok (Some pkt) ∧
      eap_handle_recv src dest pr pkt =
        Ok (if decide (filter_accepts src (eap_src_addr h) ∧ filter_accepts dest (eap_dest_addr h)
                       ∧ filter_accepts pr (eap_prot h)) then Some (h, data) else None)
  else eap_send true h data = Fault OutOfBounds.
Proof.
  intros Hh. rewrite eap_send_spec by done. case_decide; [|done]. eexists. split; [done|].
  rewrite (eap_recv_ok (src, dest, pr)). unfold eap_match. cbn [fst snd]. case_bool_decide; by case_decide.
Qed.
Lemma eap_send_recv_witness :
  if decide (fits (eap_bytes (EapHeader [1; 2] [3] 0 17)) [5]) then
    ∃ pkt, eap_send true (EapHeader [1; 2] [3] 0 17) [5] = Ok (Some pkt) ∧
      eap_handle_recv None (Some [3]) (Some 17) pkt =
        Ok (if decide (filter_accepts None [1; 2] ∧ filter_accepts (Some [3]) [3] ∧ filter_accepts (Some 17) 17)
            then Some (EapHeader [1; 2] [3] 0 17, [5]) else None)
  else eap_send true (EapHeader [1; 2] [3] 0 17) [5] = Fault OutOfBounds.
Proof.
  apply (eap_send_recv (EapHeader [1; 2] [3] 0 17) [5] None (Some [3]) (Some 17)).
  repeat split; try done; by repeat constructor.
Defined.

(** Parsing an EMP port, an NSP id or an EAP address never ends when the first two characters of the text parse as a
    number (the index is not advanced past them), however long it runs; every other text is refused at once, except
    the empty one, which gives the empty address. *)
Theorem overlay_parsers_stuck (s : list Z) :
  if decide (2 ≤ length s ∧ succeeds (λ _, True) (stoul16 (take 2 s)))%nat then
    ∀ fuel, str_to_emp_port fuel s = Fault OutOfFuel ∧ str_to_nsp_id fuel s = Fault OutOfFuel ∧
            str_to_eap_addr fuel s = Fault OutOfFuel
  else
    ∀ fuel, str_to_emp_port (S fuel) s = Ok (if decide (s = []) then Some [] else None) ∧
            str_to_nsp_id (S fuel) s = Ok (if decide (s = []) then Some [] else None) ∧
            str_to_eap_addr (S fuel) s = Ok (if decide (s = []) then Some [] else None).
Proof.
  unfold str_to_emp_port, str_to_nsp_id, str_to_eap_addr. case_decide as Hd; intros fuel.
  - destruct Hd as [Hl Hv]. destruct (stoul16 (take 2 s)) as [v|] eqn:E; [|done].
    by rewrite (octets_loop_stuck fuel s v []).
  - rewrite octets_loop_stops; [done|]. destruct (Nat.lt_ge_cases (length s) 2); [by right; left|].
    right. right. destruct (stoul16 (take 2 s)) as [v|e] eqn:E; [|by exists e]. destruct Hd. split; [lia|done].
Qed.

(** The order of EAP addresses is a strict total order, and an address is inside a subnet exactly when it
    extends the prefix by at least one octet: the prefix itself is outside, its smallest address inside. *)
Theorem eap_order_and_subnet (a b c : list Z) :
  eap_addr_ltb a a = false ∧
  (eap_addr_ltb a b = true → eap_addr_ltb b c = true → eap_addr_ltb a c = true) ∧
  (eap_addr_ltb a b = true ∨ a = b ∨ eap_addr_gtb a b = true) ∧
  (eap_addr_eqb a b = true ↔ a = b) ∧
  (eap_is_inside_subnet a b = true ↔ ∃ k, k ≠ [] ∧ b = a ++ k) ∧
  eap_is_inside_subnet a a = false ∧ eap_is_inside_subnet a (eap_smallest_in_subnet a) = true.
Proof.
  unfold eap_addr_ltb, eap_addr_gtb, eap_addr_eqb, eap_is_inside_subnet, eap_smallest_in_subnet, smallest_in_prefix.
  split; [apply vec_ltb_irrefl|]. split; [apply vec_ltb_trans|]. split; [apply vec_ltb_total|].
  split; [rewrite vec_eqb_spec; apply bool_decide_eq_true|]. split; [apply is_inside_prefix_spec|].
  split; [|apply is_inside_prefix_spec; by exists [0]].
  apply not_true_is_false. rewrite is_inside_prefix_spec. intros (k & Hk & E).
  rewrite <- (app_nil_r a) in E at 1. apply app_inv_head in E. congruence.
Qed.
