(* ===== verification/Ptp.v ===== *)
(** The path protocol, [src/protocols/ptp]: a packet carries the list of actions (endpoints,
    local connections, switches of network) that make its path, the index of the current
    one and a count of jumps.  [throw;] outside a handler, in [get_curr_action] and in the
    defaults of the switches, ends the program: the fault [Aborted]. *)

From Stdlib Require Import ZArith Lia String.
From stdpp Require Import base decidable list numbers.
From S2P Require Import Prelude Cursor VarLen Text Encap VarAddr Routing.

(** * ptp_addr.cpp, ptp_net_id.cpp *)

Definition ptp_addr_eqb (a rhs : list Z) : bool := vec_eqb a rhs.
Definition ptp_addr_neb (a rhs : list Z) : bool := negb (ptp_addr_eqb rhs a).
Definition ptp_addr_ltb (a rhs : list Z) : bool := vec_ltb a rhs.
Definition ptp_addr_gtb (a rhs : list Z) : bool := ptp_addr_ltb rhs a.
Definition ptp_addr_leb (a rhs : list Z) : bool := negb (ptp_addr_ltb rhs a).
Definition ptp_addr_geb (a rhs : list Z) : bool := negb (ptp_addr_ltb a rhs).
Definition ptp_addr_empty : list Z := [0].
Definition ptp_addr_broadcast : list Z := [255].
(** The index moves by two or more in every iteration that goes on, so that the length of
    the text bounds the number of iterations. *)
Definition str_to_ptp_addr (s : list Z) : res (option (list Z)) := octets_loop 2 (S (S (List.length s))) s 0 [].
Definition ptp_addr_to_str (a : list Z) : list Z := octets_to_str a.
Definition write_ptp_addr (a : list Z) : wr nat := var_len_encode_bytes a.
Definition extract_ptp_addr : rd (list Z * nat) := var_len_decode_bytes.

Definition str_to_ptp_subnet_mask (s : list Z) : res (option (list Z)) := str_to_prefix str_to_ptp_addr s.
Definition ptp_subnet_mask_to_str (prefix : list Z) : list Z := prefix_to_str prefix.
Definition ptp_smallest_in_subnet (prefix : list Z) : list Z := smallest_in_prefix prefix.
Definition ptp_is_inside_subnet (prefix addr : list Z) : bool := is_inside_prefix prefix addr.

Definition ptp_net_id_eqb (a rhs : list Z) : bool := vec_eqb a rhs.
Definition ptp_net_id_neb (a rhs : list Z) : bool := negb (ptp_net_id_eqb rhs a).
(** The index is not advanced here: no bound on the iterations is enough. *)
Definition str_to_ptp_net_id (fuel : nat) (s : list Z) : res (option (list Z)) := octets_loop 0 fuel s 0 [].
Definition ptp_net_id_to_str (i : list Z) : list Z := octets_to_str i.
Definition write_ptp_net_id (i : list Z) : wr nat := var_len_encode_bytes i.
Definition extract_ptp_net_id : rd (list Z * nat) := var_len_decode_bytes.

(** * ptp_endpoint.cpp, ptp_local_conn.cpp, ptp_net_switch.cpp *)

Definition endpoint_start : Z := 0.
Definition endpoint_end : Z := 1.
Record ptp_endpoint := PtpEndpoint { endpoint_type : Z }.
Record ptp_local_conn := PtpLocalConn { conn_src : list Z; conn_dest : list Z }.
Record ptp_net_switch := PtpNetSwitch { switch_src : list Z; switch_dest : list Z }.

Definition write_ptp_endpoint (e : ptp_endpoint) : wr nat := counted (put8 (endpoint_type e)).
Definition extract_ptp_endpoint : rd (ptp_endpoint * nat) :=
  rd_counted (t ← get8; mret (PtpEndpoint t)).
Definition ptp_endpoint_to_str (e : ptp_endpoint) : option (list Z) :=
  if endpoint_type e =? endpoint_start then Some (str "start")
  else if endpoint_type e =? endpoint_end then Some (str "end")
  else None.
Definition str_to_ptp_endpoint (s : list Z) : option ptp_endpoint :=
  if decide (s = str "start") then Some (PtpEndpoint endpoint_start)
  else if decide (s = str "end") then Some (PtpEndpoint endpoint_end)
  else None.

Definition write_ptp_local_conn (c : ptp_local_conn) : wr nat :=
  counted (advance (var_len_encode_bytes (conn_src c));; advance (var_len_encode_bytes (conn_dest c))).
Definition extract_ptp_local_conn : rd (ptp_local_conn * nat) :=
  rd_counted (
    src_addr ← take_in var_len_decode_bytes;
    dest_addr ← take_in var_len_decode_bytes;
    mret (PtpLocalConn src_addr dest_addr)).
Definition ptp_local_conn_to_str (c : ptp_local_conn) : list Z :=
  ptp_addr_to_str (conn_src c) ++ str " -> " ++ ptp_addr_to_str (conn_dest c).
Definition str_to_ptp_local_conn (s : list Z) : res (option ptp_local_conn) :=
  addrs ← split_str s (str " -> ");
  match addrs with
  | [a0; a1] =>
      tmp ← str_to_ptp_addr a0;
      match tmp with
      | None => Ok None
      | Some src_addr =>
          tmp ← str_to_ptp_addr a1;
          match tmp with
          | None => Ok None
          | Some dest_addr => Ok (Some (PtpLocalConn src_addr dest_addr))
          end
      end
  | _ => Ok None
  end.

Definition write_ptp_net_switch (c : ptp_net_switch) : wr nat :=
  counted (advance (var_len_encode_bytes (switch_src c));; advance (var_len_encode_bytes (switch_dest c))).
Definition extract_ptp_net_switch : rd (ptp_net_switch * nat) :=
  rd_counted (
    src_id ← take_in var_len_decode_bytes;
    dest_id ← take_in var_len_decode_bytes;
    mret (PtpNetSwitch src_id dest_id)).
Definition ptp_net_switch_to_str (c : ptp_net_switch) : list Z :=
  ptp_net_id_to_str (switch_src c) ++ str " -> " ++ ptp_net_id_to_str (switch_dest c).
Definition str_to_ptp_net_switch (fuel : nat) (s : list Z) : res (option ptp_net_switch) :=
  addrs ← split_str s (str " -> ");
  match addrs with
  | [a0; a1] =>
      tmp ← str_to_ptp_net_id fuel a0;
      match tmp with
      | None => Ok None
      | Some src_id =>
          tmp ← str_to_ptp_net_id fuel a1;
          match tmp with
          | None => Ok None
          | Some dest_id => Ok (Some (PtpNetSwitch src_id dest_id))
          end
      end
  | _ => Ok None
  end.

(** * ptp_header.h, ptp_header.cpp *)

Definition action_endpoint : Z := 0.
Definition action_local_conn : Z := 1.
Definition action_net_switch : Z := 2.

(** The [variant], and [std::get], which throws on another alternative. *)
Inductive ptp_val :=
  | ValEndpoint (e : ptp_endpoint)
  | ValLocalConn (c : ptp_local_conn)
  | ValNetSwitch (c : ptp_net_switch).
Definition get_endpoint (v : ptp_val) : res ptp_endpoint :=
  match v with ValEndpoint e => Ok e | _ => Fault Thrown end.
Definition get_local_conn (v : ptp_val) : res ptp_local_conn :=
  match v with ValLocalConn c => Ok c | _ => Fault Thrown end.
Definition get_net_switch (v : ptp_val) : res ptp_net_switch :=
  match v with ValNetSwitch c => Ok c | _ => Fault Thrown end.

(** [type] and [val] are separate fields. *)
Record ptp_action := PtpAction { action_type : Z; action_val : ptp_val }.

Definition write_ptp_action (a : ptp_action) : wr nat :=
  counted (
    put8 (action_type a);;
    if action_type a =? action_endpoint then
      e ← wr_lift (get_endpoint (action_val a)); advance (write_ptp_endpoint e)
    else if action_type a =? action_local_conn then
      c ← wr_lift (get_local_conn (action_val a)); advance (write_ptp_local_conn c)
    else if action_type a =? action_net_switch then
      c ← wr_lift (get_net_switch (action_val a)); advance (write_ptp_net_switch c)
    else wr_fault Aborted).
Definition extract_ptp_action : rd (ptp_action * nat) :=
  rd_counted (
    t ← get8;
    if t =? action_endpoint then
      e ← take_in extract_ptp_endpoint; mret (PtpAction t (ValEndpoint e))
    else if t =? action_local_conn then
      c ← take_in extract_ptp_local_conn; mret (PtpAction t (ValLocalConn c))
    else if t =? action_net_switch then
      c ← take_in extract_ptp_net_switch; mret (PtpAction t (ValNetSwitch c))
    else rd_fault Aborted).

Definition ptp_action_to_str (a : ptp_action) : res (option (list Z)) :=
  if action_type a =? action_endpoint then
    e ← get_endpoint (action_val a);
    match ptp_endpoint_to_str e with
    | None => Ok None
    | Some tmp => Ok (Some (str "endpoint " ++ tmp))
    end
  else if action_type a =? action_local_conn then
    c ← get_local_conn (action_val a); Ok (Some (str "conn " ++ ptp_local_conn_to_str c))
  else if action_type a =? action_net_switch then
    c ← get_net_switch (action_val a); Ok (Some (str "switch " ++ ptp_net_switch_to_str c))
  else Ok None.

(** [str.rfind(p, 0) != npos]: an occurrence that starts at 0. *)
Definition str_to_ptp_action (fuel : nat) (s : list Z) : res (option ptp_action) :=
  if starts_with (str "endpoint ") s then
    t ← substr s 9 (List.length s);
    match str_to_ptp_endpoint t with
    | None => Ok None
    | Some tmp => Ok (Some (PtpAction action_endpoint (ValEndpoint tmp)))
    end
  else if starts_with (str "conn ") s then
    t ← substr s 5 (List.length s);
    tmp ← str_to_ptp_local_conn t;
    match tmp with
    | None => Ok None
    | Some tmp => Ok (Some (PtpAction action_local_conn (ValLocalConn tmp)))
    end
  else if starts_with (str "switch ") s then
    t ← substr s 7 (List.length s);
    tmp ← str_to_ptp_net_switch fuel t;
    match tmp with
    | None => Ok None
    | Some tmp => Ok (Some (PtpAction action_net_switch (ValNetSwitch tmp)))
    end
  else Ok None.

Record ptp_header := PtpHeader { actions : list ptp_action; curr_action : Z; no_jumps : Z }.

Definition get_curr_action (h : ptp_header) : res ptp_action :=
  if negb (curr_action h <? Z.of_nat (List.length (actions h))) then Fault Aborted
  else of_option OutOfBounds (actions h !! Z.to_nat (curr_action h)).

Fixpoint write_actions (l : list ptp_action) : wr () :=
  match l with
  | [] => mret tt
  | a :: l => advance (write_ptp_action a);; write_actions l
  end.
Definition write_ptp_header (h : ptp_header) : wr nat :=
  counted (
    if negb (List.length (actions h) <? 256)%nat then wr_fault Thrown
    else
      put8 (Z.of_nat (List.length (actions h)));;
      write_actions (actions h);;
      put8 (curr_action h);;
      put8 (no_jumps h)).

(** [dest->actions] is resized first; every element is then overwritten. *)
Fixpoint extract_actions (no_actions : nat) : rd (list ptp_action) :=
  match no_actions with
  | O => mret []
  | S n => a ← take_in extract_ptp_action; l ← extract_actions n; mret (a :: l)
  end.
Definition extract_ptp_header : rd (ptp_header * nat) :=
  rd_counted (
    no_actions ← get8;
    actions ← extract_actions (Z.to_nat no_actions);
    curr_action ← get8;
    no_jumps ← get8;
    mret (PtpHeader actions curr_action no_jumps)).

Fixpoint action_list_to_str_loop (l : list ptp_action) (i : nat) (acc : list Z) : res (option (list Z)) :=
  match l with
  | [] => Ok (Some acc)
  | a :: l =>
      let acc := if (0 <? i)%nat then acc ++ str " ; " else acc in
      tmp ← ptp_action_to_str a;
      match tmp with
      | Some tmp => action_list_to_str_loop l (S i) (acc ++ tmp)
      | None => Ok None
      end
  end.
Definition ptp_action_list_to_str (l : list ptp_action) : res (option (list Z)) := action_list_to_str_loop l 0 [].

Fixpoint str_to_action_list_loop (fuel : nat) (strs : list (list Z)) (acc : list ptp_action) :
    res (option (list ptp_action)) :=
  match strs with
  | [] => Ok (Some acc)
  | action_str :: strs =>
      tmp ← str_to_ptp_action fuel action_str;
      match tmp with
      | Some tmp => str_to_action_list_loop fuel strs (acc ++ [tmp])
      | None => Ok None
      end
  end.
Definition str_to_ptp_action_list (fuel : nat) (s : list Z) : res (option (list ptp_action)) :=
  strs ← split_str s (str " ; "); str_to_action_list_loop fuel strs [].

Definition reverse_endpoint (e : ptp_endpoint) : res ptp_endpoint :=
  if endpoint_type e =? endpoint_start then Ok (PtpEndpoint endpoint_end)
  else if endpoint_type e =? endpoint_end then Ok (PtpEndpoint endpoint_start)
  else Fault Aborted.
Definition reverse_local_conn (c : ptp_local_conn) : ptp_local_conn := PtpLocalConn (conn_dest c) (conn_src c).
Definition reverse_net_switch (c : ptp_net_switch) : ptp_net_switch := PtpNetSwitch (switch_dest c) (switch_src c).
Definition create_reverse_action (a : ptp_action) : res ptp_action :=
  if action_type a =? action_endpoint then
    e ← get_endpoint (action_val a); e ← reverse_endpoint e; Ok (PtpAction action_endpoint (ValEndpoint e))
  else if action_type a =? action_local_conn then
    c ← get_local_conn (action_val a); Ok (PtpAction action_local_conn (ValLocalConn (reverse_local_conn c)))
  else if action_type a =? action_net_switch then
    c ← get_net_switch (action_val a); Ok (PtpAction action_net_switch (ValNetSwitch (reverse_net_switch c)))
  else Fault Thrown.

(** The loop runs from the last action down; [todo] holds the actions still to do, last first. *)
Fixpoint reverse_loop (todo : list ptp_action) (acc : list ptp_action) : res (list ptp_action) :=
  match todo with
  | [] => Ok acc
  | a :: todo => a ← create_reverse_action a; reverse_loop todo (acc ++ [a])
  end.
Definition create_reverse_actions (l : list ptp_action) : res (list ptp_action) := reverse_loop (reverse l) [].

(** [header.actions.size() - 1] is computed in [size_t]. *)
Definition ptp_is_endpoint_end (h : ptp_header) : res bool :=
  if negb (curr_action h =? u64 (Z.of_nat (List.length (actions h)) - 1)) then Ok false
  else
    action ← get_curr_action h;
    if negb (action_type action =? action_endpoint) then Ok false
    else
      e ← get_endpoint (action_val action);
      Ok (endpoint_type e =? endpoint_end).

(** * ptp_local_conn_routing_table.h, ptp_protocol.cpp *)

Definition prefix_size (m : list Z) : Z := Z.of_nat (List.length m).
Definition ptp_find_route {R} (t : routing_table (list Z) R) (addr : list Z) : res (option R) :=
  find_route prefix_size (λ m a, Ok (ptp_is_inside_subnet m a)) t addr.

(** [write_packet], with its buffer of 0x10000 bytes. *)
Definition ptp_buff_size : nat := Z.to_nat 0x10000.
Definition write_packet (header : ptp_header) (data : list Z) : res (list Z) :=
  big_buff_packet ptp_buff_size (write_ptp_header header) data.

Definition ptp_send (surface : bool) (header : ptp_header) (data : list Z) : res (option (list Z)) :=
  if negb surface then Ok None else pkt ← write_packet header data; Ok (Some pkt).

(** The [send_data] of the routed send access: the route taken and the packet, or an error. *)
Definition ptp_routed_send_data {R} (t : routing_table (list Z) R) (data : list Z) : res (option (R * list Z)) :=
  '(header, _) ← run_extract extract_ptp_header data;
  action ← get_curr_action header;
  if negb (action_type action =? action_local_conn) then Ok None
  else
    local_conn ← get_local_conn (action_val action);
    route ← ptp_find_route t (conn_dest local_conn);
    Ok (match route with None => None | Some r => Some (r, data) end).

(** [handle_recv] of [connect_recv]: the condition is tested before the data is cut off. *)
Definition ptp_handle_recv (cond : ptp_header → res bool) (data : list Z) : res (option (ptp_header * list Z)) :=
  '(header, header_sz) ← run_extract extract_ptp_header data;
  b ← cond header;
  if negb b then Ok None
  else encap_data ← subvector data header_sz (List.length data); Ok (Some (header, encap_data)).
Definition ptp_handle_recv_with_original (cond : ptp_header → res bool) (data : list Z) :
    res (option (list Z * ptp_header * list Z)) :=
  o ← ptp_handle_recv cond data; Ok ('(header, encap_data) ← o; Some (data, header, encap_data)).

(** * ptp_protocol.h *)

(** [net_access_single]: [++curr_action] and [++no_jumps] on the zeroes. *)
Definition ptp_single_send (surface : bool) (l : list ptp_action) (data : list Z) : res (option (list Z)) :=
  ptp_send surface (PtpHeader l (u8 (0 + 1)) (u8 (0 + 1))) data.
Definition ptp_single_recv (recv_access_set : bool) (data : list Z) : res (option (list Z)) :=
  o ← ptp_handle_recv ptp_is_endpoint_end data; Ok (forward_if recv_access_set (snd <$> o)).

(** [node]: its address, and whether the endpoint's receiver is set.  The result is what is
    forwarded to that receiver. *)
Record node := Node { my_addr : list Z; recv_endpoint_end : bool }.
Definition next_action (h : ptp_header) : ptp_header := PtpHeader (actions h) (u8 (curr_action h + 1)) (no_jumps h).

Fixpoint handle_packet (fuel : nat) (par : node) (header : ptp_header) (data : list Z) : res (option (list Z)) :=
  match fuel with
  | O => Fault OutOfFuel
  | S fuel =>
      action ← get_curr_action header;
      if action_type action =? action_endpoint then
        e ← get_endpoint (action_val action);
        if endpoint_type e =? endpoint_start then handle_packet fuel par (next_action header) data
        else if endpoint_type e =? endpoint_end then
          if recv_endpoint_end par then buff ← write_packet header data; Ok (Some buff) else Ok None
        else Ok None
      else if action_type action =? action_local_conn then
        c ← get_local_conn (action_val action);
        if ptp_addr_eqb (conn_dest c) (my_addr par) then handle_packet fuel par (next_action header) data
        else Ok None
      else if action_type action =? action_net_switch then
        _ ← get_net_switch (action_val action); Ok None
      else Ok None
  end.

(** The node's [handle_recv] of a header and data.  A received header has at most 255
    actions, and every call of [handle_packet] moves to the next one: 256 calls are enough. *)
Definition ptp_node_packet (par : node) (header : ptp_header) (encap_data : list Z) : res (option (list Z)) :=
  handle_packet 256 par (PtpHeader (actions header) (curr_action header) (u8 (no_jumps header + 1))) encap_data.
(** The same on a packet from the surface. *)
Definition node_handle_recv (par : node) (data : list Z) : res (option (list Z)) :=
  o ← ptp_handle_recv_with_original (λ _, Ok true) data;
  match o with
  | None => Ok None
  | Some (_, header, encap_data) => ptp_node_packet par header encap_data
  end.

(** [my_net_access_generator_listener]: the action list of the access made for a received
    packet, and what is delivered to its receiver if the listener has set one. *)
Definition ptp_generate (listener recv_access_set : bool) (header : ptp_header) (data : list Z) :
    res (option (list ptp_action * option (list Z))) :=
  if negb listener then Ok None
  else
    l ← create_reverse_actions (actions header);
    Ok (Some (l, forward_if recv_access_set (Some data))).

(** * Lemmas *)

(** ** The bytes of a header *)

(** The type names the alternative of the variant, and the fields fit. *)
Definition action_ok (a : ptp_action) : Prop :=
  match action_val a with
  | ValEndpoint e => action_type a = action_endpoint ∧ byte_ok (endpoint_type e)
  | ValLocalConn c => action_type a = action_local_conn ∧ bytes_ok (conn_src c) ∧ bytes_ok (conn_dest c)
  | ValNetSwitch c => action_type a = action_net_switch ∧ bytes_ok (switch_src c) ∧ bytes_ok (switch_dest c)
  end.
Definition action_bytes (a : ptp_action) : list Z :=
  action_type a ::
  match action_val a with
  | ValEndpoint e => [endpoint_type e]
  | ValLocalConn c => var_len_bytes (conn_src c) ++ var_len_bytes (conn_dest c)
  | ValNetSwitch c => var_len_bytes (switch_src c) ++ var_len_bytes (switch_dest c)
  end.
Definition actions_bytes (l : list ptp_action) : list Z := concat (action_bytes <$> l).
Definition ptp_header_ok (h : ptp_header) : Prop :=
  (List.length (actions h) < 256)%nat ∧ Forall action_ok (actions h) ∧ byte_ok (curr_action h) ∧ byte_ok (no_jumps h).
Definition ptp_bytes (h : ptp_header) : list Z :=
  Z.of_nat (List.length (actions h)) :: actions_bytes (actions h) ++ [curr_action h; no_jumps h].

Lemma writes_action a : action_ok a → writes (write_ptp_action a) (action_bytes a) (List.length (action_bytes a)).
Proof.
  intros Ha. destruct a as [t [e|c|c]]; cbn [action_ok action_type action_val] in Ha; destruct Ha as [-> Ha]; apply writes_counted; cbn [action_type action_val];
    apply (writes_bind _ _ [_] _ tt); try (eapply writes_cast; [apply writes_put8|done|done]).
  - change (writes (advance (write_ptp_endpoint e)) [endpoint_type e] tt). eapply writes_advance; [|done].
    apply writes_counted. eapply writes_cast; [apply writes_put8|by rewrite u8_small|done].
  - destruct Ha. eapply writes_advance; [|done]. apply writes_counted.
    by apply (writes_bind _ _ _ _ tt); apply writes_vec.
  - destruct Ha. eapply writes_advance; [|done]. apply writes_counted.
    by apply (writes_bind _ _ _ _ tt); apply writes_vec.
Qed.

Lemma reads_action a : action_ok a → reads extract_ptp_action (action_bytes a) (a, List.length (action_bytes a)).
Proof.
  intros Ha. destruct a as [t [e|c|c]]; cbn [action_ok action_type action_val] in Ha; destruct Ha as [-> Ha]; apply reads_counted; unfold action_bytes; cbn [action_type action_val].
  - apply (reads_bind _ _ [_] _ action_endpoint); [apply reads_get8|].
    change (action_endpoint =? action_endpoint) with true. cbn beta iota.
    apply (reads_bind _ _ [endpoint_type e] [] e); [|apply reads_ret].
    apply reads_take_in, (reads_counted _ [endpoint_type e]).
    apply (reads_bind _ _ [endpoint_type e] [] (endpoint_type e)); [apply reads_get8|]. destruct e. apply reads_ret.
  - apply (reads_bind _ _ [_] _ action_local_conn); [apply reads_get8|].
    change (action_local_conn =? action_endpoint) with false. change (action_local_conn =? action_local_conn) with true.
    cbn beta iota. destruct c as [x y]. eapply reads_cast; [eapply reads_bind; [|apply reads_ret]|by rewrite app_nil_r|done].
    apply reads_take_in, reads_counted. eapply reads_bind; [apply (reads_vec x)|].
    eapply reads_cast; [eapply reads_bind; [apply (reads_vec y)|apply reads_ret]|by rewrite app_nil_r|done].
  - apply (reads_bind _ _ [_] _ action_net_switch); [apply reads_get8|].
    change (action_net_switch =? action_endpoint) with false. change (action_net_switch =? action_local_conn) with false.
    change (action_net_switch =? action_net_switch) with true.
    cbn beta iota. destruct c as [x y]. eapply reads_cast; [eapply reads_bind; [|apply reads_ret]|by rewrite app_nil_r|done].
    apply reads_take_in, reads_counted. eapply reads_bind; [apply (reads_vec x)|].
    eapply reads_cast; [eapply reads_bind; [apply (reads_vec y)|apply reads_ret]|by rewrite app_nil_r|done].
Qed.

Lemma writes_actions l : Forall action_ok l → writes (write_actions l) (actions_bytes l) tt.
Proof.
  induction 1 as [|a l Ha Hl IH]; [apply writes_ret|]. cbn [write_actions].
  apply (writes_bind _ _ _ _ tt); [|done]. by eapply writes_advance; [apply writes_action|].
Qed.
Lemma reads_actions l : Forall action_ok l → reads (extract_actions (List.length l)) (actions_bytes l) l.
Proof.
  induction 1 as [|a l Ha Hl IH]; [apply reads_ret|]. cbn [extract_actions List.length].
  apply (reads_bind _ _ (action_bytes a) _ a); [by apply reads_take_in, reads_action|].
  eapply reads_cast; [eapply reads_bind; [apply IH|apply reads_ret]|by rewrite app_nil_r|done].
Qed.

Lemma writes_ptp h : ptp_header_ok h → writes (write_ptp_header h) (ptp_bytes h) (List.length (ptp_bytes h)).
Proof.
  intros (Hl & Ha & Hc & Hj). apply writes_counted. rewrite (proj2 (Nat.ltb_lt _ _) Hl). cbn [negb].
  eapply (writes_bind _ _ [_] _ tt).
  { eapply writes_cast; [apply writes_put8|by rewrite u8_small by (unfold byte_ok; lia)|done]. }
  apply (writes_bind _ _ _ _ tt); [by apply writes_actions|].
  eapply (writes_bind _ _ [_] [_] tt); (eapply writes_cast; [apply writes_put8|by rewrite u8_small|done]).
Qed.
Lemma reads_ptp h : ptp_header_ok h → reads extract_ptp_header (ptp_bytes h) (h, List.length (ptp_bytes h)).
Proof.
  intros (Hl & Ha & Hc & Hj). apply reads_counted. destruct h as [l c j]. cbn in *.
  apply (reads_bind _ _ [_] _ (Z.of_nat (List.length l))); [apply reads_get8|].
  rewrite Nat2Z.id. apply (reads_bind _ _ _ _ l); [by apply reads_actions|].
  apply (reads_bind _ _ [c] [j] c); [apply reads_get8|]. apply (reads_bind _ _ [j] [] j); [apply reads_get8|].
  apply reads_ret.
Qed.

Lemma ptp_bytes_ok h : ptp_header_ok h → bytes_ok (ptp_bytes h).
Proof.
  intros (Hl & Ha & Hc & Hj). apply Forall_cons_2; [unfold byte_ok; lia|]. apply Forall_app_2; [|solve_bytes].
  unfold actions_bytes. clear Hl. induction Ha as [|a l Ha Hl IH]; [apply Forall_nil_2|]. simpl.
  apply Forall_cons_2; [|apply Forall_app_2; [|done]]; destruct a as [t [e|c|c]]; cbn [action_ok action_type action_val] in Ha; destruct Ha as [-> Ha]; try done.
  - by apply Forall_cons_2.
  - destruct Ha. apply Forall_app_2; by apply escaped_bytes_ok.
  - destruct Ha. apply Forall_app_2; by apply escaped_bytes_ok.
Qed.

Definition ptp_fits (h : ptp_header) (data : list Z) : Prop :=
  (List.length (ptp_bytes h) + List.length data ≤ ptp_buff_size)%nat.
#[export] Instance ptp_fits_dec h data : Decision (ptp_fits h data).
Proof. unfold ptp_fits. apply _. Defined.

Lemma write_packet_spec h data :
  ptp_header_ok h →
  write_packet h data = if decide (ptp_fits h data) then Ok (ptp_bytes h ++ data) else Fault OutOfBounds.
Proof.
  intros Hh. unfold write_packet, ptp_fits. case_decide.
  - by apply (big_buff_ok _ _ _ _ (writes_ptp h Hh)).
  - apply (big_buff_overflow _ _ _ _ (writes_ptp h Hh)). lia.
Qed.
Lemma write_packet_too_many h data : (256 ≤ List.length (actions h))%nat → write_packet h data = Fault Thrown.
Proof.
  intros Hl. unfold write_packet, big_buff_packet, run_write, write_ptp_header, counted.
  by rewrite (proj2 (Nat.ltb_ge _ _) Hl).
Qed.
Lemma ptp_recv_spec cond h data :
  ptp_header_ok h →
  ptp_handle_recv cond (ptp_bytes h ++ data) = b ← cond h; Ok (if (b : bool) then Some (h, data) else None).
Proof.
  intros Hh. destruct (packet_parse _ _ _ _ data (reads_ptp h Hh) eq_refl) as [H1 H2].
  unfold ptp_handle_recv. rewrite H1. cbn [mbind res_bind]. destruct (cond h) as [[]|]; [|done|done].
  cbn [mbind res_bind negb]. by rewrite H2.
Qed.

(** ** The node *)

(** An action that the node passes over: a start, or the end of a local connection at it. *)
Definition passed (par : node) (a : ptp_action) : bool :=
  match action_val a with
  | ValEndpoint e => endpoint_type e =? endpoint_start
  | ValLocalConn c => bool_decide (conn_dest c = my_addr par)
  | ValNetSwitch _ => false
  end.
Definition is_end_action (a : ptp_action) : bool :=
  match action_val a with ValEndpoint e => endpoint_type e =? endpoint_end | _ => false end.

Lemma get_curr_ok l c j a : l !! c = Some a → get_curr_action (PtpHeader l (Z.of_nat c) j) = Ok a.
Proof.
  intros Ha. assert (Hl := lookup_lt_Some _ _ _ Ha). unfold get_curr_action. cbn [curr_action actions].
  rewrite (proj2 (Z.ltb_lt _ _)) by lia. cbn [negb]. by rewrite Nat2Z.id, Ha.
Qed.
Lemma get_curr_past l c j : (List.length l ≤ c)%nat → get_curr_action (PtpHeader l (Z.of_nat c) j) = Fault Aborted.
Proof. intros Hl. unfold get_curr_action. cbn [curr_action actions]. by rewrite (proj2 (Z.ltb_ge _ _)) by lia. Qed.

(** One call of [handle_packet] on a well-formed action. *)
Lemma handle_packet_step fuel par l c j a data :
  action_ok a → l !! c = Some a →
  handle_packet (S fuel) par (PtpHeader l (Z.of_nat c) j) data =
    if passed par a then handle_packet fuel par (next_action (PtpHeader l (Z.of_nat c) j)) data
    else if is_end_action a && recv_endpoint_end par
         then buff ← write_packet (PtpHeader l (Z.of_nat c) j) data; Ok (Some buff)
         else Ok None.
Proof.
  intros Ha Hl. cbn [handle_packet]. rewrite (get_curr_ok _ _ _ a Hl). cbn [mbind res_bind].
  destruct a as [t [e|x|x]]; cbn [action_ok action_type action_val] in Ha; destruct Ha as [-> Ha];
    unfold passed, is_end_action; cbn [action_type action_val get_endpoint get_local_conn get_net_switch mbind res_bind].
  - change (action_endpoint =? action_endpoint) with true. cbn iota beta.
    destruct (Z.eqb_spec (endpoint_type e) endpoint_start) as [E|E]; [done|].
    destruct (Z.eqb_spec (endpoint_type e) endpoint_end); [by destruct (recv_endpoint_end par)|done].
  - change (action_local_conn =? action_endpoint) with false. change (action_local_conn =? action_local_conn) with true.
    cbn iota beta. unfold ptp_addr_eqb. rewrite vec_eqb_spec. done.
  - done.
Qed.

Lemma drop_lookup_cons {A} (l : list A) i x : l !! i = Some x → drop i l = x :: drop (S i) l.
Proof. intros H. by rewrite (drop_S l x i). Qed.

Lemma handle_packet_spec par l j data : ∀ fuel c,
  Forall action_ok l → (List.length l < 256)%nat → (List.length l - c < fuel)%nat → (c < 256)%nat →
  handle_packet fuel par (PtpHeader l (Z.of_nat c) j) data =
    match list_find (λ a, passed par a = false) (drop c l) with
    | None => Fault Aborted
    | Some (k, a) =>
        if is_end_action a && recv_endpoint_end par
        then buff ← write_packet (PtpHeader l (Z.of_nat (c + k)) j) data; Ok (Some buff)
        else Ok None
    end.
Proof.
  intros fuel c Hok Hl. revert c. induction fuel as [|fuel IH]; intros c Hf Hc; [lia|].
  destruct (l !! c) as [a|] eqn:Ea.
  - rewrite (drop_lookup_cons _ _ _ Ea). assert (Hlt := lookup_lt_Some _ _ _ Ea).
    rewrite (handle_packet_step _ _ _ _ _ a) by (done || by eapply Forall_lookup_1).
    cbn [list_find]. destruct (passed par a) eqn:Ep; case_decide as Hd; try done.
    + unfold next_action. cbn [actions curr_action no_jumps].
      replace (u8 (Z.of_nat c + 1)) with (Z.of_nat (S c)) by (rewrite u8_small; unfold byte_ok; lia).
      rewrite IH by lia. destruct (list_find _ (drop (S c) l)) as [[k b]|]; [|done]. cbn.
      by replace (S (c + k)) with (c + S k)%nat by lia.
    + by rewrite Nat.add_0_r.
  - apply lookup_ge_None in Ea. rewrite drop_ge by done. cbn [handle_packet list_find].
    by rewrite get_curr_past by lia.
Qed.

Lemma node_walk (par : node) (h : ptp_header) (data : list Z) :
  ptp_header_ok h →
  node_handle_recv par (ptp_bytes h ++ data) =
    match list_find (λ a, passed par a = false) (drop (Z.to_nat (curr_action h)) (actions h)) with
    | None => Fault Aborted
    | Some (k, a) =>
        if is_end_action a && recv_endpoint_end par
        then buff ← write_packet (PtpHeader (actions h) (curr_action h + Z.of_nat k) (u8 (no_jumps h + 1))) data;
             Ok (Some buff)
        else Ok None
    end.
Proof.
  intros Hh. unfold node_handle_recv, ptp_handle_recv_with_original. rewrite ptp_recv_spec by done.
  destruct Hh as (Hl & Ha & Hc & Hj). destruct h as [l c j]. cbn [mbind res_bind option_bind actions curr_action no_jumps] in *.
  unfold ptp_node_packet. cbn [actions curr_action no_jumps]. unfold byte_ok in Hc. rewrite <- (Z2Nat.id c) at 1 by lia.
  rewrite handle_packet_spec by (done || lia).
  destruct (list_find _ _) as [[k a]|]; [|done]. by rewrite Nat2Z.inj_add, Z2Nat.id by lia.
Qed.

(** ** Reversal *)

Definition reversible (a : ptp_action) : Prop :=
  match action_val a with
  | ValEndpoint e => action_type a = action_endpoint ∧ (endpoint_type e = endpoint_start ∨ endpoint_type e = endpoint_end)
  | ValLocalConn _ => action_type a = action_local_conn
  | ValNetSwitch _ => action_type a = action_net_switch
  end.
Definition reversed (a : ptp_action) : ptp_action :=
  PtpAction (action_type a)
    match action_val a with
    | ValEndpoint e => ValEndpoint (PtpEndpoint (1 - endpoint_type e))
    | ValLocalConn c => ValLocalConn (PtpLocalConn (conn_dest c) (conn_src c))
    | ValNetSwitch c => ValNetSwitch (PtpNetSwitch (switch_dest c) (switch_src c))
    end.
Lemma create_reverse_action_spec a : reversible a → create_reverse_action a = Ok (reversed a).
Proof.
  destruct a as [t [[e]|c|c]]; cbn; [intros [-> [-> | ->]]|intros ->|intros ->]; done.
Qed.
Lemma reversed_reversible a : reversible a → reversible (reversed a).
Proof. destruct a as [t [[e]|c|c]]; cbn; [|done|done]. intros [-> [-> | ->]]; split; auto. Qed.
Lemma reversed_involutive a : reversed (reversed a) = a.
Proof. destruct a as [t [[e]|[s d]|[s d]]]; unfold reversed; cbn; repeat f_equal. lia. Qed.
Lemma reverse_loop_spec todo acc :
  Forall reversible todo → reverse_loop todo acc = Ok (acc ++ (reversed <$> todo)).
Proof.
  intros H. revert acc. induction H as [|a todo Ha Ht IH]; intros acc; cbn [reverse_loop]; [by rewrite app_nil_r|].
  rewrite create_reverse_action_spec by done. cbn [mbind res_bind]. rewrite IH. by rewrite <- app_assoc.
Qed.
Lemma create_reverse_actions_spec l :
  Forall reversible l → create_reverse_actions l = Ok (reversed <$> reverse l).
Proof. intros H. unfold create_reverse_actions. rewrite reverse_loop_spec; [done|]. by apply Forall_reverse. Qed.

(** ** Text *)

Definition octets_text_ok : list Z → Prop := Forall (λ v, 16 ≤ v < 256).
Definition action_text_ok (a : ptp_action) : Prop :=
  match action_val a with
  | ValEndpoint e => action_type a = action_endpoint ∧ (endpoint_type e = endpoint_start ∨ endpoint_type e = endpoint_end)
  | ValLocalConn c => action_type a = action_local_conn ∧ octets_text_ok (conn_src c) ∧ octets_text_ok (conn_dest c)
  | ValNetSwitch _ => False
  end.

Lemma hex_char_plain c : is_Some (digit_val 16 c) → c ≠ 32 ∧ c ≠ 59.
Proof. intros [d Hd]. split; intros ->; done. Qed.
Lemma octets_str_plain first vals acc :
  octets_text_ok vals → Forall (λ c, c ≠ 32 ∧ c ≠ 59) acc →
  Forall (λ c, c ≠ 32 ∧ c ≠ 59) (octets_str_loop first vals acc).
Proof.
  intros Hv. revert first acc. induction Hv as [|v vals Hv Hvs IH]; intros first acc Ha; [done|].
  cbn [octets_str_loop]. apply IH. apply Forall_app_2; [done|]. apply Forall_app_2.
  - destruct first; [apply Forall_nil_2|]. by apply Forall_cons_2; [|apply Forall_nil_2].
  - destruct (hex_string_digits v ltac:(lia)) as (_ & Hd & _). eapply List.Forall_impl; [|exact Hd].
    intros c. apply hex_char_plain.
Qed.
Lemma octets_str_long first vals acc :
  octets_text_ok vals → (List.length acc + List.length vals ≤ List.length (octets_str_loop first vals acc))%nat.
Proof.
  intros Hv. revert first acc. induction Hv as [|v vals Hv Hvs IH]; intros first acc; [simpl; lia|].
  cbn [octets_str_loop List.length]. etransitivity; [|apply IH]. rewrite !length_app.
  destruct (hex_string_digits v ltac:(lia)) as (Hn & _ & _). destruct (hex_string v); [done|]. simpl. lia.
Qed.

Lemma ptp_addr_text vals : octets_text_ok vals → str_to_ptp_addr (ptp_addr_to_str vals) = Ok (Some vals).
Proof.
  intros Hv. apply octets_roundtrip; [done|]. pose proof (octets_str_long true vals [] Hv).
  unfold ptp_addr_to_str, octets_to_str in *. simpl in *. lia.
Qed.
Lemma plain_not_in (x : Z) t : (x = 32 ∨ x = 59) → Forall (λ c, c ≠ 32 ∧ c ≠ 59) t → x ∉ t.
Proof. intros Hx Ht Hin. rewrite List.Forall_forall in Ht. apply list_elem_of_In, Ht in Hin. lia. Qed.

(** A byte that does not occur in a literal text. *)
Ltac not_in_text := eapply (bool_decide_eq_false_1 _); vm_compute; reflexivity.

Lemma local_conn_text c :
  octets_text_ok (conn_src c) → octets_text_ok (conn_dest c) →
  str_to_ptp_local_conn (ptp_local_conn_to_str c) = Ok (Some c) ∧ 59 ∉ ptp_local_conn_to_str c.
Proof.
  intros Hs Hd. destruct c as [s d]. cbn [conn_src conn_dest] in *.
  pose proof (octets_str_plain true s [] Hs ltac:(apply Forall_nil_2)) as Ps.
  pose proof (octets_str_plain true d [] Hd ltac:(apply Forall_nil_2)) as Pd. split.
  - unfold str_to_ptp_local_conn.
    change (ptp_local_conn_to_str (PtpLocalConn s d)) with (join (str " -> ") [ptp_addr_to_str s; ptp_addr_to_str d]).
    rewrite split_str_join; [|done|done|].
    + cbn [mbind res_bind]. rewrite ptp_addr_text by done. cbn [mbind res_bind]. by rewrite ptp_addr_text.
    + repeat apply Forall_cons_2; [..|apply Forall_nil_2]; apply clean_first, plain_not_in; auto.
  - unfold ptp_local_conn_to_str. cbn [conn_src conn_dest]. rewrite !not_elem_of_app. split_and!.
    + apply plain_not_in; auto.
    + not_in_text.
    + apply plain_not_in; auto.
Qed.

Lemma action_text a fuel :
  action_text_ok a → ∃ t, ptp_action_to_str a = Ok (Some t) ∧ str_to_ptp_action fuel t = Ok (Some a) ∧ 59 ∉ t.
Proof.
  destruct a as [t [[e]|c|c]]; cbn [action_text_ok action_type action_val endpoint_type]; [| |done].
  - intros [-> [-> | ->]]; eexists; (split; [reflexivity|split; [reflexivity|]]); not_in_text.
  - intros (-> & Hs & Hd). destruct (local_conn_text c Hs Hd) as [Ht Hn].
    exists (str "conn " ++ ptp_local_conn_to_str c). split; [done|]. split.
    + unfold str_to_ptp_action. change (starts_with (str "endpoint ") (str "conn " ++ _)) with false. cbn iota.
      rewrite starts_with_app. rewrite substr_ok by (rewrite length_app; simpl; lia). cbn [mbind res_bind].
      rewrite (drop_app_length' (str "conn ")) by done. rewrite take_ge by (rewrite length_app; lia).
      by rewrite Ht.
    + rewrite not_elem_of_app. split; [not_in_text|done].
Qed.

Lemma action_list_text_loop l ts :
  Forall2 (λ a t, ptp_action_to_str a = Ok (Some t)) l ts → ∀ i acc,
  action_list_to_str_loop l (S i) acc = Ok (Some (acc ++ concat ((λ t, str " ; " ++ t) <$> ts))).
Proof.
  induction 1 as [|a t l ts Ha Hl IH]; intros i acc; [simpl; by rewrite app_nil_r|].
  cbn [action_list_to_str_loop Nat.ltb Nat.leb]. rewrite Ha. cbn [mbind res_bind]. rewrite IH.
  by rewrite <- !app_assoc.
Qed.
Lemma action_list_text l ts :
  Forall2 (λ a t, ptp_action_to_str a = Ok (Some t)) l ts → ts ≠ [] →
  ptp_action_list_to_str l = Ok (Some (join (str " ; ") ts)).
Proof.
  intros [|a t l' ts' Ha Hl] Hn; [done|]. unfold ptp_action_list_to_str.
  cbn [action_list_to_str_loop Nat.ltb Nat.leb]. rewrite Ha. cbn [mbind res_bind app].
  rewrite (action_list_text_loop _ _ Hl). by rewrite join_cons.
Qed.
Lemma action_list_parse fuel l ts acc :
  Forall2 (λ a t, str_to_ptp_action fuel t = Ok (Some a)) l ts →
  str_to_action_list_loop fuel ts acc = Ok (Some (acc ++ l)).
Proof.
  intros H. revert acc. induction H as [|a t l ts Ha Hl IH]; intros acc; [simpl; by rewrite app_nil_r|].
  cbn [str_to_action_list_loop]. rewrite Ha. cbn [mbind res_bind]. rewrite IH. by rewrite <- app_assoc.
Qed.
Lemma action_texts fuel l :
  Forall action_text_ok l → ∃ ts, Forall2 (λ a t, ptp_action_to_str a = Ok (Some t)) l ts ∧
    Forall2 (λ a t, str_to_ptp_action fuel t = Ok (Some a)) l ts ∧ Forall (clean_token (str " ; ")) ts.
Proof.
  induction 1 as [|a l Ha Hl (ts & H1 & H2 & H3)]; [by exists []|].
  destruct (action_text a fuel Ha) as (t & E1 & E2 & E3). exists (t :: ts).
  split; [by constructor|]. split; [by constructor|]. apply Forall_cons_2; [|done]. by apply clean_second.
Qed.

(** ** The contract of a protocol *)

#[local] Obligation Tactic := idtac.
#[export] Program Instance ptp_encap : Encap ptp_header (ptp_header → bool) := {|
  encap_send h d := sent (ptp_send true h d);
  encap_recv f d := ptp_handle_recv (λ h, Ok (f h)) d;
  encap_ok h d := ptp_header_ok h ∧ bytes_ok d ∧ ptp_fits h d;
  encap_seen h d := h;
  encap_match f h := f h
|}.
Next Obligation.
  intros h d pkt (Hh & Hb & Hf). cbv beta. unfold ptp_send. cbn [negb].
  rewrite write_packet_spec, decide_True by done. intros <-%sent_inj. apply Forall_app_2; [by apply ptp_bytes_ok|done].
Qed.
Next Obligation.
  intros h d (Hh & Hb & Hf). cbv beta. unfold ptp_send. cbn [negb].
  rewrite write_packet_spec, decide_True by done. by eexists.
Qed.
Next Obligation.
  intros h d f pkt (Hh & Hb & Hf). cbv beta. unfold ptp_send. cbn [negb].
  rewrite write_packet_spec, decide_True by done. intros <-%sent_inj. by rewrite ptp_recv_spec.
Qed.

(** ** The direct path between two nodes of a network *)

Definition direct_path (a b : list Z) : list ptp_action :=
  [PtpAction 0 (ValEndpoint (PtpEndpoint 0)); PtpAction 1 (ValLocalConn (PtpLocalConn a b));
   PtpAction 0 (ValEndpoint (PtpEndpoint 1))].
Lemma direct_path_ok a b c j :
  bytes_ok a → bytes_ok b → byte_ok c → byte_ok j → ptp_header_ok (PtpHeader (direct_path a b) c j).
Proof.
  intros Ha Hb Hc Hj. split; [simpl; lia|]. split; [|done].
  repeat apply Forall_cons_2; try apply Forall_nil_2; done.
Qed.
Lemma direct_path_fits a b data :
  ptp_fits (PtpHeader (direct_path a b) 1 1) data → ptp_fits (PtpHeader (direct_path a b) 2 2) data.
Proof. unfold ptp_fits, ptp_bytes. cbn [actions List.length]. by rewrite !length_app. Qed.
Lemma direct_path_node a b me data :
  bytes_ok a → bytes_ok b →
  node_handle_recv (Node me true) (ptp_bytes (PtpHeader (direct_path a b) 1 1) ++ data) =
    if bool_decide (b = me) then buff ← write_packet (PtpHeader (direct_path a b) 2 2) data; Ok (Some buff)
    else Ok None.
Proof.
  intros Ha Hb. rewrite node_walk by by apply direct_path_ok.
  cbn [actions curr_action no_jumps].
  change (drop (Z.to_nat 1) (direct_path a b))
    with [PtpAction 1 (ValLocalConn (PtpLocalConn a b)); PtpAction 0 (ValEndpoint (PtpEndpoint 1))].
  cbn [list_find].
  change (passed (Node me true) (PtpAction 1 (ValLocalConn (PtpLocalConn a b)))) with (bool_decide (b = me)).
  destruct (bool_decide (b = me)); reflexivity.
Qed.
#[export] Hint Resolve direct_path_fits : wire.
(** Data sent along a direct path reaches the end of it. *)
Lemma direct_path_travels a b data : bytes_ok a → bytes_ok b → ptp_fits (PtpHeader (direct_path a b) 1 1) data →
  let pkt := ptp_bytes (PtpHeader (direct_path a b) 1 1) ++ data in
  let h := PtpHeader (direct_path a b) 2 2 in
  ptp_single_send true (direct_path a b) data = Ok (Some pkt) ∧ node_handle_recv (Node b true) pkt = Ok (Some (ptp_bytes h ++ data)) ∧
  ptp_handle_recv ptp_is_endpoint_end (ptp_bytes h ++ data) = Ok (Some (h, data)).
Proof.
  intros Ha Hb Hf pkt h. pose proof (direct_path_ok a b) as Hh. split_and!.
  - unfold ptp_single_send, ptp_send. cbn [negb]. change (u8 (0 + 1)) with 1.
    rewrite write_packet_spec by by apply Hh. by rewrite decide_True.
  - unfold pkt. rewrite direct_path_node by done. rewrite bool_decide_true by done. rewrite write_packet_spec by by apply Hh.
    by rewrite decide_True by auto with wire.
  - unfold h. by rewrite ptp_recv_spec by by apply Hh.
Qed.

(** A network switch whose source id starts with a number is never parsed. *)
Lemma switch_text_stuck fuel i rest v :
  (2 ≤ List.length i)%nat → stoul16 (take 2 i) = Ok v → 32 ∉ i → 32 ∉ rest →
  str_to_ptp_action fuel (str "switch " ++ i ++ str " -> " ++ rest) = Fault OutOfFuel.
Proof.
  intros Hi Hv Hi1 Hr1. unfold str_to_ptp_action.
  change (starts_with (str "endpoint ") (str "switch " ++ _)) with false.
  change (starts_with (str "conn ") (str "switch " ++ _)) with false. cbn iota.
  rewrite starts_with_app. rewrite substr_ok by (rewrite length_app; simpl; lia). cbn [mbind res_bind].
  rewrite (drop_app_length' (str "switch ")) by done. rewrite take_ge by (rewrite !length_app; lia).
  unfold str_to_ptp_net_switch. change (i ++ str " -> " ++ rest) with (join (str " -> ") [i; rest]).
  rewrite split_str_join; [|done|done|repeat apply Forall_cons_2; [..|apply Forall_nil_2]; by apply clean_first].
  cbn [mbind res_bind]. unfold str_to_ptp_net_id. by rewrite (octets_loop_stuck fuel i v).
Qed.
Definition path_witness_text : list ptp_action :=
  [PtpAction 0 (ValEndpoint (PtpEndpoint 0)); PtpAction 1 (ValLocalConn (PtpLocalConn [16; 17] [32]));
   PtpAction 0 (ValEndpoint (PtpEndpoint 1))].

(** * Properties *)

(** A header whose actions are well formed travels unchanged with its data to every receiver whose condition holds of it,
    and is dropped by the others; header and data beyond 0x10000 bytes overflow the static buffer of the sender, and
    256 actions or more are refused with an exception. *)
Theorem ptp_send_recv (cond : ptp_header → res bool) (h : ptp_header) (data : list Z) :
  Forall action_ok (actions h) → byte_ok (curr_action h) → byte_ok (no_jumps h) →
  if decide (256 ≤ List.length (actions h))%nat then ptp_send true h data = Fault Thrown
  else if decide (ptp_fits h data) then
    ∃ pkt, ptp_send true h data = Ok (Some pkt) ∧
      ptp_handle_recv cond pkt = b ← cond h; Ok (if (b : bool) then Some (h, data) else None)
  else ptp_send true h data = Fault OutOfBounds.
Proof.
  intros Ha Hc Hj. unfold ptp_send. cbn [negb]. case_decide as Hl; [by rewrite write_packet_too_many|].
  assert (Hh : ptp_header_ok h) by (split; [lia|done]). rewrite write_packet_spec by done.
  case_decide; [|done]. eexists. split; [done|]. by apply ptp_recv_spec.
Qed.
Definition path_witness : list ptp_action :=
  [PtpAction 0 (ValEndpoint (PtpEndpoint 0)); PtpAction 1 (ValLocalConn (PtpLocalConn [16; 17] [32; 0]));
   PtpAction 0 (ValEndpoint (PtpEndpoint 1))].
Lemma path_witness_ok : Forall action_ok path_witness.
Proof. repeat constructor; done. Qed.
Lemma ptp_send_recv_witness :
  if decide (256 ≤ List.length (actions (PtpHeader path_witness 2 7)))%nat
  then ptp_send true (PtpHeader path_witness 2 7) [5; 6] = Fault Thrown
  else if decide (ptp_fits (PtpHeader path_witness 2 7) [5; 6]) then
    ∃ pkt, ptp_send true (PtpHeader path_witness 2 7) [5; 6] = Ok (Some pkt) ∧
      ptp_handle_recv ptp_is_endpoint_end pkt
      = b ← ptp_is_endpoint_end (PtpHeader path_witness 2 7);
        Ok (if (b : bool) then Some (PtpHeader path_witness 2 7, [5; 6]) else None)
  else ptp_send true (PtpHeader path_witness 2 7) [5; 6] = Fault OutOfBounds.
Proof.
  apply (ptp_send_recv ptp_is_endpoint_end (PtpHeader path_witness 2 7) [5; 6]); [apply path_witness_ok|done|done].
Defined.

(** C21: what a node does with any well-formed packet: it passes over the start endpoints and the local connections
    that end at it, beginning at the current action; when the first other action is the end endpoint it hands the packet to its
    endpoint receiver, if set, with the index moved there and one jump more; any other action, a connection to another
    node included, drops the packet; and a packet whose actions from the current one on are all passed over terminates the
    program. *)
Theorem node_handle_recv_spec (par : node) (h : ptp_header) (data : list Z) :
  ptp_header_ok h →
  node_handle_recv par (ptp_bytes h ++ data) =
    match list_find (λ a, passed par a = false) (drop (Z.to_nat (curr_action h)) (actions h)) with
    | None => Fault Aborted
    | Some (k, a) =>
        if is_end_action a && recv_endpoint_end par
        then buff ← write_packet (PtpHeader (actions h) (curr_action h + Z.of_nat k) (u8 (no_jumps h + 1))) data;
             Ok (Some buff)
        else Ok None
    end.
Proof. apply node_walk. Qed.
Lemma node_handle_recv_spec_witness :
  node_handle_recv (Node [32; 0] true) (ptp_bytes (PtpHeader path_witness 1 1) ++ [5]) =
    match list_find (λ a, passed (Node [32; 0] true) a = false) (drop (Z.to_nat 1) path_witness) with
    | None => Fault Aborted
    | Some (k, a) =>
        if is_end_action a && true
        then buff ← write_packet (PtpHeader path_witness (1 + Z.of_nat k) (u8 (1 + 1))) [5]; Ok (Some buff)
        else Ok None
    end.
Proof.
  apply (node_handle_recv_spec (Node [32; 0] true) (PtpHeader path_witness 1 1) [5]).
  split; [simpl; lia|]. split; [apply path_witness_ok|done].
Defined.

(** C7: two peers on a local network: what node [a]'s access sends along start, connection from [a] to [b], end, is delivered at
    [b], once the node there has moved the packet to its end, to a new access whose path is the way back; any other
    node drops it. *)
Theorem ptp_path_and_reply (a b other : list Z) (data : list Z) :
  bytes_ok a → bytes_ok b → other ≠ b → ptp_fits (PtpHeader (direct_path a b) 1 1) data →
  ∃ pkt buff h, ptp_single_send true (direct_path a b) data = Ok (Some pkt) ∧
    node_handle_recv (Node b true) pkt = Ok (Some buff) ∧
    node_handle_recv (Node other true) pkt = Ok None ∧
    ptp_handle_recv ptp_is_endpoint_end buff = Ok (Some (h, data)) ∧
    ptp_generate true true h data = Ok (Some (direct_path b a, Some data)).
Proof.
  intros Ha Hb Ho Hf. destruct (direct_path_travels a b data Ha Hb Hf) as (H1 & H2 & H3). eexists _, _, _.
  split; [exact H1|]. split; [exact H2|]. split; [|split; [exact H3|done]].
  rewrite direct_path_node by done. by rewrite bool_decide_false by congruence.
Qed.
Lemma ptp_path_and_reply_witness :
  ∃ pkt buff h, ptp_single_send true (direct_path [16; 17] [32; 0]) [5] = Ok (Some pkt) ∧
    node_handle_recv (Node [32; 0] true) pkt = Ok (Some buff) ∧
    node_handle_recv (Node [] true) pkt = Ok None ∧
    ptp_handle_recv ptp_is_endpoint_end buff = Ok (Some (h, [5])) ∧
    ptp_generate true true h [5] = Ok (Some (direct_path [32; 0] [16; 17], Some [5])).
Proof.
  apply (ptp_path_and_reply [16; 17] [32; 0] [] [5]); [by repeat constructor|by repeat constructor|done|].
  apply (bool_decide_eq_true_1 _). vm_compute. reflexivity.
Defined.

(** Reversing a path whose actions are well formed and whose endpoints are starts and ends gives a path of the same length that runs
    through the actions backwards, each turned around, and reversing it again gives the path back. *)
Theorem create_reverse_actions_involutive (l : list ptp_action) :
  Forall reversible l →
  ∃ l', create_reverse_actions l = Ok l' ∧ create_reverse_actions l' = Ok l ∧
    List.length l' = List.length l ∧
    ∀ i a, l !! i = Some a → l' !! (List.length l - S i)%nat = Some (reversed a).
Proof.
  intros Hl. exists (reversed <$> reverse l). split; [by apply create_reverse_actions_spec|]. split_and!.
  - rewrite create_reverse_actions_spec.
    + by rewrite <- fmap_reverse, reverse_involutive, <- list_fmap_compose, (list_fmap_ext _ id), list_fmap_id
        by (intros; apply reversed_involutive).
    + apply Forall_fmap, Forall_reverse. eapply List.Forall_impl; [|exact Hl]. apply reversed_reversible.
  - by rewrite length_fmap, length_reverse.
  - intros i a Hi. assert (Hlt := lookup_lt_Some _ _ _ Hi). rewrite list_lookup_fmap, reverse_lookup by lia.
    replace (List.length l - S (List.length l - S i))%nat with i by lia. by rewrite Hi.
Qed.
Lemma create_reverse_actions_involutive_witness :
  ∃ l', create_reverse_actions path_witness = Ok l' ∧ create_reverse_actions l' = Ok path_witness ∧
    List.length l' = List.length path_witness ∧
    ∀ i a, path_witness !! i = Some a → l' !! (List.length path_witness - S i)%nat = Some (reversed a).
Proof.
  apply (create_reverse_actions_involutive path_witness).
  repeat apply Forall_cons_2; try apply Forall_nil_2; cbn; auto.
Defined.

(** A list of actions, endpoints and local connections whose octets are at least 16, is printed as text that parses back to it; the
    text of a list with a network switch whose first id begins with two hexadecimal digits is never parsed. *)
Theorem ptp_action_list_text (l : list ptp_action) (fuel : nat) (i rest : list Z) (v : Z) :
  l ≠ [] → Forall action_text_ok l →
  (2 ≤ List.length i)%nat → stoul16 (take 2 i) = Ok v → 32 ∉ i → 59 ∉ i → 32 ∉ rest → 59 ∉ rest →
  ∃ s, ptp_action_list_to_str l = Ok (Some s) ∧ str_to_ptp_action_list fuel s = Ok (Some l) ∧
    str_to_ptp_action_list fuel (str "switch " ++ i ++ str " -> " ++ rest) = Fault OutOfFuel.
Proof.
  intros Hn Hl Hi Hv Hi1 Hi2 Hr1 Hr2. destruct (action_texts fuel l Hl) as (ts & H1 & H2 & H3).
  assert (Hts : ts ≠ []) by (destruct H1; done).
  exists (join (str " ; ") ts). split; [by apply action_list_text|]. split.
  - unfold str_to_ptp_action_list. rewrite split_str_join by done. cbn [mbind res_bind].
    by rewrite (action_list_parse _ _ _ [] H2).
  - unfold str_to_ptp_action_list. set (t := str "switch " ++ _).
    change t with (join (str " ; ") [t]) at 1. rewrite split_str_join; [|done|done|].
    + cbn [mbind res_bind str_to_action_list_loop].
      assert (Ht : str_to_ptp_action fuel t = Fault OutOfFuel); [|by rewrite Ht].
      by apply (switch_text_stuck _ _ _ v).
    + apply Forall_cons_2; [|apply Forall_nil_2]. apply clean_second; [done|].
      unfold t. rewrite !not_elem_of_app. split_and!; (done || not_in_text).
Qed.
Lemma ptp_action_list_text_witness :
  ∃ s, ptp_action_list_to_str path_witness_text = Ok (Some s) ∧ str_to_ptp_action_list 9 s = Ok (Some path_witness_text) ∧
    str_to_ptp_action_list 9 (str "switch " ++ str "1a" ++ str " -> " ++ str "2b") = Fault OutOfFuel.
Proof.
  apply (ptp_action_list_text path_witness_text 9 (str "1a") (str "2b") 26); try done; try not_in_text.
  repeat apply Forall_cons_2; try apply Forall_nil_2; cbn; auto.
  split; [done|]. split; repeat constructor; lia.
Defined.
