(* ===== verification/Dns.v ===== *)
(** DNS messages: [src/protocols/dns/dns.cpp], [dns.h].  Names are held in text form with a
    trailing NUL ([make_dns_query] appends it) and travel as length-prefixed labels.
    The static buffer of [send] is 0x10000 bytes.

    The reserved bit [z] of the header is neither read nor written by any function and is left out. *)

From Stdlib Require Import ZArith Lia String.
From stdpp Require Import base decidable list numbers finite.
From S2P Require Import Prelude Cursor Text.

(** * Names *)

(** The loop of [encode_dns_name]: [label] is [data[last..curr)]. *)
Fixpoint encode_name_loop (data label : list Z) : list Z :=
  match data with
  | [] => []
  | c :: rest =>
      if (c =? 46) || (List.length rest =? 0)%nat then
        u8 (Z.of_nat (List.length label)) :: label ++ encode_name_loop rest []
      else encode_name_loop rest (label ++ [c])
  end.
Definition encode_dns_name (data : list Z) : list Z := encode_name_loop data [] ++ [0].

(** [decode_dns_name]: every label moves forward, so its length bounds the iterations. *)
Fixpoint decode_name_loop (fuel : nat) (name : list Z) (out : list Z) : res (list Z) :=
  match fuel with
  | O => Fault OutOfFuel
  | S fuel =>
      match name with
      | [] => Ok out
      | len :: name =>
          if len =? 0 then Ok (out ++ [0])
          else
            let out := if negb (List.length out =? 0)%nat then out ++ [46] else out in
            if (Z.to_nat len <=? List.length name)%nat
            then decode_name_loop fuel (drop (Z.to_nat len) name) (out ++ take (Z.to_nat len) name)
            else Fault OutOfBounds
      end
  end.
Definition decode_dns_name (name : list Z) : res (list Z) := decode_name_loop (S (List.length name)) name [].

(** [extract_encoded_name]: [pos] is [curr_ptr - packet_buff], [dest] what has been pushed. *)
Definition JUMP_MASK : Z := 192.
Fixpoint extract_name_loop (fuel : nat) (buf : list Z) (pos : nat) (jumped : bool) (dest : list Z) (count : nat) :
    res (list Z * nat) :=
  match fuel with
  | O => Fault OutOfFuel
  | S fuel =>
      b ← of_option OutOfBounds (buf !! pos);
      if b =? 0 then Ok (dest ++ [0], if jumped then (count + 2)%nat else (count + 1)%nat)
      else if Z.land b JUMP_MASK =? JUMP_MASK then
        b1 ← of_option OutOfBounds (buf !! S pos);
        let offset := Z.shiftl (Z.lxor b JUMP_MASK) 8 + b1 in
        extract_name_loop fuel buf (Z.to_nat offset) true dest count
      else extract_name_loop fuel buf (S pos) jumped (dest ++ [b]) (if jumped then count else S count)
  end.
(** A walk that visits more positions than the packet has repeats one: this fuel is enough
    whenever any is. *)
Definition extract_encoded_name : rd (list Z * nat) :=
  λ buf pos, r ← extract_name_loop (S (List.length buf)) buf pos false [] 0; Ok (r, (pos + snd r)%nat).

(** [cnt += extract_encoded_name(&dest, ...); dest = decode_dns_name(dest)]. *)
Definition extract_name : rd (list Z) :=
  encoded ← take_in extract_encoded_name; rd_lift (decode_dns_name encoded).

(** * Types and classes *)

Definition dns_type_a : Z := 1.
Definition dns_type_ns : Z := 2.
Definition dns_type_cname : Z := 5.
Definition dns_type_soa : Z := 6.
Definition dns_type_ptr : Z := 12.
Definition dns_type_mx : Z := 15.
Definition dns_class_in : Z := 1.
Definition dns_class_ch : Z := 3.

Definition dns_record_type_to_str (type : Z) : option (list Z) :=
  if type =? dns_type_a then Some (str "a")
  else if type =? dns_type_mx then Some (str "mx")
  else if type =? dns_type_ptr then Some (str "ptr")
  else if type =? dns_type_cname then Some (str "cname")
  else if type =? dns_type_ns then Some (str "ns")
  else if type =? dns_type_soa then Some (str "soa")
  else None.
Definition str_to_dns_record_type (s : list Z) : option Z :=
  if decide (s = str "a") then Some dns_type_a
  else if decide (s = str "mx") then Some dns_type_mx
  else if decide (s = str "ptr") then Some dns_type_ptr
  else if decide (s = str "cname") then Some dns_type_cname
  else if decide (s = str "ns") then Some dns_type_ns
  else if decide (s = str "soa") then Some dns_type_soa
  else None.
Definition dns_record_class_to_str (class : Z) : option (list Z) :=
  if class =? dns_class_in then Some (str "in")
  else if class =? dns_class_ch then Some (str "ch")
  else None.
Definition str_to_dns_record_class (s : list Z) : option Z :=
  if decide (s = str "in") then Some dns_class_in
  else if decide (s = str "ch") then Some dns_class_ch
  else None.

(** * Header *)

Record dns_header := DnsHeader {
  dns_id : Z; dns_rd : Z; dns_tc : Z; dns_aa : Z; dns_opcode : Z; dns_qr : Z;
  dns_rcode : Z; dns_cd : Z; dns_ad : Z; dns_ra : Z;
  query_count : Z; ans_count : Z; auth_count : Z; add_count : Z
}.

(** A shift of an [int], undefined from 32 on. *)
Definition int_shl (x n : Z) : res Z := if 32 <=? n then Fault BadShift else Ok (Z.shiftl x n).

(** The shifts bind tighter than the ors: [aa << 2] is shifted by [opcode << 3], and [ad << 5] by
    [ra << 7].  The bit-fields have become [int]s; the stores keep eight bits. *)
Definition flags_first (h : dns_header) : res Z :=
  mid ← int_shl (Z.shiftl (dns_aa h) 2) (Z.shiftl (dns_opcode h) 3);
  Ok (Z.lor (Z.lor (Z.lor (dns_rd h) (Z.shiftl (dns_tc h) 1)) mid) (Z.shiftl (dns_qr h) 7)).
Definition flags_second (h : dns_header) : res Z :=
  mid ← int_shl (Z.shiftl (dns_ad h) 5) (Z.shiftl (dns_ra h) 7);
  Ok (Z.lor (Z.lor (dns_rcode h) (Z.shiftl (dns_cd h) 4)) mid).

Definition write_dns_header (h : dns_header) : wr nat :=
  counted (
    put16 (htons (dns_id h));;
    f ← wr_lift (flags_first h);
    put8 f;;
    g ← wr_lift (flags_second h);
    put8 g;;
    put16 (htons (query_count h));;
    put16 (htons (ans_count h));;
    put16 (htons (auth_count h));;
    put16 (htons (add_count h))).

(** [((b) & (mask << n)) >> n]. *)
Definition bits (b mask n : Z) : Z := Z.shiftr (Z.land b (Z.shiftl mask n)) n.
Definition extract_dns_header : rd (dns_header * nat) :=
  rd_counted (
    id ← ntohs <$> get16;
    f ← get8;
    g ← get8;
    query_count ← ntohs <$> get16;
    ans_count ← ntohs <$> get16;
    auth_count ← ntohs <$> get16;
    add_count ← ntohs <$> get16;
    mret (DnsHeader id (Z.land f 1) (bits f 1 1) (bits f 1 2) (bits f 15 3) (bits f 1 7)
            (Z.land g 15) (bits g 1 4) (bits g 1 5) (bits g 1 7)
            query_count ans_count auth_count add_count)).

(** * Queries and answers *)

Record dns_query := DnsQuery { q_name : list Z; q_type : Z; q_class : Z }.

(** [name.data() + name.size() + 1]: the terminating NUL of the string is included. *)
Definition make_dns_query (name : list Z) (type class : Z) : dns_query := DnsQuery (name ++ [0]) type class.

Definition write_dns_query (q : dns_query) : wr nat :=
  counted (
    put_bytes (encode_dns_name (q_name q));;
    put16 (htons (q_type q));;
    put16 (htons (q_class q))).
Definition extract_dns_query : rd (dns_query * nat) :=
  rd_counted (
    name ← extract_name;
    type ← ntohs <$> get16;
    class ← ntohs <$> get16;
    mret (DnsQuery name type class)).

Record dns_answer := DnsAnswer {
  ans_name : list Z; ans_type : Z; ans_class : Z; ans_ttl : Z; data_len : Z; rdata : list Z
}.

(** [ttl] is 32 bits wide but goes through the 16-bit [htons] and [ntohs]. *)
Definition write_dns_answer (a : dns_answer) : wr nat :=
  counted (
    put_bytes (encode_dns_name (ans_name a));;
    put16 (htons (ans_type a));;
    put16 (htons (ans_class a));;
    put32 (htons (ans_ttl a));;
    put16 (htons (data_len a));;
    if (Z.to_nat (data_len a) <=? List.length (rdata a))%nat
    then put_bytes (take (Z.to_nat (data_len a)) (rdata a))
    else wr_fault OutOfBounds).
Definition extract_dns_answer : rd (dns_answer * nat) :=
  rd_counted (
    name ← extract_name;
    type ← ntohs <$> get16;
    class ← ntohs <$> get16;
    ttl ← ntohs <$> get32;
    data_len ← ntohs <$> get16;
    rdata ← get_bytes (Z.to_nat data_len);
    mret (DnsAnswer name type class ttl data_len rdata)).

(** * Resource data *)

Record mx_rdata := MxRdata { preference : Z; domain : list Z }.
Definition mx_to_rdata (source : mx_rdata) : res (list Z) :=
  let encoded_name := encode_dns_name (domain source) in
  let out := replicate (2 + List.length encoded_name) 0 in
  out ← memcpy out 0 (le16 (htons (preference source)));
  memcpy out 2 encoded_name.
Definition extract_mx_rdata : rd (mx_rdata * nat) :=
  rd_counted (
    preference ← ntohs <$> get16;
    domain ← extract_name;
    mret (MxRdata preference domain)).

Record soa_rdata := SoaRdata {
  primary_server : list Z; admin_mail_server : list Z;
  serial_num : Z; refresh_interval : Z; retry_interval : Z; expire_limit : Z; max_ttl : Z
}.
(** [vector((uint8_t* ) &first, (uint8_t* ) &last + sizeof(last))] for the local variable number
    [first] and the one number [last]: a range only when they are the same object. *)
Definition object_bytes (first last : nat) (v : Z) : res (list Z) :=
  if (first =? last)%nat then Ok (le32 v) else Fault BadRange.
Definition soa_to_rdata (source : soa_rdata) : res (list Z) :=
  let out := encode_dns_name (primary_server source) in
  let out := out ++ encode_dns_name (admin_mail_server source) in
  tmp ← object_bytes 0 0 (htonl (serial_num source));
  let out := out ++ tmp in
  tmp ← object_bytes 1 0 (htonl (refresh_interval source));
  let out := out ++ tmp in
  tmp ← object_bytes 2 0 (htonl (retry_interval source));
  let out := out ++ tmp in
  tmp ← object_bytes 3 0 (htonl (expire_limit source));
  let out := out ++ tmp in
  tmp ← object_bytes 4 0 (htonl (max_ttl source));
  Ok (out ++ tmp).
Definition extract_soa_rdata : rd (soa_rdata * nat) :=
  rd_counted (
    primary_server ← extract_name;
    admin_mail_server ← extract_name;
    serial_num ← ntohs <$> get32;
    refresh_interval ← ntohs <$> get32;
    retry_interval ← ntohs <$> get32;
    expire_limit ← ntohs <$> get32;
    max_ttl ← ntohs <$> get32;
    mret (SoaRdata primary_server admin_mail_server serial_num refresh_interval retry_interval expire_limit max_ttl)).

(** * Messages *)

Record dns_message := DnsMessage {
  header : dns_header; queries : list dns_query;
  ans : list dns_answer; ans_auth : list dns_answer; ans_addit : list dns_answer
}.

Fixpoint write_all {A} (w : A → wr nat) (l : list A) : wr () :=
  match l with
  | [] => mret tt
  | a :: l => advance (w a);; write_all w l
  end.
Fixpoint extract_all {A} (r : rd (A * nat)) (n : nat) : rd (list A) :=
  match n with
  | O => mret []
  | S n => a ← take_in r; l ← extract_all r n; mret (a :: l)
  end.

(** [if (count != list.size()) throw;], outside a handler, then the elements. *)
Definition write_section {A} (count : Z) (w : A → wr nat) (l : list A) : wr () :=
  if negb (count =? Z.of_nat (List.length l)) then wr_fault Aborted else write_all w l.

Definition write_dns_message (m : dns_message) : wr nat :=
  counted (
    advance (write_dns_header (header m));;
    write_section (query_count (header m)) write_dns_query (queries m);;
    write_section (ans_count (header m)) write_dns_answer (ans m);;
    write_section (auth_count (header m)) write_dns_answer (ans_auth m);;
    write_section (add_count (header m)) write_dns_answer (ans_addit m)).
Definition extract_dns_message : rd (dns_message * nat) :=
  rd_counted (
    header ← take_in extract_dns_header;
    queries ← extract_all extract_dns_query (Z.to_nat (query_count header));
    ans ← extract_all extract_dns_answer (Z.to_nat (ans_count header));
    ans_auth ← extract_all extract_dns_answer (Z.to_nat (auth_count header));
    ans_addit ← extract_all extract_dns_answer (Z.to_nat (add_count header));
    mret (DnsMessage header queries ans ans_auth ans_addit)).

Definition dns_buff_size : nat := Z.to_nat 0x10000.
Definition dns_send (msg : dns_message) : res (list Z) :=
  '(buff, buff_sz) ← run_write (write_dns_message msg) (replicate dns_buff_size 0);
  subvector buff 0 buff_sz.
Definition dns_handle_recv (data : list Z) : res dns_message :=
  '(msg, _) ← run_extract extract_dns_message data; Ok msg.

(** * Lemmas *)

(** ** Names *)

(** A label whose bytes are neither the dot, nor NUL, nor taken for a pointer. *)
Definition label_ok (l : list Z) : Prop :=
  l ≠ [] ∧ (List.length l < 192)%nat ∧ Forall (λ c, 0 < c < 192 ∧ c ≠ 46) l.
Definition labels_bytes (ls : list (list Z)) : list Z := concat ((λ l, Z.of_nat (List.length l) :: l) <$> ls).
(** A name as the program holds it: the labels joined by dots, and the NUL. *)
Definition dns_name (ls : list (list Z)) : list Z := join [46] ls ++ [0].
Definition name_ok (n : list Z) : Prop := ∃ ls, ls ≠ [] ∧ Forall label_ok ls ∧ n = dns_name ls.

Lemma encode_label l acc c rest :
  Forall (λ c, c ≠ 46) l → (c = 46 ∨ rest = []) →
  encode_name_loop (l ++ c :: rest) acc
  = u8 (Z.of_nat (List.length (acc ++ l))) :: (acc ++ l) ++ encode_name_loop rest [].
Proof.
  intros Hl Hc. revert acc. induction Hl as [|x l Hx Hl IH]; intros acc; cbn [app encode_name_loop].
  - rewrite app_nil_r. destruct Hc as [-> | ->]; [done|]. by rewrite orb_true_r.
  - rewrite (proj2 (Z.eqb_neq x 46)) by done.
    rewrite (proj2 (Nat.eqb_neq _ _)) by (rewrite length_app; simpl; lia). cbn [orb].
    rewrite IH. by rewrite <- !app_assoc.
Qed.
Lemma encode_labels ls :
  ls ≠ [] → Forall label_ok ls → encode_name_loop (dns_name ls) [] = labels_bytes ls.
Proof.
  intros Hn Hls. induction Hls as [|l ls (Hl1 & Hl2 & Hl3) Hls IH]; [done|].
  assert (H46 : Forall (λ c, c ≠ 46) l) by (eapply List.Forall_impl; [|exact Hl3]; by intros ? [? ?]).
  unfold dns_name in *. destruct ls as [|l' ls].
  - cbn [join]. rewrite encode_label by auto. cbn. by rewrite u8_small by (unfold byte_ok; lia).
  - change (join [46] (l :: l' :: ls)) with (l ++ [46] ++ join [46] (l' :: ls)).
    rewrite <- !app_assoc. cbn [app]. rewrite encode_label by auto. rewrite IH by done.
    cbn [app]. by rewrite u8_small by (unfold byte_ok; lia).
Qed.
Lemma encode_dns_name_ok ls : ls ≠ [] → Forall label_ok ls → encode_dns_name (dns_name ls) = labels_bytes ls ++ [0].
Proof. intros Hn Hls. unfold encode_dns_name. by rewrite encode_labels. Qed.

Lemma decode_labels ls fuel out :
  Forall label_ok ls → out ≠ [] → (List.length ls < fuel)%nat →
  decode_name_loop fuel (labels_bytes ls ++ [0]) out = Ok (out ++ concat ((λ l, [46] ++ l) <$> ls) ++ [0]).
Proof.
  intros Hls. revert fuel out. induction Hls as [|l ls (Hl1 & Hl2 & Hl3) Hls IH]; intros fuel out Ho Hf;
    (destruct fuel as [|fuel]; [simpl in Hf; lia|]); [done|].
  change (labels_bytes (l :: ls)) with ((Z.of_nat (List.length l) :: l) ++ labels_bytes ls).
  cbn [app decode_name_loop]. rewrite <- app_assoc.
  rewrite (proj2 (Z.eqb_neq _ 0)) by (destruct l; simpl in *; [done|lia]).
  rewrite (proj2 (Nat.eqb_neq (List.length out) 0)) by by destruct out. cbn [negb].
  rewrite Nat2Z.id, (proj2 (Nat.leb_le _ _)) by (rewrite length_app; lia).
  rewrite drop_app_length, take_app_length. rewrite IH; [|by destruct out|simpl in Hf; lia].
  simpl. by rewrite <- !app_assoc. 
Qed.
Lemma decode_dns_name_ok ls :
  ls ≠ [] → Forall label_ok ls → decode_dns_name (labels_bytes ls ++ [0]) = Ok (dns_name ls).
Proof.
  intros Hn Hls. destruct Hls as [|l ls (Hl1 & Hl2 & Hl3) Hls]; [done|].
  unfold decode_dns_name. cbn [decode_name_loop]. 
  change (labels_bytes (l :: ls) ++ [0]) with (Z.of_nat (List.length l) :: (l ++ labels_bytes ls) ++ [0]).
  cbn beta iota. rewrite (proj2 (Z.eqb_neq _ 0)) by (destruct l; simpl in *; [done|lia]). cbn [List.length Nat.eqb negb].
  rewrite <- app_assoc. rewrite Nat2Z.id, (proj2 (Nat.leb_le _ _)) by (rewrite length_app; lia).
  rewrite drop_app_length, take_app_length. cbn [app].
  assert (Hlen : (List.length ls ≤ List.length (labels_bytes ls))%nat).
  { clear. induction ls as [|m ls IH]; [done|]. change (labels_bytes (m :: ls)) with ((Z.of_nat (List.length m) :: m) ++ labels_bytes ls).
    rewrite length_app. simpl. lia. }
  rewrite decode_labels; [|done|done|rewrite !length_app; simpl; lia].
  unfold dns_name. by rewrite join_cons, <- app_assoc.
Qed.

Lemma not_jump b : 0 < b < 192 → (b =? 0) = false ∧ (Z.land b JUMP_MASK =? JUMP_MASK) = false.
Proof.
  intros Hb. split; [apply Z.eqb_neq; lia|].
  pose (f b := (192 <=? b) || negb (Z.land b JUMP_MASK =? JUMP_MASK)).
  assert (Hf : f b = true) by (apply (byte_forall f); [done|unfold byte_ok; lia]). unfold f in Hf.
  rewrite (proj2 (Z.leb_gt _ _)) in Hf by lia. by apply negb_true_iff in Hf.
Qed.
Lemma extract_plain bs pre post dest count fuel :
  Forall (λ b, 0 < b < 192) bs → (List.length bs < fuel)%nat →
  extract_name_loop fuel (pre ++ bs ++ 0 :: post) (List.length pre) false dest count
  = Ok (dest ++ bs ++ [0], (count + List.length bs + 1)%nat).
Proof.
  intros Hbs. revert pre dest count fuel. induction Hbs as [|b bs Hb Hbs IH]; intros pre dest count fuel Hf;
    (destruct fuel as [|fuel]; [simpl in Hf; lia|]); cbn [extract_name_loop app].
  - rewrite (list_lookup_middle pre post 0 (List.length pre)) by done. cbn [of_option mbind res_bind List.length Z.eqb]. by rewrite Nat.add_0_r.
  - rewrite (list_lookup_middle pre (bs ++ 0 :: post) b (List.length pre)) by done. cbn [of_option mbind res_bind].
    destruct (not_jump b Hb) as [-> ->].
    replace (pre ++ b :: bs ++ 0 :: post) with ((pre ++ [b]) ++ bs ++ 0 :: post) by by rewrite <- app_assoc.
    replace (S (List.length pre)) with (List.length (pre ++ [b])) by (rewrite length_app; simpl; lia).
    rewrite IH by (simpl in Hf; lia). rewrite <- app_assoc.
    by replace (S count + List.length bs + 1)%nat with (count + List.length (b :: bs) + 1)%nat by (cbn [List.length]; lia).
Qed.
Lemma labels_plain ls : Forall label_ok ls → Forall (λ b, 0 < b < 192) (labels_bytes ls).
Proof.
  induction 1 as [|l ls (Hl1 & Hl2 & Hl3) Hls IH]; [apply Forall_nil_2|].
  apply Forall_cons_2; [destruct l; [done|simpl in *; lia]|]. apply Forall_app_2; [|done].
  eapply List.Forall_impl; [|exact Hl3]. by intros ? [? ?].
Qed.
Lemma reads_encoded bs :
  Forall (λ b, 0 < b < 192) bs → reads extract_encoded_name (bs ++ [0]) (bs ++ [0], List.length (bs ++ [0])).
Proof.
  intros Hbs pre post. unfold extract_encoded_name. rewrite <- app_assoc. cbn [app].
  rewrite extract_plain by (done || rewrite !length_app; lia). cbn. rewrite length_app. repeat f_equal; simpl; lia.
Qed.
Lemma reads_name n : name_ok n → reads extract_name (encode_dns_name n) n.
Proof.
  intros (ls & Hn & Hls & ->). rewrite encode_dns_name_ok by done.
  rewrite <- (app_nil_r (_ ++ [0])). apply (reads_bind _ _ _ [] (labels_bytes ls ++ [0])).
  - by apply reads_take_in, reads_encoded, labels_plain.
  - by apply reads_lift, decode_dns_name_ok.
Qed.

(** ** Compression pointers *)

(** Where the walk goes from a position, while it goes on. *)
Definition name_next (buf : list Z) (pos : nat) : option nat :=
  b ← buf !! pos;
  if b =? 0 then None
  else if Z.land b JUMP_MASK =? JUMP_MASK then
    b1 ← buf !! S pos; Some (Z.to_nat (Z.shiftl (Z.lxor b JUMP_MASK) 8 + b1))
  else Some (S pos).
Fixpoint name_walk (buf : list Z) (n : nat) (pos : nat) : option nat :=
  match n with O => Some pos | S n => pos ← name_next buf pos; name_walk buf n pos end.

Lemma extract_name_fuel fuel buf pos j dest count :
  extract_name_loop fuel buf pos j dest count = Fault OutOfFuel ↔ is_Some (name_walk buf fuel pos).
Proof.
  revert pos j dest count. induction fuel as [|fuel IH]; intros pos j dest count; cbn [extract_name_loop name_walk].
  { split; [by eexists|done]. }
  unfold name_next. destruct (buf !! pos) as [b|]; cbn; [|split; [done|intros [? ?]; done]].
  destruct (b =? 0); cbn; [split; [done|intros [? ?]; done]|].
  destruct (_ =? JUMP_MASK); [|apply IH].
  destruct (buf !! S pos); cbn; [apply IH|split; [done|intros [? ?]; done]].
Qed.
Lemma extract_name_stable fuel buf pos j dest count k :
  extract_name_loop fuel buf pos j dest count ≠ Fault OutOfFuel →
  extract_name_loop (fuel + k) buf pos j dest count = extract_name_loop fuel buf pos j dest count.
Proof.
  revert pos j dest count. induction fuel as [|fuel IH]; intros pos j dest count H; [done|].
  cbn [extract_name_loop Nat.add] in *. destruct (buf !! pos) as [b|]; [|done]. cbn in *.
  destruct (b =? 0); [done|]. destruct (_ =? JUMP_MASK).
  - destruct (buf !! S pos); [|done]. cbn in *. by apply IH.
  - by apply IH.
Qed.
Lemma name_walk_add buf n m pos : name_walk buf (n + m) pos = name_walk buf n pos ≫= name_walk buf m.
Proof.
  revert pos. induction n as [|n IH]; intros pos; [done|]. cbn. destruct (name_next buf pos); [apply IH|done].
Qed.
Lemma name_next_bound buf pos : is_Some (name_next buf pos) → (pos < List.length buf)%nat.
Proof.
  unfold name_next. destruct (buf !! pos) eqn:E; [|intros [? ?]; done]. intros _. by eapply lookup_lt_Some.
Qed.
(** By the pigeonhole principle a walk longer than the packet comes back to a position, and
    goes around from there. *)
Lemma name_walk_forever buf pos : is_Some (name_walk buf (S (List.length buf)) pos) → ∀ n, is_Some (name_walk buf n pos).
Proof.
  intros Hlong.
  assert (Hpre : ∀ i, (i ≤ S (List.length buf))%nat → is_Some (name_walk buf i pos)).
  { intros i Hi. replace (S (List.length buf)) with (i + (S (List.length buf) - i))%nat in Hlong by lia.
    rewrite name_walk_add in Hlong. destruct (name_walk buf i pos); [by eexists|by destruct Hlong]. }
  destruct (nat_pigeonhole (λ i, default 0%nat (name_walk buf i pos)) (S (List.length buf)) (List.length buf))
    as (i & j & Hij & E); [lia| |].
  { intros i Hi. destruct (Hpre (S i)) as [q Hq]; [lia|]. replace (S i) with (i + 1)%nat in Hq by lia.
    rewrite name_walk_add in Hq. destruct (name_walk buf i pos) as [p|]; [|done]. cbn in *.
    apply name_next_bound. destruct (name_next buf p); [by eexists|done]. }
  destruct (Hpre i) as [p Hp]; [lia|]. destruct (Hpre j) as [q Hq]; [lia|]. rewrite Hp, Hq in E. cbn in E. subst q.
  intros n. induction n as [n IH] using lt_wf_ind. destruct (Nat.le_gt_cases n j) as [Hn|Hn]; [apply Hpre; lia|].
  specialize (IH (i + (n - j))%nat ltac:(lia)). rewrite name_walk_add, Hp in IH.
  replace n with (j + (n - j))%nat by lia. by rewrite name_walk_add, Hq.
Qed.

(** ** The header *)

Definition bit_ok (b : Z) : Prop := b = 0 ∨ b = 1.
Definition dns_header_ok (h : dns_header) : Prop :=
  u16_ok (dns_id h) ∧ bit_ok (dns_rd h) ∧ bit_ok (dns_tc h) ∧ bit_ok (dns_aa h) ∧ 0 ≤ dns_opcode h < 16 ∧ bit_ok (dns_qr h) ∧
  0 ≤ dns_rcode h < 16 ∧ bit_ok (dns_cd h) ∧ bit_ok (dns_ad h) ∧ bit_ok (dns_ra h) ∧
  u16_ok (query_count h) ∧ u16_ok (ans_count h) ∧ u16_ok (auth_count h) ∧ u16_ok (add_count h).
(** No shift count reaches 32. *)
Definition shifts_ok (h : dns_header) : Prop := dns_opcode h < 4 ∧ dns_ra h = 0.
#[export] Instance shifts_ok_dec h : Decision (shifts_ok h).
Proof. unfold shifts_ok. apply _. Defined.
(** The answer bit as it is stored: an opcode other than 0 shifts it out of the byte. *)
Definition stored_aa (h : dns_header) : Z := if dns_opcode h =? 0 then dns_aa h else 0.
(** What a reader gets back. *)
Definition header_seen (h : dns_header) : dns_header :=
  DnsHeader (dns_id h) (dns_rd h) (dns_tc h) (stored_aa h) 0 (dns_qr h) (dns_rcode h) (dns_cd h) (dns_ad h) 0
    (query_count h) (ans_count h) (auth_count h) (add_count h).
Definition dns_header_bytes (h : dns_header) : list Z :=
  be16 (dns_id h) ++ [dns_rd h + 2 * dns_tc h + 4 * stored_aa h + 128 * dns_qr h; dns_rcode h + 16 * dns_cd h + 32 * dns_ad h]
  ++ be16 (query_count h) ++ be16 (ans_count h) ++ be16 (auth_count h) ++ be16 (add_count h).

Lemma shl_low (x k : Z) : int_shl x k = if 32 <=? k then Fault BadShift else Ok (Z.shiftl x k).
Proof. done. Qed.
Lemma opcode_shift o : 0 ≤ o < 16 → Z.shiftl o 3 = 8 * o.
Proof. intros. rewrite Z.shiftl_mul_pow2 by lia. lia. Qed.

Lemma flags_first_ok h :
  dns_header_ok h → dns_opcode h < 4 →
  ∃ f, flags_first h = Ok f ∧ u8 f = dns_rd h + 2 * dns_tc h + 4 * stored_aa h + 128 * dns_qr h.
Proof.
  destruct h as [id rd tc aa op qr rc cd ad ra qc an au ac]. unfold dns_header_ok, flags_first, stored_aa. cbn.
  intros (_ & Hrd & Htc & Haa & Hop & Hqr & _) Ho.
  assert (op = 0 ∨ op = 1 ∨ op = 2 ∨ op = 3) as [-> | [-> | [-> | ->]]] by lia;
    destruct Hrd as [-> | ->], Htc as [-> | ->], Haa as [-> | ->], Hqr as [-> | ->];
    (eexists; split; [reflexivity|vm_compute; reflexivity]).
Qed.
Lemma flags_first_bad h : dns_header_ok h → 4 ≤ dns_opcode h → flags_first h = Fault BadShift.
Proof.
  unfold dns_header_ok. intros Hh Ho. unfold flags_first. rewrite shl_low, opcode_shift by tauto.
  by rewrite (proj2 (Z.leb_le _ _)) by lia.
Qed.
Lemma flags_second_ok h :
  dns_header_ok h → dns_ra h = 0 →
  ∃ f, flags_second h = Ok f ∧ u8 f = dns_rcode h + 16 * dns_cd h + 32 * dns_ad h.
Proof.
  destruct h as [id rd tc aa op qr rc cd ad ra qc an au ac]. unfold dns_header_ok, flags_second. cbn.
  intros (_ & _ & _ & _ & _ & _ & Hrc & Hcd & Had & _) ->. eexists. split; [reflexivity|].
  pose (f c a r := (16 <=? r) || (u8 (Z.lor (Z.lor r (Z.shiftl c 4)) (Z.shiftl (Z.shiftl a 5) 0)) =? r + 16 * c + 32 * a)).
  assert (Hf : f cd ad rc = true).
  { apply (byte_forall (f cd ad)); [|unfold byte_ok; lia]. destruct Hcd as [-> | ->], Had as [-> | ->]; vm_compute; reflexivity. }
  unfold f in Hf. rewrite (proj2 (Z.leb_gt _ _)) in Hf by lia. by apply Z.eqb_eq.
Qed.
Lemma flags_second_bad h : dns_header_ok h → dns_ra h ≠ 0 → flags_second h = Fault BadShift.
Proof.
  unfold dns_header_ok. intros Hh Ho. assert (Hr : dns_ra h = 1) by (unfold bit_ok in Hh; tauto).
  unfold flags_second. by rewrite Hr.
Qed.

Lemma writes_dns_header h :
  dns_header_ok h → shifts_ok h → writes (write_dns_header h) (dns_header_bytes h) (List.length (dns_header_bytes h)).
Proof.
  intros Hh [Ho Hr]. destruct (flags_first_ok h Hh Ho) as (f & Hf & Ef). destruct (flags_second_ok h Hh Hr) as (g & Hg & Eg).
  apply writes_counted. eapply writes_cast; [|unfold dns_header_bytes; rewrite <- Ef, <- Eg; reflexivity|done].
  eapply writes_bind; [apply writes_put16_htons|]. apply (writes_bind _ _ [] _ f); [by apply writes_lift|].
  apply (writes_bind _ _ [u8 f] (u8 g :: _) tt); [apply writes_put8|]. apply (writes_bind _ _ [] _ g); [by apply writes_lift|].
  apply (writes_bind _ _ [u8 g] _ tt); [apply writes_put8|]. solve_writes.
Qed.

Lemma first_bits rd tc aa qr :
  bit_ok rd → bit_ok tc → bit_ok aa → bit_ok qr →
  let f := rd + 2 * tc + 4 * aa + 128 * qr in
  Z.land f 1 = rd ∧ bits f 1 1 = tc ∧ bits f 1 2 = aa ∧ bits f 15 3 = 0 ∧ bits f 1 7 = qr.
Proof. intros [-> | ->] [-> | ->] [-> | ->] [-> | ->]; vm_compute; done. Qed.
Lemma second_bits rc cd ad :
  0 ≤ rc < 16 → bit_ok cd → bit_ok ad →
  let g := rc + 16 * cd + 32 * ad in
  Z.land g 15 = rc ∧ bits g 1 4 = cd ∧ bits g 1 5 = ad ∧ bits g 1 7 = 0.
Proof.
  intros Hrc Hcd Had. 
  pose (f c a r := (16 <=? r) || bool_decide (Z.land (r + 16 * c + 32 * a) 15 = r ∧ bits (r + 16 * c + 32 * a) 1 4 = c ∧
                                              bits (r + 16 * c + 32 * a) 1 5 = a ∧ bits (r + 16 * c + 32 * a) 1 7 = 0)).
  assert (Hf : f cd ad rc = true).
  { apply (byte_forall (f cd ad)); [|unfold byte_ok; lia]. destruct Hcd as [-> | ->], Had as [-> | ->]; vm_compute; reflexivity. }
  unfold f in Hf. rewrite (proj2 (Z.leb_gt _ _)) in Hf by lia. by eapply bool_decide_eq_true_1.
Qed.

Lemma reads_dns_header h :
  dns_header_ok h → reads extract_dns_header (dns_header_bytes h) (header_seen h, List.length (dns_header_bytes h)).
Proof.
  intros Hh. apply reads_counted. pose proof Hh as (H1&H2&H3&H4&H5&H6&H7&H8&H9&H10&H11&H12&H13&H14).
  assert (Haa : bit_ok (stored_aa h)) by (unfold stored_aa; destruct (_ =? 0); [done|by left]).
  destruct (first_bits _ _ _ _ H2 H3 Haa H6) as (B1&B2&B3&B4&B5).
  destruct (second_bits _ _ _ H7 H8 H9) as (C1&C2&C3&C4).
  unfold dns_header_bytes, header_seen.
  set (f := dns_rd h + _ + _ + _) in *. set (g := dns_rcode h + _ + _) in *.
  eapply reads_bind; [by apply reads_ntohs|].
  apply (reads_bind _ _ [f] (g :: _) f); [apply reads_get8|]. apply (reads_bind _ _ [g] _ g); [apply reads_get8|].
  eapply reads_bind; [by apply reads_ntohs|]. eapply reads_bind; [by apply reads_ntohs|].
  eapply reads_bind; [by apply reads_ntohs|]. rewrite <- (app_nil_r (be16 (add_count h))).
  eapply reads_bind; [by apply reads_ntohs|]. eapply reads_cast; [apply reads_ret|done|].
  by rewrite B1, B2, B3, B4, B5, C1, C2, C3, C4.
Qed.

(** ** Queries, answers and messages *)

Definition query_ok (q : dns_query) : Prop := name_ok (q_name q) ∧ u16_ok (q_type q) ∧ u16_ok (q_class q).
Definition query_bytes (q : dns_query) : list Z := encode_dns_name (q_name q) ++ be16 (q_type q) ++ be16 (q_class q).
Definition answer_ok (a : dns_answer) : Prop :=
  name_ok (ans_name a) ∧ u16_ok (ans_type a) ∧ u16_ok (ans_class a) ∧ u32_ok (ans_ttl a) ∧ u16_ok (data_len a) ∧
  (Z.to_nat (data_len a) ≤ List.length (rdata a))%nat.
(** Sixteen bits of the time to live travel, in the two bytes where a peer expects the upper half. *)
Definition answer_bytes (a : dns_answer) : list Z :=
  encode_dns_name (ans_name a) ++ be16 (ans_type a) ++ be16 (ans_class a) ++ (be16 (ans_ttl a) ++ [0; 0]) ++
  be16 (data_len a) ++ take (Z.to_nat (data_len a)) (rdata a).
Definition answer_seen (a : dns_answer) : dns_answer :=
  DnsAnswer (ans_name a) (ans_type a) (ans_class a) (ans_ttl a `mod` 2 ^ 16) (data_len a)
    (take (Z.to_nat (data_len a)) (rdata a)).

Lemma writes_query q : writes (write_dns_query q) (query_bytes q) (List.length (query_bytes q)).
Proof. apply writes_counted. unfold query_bytes. solve_writes. Qed.
Lemma reads_query q : query_ok q → reads extract_dns_query (query_bytes q) (q, List.length (query_bytes q)).
Proof.
  destruct q as [n t c]. intros (Hn & Ht & Hc). apply reads_counted. unfold query_bytes. cbn [q_name q_type q_class] in *.
  eapply reads_bind; [by apply reads_name|]. eapply reads_bind; [by apply reads_ntohs|].
  rewrite <- (app_nil_r (be16 c)). eapply reads_bind; [by apply reads_ntohs|]. apply reads_ret.
Qed.

Lemma reads_mx pref d :
  u16_ok pref → name_ok d →
  reads extract_mx_rdata (be16 pref ++ encode_dns_name d) (MxRdata pref d, List.length (be16 pref ++ encode_dns_name d)).
Proof.
  intros Hp Hd. apply reads_counted. eapply reads_bind; [by apply reads_ntohs|]. rewrite <- (app_nil_r (encode_dns_name d)).
  eapply reads_bind; [by apply reads_name|apply reads_ret].
Qed.
Lemma le32_htons v : le32 (htons v) = be16 v ++ [0; 0].
Proof.
  unfold htons. replace (_ * 256 + _) with (0 * 16777216 + 0 * 65536 + v `mod` 256 * 256 + (v `div` 256) `mod` 256) by lia.
  apply digits32; auto with wire; unfold byte_ok; lia.
Qed.
Lemma reads_ttl v : reads (ntohs <$> get32) (be16 v ++ [0; 0]) (v `mod` 2 ^ 16).
Proof.
  eapply reads_cast; [apply (reads_fmap ntohs), reads_get32|reflexivity|].
  change (2 ^ 16) with 65536. unfold of_le32, ntohs, htons.
  pose proof (mod256_ok (v `div` 256)) as Hh. pose proof (mod256_ok v) as Hl. unfold byte_ok in *.
  set (hi := (v `div` 256) `mod` 256) in *. set (lo := v `mod` 256) in *.
  replace ((hi + 256 * lo + 65536 * 0 + 16777216 * 0) `mod` 256) with hi by (Z.div_mod_to_equations; lia).
  replace (((hi + 256 * lo + 65536 * 0 + 16777216 * 0) `div` 256) `mod` 256) with lo by (Z.div_mod_to_equations; lia).
  subst hi lo. Z.div_mod_to_equations; lia.
Qed.

Lemma writes_answer a : answer_ok a → writes (write_dns_answer a) (answer_bytes a) (List.length (answer_bytes a)).
Proof.
  intros (Hn & Ht & Hc & Httl & Hl & Hd). apply writes_counted. unfold answer_bytes.
  eapply writes_bind; [apply writes_put_bytes|]. eapply writes_bind; [apply writes_put16_htons|].
  eapply writes_bind; [apply writes_put16_htons|].
  eapply writes_bind; [rewrite <- le32_htons; apply writes_put32|]. eapply writes_bind; [apply writes_put16_htons|].
  rewrite (proj2 (Nat.leb_le _ _) Hd). apply writes_put_bytes.
Qed.
Lemma reads_answer a : answer_ok a → reads extract_dns_answer (answer_bytes a) (answer_seen a, List.length (answer_bytes a)).
Proof.
  intros (Hn & Ht & Hc & Httl & Hl & Hd). apply reads_counted. unfold answer_bytes.
  eapply reads_bind; [by apply reads_name|]. eapply reads_bind; [by apply reads_ntohs|].
  eapply reads_bind; [by apply reads_ntohs|]. eapply reads_bind; [apply reads_ttl|].
  eapply reads_bind; [by apply reads_ntohs|]. rewrite <- (app_nil_r (take _ _)).
  eapply reads_bind; [apply reads_get_bytes'; rewrite length_take; lia|]. apply reads_ret.
Qed.

Lemma writes_all {A} (w : A → wr nat) (bytes : A → list Z) (P : A → Prop) l :
  (∀ a, P a → writes (w a) (bytes a) (List.length (bytes a))) → Forall P l →
  writes (write_all w l) (concat (bytes <$> l)) tt.
Proof.
  intros Hw. induction 1 as [|a l Ha Hl IH]; [apply writes_ret|]. cbn [write_all].
  apply (writes_bind _ _ _ _ tt); [|done]. by eapply writes_advance; [apply Hw|].
Qed.
Lemma yields_all {A} (r : rd (A * nat)) (P : A → Prop) n : yields r (λ x, P (fst x)) →
  yields (extract_all r n) (λ l, List.length l = n ∧ Forall P l).
Proof.
  intros Hr. induction n as [|n IH]; [apply yields_ret; by split|]. cbn [extract_all].
  eapply yields_bind; [by apply yields_take_in|]. intros a Ha. eapply yields_bind; [exact IH|]. intros l [Hl Hf].
  apply yields_ret. split; [cbn; by rewrite Hl|by constructor].
Qed.
Lemma reads_all {A} (r : rd (A * nat)) (bytes : A → list Z) (seen : A → A) (P : A → Prop) l n :
  (∀ a, P a → reads r (bytes a) (seen a, List.length (bytes a))) → Forall P l → n = List.length l →
  reads (extract_all r n) (concat (bytes <$> l)) (seen <$> l).
Proof.
  intros Hr Hl ->. induction Hl as [|a l Ha Hl IH]; [apply reads_ret|]. cbn [extract_all List.length].
  apply (reads_bind _ _ (bytes a) _ (seen a)); [by apply reads_take_in, Hr|].
  eapply reads_cast; [eapply reads_bind; [apply IH|apply reads_ret]|by rewrite app_nil_r|done].
Qed.

Definition counts_ok (m : dns_message) : Prop :=
  query_count (header m) = Z.of_nat (List.length (queries m)) ∧ ans_count (header m) = Z.of_nat (List.length (ans m)) ∧
  auth_count (header m) = Z.of_nat (List.length (ans_auth m)) ∧ add_count (header m) = Z.of_nat (List.length (ans_addit m)).
Record message_ok (m : dns_message) : Prop := {
  msg_header_ok : dns_header_ok (header m);
  msg_counts : counts_ok m;
  msg_queries_ok : Forall query_ok (queries m);
  msg_ans_ok : Forall answer_ok (ans m);
  msg_auth_ok : Forall answer_ok (ans_auth m);
  msg_addit_ok : Forall answer_ok (ans_addit m)
}.
Definition message_bytes (m : dns_message) : list Z :=
  dns_header_bytes (header m) ++ concat (query_bytes <$> queries m) ++ concat (answer_bytes <$> ans m) ++
  concat (answer_bytes <$> ans_auth m) ++ concat (answer_bytes <$> ans_addit m).
Definition message_seen (m : dns_message) : dns_message :=
  DnsMessage (header_seen (header m)) (queries m) (answer_seen <$> ans m) (answer_seen <$> ans_auth m)
    (answer_seen <$> ans_addit m).

Lemma writes_section {A} count (w : A → wr nat) bytes (P : A → Prop) l :
  (∀ a, P a → writes (w a) (bytes a) (List.length (bytes a))) → Forall P l → count = Z.of_nat (List.length l) →
  writes (write_section count w l) (concat (bytes <$> l)) tt.
Proof. intros Hw Hl ->. unfold write_section. rewrite Z.eqb_refl. by eapply writes_all. Qed.
Lemma writes_message m :
  message_ok m → shifts_ok (header m) → writes (write_dns_message m) (message_bytes m) (List.length (message_bytes m)).
Proof.
  intros [Hh (Hq & Ha & Hu & Hd) Hqs Has Hus Hds] Hsh. apply writes_counted. unfold message_bytes.
  apply (writes_bind _ _ _ _ tt); [by eapply writes_advance; [apply writes_dns_header|]|].
  apply (writes_bind _ _ _ _ tt); [eapply (writes_section _ _ _ query_ok); [intros; apply writes_query|done|done]|].
  apply (writes_bind _ _ _ _ tt); [by eapply (writes_section _ _ _ answer_ok); [apply writes_answer|..]|].
  apply (writes_bind _ _ _ _ tt); by eapply (writes_section _ _ _ answer_ok); [apply writes_answer|..].
Qed.
Lemma reads_message m :
  message_ok m → reads extract_dns_message (message_bytes m) (message_seen m, List.length (message_bytes m)).
Proof.
  intros [Hh (Hq & Ha & Hu & Hd) Hqs Has Hus Hds]. apply reads_counted. unfold message_bytes, message_seen.
  eapply reads_bind; [by apply reads_take_in, reads_dns_header|]. cbn [header_seen query_count ans_count auth_count add_count].
  eapply reads_bind; [eapply (reads_all _ _ id query_ok); [apply reads_query|done|by rewrite Hq, Nat2Z.id]|].
  eapply reads_bind; [eapply (reads_all _ _ answer_seen answer_ok); [apply reads_answer|done|by rewrite Ha, Nat2Z.id]|].
  eapply reads_bind; [eapply (reads_all _ _ answer_seen answer_ok); [apply reads_answer|done|by rewrite Hu, Nat2Z.id]|].
  rewrite <- (app_nil_r (concat (answer_bytes <$> ans_addit m))).
  eapply reads_bind; [eapply (reads_all _ _ answer_seen answer_ok); [apply reads_answer|done|by rewrite Hd, Nat2Z.id]|].
  rewrite list_fmap_id. apply reads_ret.
Qed.

Lemma encode_last n c d acc : encode_name_loop (n ++ [c]) acc = encode_name_loop (n ++ [d]) acc.
Proof.
  revert acc. induction n as [|x n IH]; intros acc; cbn [app encode_name_loop List.length Nat.eqb].
  - by rewrite !orb_true_r.
  - rewrite !length_app. cbn [List.length]. rewrite (IH []). destruct (_ || _); [done|]. apply IH.
Qed.
Lemma shifts_bad_write h buf :
  dns_header_ok h → ¬ shifts_ok h → (12 ≤ List.length buf)%nat → write_dns_header h buf 0%nat = Fault BadShift.
Proof.
  intros Hh Hs Hl. unfold write_dns_header, counted, mbind at 1, wr_bind at 1.
  rewrite writes_put16, decide_True by (simpl; lia). unfold wr_lift.
  destruct (decide (dns_opcode h < 4)) as [Ho|Ho].
  - destruct (flags_first_ok h Hh Ho) as (f & Hf & _). unfold mbind at 1, wr_bind at 1. rewrite Hf. cbn [mbind res_bind].
    unfold mbind at 1, wr_bind at 1. rewrite writes_put8, decide_True by (rewrite blit_length; simpl; lia).
    unfold mbind at 1, wr_bind at 1. rewrite flags_second_bad; [done|done|]. intros Hr. by destruct Hs.
  - unfold mbind at 1, wr_bind at 1. rewrite flags_first_bad by (done || lia). done.
Qed.

Lemma dns_send_ok m :
  message_ok m → shifts_ok (header m) → (List.length (message_bytes m) ≤ dns_buff_size)%nat →
  dns_send m = Ok (message_bytes m).
Proof.
  intros Hm Hs Hl. assert (Hr : List.length (replicate dns_buff_size 0) = dns_buff_size) by apply length_replicate.
  unfold dns_send. rewrite (run_write_fits _ _ _ _ (writes_message m Hm Hs)) by lia. cbn [mbind res_bind].
  rewrite blit_prefix by lia. apply subvector_prefix.
Qed.
Lemma dns_recv_ok m : message_ok m → dns_handle_recv (message_bytes m) = Ok (message_seen m).
Proof.
  intros Hm. unfold dns_handle_recv. rewrite <- (app_nil_r (message_bytes m)).
  by rewrite (run_extract_reads _ _ _ _ (reads_message m Hm)).
Qed.
Lemma message_header_fault m buf e :
  write_dns_header (header m) buf 0%nat = Fault e → write_dns_message m buf 0%nat = Fault e.
Proof. intros H. unfold write_dns_message, counted, mbind, wr_bind, advance. by rewrite H. Qed.

(** * Properties *)

(** A domain name of labels that are not empty, shorter than 192 bytes and free of dots, NULs and bytes from 192 on is encoded and
    decoded back to itself, and read back from any place in a packet; the encoder never looks at the last byte it is given, so that a name
    passed without its trailing NUL loses its last character. *)
Theorem dns_name_roundtrip (ls : list (list Z)) (c : Z) (pre post : list Z) :
  ls ≠ [] → Forall label_ok ls →
  decode_dns_name (encode_dns_name (dns_name ls)) = Ok (dns_name ls) ∧
  extract_name (pre ++ encode_dns_name (dns_name ls) ++ post) (List.length pre)
  = Ok (dns_name ls, (List.length pre + List.length (encode_dns_name (dns_name ls)))%nat) ∧
  decode_dns_name (encode_dns_name (join [46] ls ++ [c])) = Ok (dns_name ls).
Proof.
  intros Hn Hls. assert (Hd : decode_dns_name (encode_dns_name (dns_name ls)) = Ok (dns_name ls)).
  { rewrite encode_dns_name_ok by done. by apply decode_dns_name_ok. }
  split; [done|]. split.
  - apply (reads_name (dns_name ls)). by exists ls.
  - unfold encode_dns_name. rewrite (encode_last _ c 0). exact Hd.
Qed.
Lemma dns_name_roundtrip_witness :
  decode_dns_name (encode_dns_name (dns_name [str "nasa"; str "com"])) = Ok (dns_name [str "nasa"; str "com"]) ∧
  extract_name ([7] ++ encode_dns_name (dns_name [str "nasa"; str "com"]) ++ [1]) (List.length [7])
  = Ok (dns_name [str "nasa"; str "com"],
        (List.length [7] + List.length (encode_dns_name (dns_name [str "nasa"; str "com"])))%nat) ∧
  decode_dns_name (encode_dns_name (join [46] [str "nasa"; str "com"] ++ [109])) = Ok (dns_name [str "nasa"; str "com"]).
Proof.
  apply (dns_name_roundtrip [str "nasa"; str "com"] 109 [7] [1]); [done|].
  repeat apply Forall_cons_2; try apply Forall_nil_2; (split; [done|split; [simpl; lia|]]); repeat constructor; done.
Defined.

(** C39: extracting a name from any packet either ends, or faults, in at most as many steps as the packet has bytes and one more, and
    then more steps change nothing; or it never ends. A name whose compression pointer points at itself never ends. *)
Theorem dns_name_termination (buf : list Z) (pos : nat) (pre post : list Z) (hi lo : Z) :
  (if decide (extract_name_loop (S (List.length buf)) buf pos false [] 0 = Fault OutOfFuel)
   then ∀ fuel, extract_name_loop fuel buf pos false [] 0 = Fault OutOfFuel
   else ∀ fuel, (List.length buf < fuel)%nat →
          extract_name_loop fuel buf pos false [] 0 = extract_name_loop (S (List.length buf)) buf pos false [] 0) ∧
  (0 ≤ hi < 64 → 0 ≤ lo < 256 → Z.of_nat (List.length pre) = hi * 256 + lo → ∀ fuel,
     extract_name_loop fuel (pre ++ (192 + hi) :: lo :: post) (List.length pre) false [] 0 = Fault OutOfFuel).
Proof.
  split.
  - case_decide as H.
    + intros fuel. apply extract_name_fuel, name_walk_forever. by eapply extract_name_fuel.
    + intros fuel Hf. replace fuel with (S (List.length buf) + (fuel - S (List.length buf)))%nat by lia.
      by apply extract_name_stable.
  - intros Hhi Hlo Hp fuel. apply extract_name_fuel.
    assert (Hn : name_next (pre ++ (192 + hi) :: lo :: post) (List.length pre) = Some (List.length pre)).
    { unfold name_next. rewrite (list_lookup_middle pre (lo :: post) (192 + hi) (List.length pre)) by done. cbn [mbind option_bind].
      rewrite (proj2 (Z.eqb_neq _ 0)) by lia.
      pose (f h := (64 <=? h) || (bool_decide (Z.land (192 + h) JUMP_MASK = JUMP_MASK ∧ Z.shiftl (Z.lxor (192 + h) JUMP_MASK) 8 = h * 256))).
      assert (Hf : f hi = true) by (apply (byte_forall f); [vm_compute; done|unfold byte_ok; lia]).
      unfold f in Hf. rewrite (proj2 (Z.leb_gt _ _)) in Hf by lia. cbn [orb] in Hf. apply bool_decide_eq_true_1 in Hf as [-> ->].
      rewrite Z.eqb_refl. change (pre ++ (192 + hi) :: lo :: post) with (pre ++ [192 + hi] ++ lo :: post).
      rewrite app_assoc.
      rewrite (list_lookup_middle (pre ++ [192 + hi]) post lo) by (rewrite length_app; simpl; lia). cbn. f_equal. lia. }
    induction fuel as [|fuel IH]; [by eexists|]. cbn [name_walk]. rewrite Hn. apply IH.
Qed.

(** C19: a message whose counts match its sections and whose fields fit is sent and read back with all its queries and answers, except that
    the time to live keeps its lower sixteen bits, the opcode comes back as 0 and, when it was not 0, the authoritative bit
    too; an opcode from 4 on or the recursion-available bit makes the sender shift by too much. *)
Theorem dns_message_roundtrip (m : dns_message) :
  message_ok m →
  if decide (shifts_ok (header m)) then
    if decide (List.length (message_bytes m) ≤ dns_buff_size)%nat then
      ∃ pkt, dns_send m = Ok pkt ∧ dns_handle_recv pkt =
        Ok (DnsMessage (header_seen (header m)) (queries m) (answer_seen <$> ans m) (answer_seen <$> ans_auth m)
              (answer_seen <$> ans_addit m))
    else dns_send m = Fault OutOfBounds
  else dns_send m = Fault BadShift.
Proof.
  intros Hm. assert (Hr : List.length (replicate dns_buff_size 0) = dns_buff_size) by apply length_replicate.
  assert (Hbig : (12 ≤ dns_buff_size)%nat) by (apply Nat.leb_le; vm_compute; reflexivity).
  case_decide as Hs; [case_decide as Hl|]; [| unfold dns_send..].
  - exists (message_bytes m). split; [by apply dns_send_ok|by apply dns_recv_ok].
  - by rewrite (run_write_overflow _ _ _ _ (writes_message m Hm Hs)) by lia.
  - unfold run_write. by rewrite (message_header_fault m _ BadShift) by (apply shifts_bad_write; [apply Hm|done|lia]).
Qed.
Definition message_witness : dns_message :=
  DnsMessage (DnsHeader 7 1 0 1 2 0 0 1 0 0 1 1 0 0) [DnsQuery (str "ab.c" ++ [0]) 1 1]
    [DnsAnswer (str "ab.c" ++ [0]) 1 1 70000 4 [10; 0; 0; 1]] [] [].
Lemma name_witness_ok : name_ok (str "ab.c" ++ [0]).
Proof.
  exists [str "ab"; str "c"]. split; [done|]. split; [|done].
  repeat apply Forall_cons_2; try apply Forall_nil_2; (split; [done|split; [simpl; lia|]]); repeat constructor; done.
Qed.
Lemma message_witness_ok : message_ok message_witness.
Proof.
  split; cbn [message_witness header queries ans ans_auth ans_addit].
  - repeat split; (lia || (by left) || (by right) || done).
  - done.
  - apply Forall_cons_2; [|apply Forall_nil_2]. split; [apply name_witness_ok|done].
  - apply Forall_cons_2; [|apply Forall_nil_2]. split; [apply name_witness_ok|]. repeat split; (done || simpl; lia).
  - apply Forall_nil_2.
  - apply Forall_nil_2.
Qed.
Lemma dns_message_roundtrip_witness :
  if decide (shifts_ok (header message_witness)) then
    if decide (List.length (message_bytes message_witness) ≤ dns_buff_size)%nat then
      ∃ pkt, dns_send message_witness = Ok pkt ∧ dns_handle_recv pkt =
        Ok (DnsMessage (header_seen (header message_witness)) (queries message_witness) (answer_seen <$> ans message_witness)
              (answer_seen <$> ans_auth message_witness) (answer_seen <$> ans_addit message_witness))
    else dns_send message_witness = Fault OutOfBounds
  else dns_send message_witness = Fault BadShift.
Proof. apply (dns_message_roundtrip message_witness), message_witness_ok. Defined.
