(* ===== verification/DnsPrint.v ===== *)
(** Printing a DNS message: [print_dns_message] of [src/protocols/dns/dns.cpp], as the client and the server call it on what they
    receive.

    The names are printed as C strings from the data of their vectors, the addresses are read from the resource data without a look at its
    length, and the name of a name server is the resource data as a C string. *)

From Stdlib Require Import ZArith Lia String.
From stdpp Require Import base decidable list numbers sets.
From S2P Require Import Prelude Cursor Text Ip4 Dns.

(** The loop over the first [count] elements of a vector. *)
Fixpoint print_entries {A} (print : A → res (list Z)) (todo i : nat) (l : list A) : res (list Z) :=
  match todo with
  | O => Ok []
  | S todo =>
      a ← of_option OutOfBounds (l !! i);
      text ← print a;
      rest ← print_entries print todo (S i) l;
      Ok (text ++ rest)
  end.
Definition print_query (q : dns_query) : res (list Z) :=
  name ← c_string (q_name q);
  Ok (str "name: " ++ name ++ str ", " ++
      match dns_record_type_to_str (q_type q) with Some t => str "type: " ++ t | None => str "type: unknown" end ++ [10]).
Definition print_address (data : list Z) : res (list Z) :=
  '(addr, _) ← run_extract extract_ip4_addr data; Ok (str "has ip4 addr: " ++ ip4_addr_to_str addr).
(** An answer or an additional answer, and an authority: of the other types nothing is printed. *)
Definition print_answer (a : dns_answer) : res (list Z) :=
  name ← c_string (ans_name a);
  text ← (if ans_type a =? dns_type_a then print_address (rdata a) else Ok []);
  Ok (str "name: " ++ name ++ str ", " ++ text ++ [10]).
Definition print_authority (a : dns_answer) : res (list Z) :=
  name ← c_string (ans_name a);
  text ← (if ans_type a =? dns_type_ns then server ← c_string (rdata a); Ok (str "has nameserver: " ++ server) else Ok []);
  Ok (str "name: " ++ name ++ str ", " ++ text ++ [10]).
(** A section of [count] elements. *)
Definition print_section {A} (title : list Z) (shown : bool) (count : Z) (print : A → res (list Z)) (l : list A) : res (list Z) :=
  if (0 <? count) && shown then text ← print_entries print (Z.to_nat count) 0 l; Ok (title ++ [10] ++ text) else Ok [].
Definition print_dns_message (msg : dns_message) (print_queries print_ans : bool) : res (list Z) :=
  let h := header msg in
  let counts := str "number of queries: " ++ to_string (query_count h) ++ [10] ++
                str "number of answer: " ++ to_string (ans_count h) ++ [10] ++
                str "number of authoritative answers: " ++ to_string (auth_count h) ++ [10] ++
                str "number of additional ans: " ++ to_string (add_count h) ++ [10] in
  q ← print_section (str "queries:") print_queries (query_count h) print_query (queries msg);
  a ← print_section (str "answers:") print_ans (ans_count h) print_answer (ans msg);
  t ← print_section (str "authoritative answers:") print_ans (auth_count h) print_authority (ans_auth msg);
  d ← print_section (str "additional answers:") print_ans (add_count h) print_answer (ans_addit msg);
  Ok (counts ++ q ++ a ++ t ++ d).

(** * The text of a message, when nothing is read out of bounds *)

Definition query_text (q : dns_query) : list Z :=
  str "name: " ++ until_nul (q_name q) ++ str ", " ++
  match dns_record_type_to_str (q_type q) with Some t => str "type: " ++ t | None => str "type: unknown" end ++ [10].
Definition answer_text (a : dns_answer) : list Z :=
  str "name: " ++ until_nul (ans_name a) ++ str ", " ++
  (if ans_type a =? dns_type_a then str "has ip4 addr: " ++ ip4_addr_to_str (Ip4Addr (take 4 (rdata a))) else []) ++ [10].
Definition authority_text (a : dns_answer) : list Z :=
  str "name: " ++ until_nul (ans_name a) ++ str ", " ++
  (if ans_type a =? dns_type_ns then str "has nameserver: " ++ until_nul (rdata a) else []) ++ [10].
Definition section_text {A} (title : list Z) (shown : bool) (text : A → list Z) (l : list A) : list Z :=
  if shown then match l with [] => [] | _ => title ++ [10] ++ concat (text <$> l) end else [].
Definition message_text (msg : dns_message) (print_queries print_ans : bool) : list Z :=
  let h := header msg in
  (str "number of queries: " ++ to_string (query_count h) ++ [10] ++
   str "number of answer: " ++ to_string (ans_count h) ++ [10] ++
   str "number of authoritative answers: " ++ to_string (auth_count h) ++ [10] ++
   str "number of additional ans: " ++ to_string (add_count h) ++ [10]) ++
  section_text (str "queries:") print_queries query_text (queries msg) ++
  section_text (str "answers:") print_ans answer_text (ans msg) ++
  section_text (str "authoritative answers:") print_ans authority_text (ans_auth msg) ++
  section_text (str "additional answers:") print_ans answer_text (ans_addit msg).

(** The records that are read past their end. *)
Definition short_address (a : dns_answer) : Prop := ans_type a = dns_type_a ∧ (List.length (rdata a) < 4)%nat.
Definition open_nameserver (a : dns_answer) : Prop := ans_type a = dns_type_ns ∧ 0 ∉ rdata a.
#[export] Instance short_address_dec a : Decision (short_address a).
Proof. unfold short_address. apply _. Defined.
#[export] Instance open_nameserver_dec a : Decision (open_nameserver a).
Proof. unfold open_nameserver. apply _. Defined.

(** * Lemmas *)

Lemma c_string_spec v : c_string v = if decide (0 ∈ v) then Ok (until_nul v) else Fault OutOfBounds.
Proof.
  induction v as [|c v IH]; [done|]. cbn [c_string until_nul]. rewrite IH. destruct (Z.eqb_spec c 0) as [->|Hc].
  - by rewrite decide_True by left.
  - destruct (decide (0 ∈ v)); [by rewrite decide_True by by right|]. rewrite decide_False; [done|]. by intros [?|?]%elem_of_cons.
Qed.
Lemma print_address_spec d : print_address d =
  if decide (List.length d < 4)%nat then Fault OutOfBounds else Ok (str "has ip4 addr: " ++ ip4_addr_to_str (Ip4Addr (take 4 d))).
Proof. destruct d as [|? [|? [|? [|? d]]]]; done. Qed.

Lemma print_entries_spec {A} (print : A → res (list Z)) (text : A → list Z) (bad : A → Prop) `{!∀ a, Decision (bad a)} e l : ∀ pre,
  Forall (λ a, print a = if decide (bad a) then Fault e else Ok (text a)) l →
  print_entries print (List.length l) (List.length pre) (pre ++ l) =
  if decide (Exists bad l) then Fault e else Ok (concat (text <$> l)).
Proof.
  induction l as [|a l IH]; intros pre Hl; [by rewrite decide_False by by intros ?%Exists_nil|].
  apply Forall_cons_1 in Hl as [Ha Hl]. cbn [List.length print_entries]. rewrite list_lookup_middle by done. cbn [of_option mbind res_bind].
  rewrite Ha. destruct (decide (bad a)) as [Hb|Hb]; cbn [mbind res_bind]; [by rewrite decide_True by by left|].
  specialize (IH (pre ++ [a]) Hl). rewrite length_app in IH. cbn [List.length] in IH. rewrite Nat.add_1_r, <- app_assoc in IH. cbn [app] in IH.
  rewrite IH. destruct (decide (Exists bad l)); cbn [mbind res_bind]; [by rewrite decide_True by by right|].
  rewrite decide_False; [done|]. by intros [?|?]%Exists_cons.
Qed.
Lemma print_section_spec {A} title shown count (print : A → res (list Z)) (text : A → list Z) (bad : A → Prop) `{!∀ a, Decision (bad a)} e l :
  count = Z.of_nat (List.length l) → Forall (λ a, print a = if decide (bad a) then Fault e else Ok (text a)) l →
  print_section title shown count print l =
  if decide (shown = true ∧ Exists bad l) then Fault e else Ok (section_text title shown text l).
Proof.
  intros -> Hl. unfold print_section, section_text. destruct shown; rewrite ?andb_false_r, ?andb_true_r.
  - destruct l as [|a l]; [by rewrite decide_False by (intros [_ ?%Exists_nil]; done)|].
    rewrite (proj2 (Z.ltb_lt _ _)) by (cbn [List.length]; lia). rewrite Nat2Z.id.
    pose proof (print_entries_spec print text bad e (a :: l) [] Hl) as E. cbn [app List.length] in E. cbn [List.length]. rewrite E.
    destruct (decide (Exists bad (a :: l))); cbn [mbind res_bind]; [by rewrite decide_True|by rewrite decide_False by tauto].
  - rewrite decide_False by (by intros [? _]). done.
Qed.

(** ** What comes out of a packet *)

Lemma decode_nul fuel : ∀ name out r, 0 ∈ name ∨ 0 ∈ out → decode_name_loop fuel name out = Ok r → 0 ∈ r.
Proof.
  induction fuel as [|fuel IH]; intros name out r Hz; [done|]. cbn [decode_name_loop]. destruct name as [|len name].
  - intros [= <-]. destruct Hz as [Hz|?]; [by apply elem_of_nil in Hz|done].
  - destruct (Z.eqb_spec len 0) as [->|Hlen]; [intros [= <-]; apply elem_of_app; right; by left|]. case_match; [|done]. apply IH.
    destruct Hz as [[?|Hz]%elem_of_cons|Hz]; [done| |right; case_match; set_solver].
    rewrite <- (take_drop (Z.to_nat len) name) in Hz. apply elem_of_app in Hz as [Hz|Hz]; [right; set_solver|by left].
Qed.
Lemma extract_encoded_nul fuel buf : ∀ pos j dest cnt r, extract_name_loop fuel buf pos j dest cnt = Ok r → 0 ∈ fst r.
Proof.
  induction fuel as [|fuel IH]; intros pos j dest cnt r; [done|]. cbn [extract_name_loop]. destruct (buf !! pos) as [b|]; [|done]. cbn [of_option mbind res_bind].
  destruct (b =? 0); [intros [= <-]; cbn; set_solver|]. destruct (_ =? JUMP_MASK); [|apply IH].
  destruct (buf !! S pos); [|done]. cbn [of_option mbind res_bind]. apply IH.
Qed.
Lemma nul_name : yields extract_name (λ n, 0 ∈ n).
Proof.
  unfold extract_name. eapply (yields_bind _ _ (λ n, 0 ∈ n)).
  - apply yields_take_in. intros buf pos [n k] pos' _. unfold extract_encoded_name. intros ([n' k'] & E & H)%res_bind_ok. injection H as -> _ _.
    exact (extract_encoded_nul _ _ _ _ _ _ _ E).
  - intros n Hn. apply yields_lift. intros r Hr. eapply decode_nul; [by left|exact Hr].
Qed.
Lemma nul_query : yields extract_dns_query (λ x, 0 ∈ q_name (fst x)).
Proof.
  apply (yields_counted _ (λ q, 0 ∈ q_name q)). eapply yields_bind; [apply nul_name|]. intros n Hn.
  do 2 (eapply yields_bind; [apply yields_ntohs|]; intros ? _). by apply yields_ret.
Qed.
Lemma nul_answer : yields extract_dns_answer (λ x, 0 ∈ ans_name (fst x)).
Proof.
  apply (yields_counted _ (λ a, 0 ∈ ans_name a)). eapply yields_bind; [apply nul_name|]. intros n Hn.
  do 4 (eapply yields_bind; [apply yields_ntohs|]; intros ? _). eapply yields_bind; [apply yields_get_bytes|]. intros ? _. by apply yields_ret.
Qed.
Definition counts_ok (h : dns_header) : Prop := u16_ok (query_count h) ∧ u16_ok (ans_count h) ∧ u16_ok (auth_count h) ∧ u16_ok (add_count h).
Lemma counts_dns_header : yields extract_dns_header (λ x, counts_ok (fst x)).
Proof.
  apply (yields_counted _ counts_ok). eapply yields_bind; [apply yields_ntohs|]. intros id _.
  eapply yields_bind; [apply yields_get8|]. intros f _. eapply yields_bind; [apply yields_get8|]. intros g _.
  eapply yields_bind; [apply yields_ntohs|]. intros q Hq. eapply yields_bind; [apply yields_ntohs|]. intros a Ha. eapply yields_bind; [apply yields_ntohs|]. intros t Ht.
  eapply yields_bind; [apply yields_ntohs|]. intros d Hd. by apply yields_ret.
Qed.
(** The counts are those of the sections, and every name has a NUL. *)
Record printable (m : dns_message) : Prop := {
  pr_queries : query_count (header m) = Z.of_nat (List.length (queries m)) ∧ Forall (λ q, 0 ∈ q_name q) (queries m);
  pr_ans : ans_count (header m) = Z.of_nat (List.length (ans m)) ∧ Forall (λ a, 0 ∈ ans_name a) (ans m);
  pr_auth : auth_count (header m) = Z.of_nat (List.length (ans_auth m)) ∧ Forall (λ a, 0 ∈ ans_name a) (ans_auth m);
  pr_addit : add_count (header m) = Z.of_nat (List.length (ans_addit m)) ∧ Forall (λ a, 0 ∈ ans_name a) (ans_addit m)
}.
Lemma printable_message : yields extract_dns_message (λ x, printable (fst x)).
Proof.
  apply (yields_counted _ printable). eapply yields_bind; [apply yields_take_in, counts_dns_header|]. intros h (H1 & H2 & H3 & H4).
  eapply yields_bind; [apply (yields_all _ (λ q, 0 ∈ q_name q)), nul_query|]. intros q [Lq Hq].
  eapply yields_bind; [apply (yields_all _ (λ a, 0 ∈ ans_name a)), nul_answer|]. intros a [La Ha].
  eapply yields_bind; [apply (yields_all _ (λ a, 0 ∈ ans_name a)), nul_answer|]. intros t [Lt Ht].
  eapply yields_bind; [apply (yields_all _ (λ a, 0 ∈ ans_name a)), nul_answer|]. intros d [Ld Hd].
  unfold u16_ok in *. apply yields_ret. split; cbn [header queries ans ans_auth ans_addit]; (split; [lia|done]).
Qed.

Lemma print_query_spec q : 0 ∈ q_name q → print_query q = if decide (False : Prop) then Fault OutOfBounds else Ok (query_text q).
Proof.
  intros Hq. unfold print_query. rewrite c_string_spec, decide_True by done. rewrite decide_False by tauto. reflexivity.
Qed.
Lemma print_answer_spec a : 0 ∈ ans_name a → print_answer a = if decide (short_address a) then Fault OutOfBounds else Ok (answer_text a).
Proof.
  intros Ha. unfold print_answer, answer_text, short_address. rewrite c_string_spec, decide_True by done. cbn [mbind res_bind].
  destruct (Z.eqb_spec (ans_type a) dns_type_a) as [E|E].
  - rewrite print_address_spec. destruct (decide (List.length (rdata a) < 4)%nat); cbn [mbind res_bind]; [by rewrite decide_True|by rewrite decide_False by tauto].
  - cbn [mbind res_bind]. by rewrite decide_False by tauto.
Qed.
Lemma print_authority_spec a : 0 ∈ ans_name a →
  print_authority a = if decide (open_nameserver a) then Fault OutOfBounds else Ok (authority_text a).
Proof.
  intros Ha. unfold print_authority, authority_text, open_nameserver.
  rewrite (c_string_spec (ans_name a)), (decide_True (P := 0 ∈ ans_name a)) by done. cbn [mbind res_bind].
  destruct (Z.eqb_spec (ans_type a) dns_type_ns) as [E|E].
  - rewrite c_string_spec. destruct (decide (0 ∈ rdata a)); cbn [mbind res_bind]; [by rewrite decide_False by tauto|by rewrite decide_True].
  - cbn [mbind res_bind]. by rewrite decide_False by tauto.
Qed.

(** * Properties *)

(** C20: printing what was received.  For every message that the program takes out of a packet, whatever the packet is, the print stays inside the
    names and the sections; it reads past the end of a vector exactly when answers are printed and an address record (among the answers or the additional ones) has
    fewer than four bytes, or the data of a name server has no NUL; else the text is that of the message. *)
Theorem dns_print_received (packet : list Z) (m : dns_message) (print_queries print_ans : bool) :
  bytes_ok packet → dns_handle_recv packet = Ok m →
  print_dns_message m print_queries print_ans =
  if decide (print_ans = true ∧ (Exists short_address (ans m) ∨ Exists open_nameserver (ans_auth m) ∨ Exists short_address (ans_addit m)))
  then Fault OutOfBounds else Ok (message_text m print_queries print_ans).
Proof.
  intros Hb ([m' n] & E & [= ->])%res_bind_ok.
  destruct (run_extract_yields _ _ _ _ printable_message Hb E) as [[Cq Nq] [Ca Na] [Ct Nt] [Cd Nd]]. cbn [fst] in *.
  unfold print_dns_message.
  rewrite (print_section_spec _ _ _ print_query query_text (λ _, False) OutOfBounds _ Cq)
    by (eapply List.Forall_impl; [|exact Nq]; apply print_query_spec).
  rewrite (decide_False (P := _ ∧ Exists (λ _ : dns_query, False) _)) by (intros [_ (? & _ & [])%Exists_exists]). cbn [mbind res_bind].
  rewrite (print_section_spec _ _ _ print_answer answer_text short_address OutOfBounds _ Ca)
    by (eapply List.Forall_impl; [|exact Na]; apply print_answer_spec).
  rewrite (print_section_spec _ _ _ print_authority authority_text open_nameserver OutOfBounds _ Ct)
    by (eapply List.Forall_impl; [|exact Nt]; apply print_authority_spec).
  rewrite (print_section_spec _ _ _ print_answer answer_text short_address OutOfBounds _ Cd)
    by (eapply List.Forall_impl; [|exact Nd]; apply print_answer_spec).
  repeat (case_decide; cbn [mbind res_bind]); (done || tauto).
Qed.
(** A reply with one address record, for the root, whose data is the bytes given. *)
Definition address_reply (data : list Z) : list Z :=
  [0; 7; 128; 0; 0; 0; 0; 1; 0; 0; 0; 0; 0; 0; 1; 0; 1; 0; 0; 0; 60; 0; Z.of_nat (List.length data)] ++ data.
Definition reply_message (data : list Z) : dns_message :=
  DnsMessage (DnsHeader 7 0 0 0 0 1 0 0 0 0 0 1 0 0) [] [DnsAnswer [0] dns_type_a 1 0 (Z.of_nat (List.length data)) data] [] [].
Lemma dns_print_received_witness :
  print_dns_message (reply_message [8; 8; 4]) false true =
  if decide (true = true ∧ (Exists short_address (ans (reply_message [8; 8; 4])) ∨ Exists open_nameserver [] ∨ Exists short_address []))
  then Fault OutOfBounds else Ok (message_text (reply_message [8; 8; 4]) false true).
Proof.
  apply (dns_print_received (address_reply [8; 8; 4]) (reply_message [8; 8; 4]) false true).
  - by apply (bool_decide_unpack _).
  - vm_compute. reflexivity.
Defined.
Example reply_printed : dns_handle_recv (address_reply [8; 8; 4; 4]) = Ok (reply_message [8; 8; 4; 4]) ∧
  print_dns_message (reply_message [8; 8; 4; 4]) false true =
    Ok (str "number of queries: 0" ++ [10] ++ str "number of answer: 1" ++ [10] ++ str "number of authoritative answers: 0" ++ [10] ++
        str "number of additional ans: 0" ++ [10] ++ str "answers:" ++ [10] ++ str "name: , has ip4 addr: 8.8.4.4" ++ [10]) ∧
  print_dns_message (reply_message [8; 8; 4]) false true = Fault OutOfBounds.
Proof. by vm_compute. Qed.
