(* ===== verification/DnsServer.v ===== *)
(** The DNS server and client: the record database of [src/protocols/dns/dns_database.h],
    [dns_database.cpp], over the trie, and [src/tools/dns/dns_tool.cpp]. *)

From Stdlib Require Import ZArith Lia String.
From stdpp Require Import base decidable list numbers gmap.
From S2P Require Import Prelude Cursor Text Trie Ip4 Dns.

(** * dns_database.h, dns_database.cpp *)

(** [assign]: a [char], signed on the hosts considered, converted to [size_t].  A character is
    given by its byte. *)
Definition assign (val : Z) : Z := if val <? 128 then val else u64 (val - 256).

Record dns_database := DnsDatabase {
  mappings_a : trie_node ip4_addr; mappings_mx : trie_node (list Z)
}.
Definition new_database : dns_database := DnsDatabase empty_node empty_node.

Definition add_record_a (db : dns_database) (name : list Z) (addr : ip4_addr) : res dns_database :=
  t ← add_word_key 256 assign (mappings_a db) name addr; Ok (DnsDatabase t (mappings_mx db)).
Definition add_record_mx (db : dns_database) (name val : list Z) : res dns_database :=
  t ← add_word_key 256 assign (mappings_mx db) name val; Ok (DnsDatabase (mappings_a db) t).

(** A node is marked and given its key at once, so a marked node has one. *)
Definition search_record_a (db : dns_database) (name : list Z) : res (option ip4_addr) :=
  res ← search 256 assign (mappings_a db) name;
  match res with
  | None => Ok None
  | Some node => if negb (marked node) then Ok None else Ok (node_key node)
  end.
Definition search_record_mx (db : dns_database) (name : list Z) : res (option (list Z)) :=
  res ← search 256 assign (mappings_mx db) name;
  match res with
  | None => Ok None
  | Some node => if negb (marked node) then Ok None else Ok (node_key node)
  end.

(** [input >> word]: skips spaces, fails when nothing is left. *)
Definition take_word (s : list Z) : option (list Z * list Z) :=
  match skip_spaces s with
  | [] => None
  | s => let w := word_prefix s in Some (w, drop (List.length w) s)
  end.
(** [dns_parse_records_...] on the contents of a file that is open; every iteration takes
    two words. *)
Fixpoint parse_records_a_loop (fuel : nat) (input : list Z) (out : list (list Z * ip4_addr)) :
    res (list (list Z * ip4_addr)) :=
  match fuel with
  | O => Fault OutOfFuel
  | S fuel =>
      match take_word input with
      | None => Ok out
      | Some (name, input) =>
          match take_word input with
          | None => Ok out
          | Some (ip_str, input) =>
              tmp ← str_to_ip4_addr ip_str;
              match tmp with
              | Some addr => parse_records_a_loop fuel input (out ++ [(name, addr)])
              | None => parse_records_a_loop fuel input out
              end
          end
      end
  end.
Definition dns_parse_records_a (file : option (list Z)) : res (list (list Z * ip4_addr)) :=
  match file with
  | None => Ok []
  | Some input => parse_records_a_loop (S (List.length input)) input []
  end.
Fixpoint parse_records_mx_loop (fuel : nat) (input : list Z) (out : list (list Z * list Z)) :
    res (list (list Z * list Z)) :=
  match fuel with
  | O => Fault OutOfFuel
  | S fuel =>
      match take_word input with
      | None => Ok out
      | Some (name, input) =>
          match take_word input with
          | None => Ok out
          | Some (val, input) => parse_records_mx_loop fuel input (out ++ [(name, val)])
          end
      end
  end.
Definition dns_parse_records_mx (file : option (list Z)) : res (list (list Z * list Z)) :=
  match file with
  | None => Ok []
  | Some input => parse_records_mx_loop (S (List.length input)) input []
  end.
(** [print_hostname_ip_pairs]: what it prints, as the pairs come. *)
Definition print_pair (hostname ip_address : list Z) : list Z :=
  str "Hostname: " ++ hostname ++ str ", IP Address: " ++ ip_address ++ [10].
Fixpoint print_pairs_loop (fuel : nat) (infile printed : list Z) : res (list Z) :=
  match fuel with
  | O => Fault OutOfFuel
  | S fuel =>
      match take_word infile with
      | None => Ok printed
      | Some (hostname, infile) =>
          match take_word infile with
          | None => Ok printed
          | Some (ip_address, infile) => print_pairs_loop fuel infile (printed ++ print_pair hostname ip_address)
          end
      end
  end.
Definition print_hostname_ip_pairs (file : option (list Z)) : res (list Z) :=
  match file with
  | None => Ok []
  | Some infile => print_pairs_loop (S (List.length infile)) infile []
  end.

(** * dns_tool.cpp: the server *)

Definition my_soa_rdata : soa_rdata :=
  SoaRdata (str "none" ++ [0]) (str "none" ++ [0]) 69 (60 * 30) (60 * 15) (7 * 24 * 60 * 60) (1 * 24 * 60 * 60).
(** The function-local static is filled in on the first call, always with the same values. *)
Definition get_my_start_of_authority : res dns_answer :=
  rdata ← soa_to_rdata my_soa_rdata;
  Ok (DnsAnswer (str "some local dns server" ++ [0]) dns_type_soa dns_class_in (60 * 15)
        (u16 (Z.of_nat (List.length rdata))) rdata).

(** One iteration of the loop of [handle_query], on the vectors [answers] and [auth_ans]. *)
Definition answer_query (db : dns_database) (query : dns_query) (answers auth_ans : list dns_answer) :
    res (list dns_answer * list dns_answer) :=
  if q_type query =? dns_type_a then
    name ← c_string (q_name query);
    tmp ← search_record_a db name;
    match tmp with
    | None => soa ← get_my_start_of_authority; Ok (answers, auth_ans ++ [soa])
    | Some addr =>
        '(rdata, _) ← run_write (write_ip4_addr addr) (replicate 4 0);
        Ok (answers ++ [DnsAnswer (q_name query) (q_type query) (q_class query) 3600 4 rdata], auth_ans)
    end
  else if q_type query =? dns_type_mx then
    name ← c_string (q_name query);
    tmp ← search_record_mx db name;
    match tmp with
    | None => soa ← get_my_start_of_authority; Ok (answers, auth_ans ++ [soa])
    | Some out =>
        rdata ← mx_to_rdata (MxRdata 10 out);
        Ok (answers ++ [DnsAnswer (q_name query) (q_type query) (q_class query) 3600
                          (u16 (Z.of_nat (List.length rdata))) rdata], auth_ans)
    end
  else soa ← get_my_start_of_authority; Ok (answers, auth_ans ++ [soa]).

Fixpoint query_loop (db : dns_database) (qs : list dns_query) (todo i : nat) (answers auth_ans : list dns_answer) :
    res (list dns_answer * list dns_answer) :=
  match todo with
  | O => Ok (answers, auth_ans)
  | S todo =>
      query ← of_option OutOfBounds (qs !! i);
      '(answers, auth_ans) ← answer_query db query answers auth_ans;
      query_loop db qs todo (S i) answers auth_ans
  end.

(** The bits [cd] and [ad] of the reply are never initialised: any values. *)
Definition handle_query (cd ad : Z) (db : dns_database) (msg : dns_message) : res dns_message :=
  '(answers, auth_ans) ← query_loop db (queries msg) (Z.to_nat (query_count (header msg))) 0 [] [];
  Ok (DnsMessage
        (DnsHeader (dns_id (header msg)) 0 0 0 0 1 0 cd ad 0
           (query_count (header msg)) (u16 (Z.of_nat (List.length answers))) (u16 (Z.of_nat (List.length auth_ans))) 0)
        (queries msg) answers auth_ans []).

(** * dns_tool.cpp: the client *)

Definition dns_request_id : Z := 0x8950.
Definition dns_request (cd ad : Z) (query : dns_query) : dns_message :=
  DnsMessage (DnsHeader dns_request_id 1 0 0 0 0 0 cd ad 0 1 0 0 0) [query] [] [] [].

(** The loop of [send_requests] after the request has been sent [sent] times, on what the calls of [front] give:
    [None] for a time-out.  The result is the number of requests sent and the reply that is printed;
    [None] while it still waits. *)
Fixpoint send_requests (sent : nat) (obs : list (option dns_message)) : option (nat * dns_message) :=
  match obs with
  | [] => None
  | None :: obs => send_requests (S sent) obs
  | Some dns_reply :: obs =>
      if negb (dns_request_id =? dns_id (header dns_reply)) then send_requests sent obs
      else Some (sent, dns_reply)
  end.

(** * Lemmas *)

(** ** The database *)

(** Names of ASCII characters stay inside the array of children. *)
Definition ascii_ok : list Z → Prop := Forall (λ c, 0 ≤ c < 128).
Lemma assign_ascii c : 0 ≤ c < 128 → char_ok 256 assign c.
Proof. intros Hc. unfold char_ok, byte_ok, assign. rewrite (proj2 (Z.ltb_lt _ _)) by lia. lia. Qed.
Lemma assign_high c : 128 ≤ c < 256 → ¬ (0 ≤ assign c < 256).
Proof.
  intros Hc. unfold assign, u64. rewrite (proj2 (Z.ltb_ge _ _)) by lia.
  change (2 ^ 64) with 18446744073709551616. intros H. Z.div_mod_to_equations. lia.
Qed.
Lemma assign_same c : char_ok 256 assign c → assign c = c.
Proof.
  intros [Hb Hc]. destruct (Z.lt_ge_cases c 128) as [Hl|Hl].
  - unfold assign. by rewrite (proj2 (Z.ltb_lt _ _)) by lia.
  - destruct (assign_high c); [unfold byte_ok in Hb; lia|done].
Qed.
Lemma assign_inj c d : char_ok 256 assign c → char_ok 256 assign d → assign c = assign d → c = d.
Proof. intros Hc Hd. by rewrite !assign_same. Qed.
Lemma ascii_word s : ascii_ok s → Forall (char_ok 256 assign) s.
Proof. intros H. eapply List.Forall_impl; [|exact H]. apply assign_ascii. Qed.

(** [db] stands for a map from names to addresses and one from names to mail servers. *)
Definition database_maps (db : dns_database) (ma : gmap (list Z) ip4_addr) (mx : gmap (list Z) (list Z)) : Prop :=
  trie_map 256 assign (mappings_a db) ma ∧ trie_map 256 assign (mappings_mx db) mx.

Lemma search_a_ok db ma mx n : database_maps db ma mx → ascii_ok n → search_record_a db n = Ok (ma !! n).
Proof.
  intros [Ha _] Hn%ascii_word. rewrite <- (Ha n Hn). unfold search_record_a, word_key. rewrite search_ok by done.
  cbn. by destruct (node_at assign (mappings_a db) n) as [[[] ? ? ?]|].
Qed.
Lemma search_mx_ok db ma mx n : database_maps db ma mx → ascii_ok n → search_record_mx db n = Ok (mx !! n).
Proof.
  intros [_ Hm] Hn%ascii_word. rewrite <- (Hm n Hn). unfold search_record_mx, word_key. rewrite search_ok by done.
  cbn. by destruct (node_at assign (mappings_mx db) n) as [[[] ? ? ?]|].
Qed.
Lemma new_database_maps : database_maps new_database ∅ ∅.
Proof. split; apply trie_map_empty; apply assign_inj. Qed.
Lemma add_record_a_ok db ma mx n addr :
  database_maps db ma mx → ascii_ok n → n ≠ [] →
  ∃ db', add_record_a db n addr = Ok db' ∧ database_maps db' (<[n := addr]> ma) mx.
Proof.
  intros [Ha Hm] Hn%ascii_word Hne.
  destruct (trie_map_add 256 assign assign_inj _ _ n addr Ha Hn Hne) as (t & Ht & Hr).
  exists (DnsDatabase t (mappings_mx db)). unfold add_record_a. by rewrite Ht.
Qed.
(** A name with a byte from 128 on. *)
Lemma add_record_a_high db p c s addr : ascii_ok p → 128 ≤ c < 256 → add_record_a db (p ++ c :: s) addr = Fault OutOfBounds.
Proof.
  intros Hp Hc. unfold add_record_a. assert (Hf : add_word_key 256 assign (mappings_a db) (p ++ c :: s) addr = Fault OutOfBounds).
  { replace (add_word_key 256 assign (mappings_a db) (p ++ c :: s) addr)
      with (add_word_walk 256 assign (λ n, set_key addr (mark n)) (mappings_a db) (p ++ c :: s)) by by destruct p.
    by apply add_walk_fault; [apply ascii_word|apply assign_high]. }
  by rewrite Hf.
Qed.
Lemma add_record_mx_ok db ma mx n v :
  database_maps db ma mx → ascii_ok n → n ≠ [] →
  ∃ db', add_record_mx db n v = Ok db' ∧ database_maps db' ma (<[n := v]> mx).
Proof.
  intros [Ha Hm] Hn%ascii_word Hne.
  destruct (trie_map_add 256 assign assign_inj _ _ n v Hm Hn Hne) as (t & Ht & Hr).
  exists (DnsDatabase (mappings_a db) t). unfold add_record_mx. by rewrite Ht.
Qed.

(** ** Queries *)

Lemma mx_to_rdata_ok s : mx_to_rdata s = Ok (be16 (preference s) ++ encode_dns_name (domain s)).
Proof.
  unfold mx_to_rdata. rewrite le16_htons. set (e := encode_dns_name (domain s)).
  assert (Hr : List.length (replicate (2 + List.length e) 0) = (2 + List.length e)%nat) by apply length_replicate.
  set (r := replicate (2 + List.length e) 0) in *. set (b := be16 (preference s)).
  assert (Hb : List.length b = 2%nat) by done.
  rewrite memcpy_ok by lia. cbn [mbind res_bind]. rewrite memcpy_ok by (rewrite blit_length; lia). f_equal.
  change (blit (blit r 0 b) 2 e) with (blit (blit r 0 b) (0 + List.length b) e). rewrite blit_blit by (rewrite length_app; lia).
  apply (blit_exact (2 + List.length e)); [rewrite length_app; lia|done].
Qed.
Lemma run_write_ip4 addr : ip4_ok addr → run_write (write_ip4_addr addr) (replicate 4 0) = Ok (ip4_octets addr, 4%nat).
Proof.
  intros [Hl _]. unfold run_write, write_ip4_addr, mbind, wr_bind. rewrite writes_put_bytes by lia.
  rewrite decide_True by (rewrite Hl, length_replicate; lia).
  cbn [mret wr_ret]. by rewrite (blit_exact 4 _ Hl).
Qed.
Lemma soa_faults : get_my_start_of_authority = Fault BadRange.
Proof. done. Qed.

(** The answer to a query on the database, if it has one. *)
Definition answer_for (ma : gmap (list Z) ip4_addr) (mx : gmap (list Z) (list Z)) (q : dns_query) : option dns_answer :=
  match c_string (q_name q) with
  | Fault _ => None
  | Ok n =>
      if decide (q_type q = dns_type_a) then
        addr ← ma !! n; Some (DnsAnswer (q_name q) dns_type_a (q_class q) 3600 4 (ip4_octets addr))
      else if decide (q_type q = dns_type_mx) then
        d ← mx !! n;
        Some (DnsAnswer (q_name q) dns_type_mx (q_class q) 3600 (u16 (2 + Z.of_nat (List.length (encode_dns_name d))))
                (be16 10 ++ encode_dns_name d))
      else None
  end.
Definition name_text_ok (q : dns_query) : Prop := succeeds ascii_ok (c_string (q_name q)).

Lemma answer_query_ok db ma mx q answers auth :
  database_maps db ma mx → map_Forall (λ _, ip4_ok) ma → name_text_ok q →
  answer_query db q answers auth =
    match answer_for ma mx q with Some a => Ok (answers ++ [a], auth) | None => Fault BadRange end.
Proof.
  intros Hdb Hip Hq. unfold answer_query, answer_for, name_text_ok in *.
  destruct (c_string (q_name q)) as [n|]; [|done]. cbn [succeeds] in Hq. rewrite soa_faults.
  destruct (Z.eqb_spec (q_type q) dns_type_a) as [Et|Et].
  - rewrite decide_True by done. cbn [mbind res_bind]. rewrite (search_a_ok _ _ _ _ Hdb Hq). cbn [mbind res_bind].
    destruct (ma !! n) as [addr|] eqn:E; [|done]. pose proof (Hip n addr E).
    rewrite run_write_ip4 by done. cbn [mbind res_bind option_bind]. by rewrite Et.
  - rewrite decide_False by done. destruct (Z.eqb_spec (q_type q) dns_type_mx) as [Em|Em]; [|by rewrite decide_False].
    rewrite decide_True by done. cbn [mbind res_bind]. rewrite (search_mx_ok _ _ _ _ Hdb Hq). cbn [mbind res_bind].
    destruct (mx !! n) as [d|]; [|done]. rewrite mx_to_rdata_ok. cbn [mbind res_bind option_bind preference domain].
    rewrite Em. repeat f_equal. rewrite length_app. cbn [be16 List.length]. lia.
Qed.
Lemma query_loop_ok db ma mx pre qs answers auth :
  database_maps db ma mx → map_Forall (λ _, ip4_ok) ma → Forall name_text_ok qs →
  query_loop db (pre ++ qs) (List.length qs) (List.length pre) answers auth =
    match mapM (answer_for ma mx) qs with Some l => Ok (answers ++ l, auth) | None => Fault BadRange end.
Proof.
  intros Hdb Hip Hqs. revert pre answers. induction Hqs as [|q qs Hq Hqs IH]; intros pre answers.
  { cbn. by rewrite app_nil_r. }
  cbn [query_loop List.length mapM]. rewrite list_lookup_middle by done. cbn [of_option mbind res_bind].
  rewrite (answer_query_ok _ _ _ _ _ _ Hdb Hip Hq). cbn [mbind option_bind].
  destruct (answer_for ma mx q) as [a|]; [|done]. cbn [mbind res_bind].
  replace (pre ++ q :: qs) with ((pre ++ [q]) ++ qs) by by rewrite <- app_assoc.
  replace (S (List.length pre)) with (List.length (pre ++ [q])) by (rewrite length_app; simpl; lia).
  rewrite IH. destruct (mapM _ qs); cbn; [|done]. by rewrite <- app_assoc.
Qed.

(** ** A query and its reply on the wire *)

Lemma labels_length ls : ls ≠ [] → List.length (labels_bytes ls) = S (List.length (join [46] ls)).
Proof.
  induction ls as [|l ls IH]; [done|]. intros _. change (labels_bytes (l :: ls)) with ((Z.of_nat (List.length l) :: l) ++ labels_bytes ls).
  destruct ls as [|l' ls]; [simpl; rewrite app_nil_r; lia|].
  change (join [46] (l :: l' :: ls)) with (l ++ [46] ++ join [46] (l' :: ls)).
  rewrite !length_app, IH by done. simpl. lia.
Qed.
Lemma encoded_length ls :
  ls ≠ [] → Forall label_ok ls → List.length (encode_dns_name (dns_name ls)) = S (S (List.length (join [46] ls))).
Proof. intros Hn Hls. rewrite encode_dns_name_ok, length_app, labels_length by done. simpl. lia. Qed.
Lemma buff_big : (2000 ≤ dns_buff_size)%nat.
Proof. apply Nat.leb_le. vm_compute. reflexivity. Qed.

(** The reply of the server as the client reads it. *)
Definition reply_message (cd ad : Z) (q : dns_query) (a : dns_answer) : dns_message :=
  DnsMessage (DnsHeader dns_request_id 0 0 0 0 1 0 cd ad 0 1 1 0 0) [q] [a] [] [].

Lemma request_ok cd ad q : bit_ok cd → bit_ok ad → query_ok q → message_ok (dns_request cd ad q).
Proof.
  intros Hc Ha Hq. split; cbn; try apply Forall_nil_2; [|done|by apply Forall_cons_2; [|apply Forall_nil_2]].
  repeat split; (lia || done || (by left) || by right).
Qed.
Lemma reply_ok cd ad q a : bit_ok cd → bit_ok ad → query_ok q → answer_ok a → message_ok (reply_message cd ad q a).
Proof.
  intros Hc Ha Hq Hans. split; cbn; try apply Forall_nil_2; [|done|by apply Forall_cons_2; [|apply Forall_nil_2]..].
  repeat split; (lia || done || (by left) || by right).
Qed.
Lemma send_recv_message m :
  message_ok m → shifts_ok (header m) → (List.length (message_bytes m) ≤ dns_buff_size)%nat →
  ∃ pkt, dns_send m = Ok pkt ∧ dns_handle_recv pkt = Ok (message_seen m).
Proof.
  intros Hm Hs Hl. exists (message_bytes m). split; [by apply dns_send_ok|by apply dns_recv_ok].
Qed.

(** A query that the database answers is read by the server, and answered by a message that fits the buffers. *)
Lemma resolve_query db ma mx q a cd ad cd' ad' :
  database_maps db ma mx → map_Forall (λ _, ip4_ok) ma → name_text_ok q → answer_for ma mx q = Some a →
  query_ok q → answer_ok a → answer_seen a = a → bit_ok cd → bit_ok ad → bit_ok cd' → bit_ok ad' →
  (List.length (query_bytes q) + List.length (answer_bytes a) ≤ 1900)%nat →
  let reply := reply_message cd' ad' q a in
  ∃ req m, dns_send (dns_request cd ad q) = Ok req ∧ dns_handle_recv req = Ok m ∧ handle_query cd' ad' db m = Ok reply ∧
    message_ok reply ∧ shifts_ok (header reply) ∧ message_seen reply = reply ∧ (List.length (message_bytes reply) ≤ 2000)%nat.
Proof.
  intros Hdb Hip Hq Ha Hqok Haok Hseen Hcd Had Hcd' Had' Hlen reply. pose proof buff_big as Hbig.
  destruct (send_recv_message (dns_request cd ad q)) as (req & Hs & Hr).
  { by apply request_ok. } { done. }
  { unfold message_bytes. rewrite !length_app. cbn [dns_request header queries ans ans_auth ans_addit fmap list_fmap concat].
    rewrite app_nil_r. cbn [dns_header_bytes List.length app be16]. lia. }
  eexists req, _. split; [done|]. split; [exact Hr|]. split; [|split; [by apply reply_ok|split; [done|split]]].
  - unfold handle_query. cbn [message_seen dns_request header header_seen queries query_count].
    pose proof (query_loop_ok db ma mx [] [q] [] [] Hdb Hip) as Hl. cbn [app List.length mapM] in Hl.
    change (Z.to_nat 1) with 1%nat. rewrite Hl by by apply Forall_cons_2; [|apply Forall_nil_2].
    by rewrite Ha.
  - unfold message_seen. cbn [reply reply_message header queries ans ans_auth ans_addit fmap list_fmap]. by rewrite Hseen.
  - unfold message_bytes. rewrite !length_app. cbn [reply reply_message header queries ans ans_auth ans_addit fmap list_fmap concat].
    rewrite !app_nil_r. cbn [dns_header_bytes List.length app be16]. lia.
Qed.

Lemma name_text ls : Forall label_ok ls → Forall (λ c, c ≠ 0) (join [46] ls).
Proof.
  intros Hls. apply join_forall; [by apply Forall_cons_2; [|apply Forall_nil_2]|].
  eapply List.Forall_impl; [|exact Hls]. intros l (_ & _ & Hl). eapply List.Forall_impl; [|exact Hl]. simpl. lia.
Qed.
Lemma dns_query_ok ls t :
  ls ≠ [] → Forall label_ok ls → u16_ok t → query_ok (make_dns_query (join [46] ls) t dns_class_in).
Proof. intros Hn Hls Ht. split; [by exists ls|done]. Qed.
Lemma dns_query_text ls t c :
  Forall label_ok ls → c_string (q_name (make_dns_query (join [46] ls) t c)) = Ok (join [46] ls).
Proof. intros Hls. by apply (c_string_ok (join [46] ls) []), name_text. Qed.
Lemma add_all_a rs db ma mx :
  database_maps db ma mx → Forall (λ r, ascii_ok (fst r) ∧ fst r ≠ []) rs →
  ∃ db', foldl (λ db r, db ← db; add_record_a db (fst r) (snd r)) (Ok db) rs = Ok db' ∧
    database_maps db' (foldl (λ m r, <[fst r := snd r]> m) ma rs) mx.
Proof.
  intros Hdb Hrs. revert db ma Hdb. induction Hrs as [|[n a] rs [Hn Hne] Hrs IH]; intros db ma Hdb; [by exists db|].
  destruct (add_record_a_ok db ma mx n a Hdb Hn Hne) as (db1 & H1 & Hdb1). cbn [foldl fst snd mbind res_bind].
  rewrite H1. by apply IH.
Qed.

(** A name of at most 253 bytes. *)
Definition dns_labels_ok (ls : list (list Z)) : Prop :=
  ls ≠ [] ∧ Forall label_ok ls ∧ Z.of_nat (List.length (join [46] ls)) ≤ 253.

(** The exchange of one query: the request on the wire, the server, the reply on the wire. *)
Definition dns_exchange (cd ad cd' ad' : Z) (db : dns_database) (q : dns_query) : res dns_message :=
  req ← dns_send (dns_request cd ad q);
  m ← dns_handle_recv req; r ← handle_query cd' ad' db m; rep ← dns_send r;
  dns_handle_recv rep.

Lemma encode_any_last ls c : encode_dns_name (join [46] ls ++ [c]) = encode_dns_name (dns_name ls).
Proof. unfold encode_dns_name. by rewrite (encode_last _ c 0). Qed.
Lemma mx_size ls :
  dns_labels_ok ls → u16 (2 + Z.of_nat (List.length (encode_dns_name (dns_name ls)))) = 2 + Z.of_nat (List.length (encode_dns_name (dns_name ls))).
Proof. intros (Hn & Hl & Hs). rewrite encoded_length by done. apply u16_small. unfold u16_ok. lia. Qed.

(** An answer that fits the buffer and that a reader gets back as it is. *)
Definition answer_fits (a : dns_answer) : Prop :=
  answer_ok a ∧ answer_seen a = a ∧ (List.length (answer_bytes a) ≤ 1000)%nat.
Lemma a_answer_fits ls addr :
  dns_labels_ok ls → ip4_ok addr → answer_fits (DnsAnswer (dns_name ls) dns_type_a dns_class_in 3600 4 (ip4_octets addr)).
Proof.
  intros (Hn & Hl & Hs) [Hal Hab].
  assert (Ht : take (Z.to_nat 4) (ip4_octets addr) = ip4_octets addr) by (apply firstn_all2; rewrite Hal; simpl; lia).
  split; [|split].
  - split; [by exists ls|]. cbn. rewrite Hal. repeat split; (done || lia).
  - unfold answer_seen. cbn [ans_name ans_type ans_class ans_ttl data_len rdata]. by rewrite Ht.
  - unfold answer_bytes. cbn [ans_name ans_type ans_class ans_ttl data_len rdata]. rewrite Ht.
    rewrite !length_app, encoded_length by done. rewrite Hal. simpl. lia.
Qed.
Lemma mx_answer_fits ls ds :
  dns_labels_ok ls → dns_labels_ok ds →
  answer_fits (DnsAnswer (dns_name ls) dns_type_mx dns_class_in 3600 (2 + Z.of_nat (List.length (encode_dns_name (dns_name ds))))
                 (be16 10 ++ encode_dns_name (dns_name ds))).
Proof.
  intros (Hn & Hl & Hs) (Hdn & Hdl & Hds). pose proof (encoded_length ds Hdn Hdl) as Hel.
  set (e := encode_dns_name (dns_name ds)) in *.
  assert (Hlen : Z.to_nat (2 + Z.of_nat (List.length e)) = List.length (be16 10 ++ e))
    by (rewrite length_app; change (List.length (be16 10)) with 2%nat; lia).
  assert (Ht : take (Z.to_nat (2 + Z.of_nat (List.length e))) (be16 10 ++ e) = be16 10 ++ e) by (rewrite Hlen; apply firstn_all).
  split; [|split].
  - split; [by exists ls|]. cbn [ans_type ans_class ans_ttl data_len rdata]. rewrite Hlen.
    repeat split; (done || unfold u16_ok, u32_ok; lia).
  - unfold answer_seen. cbn [ans_name ans_type ans_class ans_ttl data_len rdata]. by rewrite Ht.
  - unfold answer_bytes. cbn [ans_name ans_type ans_class ans_ttl data_len rdata]. rewrite Ht.
    rewrite !length_app, encoded_length, Hel by done. simpl. lia.
Qed.
(** The same for a query by name. *)
Lemma resolve_name db ma mx ls t a cd ad cd' ad' :
  database_maps db ma mx → map_Forall (λ _, ip4_ok) ma → dns_labels_ok ls → ascii_ok (join [46] ls) → u16_ok t →
  answer_for ma mx (make_dns_query (join [46] ls) t dns_class_in) = Some a → answer_fits a →
  bit_ok cd → bit_ok ad → bit_ok cd' → bit_ok ad' →
  let query := make_dns_query (join [46] ls) t dns_class_in in
  let reply := reply_message cd' ad' query a in
  ∃ req m, dns_send (dns_request cd ad query) = Ok req ∧ dns_handle_recv req = Ok m ∧ handle_query cd' ad' db m = Ok reply ∧
    message_ok reply ∧ shifts_ok (header reply) ∧ message_seen reply = reply ∧ (List.length (message_bytes reply) ≤ 2000)%nat.
Proof.
  intros Hdb Hip (Hn & Hl & Hs) Hasc Ht Ha (Hok & Hseen & Hlen) H1 H2 H3 H4.
  apply (resolve_query db ma mx (make_dns_query (join [46] ls) t dns_class_in) a cd ad cd' ad'); try done.
  - unfold name_text_ok. by rewrite dns_query_text.
  - by apply dns_query_ok.
  - change (query_bytes _) with (encode_dns_name (dns_name ls) ++ be16 t ++ be16 dns_class_in).
    rewrite !length_app, encoded_length by done. change (List.length (be16 _)) with 2%nat. lia.
Qed.
Lemma exchange_ok db ma mx ls t a cd ad cd' ad' :
  database_maps db ma mx → map_Forall (λ _, ip4_ok) ma → dns_labels_ok ls → ascii_ok (join [46] ls) → u16_ok t →
  answer_for ma mx (make_dns_query (join [46] ls) t dns_class_in) = Some a → answer_fits a →
  bit_ok cd → bit_ok ad → bit_ok cd' → bit_ok ad' →
  dns_exchange cd ad cd' ad' db (make_dns_query (join [46] ls) t dns_class_in)
  = Ok (reply_message cd' ad' (make_dns_query (join [46] ls) t dns_class_in) a).
Proof.
  intros Hdb Hip Hls Hasc Ht Ha Hfits H1 H2 H3 H4.
  destruct (resolve_name db ma mx ls t a cd ad cd' ad') as (req & m & E1 & E2 & E3 & Hok & Hsh & Hseen & Hlen); try assumption.
  unfold dns_exchange. rewrite (bind_Ok _ _ _ E1), (bind_Ok _ _ _ E2), (bind_Ok _ _ _ E3).
  rewrite (bind_Ok _ _ _ (dns_send_ok _ Hok Hsh (Nat.le_trans _ _ _ Hlen buff_big))), (dns_recv_ok _ Hok), Hseen. reflexivity.
Qed.

(** * Properties *)

(** After adding address records for names of ASCII characters to a new database, a search gives the address added last for
    the name, and nothing for a name never added; a record for the empty name dereferences a null pointer, and one
    whose name has a byte from 128 on indexes outside the children. *)
Theorem dns_database_is_map (rs : list (list Z * ip4_addr)) (n p s : list Z) (c : Z) (addr : ip4_addr) :
  Forall (λ r, ascii_ok (fst r) ∧ fst r ≠ []) rs → ascii_ok n → ascii_ok p → 128 ≤ c < 256 →
  ∃ db, foldl (λ db r, db ← db; add_record_a db (fst r) (snd r)) (Ok new_database) rs = Ok db ∧
    search_record_a db n = Ok (foldl (λ m r, <[fst r := snd r]> m) (∅ : gmap (list Z) ip4_addr) rs !! n) ∧
    add_record_a db [] addr = Fault NullDeref ∧
    add_record_a db (p ++ c :: s) addr = Fault OutOfBounds.
Proof.
  intros Hrs Hn Hp Hc. destruct (add_all_a rs new_database ∅ ∅ new_database_maps Hrs) as (db & Hdb & Hm).
  exists db. split; [done|]. split; [by apply (search_a_ok _ _ _ _ Hm)|]. split; [done|].
  by apply add_record_a_high.
Qed.
Definition records_witness : list (list Z * ip4_addr) :=
  [(str "nasa", Ip4Addr [10; 0; 0; 1]); (str "na", Ip4Addr [10; 0; 0; 2]); (str "nasa", Ip4Addr [10; 0; 0; 3])].
Lemma dns_database_is_map_witness :
  ∃ db, foldl (λ db r, db ← db; add_record_a db (fst r) (snd r)) (Ok new_database) records_witness = Ok db ∧
    search_record_a db (str "nasa")
    = Ok (foldl (λ m r, <[fst r := snd r]> m) (∅ : gmap (list Z) ip4_addr) records_witness !! str "nasa") ∧
    add_record_a db [] (Ip4Addr [0; 0; 0; 0]) = Fault NullDeref ∧
    add_record_a db (str "na" ++ 200 :: []) (Ip4Addr [0; 0; 0; 0]) = Fault OutOfBounds.
Proof.
  apply (dns_database_is_map records_witness (str "nasa") (str "na") [] 200 (Ip4Addr [0; 0; 0; 0])).
  - repeat apply Forall_cons_2; try apply Forall_nil_2; (split; [repeat constructor; lia|done]).
  - repeat constructor; lia.
  - repeat constructor; lia.
  - lia.
Defined.

(** C37: the server answers a message of queries it has records for with one answer each, in order, and repeats the identifier and the
    queries; as soon as one query has no record, or another type, the authority answer it builds from an invalid
    pointer range makes the behaviour undefined. *)
Theorem handle_query_spec (db : dns_database) (ma : gmap (list Z) ip4_addr) (mx : gmap (list Z) (list Z)) (cd ad : Z)
    (m : dns_message) :
  database_maps db ma mx → map_Forall (λ _, ip4_ok) ma → Forall name_text_ok (queries m) →
  query_count (header m) = Z.of_nat (List.length (queries m)) →
  handle_query cd ad db m =
    match mapM (answer_for ma mx) (queries m) with
    | Some answers =>
        Ok (DnsMessage (DnsHeader (dns_id (header m)) 0 0 0 0 1 0 cd ad 0 (query_count (header m))
                          (u16 (Z.of_nat (List.length answers))) 0 0)
              (queries m) answers [] [])
    | None => Fault BadRange
    end.
Proof.
  intros Hdb Hip Hq Hc. unfold handle_query. rewrite Hc, Nat2Z.id.
  pose proof (query_loop_ok db ma mx [] (queries m) [] [] Hdb Hip Hq) as Hl. cbn [app List.length] in Hl.
  rewrite Hl. by destruct (mapM _ _).
Qed.
Lemma handle_query_spec_witness :
  handle_query 0 0 new_database (dns_request 0 0 (make_dns_query (str "nasa") 1 1)) =
    match mapM (answer_for ∅ ∅) (queries (dns_request 0 0 (make_dns_query (str "nasa") 1 1))) with
    | Some answers =>
        Ok (DnsMessage (DnsHeader dns_request_id 0 0 0 0 1 0 0 0 0 1 (u16 (Z.of_nat (List.length answers))) 0 0)
              (queries (dns_request 0 0 (make_dns_query (str "nasa") 1 1))) answers [] [])
    | None => Fault BadRange
    end.
Proof.
  apply (handle_query_spec new_database ∅ ∅ 0 0 (dns_request 0 0 (make_dns_query (str "nasa") 1 1)));
    [apply new_database_maps|apply map_Forall_empty| |done].
  apply Forall_cons_2; [|apply Forall_nil_2]. unfold name_text_ok. cbn. repeat constructor; lia.
Defined.

(** A client's query for the address of a name that the server's database has is answered over the wire with that address; a query for a mail
    server is answered with the recorded name less its last character, which the server encodes without the trailing NUL. *)
Theorem dns_resolve (db : dns_database) (ma : gmap (list Z) ip4_addr) (mx : gmap (list Z) (list Z))
    (ls ds : list (list Z)) (addr : ip4_addr) (c cd ad cd' ad' : Z) :
  database_maps db ma mx → map_Forall (λ _, ip4_ok) ma →
  dns_labels_ok ls → ascii_ok (join [46] ls) → dns_labels_ok ds →
  ma !! join [46] ls = Some addr → mx !! join [46] ls = Some (join [46] ds ++ [c]) →
  bit_ok cd → bit_ok ad → bit_ok cd' → bit_ok ad' →
  (r ← dns_exchange cd ad cd' ad' db (make_dns_query (join [46] ls) dns_type_a dns_class_in);
   Ok (dns_id (header r), (λ a, (ans_name a, rdata a)) <$> ans r))
    = Ok (dns_request_id, [(dns_name ls, ip4_octets addr)]) ∧
  (r ← dns_exchange cd ad cd' ad' db (make_dns_query (join [46] ls) dns_type_mx dns_class_in);
   Ok (dns_id (header r), (λ a, fst <$> run_extract extract_mx_rdata (rdata a)) <$> ans r))
    = Ok (dns_request_id, [Ok (MxRdata 10 (dns_name ds))]).
Proof.
  intros Hdb Hip Hls Hasc Hds Ha Hm H1 H2 H3 H4. pose proof (Hip _ _ Ha) as Hok. split.
  - rewrite (exchange_ok _ ma mx ls _ (DnsAnswer (dns_name ls) dns_type_a dns_class_in 3600 4 (ip4_octets addr))); try done.
    + unfold answer_for. rewrite dns_query_text by apply Hls. cbn. by rewrite Ha.
    + by apply a_answer_fits.
  - rewrite (exchange_ok _ ma mx ls _ (DnsAnswer (dns_name ls) dns_type_mx dns_class_in 3600
      (2 + Z.of_nat (List.length (encode_dns_name (dns_name ds)))) (be16 10 ++ encode_dns_name (dns_name ds)))); try done.
    + cbn [mbind res_bind reply_message header dns_id ans fmap list_fmap rdata]. rewrite <- (app_nil_r (be16 10 ++ _)).
      rewrite (run_extract_reads _ _ _ _ (reads_mx 10 (dns_name ds) ltac:(done) ltac:(exists ds; by destruct Hds as (?&?&?)))). done.
    + unfold answer_for. rewrite dns_query_text by apply Hls. cbn -[u16 be16 Z.of_nat]. rewrite Hm. cbn -[u16 be16 Z.of_nat].
      by rewrite encode_any_last, mx_size by apply Hds.
    + by apply mx_answer_fits.
Qed.
Definition db_witness : dns_database :=
  DnsDatabase (default empty_node (match add_word_key 256 assign empty_node (str "nasa") (Ip4Addr [10; 0; 0; 1]) with Ok t => Some t | _ => None end))
    (default empty_node (match add_word_key 256 assign empty_node (str "nasa") (str "mail") with Ok t => Some t | _ => None end)).
Lemma db_witness_maps :
  database_maps db_witness {[str "nasa" := Ip4Addr [10; 0; 0; 1]]} {[str "nasa" := str "mail"]}.
Proof.
  assert (Hn : ascii_ok (str "nasa")) by (repeat constructor; lia).
  destruct (add_record_a_ok new_database ∅ ∅ (str "nasa") (Ip4Addr [10; 0; 0; 1]) new_database_maps Hn) as (db1 & E1 & M1); [done|].
  destruct (add_record_mx_ok db1 _ ∅ (str "nasa") (str "mail") M1 Hn) as (db2 & E2 & M2); [done|].
  vm_compute in E1. injection E1 as <-. vm_compute in E2. injection E2 as <-. exact M2.
Qed.
Lemma dns_resolve_witness :
  (r ← dns_exchange 0 0 0 0 db_witness (make_dns_query (join [46] [str "nasa"]) dns_type_a dns_class_in);
   Ok (dns_id (header r), (λ a, (ans_name a, rdata a)) <$> ans r))
    = Ok (dns_request_id, [(dns_name [str "nasa"], ip4_octets (Ip4Addr [10; 0; 0; 1]))]) ∧
  (r ← dns_exchange 0 0 0 0 db_witness (make_dns_query (join [46] [str "nasa"]) dns_type_mx dns_class_in);
   Ok (dns_id (header r), (λ a, fst <$> run_extract extract_mx_rdata (rdata a)) <$> ans r))
    = Ok (dns_request_id, [Ok (MxRdata 10 (dns_name [str "mai"]))]).
Proof.
  apply (dns_resolve db_witness {[str "nasa" := Ip4Addr [10; 0; 0; 1]]} {[str "nasa" := str "mail"]}
    [str "nasa"] [str "mai"] (Ip4Addr [10; 0; 0; 1]) 108 0 0 0 0); try (by left); try done.
  - apply db_witness_maps.
  - intros n a [<- <-]%lookup_singleton_Some. split; [done|]. by repeat constructor.
  - split; [done|]. split; [|simpl; lia]. apply Forall_cons_2; [|apply Forall_nil_2]. split; [done|].
    split; [simpl; lia|]. by repeat constructor.
  - repeat constructor; lia.
  - split; [done|]. split; [|simpl; lia]. apply Forall_cons_2; [|apply Forall_nil_2]. split; [done|].
    split; [simpl; lia|]. by repeat constructor.
Defined.

(** ** Record files *)

(** A word of the file, and the file with one record a line. *)
Definition file_word (w : list Z) : Prop := w ≠ [] ∧ Forall (λ c, is_space c = false) w.
Definition file_of (pairs : list (list Z * list Z)) : list Z := concat ((λ p, p.1 ++ [32] ++ p.2 ++ [10]) <$> pairs).
Lemma word_prefix_ok w c s : Forall (λ c, is_space c = false) w → is_space c = true → word_prefix (w ++ c :: s) = w.
Proof. intros Hw Hc. induction Hw as [|d w Hd Hw IH]; cbn [Datatypes.app word_prefix]; [by rewrite Hc|]. by rewrite Hd, IH. Qed.
Lemma take_word_ok w c s : file_word w → is_space c = true → take_word (w ++ c :: s) = Some (w, c :: s).
Proof.
  intros [Hne Hw] Hc. unfold take_word. destruct w as [|d w]; [done|]. pose proof Hw as [Hd _]%Forall_cons_1.
  assert (E : skip_spaces ((d :: w) ++ c :: s) = (d :: w) ++ c :: s) by (cbn; by rewrite Hd).
  rewrite E. cbn [Datatypes.app]. change (d :: w ++ c :: s) with ((d :: w) ++ c :: s). rewrite (word_prefix_ok _ _ _ Hw Hc). by rewrite drop_app_length.
Qed.
Lemma take_word_space c s : is_space c = true → take_word (c :: s) = take_word s.
Proof. intros Hc. unfold take_word. cbn [skip_spaces]. by rewrite Hc. Qed.
(** One record at the head of a file, and what its line leaves. *)
Lemma take_record a b s : file_word a → file_word b → take_word ((a ++ [32] ++ b ++ [10]) ++ s) = Some (a, [32] ++ b ++ [10] ++ s) ∧
  take_word ([32] ++ b ++ [10] ++ s) = Some (b, [10] ++ s).
Proof.
  intros Ha Hb. split.
  - rewrite <- !app_assoc. by apply take_word_ok.
  - cbn [Datatypes.app]. rewrite take_word_space by done. by apply take_word_ok.
Qed.
Lemma take_word_newline s : take_word ([10] ++ s) = take_word s.
Proof. by apply take_word_space. Qed.
Definition line_ok (p : list Z * list Z) : Prop := file_word p.1 ∧ file_word p.2.

(** The line break of the record before may still be there. *)
Lemma take_word_pre pre s : (pre = [] ∨ pre = [10]) → take_word (pre ++ s) = take_word s.
Proof. intros [->| ->]; [done|apply take_word_newline]. Qed.
Lemma parse_mx_loop_ok pairs : Forall line_ok pairs → ∀ fuel out pre, (pre = [] ∨ pre = [10]) → (List.length pairs < fuel)%nat →
  parse_records_mx_loop fuel (pre ++ file_of pairs) out = Ok (out ++ pairs).
Proof.
  induction 1 as [|[a b] pairs [Ha Hb] Hp IH]; intros fuel out pre Hpr Hf; (destruct fuel as [|fuel]; [simpl in Hf; lia|]); cbn [parse_records_mx_loop]; rewrite take_word_pre by done.
  { cbn. by rewrite app_nil_r. }
  destruct (take_record a b (file_of pairs) Ha Hb) as [E1 E2]. unfold file_of in *. cbn [fmap list_fmap concat fst snd] in *. rewrite E1, E2.
  rewrite IH; [by rewrite <- app_assoc|by right|simpl in Hf; lia].
Qed.
(** The records of an address file: the lines whose second word is an address. *)
Definition addresses (lines : list (list Z * list Z)) (os : list (option ip4_addr)) : list (list Z * ip4_addr) :=
  omap (λ x, pair x.1.1 <$> x.2) (zip lines os).
Lemma parse_a_loop_ok lines os : Forall line_ok lines → Forall2 (λ l o, str_to_ip4_addr l.2 = Ok o) lines os →
  ∀ fuel out pre, (pre = [] ∨ pre = [10]) → (List.length lines < fuel)%nat →
  parse_records_a_loop fuel (pre ++ file_of lines) out = Ok (out ++ addresses lines os).
Proof.
  intros Hok Hos. induction Hos as [|[a b] o lines os Ho Hos IH]; intros fuel out pre Hpr Hf;
    (destruct fuel as [|fuel]; [simpl in Hf; lia|]); cbn [parse_records_a_loop]; rewrite take_word_pre by done.
  { cbn. by rewrite app_nil_r. }
  apply Forall_cons_1 in Hok as [[Ha Hb] Hok]. destruct (take_record a b (file_of lines) Ha Hb) as [E1 E2].
  unfold file_of in *. cbn [fmap list_fmap concat fst snd] in *. rewrite E1, E2, Ho. cbn [mbind res_bind].
  destruct o as [addr|]; (rewrite IH; [|done|by right|simpl in Hf; lia]); [by rewrite <- app_assoc|done].
Qed.
Lemma parse_mx_extends fuel : ∀ input out, match parse_records_mx_loop fuel input out with Ok l => ∃ k, l = out ++ k | Fault _ => True end.
Proof.
  induction fuel as [|fuel IH]; intros input out; [done|]. cbn [parse_records_mx_loop].
  destruct (take_word input) as [[a input1]|]; [|exists []; by rewrite app_nil_r]. destruct (take_word input1) as [[b input2]|]; [|exists []; by rewrite app_nil_r].
  specialize (IH input2 (out ++ [(a, b)])). destruct (parse_records_mx_loop _ _ _) as [l|]; [|done]. destruct IH as [k ->].
  exists ((a, b) :: k). by rewrite <- app_assoc.
Qed.
(** Printing is parsing, and then printing the pairs. *)
Lemma print_pairs_parsed fuel : ∀ input printed out,
  print_pairs_loop fuel input printed =
  (l ← parse_records_mx_loop fuel input out; Ok (printed ++ concat ((λ p, print_pair p.1 p.2) <$> drop (List.length out) l))).
Proof.
  induction fuel as [|fuel IH]; intros input printed out; [done|]. cbn [print_pairs_loop parse_records_mx_loop].
  assert (Hend : Ok printed = Ok (printed ++ concat ((λ p, print_pair p.1 p.2) <$> drop (List.length out) out))) by (by rewrite drop_all, app_nil_r).
  destruct (take_word input) as [[a input1]|]; [|exact Hend]. destruct (take_word input1) as [[b input2]|]; [|exact Hend].
  rewrite (IH _ _ (out ++ [(a, b)])). pose proof (parse_mx_extends fuel input2 (out ++ [(a, b)])) as Hx.
  destruct (parse_records_mx_loop fuel input2 (out ++ [(a, b)])) as [l|]; [|done]. destruct Hx as [k ->]. cbn [mbind res_bind]. f_equal.
  rewrite drop_app_length, <- (app_assoc out), drop_app_length, <- app_assoc. done.
Qed.

Lemma ip4_text_is_word a : ip4_ok a → file_word (ip4_addr_to_str a).
Proof.
  destruct a as [o]. intros [Hl Ho]. cbn in Hl, Ho. split.
  - destruct o as [|b [|b' o]]; [done..|]. apply Forall_cons_1 in Ho as [Hb _]. unfold byte_ok in Hb.
    destruct (to_string_digits b ltac:(lia)) as (Hne & _). by intros [E _]%app_eq_nil.
  - apply join_forall; [by repeat constructor|]. apply Forall_fmap. eapply Forall_impl; [exact Ho|]. intros b Hb. unfold byte_ok in Hb. cbn.
    eapply Forall_impl; [apply to_string_chars; lia|]. intros c Hc. cbn beta in *. unfold is_space. lia.
Qed.

Lemma file_length lines : (List.length lines ≤ List.length (file_of lines))%nat.
Proof. induction lines as [|p l IH]; [done|]. unfold file_of in *. cbn [fmap list_fmap concat List.length]. rewrite !length_app. cbn [List.length]. lia. Qed.
Lemma parse_records_a_ok lines os : Forall line_ok lines → Forall2 (λ l o, str_to_ip4_addr l.2 = Ok o) lines os →
  dns_parse_records_a (Some (file_of lines)) = Ok (addresses lines os).
Proof. intros Hl Ho. apply (parse_a_loop_ok lines os Hl Ho _ [] []); [by left|]. apply Nat.lt_succ_r, file_length. Qed.
Lemma parse_records_mx_ok lines : Forall line_ok lines → dns_parse_records_mx (Some (file_of lines)) = Ok lines.
Proof. intros Hl. apply (parse_mx_loop_ok lines Hl _ [] []); [by left|]. apply Nat.lt_succ_r, file_length. Qed.
(** The printing of a record file. *)
Lemma print_pairs_ok lines : Forall line_ok lines →
  print_hostname_ip_pairs (Some (file_of lines)) = Ok (concat ((λ p, print_pair p.1 p.2) <$> lines)).
Proof.
  intros Hl. unfold print_hostname_ip_pairs. rewrite (print_pairs_parsed _ _ [] []).
  rewrite (parse_mx_loop_ok lines Hl _ [] [] (or_introl eq_refl)); [done|]. apply Nat.lt_succ_r, file_length.
Qed.
