(* ===== verification/NetAccess.v ===== *)
(** Net accesses: [src/abstract/net_access] (plain, composed, overridden and multiplied accesses),
    [src/abstract/receiving/multi_recv_listener.h], and the generators of accesses of the
    protocols ([connect_net_access_generator_listener]).

    Accesses and listeners are objects that hold shared pointers to each other and are called back while
    others run, so they live in a store: a pointer is a number, [None] is null.  A [std::set] of pointers is sorted by their addresses,
    which the allocator chooses: every definition and theorem is for any choice ([HeapOrder]).  A protocol enters
    through [Protocol]: the [handle_recv] of its [connect_recv], and the filter of the accesses that its
    generator opens.  Objects live on: nothing deletes an access but [delete_generated].

    Calls are fuelled: the callbacks form a graph that a program could make cyclic. *)

From Stdlib Require Import ZArith Lia.
From stdpp Require Import base decidable list numbers gmap sorting.
From S2P Require Import Prelude Encap Ether2 Ip4 Udp Overlay.

(** [proto_recv] is what the [handle_recv] of [connect_recv] passes to its receiver; a generator opens,
    for the source of a received header, an access whose receiver is filtered by [gen_filter].  The filter of an access
    holds the arguments of its constructor, so that it also gives the header it sends: [proto_send] is what its [my_send] passes
    down (an access without a source is a broadcast access).  A node of the path protocol passes on what [node_packet] makes of a
    header and data ([set]: it has a receiver), and its generator opens accesses with [back_filter]. *)
Class Protocol (F H : Type) := {
  proto_recv : F → list Z → res (option (H * list Z));
  gen_filter : F → H → F;
  proto_send : F → list Z → res (option (list Z));
  node_packet : F → bool → H → list Z → res (option (list Z));
  back_filter : H → res F
}.
(** The protocols other than the path protocol have neither nodes nor accesses back along a path. *)
Definition no_node {F H} (f : F) (set : bool) (h : H) (d : list Z) : res (option (list Z)) := Fault NullDeref.
Definition no_back {F H} (h : H) : res F := Fault NullDeref.

#[export] Instance ether2_protocol : Protocol (option mac_addr * option mac_addr * option Z) ethernet2_header := {|
  proto_recv f d := ether2_handle_recv (fst (fst f)) (snd (fst f)) (snd f) d;
  gen_filter f h := (Some (eth_src_addr h), snd (fst f), snd f);
  proto_send f d := match fst (fst f) with
                    | Some src => ether2_single_send true src (snd (fst f)) (snd f) d
                    | None => ether2_broadcast_send true (snd (fst f)) (snd f) d
                    end;
  node_packet := no_node; back_filter := no_back
|}.
#[export] Instance ip4_protocol : Protocol (option ip4_addr * option ip4_addr * option Z) ip4_header := {|
  proto_recv f d := ip4_handle_recv (fst (fst f)) (snd (fst f)) (snd f) d;
  gen_filter f h := (Some (src_addr h), snd (fst f), snd f);
  proto_send f d := match fst (fst f) with
                    | Some src => ip4_single_send true src (snd (fst f)) (snd f) d
                    | None => ip4_broadcast_send true (snd (fst f)) (snd f) d
                    end;
  node_packet := no_node; back_filter := no_back
|}.
#[export] Instance udp_protocol : Protocol (option Z * option Z) udp_header := {|
  proto_recv f d := udp_handle_recv (fst f) (snd f) d;
  gen_filter f h := (Some (src_port h), snd f);
  proto_send f d := p ← of_option NullDeref (snd f); udp_single_send true (fst f) p d;
  node_packet := no_node; back_filter := no_back
|}.
#[export] Instance emp_protocol : Protocol (option (list Z) * option (list Z)) emp_header := {|
  proto_recv f d := emp_handle_recv (fst f) (snd f) d;
  gen_filter f h := (Some (emp_src_port h), snd f);
  proto_send f d := p ← of_option NullDeref (snd f); emp_single_send true (fst f) p d;
  node_packet := no_node; back_filter := no_back
|}.
#[export] Instance nsp_protocol : Protocol (option (list Z) * option (list Z)) nsp_header := {|
  proto_recv f d := nsp_handle_recv (fst f) (snd f) d;
  gen_filter f h := (Some (nsp_src_id h), snd f);
  proto_send f d := src ← of_option NullDeref (fst f); p ← of_option NullDeref (snd f); nsp_single_send true src p d;
  node_packet := no_node; back_filter := no_back
|}.
#[export] Instance eap_protocol : Protocol (option (list Z) * option (list Z) * option Z) eap_header := {|
  proto_recv f d := eap_handle_recv (fst (fst f)) (snd (fst f)) (snd f) d;
  gen_filter f h := (Some (eap_src_addr h), snd (fst f), snd f);
  proto_send f d := match fst (fst f) with
                    | Some src => eap_single_send true src (snd (fst f)) (snd f) d
                    | None => eap_broadcast_send true (snd (fst f)) (snd f) d
                    end;
  node_packet := no_node; back_filter := no_back
|}.

(** Two protocols in one program.  An access of the one never meets a header of the other. *)
Definition with_header {A B} (inj : A → B) (o : res (option (A * list Z))) : res (option (B * list Z)) :=
  o ← o; Ok (match o with Some (h, d) => Some (inj h, d) | None => None end).
#[export] Instance sum_protocol {F1 H1 F2 H2} `{!Protocol F1 H1} `{!Protocol F2 H2} : Protocol (F1 + F2) (H1 + H2) := {|
  proto_recv f d := match f with
                    | inl f => with_header inl (proto_recv f d)
                    | inr f => with_header inr (proto_recv f d)
                    end;
  gen_filter f h := match f, h with
                    | inl f, inl h => inl (gen_filter f h)
                    | inr f, inr h => inr (gen_filter f h)
                    | _, _ => f
                    end;
  proto_send f d := match f with inl f => proto_send f d | inr f => proto_send f d end;
  node_packet f set h d := match f, h with
                           | inl f, inl h => node_packet f set h d
                           | inr f, inr h => node_packet f set h d
                           | _, _ => Fault NullDeref
                           end;
  back_filter h := match h with
                   | inl h => f ← back_filter h; Ok (inl f)
                   | inr h => f ← back_filter h; Ok (inr f)
                   end
|}.

(** * The sets of pointers: lists that are sorted by address *)

(** Where the allocator puts each object. *)
Class HeapOrder := { addr : nat → Z; addr_inj x y : addr x = addr y → x = y }.

Section pointer_sets.
Context {HO : HeapOrder}.

Definition ptr_lt (x y : nat) : Prop := addr x < addr y.
#[export] Instance ptr_lt_dec x y : Decision (ptr_lt x y).
Proof. unfold ptr_lt. apply _. Defined.

Fixpoint set_insert (x : nat) (l : list nat) : list nat :=
  match l with
  | [] => [x]
  | y :: l => if decide (ptr_lt x y) then x :: y :: l else if (x =? y)%nat then y :: l else y :: set_insert x l
  end.
Definition set_erase (x : nat) (l : list nat) : list nat := filter (λ y, y ≠ x) l.

Lemma set_insert_elem x y l : y ∈ set_insert x l ↔ y = x ∨ y ∈ l.
Proof.
  induction l as [|z l IH]; cbn [set_insert].
  - rewrite list_elem_of_singleton, elem_of_nil. naive_solver.
  - destruct (decide (ptr_lt x z)); [by rewrite !elem_of_cons|]. destruct (Nat.eqb_spec x z) as [->|].
    + rewrite !elem_of_cons. naive_solver.
    + rewrite !elem_of_cons, IH. naive_solver.
Qed.
Lemma set_insert_sorted x l : StronglySorted ptr_lt l → StronglySorted ptr_lt (set_insert x l).
Proof.
  induction 1 as [|y l Hl IH Hy]; cbn [set_insert]; [repeat constructor|].
  destruct (decide (ptr_lt x y)) as [Hlt|Hge].
  - constructor; [by constructor|]. apply Forall_cons_2; [done|]. eapply Forall_impl; [exact Hy|]. unfold ptr_lt in *. simpl. lia.
  - destruct (Nat.eqb_spec x y) as [|Hne]; [by constructor|]. constructor; [done|]. apply Forall_forall. intros z Hz.
    apply set_insert_elem in Hz as [->|Hz]; [|by eapply Forall_forall in Hy].
    unfold ptr_lt in *. destruct (Z.eq_dec (addr x) (addr y)) as [E|]; [by apply addr_inj in E|lia].
Qed.
Lemma set_erase_elem x y l : y ∈ set_erase x l ↔ y ≠ x ∧ y ∈ l.
Proof. unfold set_erase. by rewrite list_elem_of_filter. Qed.
Lemma set_erase_sorted x l : StronglySorted ptr_lt l → StronglySorted ptr_lt (set_erase x l).
Proof.
  induction 1 as [|y l Hl IH Hy]; [constructor|]. unfold set_erase in *. rewrite filter_cons.
  case_decide; [|done]. constructor; [done|]. apply Forall_forall. intros z Hz%list_elem_of_filter.
  eapply Forall_forall in Hy; [exact Hy|tauto].
Qed.
Lemma set_erase_absent x l : x ∉ l → set_erase x l = l.
Proof.
  unfold set_erase. induction l as [|y l IH]; [done|]. intros [Hy Hl]%not_elem_of_cons. by rewrite filter_cons, decide_True, IH by done.
Qed.
(** A set of two. *)
Lemma set_insert_two x y : x ≠ y → set_insert x [y] = if decide (ptr_lt x y) then [x; y] else [y; x].
Proof. intros Hne. cbn [set_insert]. case_decide; [done|]. by rewrite (proj2 (Nat.eqb_neq _ _)). Qed.
End pointer_sets.

(** An allocator that never goes back, for the witnesses. *)
Definition allocation_order : HeapOrder := {| addr := Z.of_nat; addr_inj := Nat2Z.inj |}.

Section net_access.
Context {F H : Type} `{!Protocol F H} {HO : HeapOrder}.

Inductive object : Type :=
  (** a receiver of the application, with what it has been handed *)
  | Sink (got : list (list Z))
  (** [multi_recv_listener] *)
  | MultiRecv (listeners : list nat)
  (** the [my_recv] of [connect_recv]: parses, filters and passes header and data on *)
  | ProtoRecv (filter : F) (recv : nat)
  (** the [my_recv] of [net_access_single] or [net_access_broadcast] *)
  | SingleRecv (par : nat)
  (** a queue of the application, with the headers and data it has been handed *)
  | HeaderSink (got : list (H * list Z))
  (** a receiver of headers of the application, which answers through an access *)
  | Responder (surface : nat)
  (** the [my_recv] of [connect_net_access_generator_listener]: its [multi_access] is a multi receiver over
      [access]; [listener] tells whether there is one *)
  | GeneratorRecv (filter : F) (multi access : nat) (listener : bool)
  (** a device: an access with a slot for its receiver *)
  | Surface (recv : option nat)
  (** [net_access_single] or [net_access_broadcast] *)
  | SingleAccess (my_net_access : nat) (filter : F) (recv_access : option nat)
  (** [multi_net_access::generate_net_access], and a part of [multi_net_access_recv_split] *)
  | GeneratedAccess (multi access : nat) (curr_recv : option nat)
  | SplitRecv (par : nat) (curr : option nat)
  | EmptyAccess
  | StaticSend (static_send : option nat)
  (** the medium of [create_send_access_from_routing_table]: the access that a packet is routed to *)
  | RoutedSend (route : list Z → res (option (nat * list Z)))
  | ComposedAccess (base_send base_recv : nat)
  | OverriddenSend (base_access overridden_send : nat)
  | OverriddenRecv (base_access overridden_recv : nat)
  (** a receiver of the application that answers all data with [response], through an access that it does not own *)
  | Replier (access : nat) (response : list Z) (got : list (list Z))
  (** a node of the path protocol, its [my_recv], and its [get_recv_endpoint_end] *)
  | NodeAccess (recv : nat) (filter : F) (recv_endpoint_end : option nat)
  | NodeRecv (par : nat)
  | NodeEnd (par : nat)
  (** the [my_net_access_generator_listener] of the path protocol *)
  | PathGeneratorRecv (recv_access send_access : nat) (listener : bool).

(** [wire] is what the devices have been given to send, in order. *)
Record store := Store { heap : gmap nat object; next : nat; wire : list (nat * list Z) }.

Definition deref (a : nat) (σ : store) : res object := of_option NullDeref (heap σ !! a).
Definition write (a : nat) (o : object) (σ : store) : store := Store (<[a := o]> (heap σ)) (next σ) (wire σ).
Definition alloc (o : object) (σ : store) : nat * store := (next σ, Store (<[next σ := o]> (heap σ)) (S (next σ)) (wire σ)).

(** * multi_recv_listener.h *)

Definition add_recv_listener (m : nat) (listener : option nat) (σ : store) : res store :=
  match listener with
  | None => Ok σ
  | Some l =>
      o ← deref m σ;
      match o with MultiRecv ls => Ok (write m (MultiRecv (set_insert l ls)) σ) | _ => Fault NullDeref end
  end.
Definition remove_all_recv_listeners (m : nat) (σ : store) : res store :=
  o ← deref m σ;
  match o with MultiRecv _ => Ok (write m (MultiRecv []) σ) | _ => Fault NullDeref end.
Definition remove_listener (m : nat) (listener : option nat) (σ : store) : res (bool * store) :=
  match listener with
  | None => Ok (false, σ)
  | Some l =>
      o ← deref m σ;
      match o with
      | MultiRecv ls =>
          if negb (bool_decide (l ∈ ls)) then Ok (false, σ) else Ok (true, write m (MultiRecv (set_erase l ls)) σ)
      | _ => Fault NullDeref
      end
  end.

(** The iterator after [cur]: it has been erased when [cur] is no longer there. *)
Definition iterator_next (cur : nat) (ls : list nat) : res (option nat) :=
  if bool_decide (cur ∈ ls) then Ok (head (filter (λ y, ptr_lt cur y) ls)) else Fault OutOfBounds.

(** * net_access.h, net_access.cpp, multi_net_access.h, multi_net_access.cpp *)

(** [impl_set_recv_access]. *)
Fixpoint set_recv_access (fuel : nat) (a : nat) (recv : option nat) (σ : store) : res store :=
  match fuel with
  | O => Fault OutOfFuel
  | S fuel =>
      o ← deref a σ;
      match o with
      | Surface _ => Ok (write a (Surface recv) σ)
      | SingleAccess acc filter _ => Ok (write a (SingleAccess acc filter recv) σ)
      | GeneratedAccess multi acc curr_recv =>
          σ ← (if bool_decide (curr_recv ≠ None) then '(_, σ) ← remove_listener multi curr_recv σ; Ok σ else Ok σ);
          σ ← add_recv_listener multi recv σ;
          Ok (write a (GeneratedAccess multi acc recv) σ)
      | SplitRecv par curr =>
          σ ← (if bool_decide (curr ≠ None) then '(_, σ) ← remove_listener par curr σ; Ok σ else Ok σ);
          σ ← add_recv_listener par recv σ;
          Ok (write a (SplitRecv par recv) σ)
      | EmptyAccess => Ok σ
      | ComposedAccess _ base_recv => set_recv_access fuel base_recv recv σ
      | OverriddenSend base_access _ => set_recv_access fuel base_access recv σ
      | OverriddenRecv _ overridden_recv => set_recv_access fuel overridden_recv recv σ
      | NodeEnd par =>
          o ← deref par σ;
          match o with
          | NodeAccess acc filter _ => Ok (write par (NodeAccess acc filter recv) σ)
          | _ => Fault NullDeref
          end
      | _ => Fault NullDeref
      end
  end.

(** [impl_get_send_access]: the medium of a device, and the one a single access makes, go by the access's own
    number. *)
Fixpoint get_send_access (fuel : nat) (a : nat) (σ : store) : res (option nat) :=
  match fuel with
  | O => Fault OutOfFuel
  | S fuel =>
      o ← deref a σ;
      match o with
      | Surface _ => Ok (Some a)
      | SingleAccess _ _ _ => Ok (Some a)
      | GeneratedAccess _ acc _ => get_send_access fuel acc σ
      | EmptyAccess => Ok None
      | StaticSend static_send => Ok static_send
      | ComposedAccess base_send _ => get_send_access fuel base_send σ
      | OverriddenSend _ overridden_send => get_send_access fuel overridden_send σ
      | OverriddenRecv base_access _ => get_send_access fuel base_access σ
      | _ => Fault NullDeref
      end
  end.

Definition net_access_make_empty (σ : store) : nat * store := alloc EmptyAccess σ.
Definition net_access_send_make_static (static_send : option nat) (σ : store) : nat * store :=
  alloc (StaticSend static_send) σ.
Definition net_access_make_from_send_recv (send recv : nat) (σ : store) : nat * store :=
  alloc (ComposedAccess send recv) σ.
Definition net_access_override_send (net_access send : nat) (σ : store) : nat * store :=
  alloc (OverriddenSend net_access send) σ.
Definition net_access_override_recv (net_access recv : nat) (σ : store) : nat * store :=
  alloc (OverriddenRecv net_access recv) σ.

(** The constructor of [multi_net_access] over [access]: its multi receiver becomes the receiver of the access. *)
Definition multi_net_access (fuel : nat) (access : nat) (σ : store) : res (nat * store) :=
  let '(multi, σ) := alloc (MultiRecv []) σ in
  σ ← set_recv_access fuel access (Some multi) σ; Ok (multi, σ).
Definition generate_net_access (multi access : nat) (σ : store) : nat * store :=
  alloc (GeneratedAccess multi access None) σ.
(** The end of an object whose last owner is gone.  The listener of the path protocol's generator is handed the new access and keeps
    a [weak_ptr] to it, so that the access ends with the call that made it; its receivers stay where they are. *)
Definition destroy (a : nat) (σ : store) : store := Store (delete a (heap σ)) (next σ) (wire σ).
(** The destructor of a generated access. *)
Definition delete_generated (a : nat) (σ : store) : res store :=
  o ← deref a σ;
  match o with
  | GeneratedAccess multi _ curr_recv =>
      σ ← (if bool_decide (curr_recv ≠ None) then '(_, σ) ← remove_listener multi curr_recv σ; Ok σ else Ok σ);
      Ok (destroy a σ)
  | _ => Fault NullDeref
  end.

Definition multi_net_access_send_generate (fuel : nat) (send : nat) (σ : store) : res (nat * store) :=
  m ← get_send_access fuel send σ; Ok (net_access_send_make_static m σ).

(** [multi_net_access_recv_split]. *)
Fixpoint split_loop (multiplexer : nat) (n : nat) (out : list nat) (σ : store) : list nat * store :=
  match n with
  | O => (out, σ)
  | S n => let '(a, σ) := alloc (SplitRecv multiplexer None) σ in split_loop multiplexer n (out ++ [a]) σ
  end.
Definition multi_net_access_recv_split (fuel : nat) (base : nat) (no_splits : nat) (σ : store) : res (list nat * store) :=
  let '(multiplexer, σ) := alloc (MultiRecv []) σ in
  σ ← set_recv_access fuel base (Some multiplexer) σ;
  Ok (split_loop multiplexer no_splits [] σ).

(** [multi_net_access_recv]: the multiplexer of an access for receiving, and a part of it. *)
Definition multi_net_access_recv (fuel : nat) (recv : nat) (σ : store) : res (nat * store) :=
  let '(multiplexer, σ) := alloc (MultiRecv []) σ in
  σ ← set_recv_access fuel recv (Some multiplexer) σ;
  Ok (multiplexer, σ).
Definition multi_net_access_recv_generate (multiplexer : nat) (σ : store) : nat * store := alloc (SplitRecv multiplexer None) σ.
Fixpoint generate_parts (multiplexer : nat) (n : nat) (σ : store) : list nat * store :=
  match n with
  | O => ([], σ)
  | S n =>
      let '(a, σ) := multi_net_access_recv_generate multiplexer σ in
      let '(parts, σ) := generate_parts multiplexer n σ in (a :: parts, σ)
  end.
(** Splitting an access is generating the parts of its multiplexer one by one. *)
Lemma split_is_generated fuel base n σ :
  multi_net_access_recv_split fuel base n σ =
  '(multiplexer, σ) ← multi_net_access_recv fuel base σ; Ok (generate_parts multiplexer n σ).
Proof.
  assert (Hl : ∀ m n out σ, split_loop m n out σ = let '(parts, σ) := generate_parts m n σ in (out ++ parts, σ)).
  { clear. intros m n. induction n as [|n IH]; intros out σ; [cbn; by rewrite app_nil_r|].
    cbn [split_loop generate_parts multi_net_access_recv_generate alloc]. rewrite IH. unfold multi_net_access_recv_generate, alloc.
    destruct (generate_parts _ _ _). by rewrite <- app_assoc. }
  unfold multi_net_access_recv_split, multi_net_access_recv. cbn [alloc]. destruct (set_recv_access _ _ _ _) as [σ'|f]; [|done].
  cbn [mbind res_bind]. rewrite Hl. by destruct (generate_parts _ _ _).
Qed.

(** * Opening a protocol on an access *)

Definition connect_recv (fuel : nat) (surface : option nat) (recv : nat) (filter : F) (σ : store) : res store :=
  match surface with
  | None => Ok σ
  | Some a => let '(p, σ) := alloc (ProtoRecv filter recv) σ in set_recv_access fuel a (Some p) σ
  end.
(** The constructor of [net_access_single]. *)
Definition net_access_single (fuel : nat) (access : nat) (filter : F) (σ : store) : res (nat * store) :=
  let '(a, σ) := alloc (SingleAccess access filter None) σ in
  let '(r, σ) := alloc (SingleRecv a) σ in
  σ ← connect_recv fuel (Some access) r filter σ; Ok (a, σ).
(** [connect_net_access_generator_listener]: the argument of [connect_recv], with its [multi_access], is
    built first. *)
Definition connect_generator (fuel : nat) (access : nat) (filter : F) (listener : bool) (σ : store) : res store :=
  '(multi, σ) ← multi_net_access fuel access σ;
  let '(g, σ) := alloc (GeneratorRecv filter multi access listener) σ in
  connect_recv fuel (Some access) g filter σ.

(** * Sending *)

(** [send_data] of a medium: a device takes the bytes; an access puts its header in front and sends through its own access,
    whatever that returns; a routed medium sends through the access found, if any. *)
Fixpoint medium_send_data (fuel : nat) (medium : nat) (data : list Z) (σ : store) : res (err_t * store) :=
  match fuel with
  | O => Fault OutOfFuel
  | S fuel =>
      o ← deref medium σ;
      match o with
      | Surface _ => Ok (OK, Store (heap σ) (next σ) (wire σ ++ [(medium, data)]))
      | SingleAccess acc filter _ =>
          o ← proto_send filter data;
          match o with
          | None => Ok (OK, σ)
          | Some pkt =>
              m ← get_send_access fuel acc σ;
              m ← of_option NullDeref m;
              '(_, σ) ← medium_send_data fuel m pkt σ; Ok (OK, σ)
          end
      | RoutedSend route =>
          o ← route data;
          match o with
          | None => Ok (ERR, σ)
          | Some (acc, data) =>
              m ← get_send_access fuel acc σ;
              m ← of_option NullDeref m;
              medium_send_data fuel m data σ
          end
      | _ => Fault NullDeref
      end
  end.
(** [access->get_send_access()->send_data(data)]. *)
Definition access_send_data (fuel : nat) (access : nat) (data : list Z) (σ : store) : res (err_t * store) :=
  m ← get_send_access fuel access σ;
  m ← of_option NullDeref m;
  medium_send_data fuel m data σ.

(** * Receiving *)

(** The application: its [handle_new_net_access], and what its receivers of headers answer. *)
Record application := Application {
  handle_new_net_access : nat → store → res store;
  respond : H → list Z → res (list Z)
}.
Context (prog : application).

(** [handle_recv] of a listener, of a listener for headers with data, and the loop of the multi receiver over the
    set itself (the copy it makes is not used). *)
Fixpoint handle_recv (fuel : nat) (l : nat) (data : list Z) (σ : store) : res store :=
  match fuel with
  | O => Fault OutOfFuel
  | S fuel =>
      o ← deref l σ;
      match o with
      | Sink got => Ok (write l (Sink (got ++ [data])) σ)
      | MultiRecv ls => multi_loop fuel l (head ls) data σ
      | ProtoRecv filter recv =>
          o ← proto_recv filter data;
          match o with None => Ok σ | Some (h, d) => handle_header fuel recv h d σ end
      | Replier access response got =>
          '(_, σ) ← access_send_data fuel access response (write l (Replier access response (got ++ [data])) σ); Ok σ
      | _ => Fault NullDeref
      end
  end
with multi_loop (fuel : nat) (m : nat) (it : option nat) (data : list Z) (σ : store) : res store :=
  match fuel with
  | O => Fault OutOfFuel
  | S fuel =>
      match it with
      | None => Ok σ
      | Some cur =>
          σ ← handle_recv fuel cur data σ;
          o ← deref m σ;
          match o with
          | MultiRecv ls => it ← iterator_next cur ls; multi_loop fuel m it data σ
          | _ => Fault NullDeref
          end
      end
  end
with handle_header (fuel : nat) (l : nat) (h : H) (d : list Z) (σ : store) : res store :=
  match fuel with
  | O => Fault OutOfFuel
  | S fuel =>
      o ← deref l σ;
      match o with
      | SingleRecv par =>
          o ← deref par σ;
          match o with
          | SingleAccess _ _ (Some r) => handle_recv fuel r d σ
          | SingleAccess _ _ None => Ok σ
          | _ => Fault NullDeref
          end
      | HeaderSink got => Ok (write l (HeaderSink (got ++ [(h, d)])) σ)
      | Responder surface =>
          reply ← respond prog h d;
          '(_, σ) ← access_send_data fuel surface reply σ; Ok σ
      | GeneratorRecv filter multi access listener =>
          if negb listener then Ok σ
          else
            let '(g, σ) := generate_net_access multi access σ in
            '(a, σ) ← net_access_single fuel g (gen_filter filter h) σ;
            σ ← handle_new_net_access prog a σ;
            o ← deref a σ;
            match o with
            | SingleAccess _ _ (Some r) => handle_recv fuel r d σ
            | SingleAccess _ _ None => Ok σ
            | _ => Fault NullDeref
            end
      | NodeRecv par =>
          o ← deref par σ;
          match o with
          | NodeAccess _ filter recv_endpoint_end =>
              o ← node_packet filter (bool_decide (recv_endpoint_end ≠ None)) h d;
              match o, recv_endpoint_end with
              | Some buff, Some r => handle_recv fuel r buff σ
              | _, _ => Ok σ
              end
          | _ => Fault NullDeref
          end
      | PathGeneratorRecv recv_access send_access listener =>
          if negb listener then Ok σ
          else
            '(s, σ) ← multi_net_access_send_generate fuel send_access σ;
            let '(c, σ) := net_access_make_from_send_recv s recv_access σ in
            filter ← back_filter h;
            '(a, σ) ← net_access_single fuel c filter σ;
            σ ← handle_new_net_access prog a σ;
            o ← deref a σ;
            σ ← match o with
                | SingleAccess _ _ (Some r) => handle_recv fuel r d σ
                | SingleAccess _ _ None => Ok σ
                | _ => Fault NullDeref
                end;
            Ok (destroy a σ)
      | _ => Fault NullDeref
      end
  end.

(** A packet arrives at a device. *)
Definition receive (fuel : nat) (a : nat) (data : list Z) (σ : store) : res store :=
  o ← deref a σ;
  match o with
  | Surface (Some l) => handle_recv fuel l data σ
  | Surface None => Ok σ
  | _ => Fault NullDeref
  end.

(** * Lemmas *)

Lemma deref_ok a o σ : heap σ !! a = Some o → deref a σ = Ok o.
Proof. intros Ha. unfold deref. by rewrite Ha. Qed.

(** ** One step of each call *)

Lemma handle_recv_sink fuel l got data σ : heap σ !! l = Some (Sink got) →
  handle_recv (S fuel) l data σ = Ok (write l (Sink (got ++ [data])) σ).
Proof. intros Hl. cbn [handle_recv]. by rewrite (deref_ok _ _ _ Hl). Qed.
Lemma handle_recv_multi fuel l ls data σ : heap σ !! l = Some (MultiRecv ls) →
  handle_recv (S fuel) l data σ = multi_loop fuel l (head ls) data σ.
Proof. intros Hl. cbn [handle_recv]. by rewrite (deref_ok _ _ _ Hl). Qed.
Lemma handle_recv_proto fuel l f r data σ : heap σ !! l = Some (ProtoRecv f r) →
  handle_recv (S fuel) l data σ =
  (o ← proto_recv f data; match o with None => Ok σ | Some (h, d) => handle_header fuel r h d σ end).
Proof. intros Hl. cbn [handle_recv]. by rewrite (deref_ok _ _ _ Hl). Qed.
Lemma multi_loop_some fuel m cur data σ σ' ls : handle_recv fuel cur data σ = Ok σ' → heap σ' !! m = Some (MultiRecv ls) →
  multi_loop (S fuel) m (Some cur) data σ = (it ← iterator_next cur ls; multi_loop fuel m it data σ').
Proof. intros Hc Hm. cbn [multi_loop]. rewrite Hc. cbn [mbind res_bind]. by rewrite (deref_ok _ _ _ Hm). Qed.
Lemma multi_loop_fault fuel m cur data σ f : handle_recv fuel cur data σ = Fault f → multi_loop (S fuel) m (Some cur) data σ = Fault f.
Proof. intros Hc. cbn [multi_loop]. by rewrite Hc. Qed.
(** An access hands the data to its receiver, if it has one. *)
Definition hand_on (fuel : nat) (recv : option nat) (d : list Z) (σ : store) : res store :=
  match recv with Some r => handle_recv fuel r d σ | None => Ok σ end.
Lemma handle_header_single fuel l par acc f recv h d σ :
  heap σ !! l = Some (SingleRecv par) → heap σ !! par = Some (SingleAccess acc f recv) →
  handle_header (S fuel) l h d σ = hand_on fuel recv d σ.
Proof.
  intros Hl Hp. cbn [handle_header]. rewrite (deref_ok _ _ _ Hl). cbn [mbind res_bind]. rewrite (deref_ok _ _ _ Hp). by destruct recv.
Qed.
Lemma handle_header_sink fuel l got h d σ : heap σ !! l = Some (HeaderSink got) →
  handle_header (S fuel) l h d σ = Ok (write l (HeaderSink (got ++ [(h, d)])) σ).
Proof. intros Hl. cbn [handle_header]. by rewrite (deref_ok _ _ _ Hl). Qed.
Lemma handle_header_responder fuel l surface h d σ : heap σ !! l = Some (Responder surface) →
  handle_header (S fuel) l h d σ =
  (reply ← respond prog h d; '(_, σ) ← access_send_data fuel surface reply σ; Ok σ).
Proof. intros Hl. cbn [handle_header]. by rewrite (deref_ok _ _ _ Hl). Qed.
(** The generator: the access [a] that it opens, once the application has it, hands the data on. *)
Lemma handle_header_generator fuel l f multi access h d σ g a σ1 σ2 σ3 acc f' recv :
  heap σ !! l = Some (GeneratorRecv f multi access true) →
  generate_net_access multi access σ = (g, σ1) → net_access_single fuel g (gen_filter f h) σ1 = Ok (a, σ2) →
  handle_new_net_access prog a σ2 = Ok σ3 → heap σ3 !! a = Some (SingleAccess acc f' recv) →
  handle_header (S fuel) l h d σ = hand_on fuel recv d σ3.
Proof.
  intros Hl Hg Ha Hn Hr. cbn [handle_header]. rewrite (deref_ok _ _ _ Hl). cbn [mbind res_bind negb]. rewrite Hg, Ha. cbn [mbind res_bind].
  rewrite Hn. cbn [mbind res_bind]. rewrite (deref_ok _ _ _ Hr). by destruct recv.
Qed.

Lemma handle_recv_replier fuel l acc response got data σ σ' e : heap σ !! l = Some (Replier acc response got) →
  access_send_data fuel acc response (write l (Replier acc response (got ++ [data])) σ) = Ok (e, σ') →
  handle_recv (S fuel) l data σ = Ok σ'.
Proof. intros Hl Hs. cbn [handle_recv]. rewrite (deref_ok _ _ _ Hl). cbn [mbind res_bind]. by rewrite Hs. Qed.
(** A node hands on what it makes of the packet. *)
Lemma handle_header_node fuel l par acc f recv h d σ o :
  heap σ !! l = Some (NodeRecv par) → heap σ !! par = Some (NodeAccess acc f recv) →
  node_packet f (bool_decide (recv ≠ None)) h d = Ok o →
  handle_header (S fuel) l h d σ = match o with Some buff => hand_on fuel recv buff σ | None => Ok σ end.
Proof.
  intros Hl Hp Ho. cbn [handle_header]. rewrite (deref_ok _ _ _ Hl). cbn [mbind res_bind]. rewrite (deref_ok _ _ _ Hp). cbn [mbind res_bind].
  rewrite Ho. cbn [mbind res_bind]. by destruct o, recv.
Qed.
(** The generator of the path protocol: the access that it opens is gone when the call returns. *)
Lemma handle_header_path_generator fuel l recv send h d σ m f a σ1 σ2 σ3 acc f' r :
  heap σ !! l = Some (PathGeneratorRecv recv send true) → get_send_access fuel send σ = Ok m → back_filter h = Ok f →
  net_access_single fuel (S (next σ)) f (snd (net_access_make_from_send_recv (next σ) recv (snd (net_access_send_make_static m σ)))) = Ok (a, σ1) →
  handle_new_net_access prog a σ1 = Ok σ2 → heap σ2 !! a = Some (SingleAccess acc f' (Some r)) → handle_recv fuel r d σ2 = Ok σ3 →
  handle_header (S fuel) l h d σ = Ok (destroy a σ3).
Proof.
  intros Hl Hm Hf Ha Hn Hr Hd. cbn [handle_header]. rewrite (deref_ok _ _ _ Hl). cbn [mbind res_bind negb]. unfold multi_net_access_send_generate.
  rewrite Hm. cbn [mbind res_bind]. unfold net_access_send_make_static, net_access_make_from_send_recv in *. cbn [alloc snd next heap wire] in *.
  rewrite Hf. cbn [mbind res_bind]. rewrite Ha. cbn [mbind res_bind]. rewrite Hn. cbn [mbind res_bind]. rewrite (deref_ok _ _ _ Hr). cbn [mbind res_bind].
  by rewrite Hd.
Qed.

Lemma set_recv_node_end fuel a par acc f old recv σ : heap σ !! a = Some (NodeEnd par) → heap σ !! par = Some (NodeAccess acc f old) →
  set_recv_access (S fuel) a recv σ = Ok (write par (NodeAccess acc f recv) σ).
Proof. intros Ha Hp. cbn [set_recv_access]. rewrite (deref_ok _ _ _ Ha). cbn [mbind res_bind]. by rewrite (deref_ok _ _ _ Hp). Qed.
Lemma set_recv_composed fuel a send base recv σ : heap σ !! a = Some (ComposedAccess send base) →
  set_recv_access (S fuel) a recv σ = set_recv_access fuel base recv σ.
Proof. intros Ha. cbn [set_recv_access]. by rewrite (deref_ok _ _ _ Ha). Qed.
Lemma set_recv_split fuel a par x ls σ : heap σ !! a = Some (SplitRecv par None) → heap σ !! par = Some (MultiRecv ls) →
  set_recv_access (S fuel) a (Some x) σ = Ok (write a (SplitRecv par (Some x)) (write par (MultiRecv (set_insert x ls)) σ)).
Proof.
  intros Ha Hp. cbn [set_recv_access]. rewrite (deref_ok _ _ _ Ha). cbn [mbind res_bind]. rewrite bool_decide_false by naive_solver.
  cbn [mbind res_bind add_recv_listener]. by rewrite (deref_ok _ _ _ Hp).
Qed.
Lemma set_recv_single fuel a acc f old recv σ : heap σ !! a = Some (SingleAccess acc f old) →
  set_recv_access (S fuel) a recv σ = Ok (write a (SingleAccess acc f recv) σ).
Proof. intros Ha. cbn [set_recv_access]. by rewrite (deref_ok _ _ _ Ha). Qed.
Lemma set_recv_overridden fuel a base send recv σ : heap σ !! a = Some (OverriddenSend base send) →
  set_recv_access (S fuel) a recv σ = set_recv_access fuel base recv σ.
Proof. intros Ha. cbn [set_recv_access]. by rewrite (deref_ok _ _ _ Ha). Qed.

Lemma send_access_step fuel a o σ : heap σ !! a = Some o →
  get_send_access (S fuel) a σ =
  match o with
  | Surface _ | SingleAccess _ _ _ => Ok (Some a)
  | GeneratedAccess _ acc _ => get_send_access fuel acc σ
  | EmptyAccess => Ok None
  | StaticSend static_send => Ok static_send
  | ComposedAccess base_send _ => get_send_access fuel base_send σ
  | OverriddenSend _ overridden_send => get_send_access fuel overridden_send σ
  | OverriddenRecv base_access _ => get_send_access fuel base_access σ
  | _ => Fault NullDeref
  end.
Proof. intros Ha. cbn [get_send_access]. by rewrite (deref_ok _ _ _ Ha). Qed.
Lemma medium_send_surface fuel a r data σ : heap σ !! a = Some (Surface r) →
  medium_send_data (S fuel) a data σ = Ok (OK, Store (heap σ) (next σ) (wire σ ++ [(a, data)])).
Proof. intros Ha. cbn [medium_send_data]. by rewrite (deref_ok _ _ _ Ha). Qed.
Lemma medium_send_single fuel a acc f recv data pkt m σ : heap σ !! a = Some (SingleAccess acc f recv) →
  proto_send f data = Ok (Some pkt) → get_send_access fuel acc σ = Ok (Some m) →
  medium_send_data (S fuel) a data σ = ('(_, σ) ← medium_send_data fuel m pkt σ; Ok (OK, σ)).
Proof.
  intros Ha Hp Hm. cbn [medium_send_data]. rewrite (deref_ok _ _ _ Ha). cbn [mbind res_bind]. rewrite Hp. cbn [mbind res_bind].
  by rewrite Hm.
Qed.
Lemma medium_send_routed fuel a route data acc data' m σ : heap σ !! a = Some (RoutedSend route) →
  route data = Ok (Some (acc, data')) → get_send_access fuel acc σ = Ok (Some m) →
  medium_send_data (S fuel) a data σ = medium_send_data fuel m data' σ.
Proof.
  intros Ha Hr Hm. cbn [medium_send_data]. rewrite (deref_ok _ _ _ Ha). cbn [mbind res_bind]. rewrite Hr. cbn [mbind res_bind].
  by rewrite Hm.
Qed.

(** ** More fuel changes nothing *)

Lemma set_recv_more fuel : ∀ fuel' a recv σ, (fuel ≤ fuel')%nat →
  more_fuel (set_recv_access fuel a recv σ) (set_recv_access fuel' a recv σ).
Proof.
  induction fuel as [|fuel IH]; intros fuel' a recv σ Hle; [by left|]. destruct fuel' as [|fuel']; [lia|].
  cbn [set_recv_access]. more_fuel_steps (apply IH; lia).
Qed.
Lemma get_send_more fuel : ∀ fuel' a σ, (fuel ≤ fuel')%nat → more_fuel (get_send_access fuel a σ) (get_send_access fuel' a σ).
Proof.
  induction fuel as [|fuel IH]; intros fuel' a σ Hle; [by left|]. destruct fuel' as [|fuel']; [lia|].
  cbn [get_send_access]. more_fuel_steps (apply IH; lia).
Qed.
Lemma medium_send_more fuel : ∀ fuel' m data σ, (fuel ≤ fuel')%nat →
  more_fuel (medium_send_data fuel m data σ) (medium_send_data fuel' m data σ).
Proof.
  induction fuel as [|fuel IH]; intros fuel' m data σ Hle; [by left|]. destruct fuel' as [|fuel']; [lia|].
  cbn [medium_send_data]. more_fuel_steps (first [apply IH|apply get_send_more]; lia).
Qed.
Lemma net_access_single_more fuel fuel' acc f σ : (fuel ≤ fuel')%nat →
  more_fuel (net_access_single fuel acc f σ) (net_access_single fuel' acc f σ).
Proof. intros Hle. unfold net_access_single, connect_recv. more_fuel_steps (by apply set_recv_more). Qed.
Lemma calls_more fuel : ∀ fuel' l data σ, (fuel ≤ fuel')%nat →
  more_fuel (handle_recv fuel l data σ) (handle_recv fuel' l data σ) ∧
  (∀ it, more_fuel (multi_loop fuel l it data σ) (multi_loop fuel' l it data σ)) ∧
  ∀ h, more_fuel (handle_header fuel l h data σ) (handle_header fuel' l h data σ).
Proof.
  induction fuel as [|fuel IH]; intros fuel' l data σ Hle; [by split_and!; intros; left|]. destruct fuel' as [|fuel']; [lia|].
  assert (Hf : (fuel ≤ fuel')%nat) by lia.
  split_and!; [|intros it|intros h]; cbn [handle_recv multi_loop handle_header]; unfold multi_net_access_send_generate, access_send_data;
    more_fuel_steps (first [by apply IH|by apply get_send_more|by apply medium_send_more|by apply net_access_single_more]).
Qed.
Lemma handle_recv_more fuel fuel' l data σ σ' : (fuel ≤ fuel')%nat →
  handle_recv fuel l data σ = Ok σ' → handle_recv fuel' l data σ = Ok σ'.
Proof. intros Hle. eapply more_fuel_ok, calls_more, Hle. Qed.

(** ** Iteration *)

(** In a sorted set the iterator moves to the next element. *)
Lemma iterator_next_ok pre cur post :
  StronglySorted ptr_lt (pre ++ cur :: post) → iterator_next cur (pre ++ cur :: post) = Ok (head post).
Proof.
  intros Hs. unfold iterator_next. rewrite bool_decide_true by set_solver. f_equal.
  rewrite filter_app, filter_cons, decide_False by (unfold ptr_lt; lia).
  assert (Hpre : filter (λ y, ptr_lt cur y) pre = []).
  { induction pre as [|z pre IH]; [done|]. cbn [app] in Hs. inversion_clear Hs as [|? ? Hs' Hz].
    rewrite filter_cons, decide_False; [by apply IH|]. rewrite Forall_forall in Hz. specialize (Hz cur ltac:(set_solver)).
    unfold ptr_lt in *. lia. }
  rewrite Hpre. cbn [app]. assert (Hp : Forall (λ y, ptr_lt cur y) post).
  { clear Hpre. induction pre as [|z pre IH]; cbn [app] in Hs; inversion_clear Hs as [|? ? Hs' Hz]; [done|by apply IH]. }
  destruct Hp as [|z post Hz Hp]; [done|]. by rewrite filter_cons, decide_True.
Qed.
Lemma sorted_fresh x ls : StronglySorted ptr_lt (x :: ls) → x ∉ ls.
Proof. inversion_clear 1 as [|? ? _ Hl]. intros Hin. rewrite Forall_forall in Hl. specialize (Hl x Hin). unfold ptr_lt in Hl. lia. Qed.

(** ** Fan-out *)

(** Every listener of [ls] gets the data, nothing else changes. *)
Definition handed (ls : list nat) (data : list Z) (h h' : gmap nat object) : Prop :=
  ∀ x, h' !! x = if bool_decide (x ∈ ls)
                 then (λ o, match o with Sink got => Sink (got ++ [data]) | o => o end) <$> h !! x
                 else h !! x.
Definition sinks (ls : list nat) (h : gmap nat object) : Prop := ∀ x, x ∈ ls → ∃ got, h !! x = Some (Sink got).

Lemma multi_loop_ok m pre ls data : ∀ fuel σ,
  heap σ !! m = Some (MultiRecv (pre ++ ls)) → StronglySorted ptr_lt (pre ++ ls) → sinks ls (heap σ) →
  (List.length ls + 2 ≤ fuel)%nat →
  ∃ σ', multi_loop fuel m (head ls) data σ = Ok σ' ∧ handed ls data (heap σ) (heap σ') ∧ next σ' = next σ ∧ wire σ' = wire σ.
Proof.
  revert pre. induction ls as [|x ls IH]; intros pre fuel σ Hm Hs Hk Hf.
  { destruct fuel as [|fuel]; [lia|]. exists σ. split; [done|]. split; [|done]. intros y. by rewrite bool_decide_false by set_solver. }
  destruct fuel as [|fuel]; [lia|]. cbn [multi_loop head]. destruct fuel as [|fuel]; [simpl in Hf; lia|].
  destruct (Hk x) as [got Hx]; [set_solver|]. set (σ1 := write x (Sink (got ++ [data])) σ).
  assert (Hh : handle_recv (S fuel) x data σ = Ok σ1) by (cbn [handle_recv]; unfold deref; by rewrite Hx).
  rewrite Hh. cbn [mbind res_bind].
  assert (Hxm : x ≠ m) by (intros ->; congruence).
  assert (Hnd : x ∉ ls).
  { by eapply sorted_fresh, StronglySorted_app_1_r. }
  assert (Hm1 : heap σ1 !! m = Some (MultiRecv (pre ++ x :: ls))) by (cbn; by rewrite lookup_insert_ne).
  unfold deref. rewrite Hm1. cbn [of_option mbind res_bind]. rewrite iterator_next_ok by done. cbn [mbind res_bind].
  destruct (IH (pre ++ [x]) (S fuel) σ1) as (σ' & H1 & H2 & H3 & H4).
  - by rewrite <- app_assoc.
  - by rewrite <- app_assoc.
  - intros y Hy. cbn. rewrite lookup_insert_ne by (intros ->; done). apply Hk. set_solver.
  - simpl in Hf. lia.
  - exists σ'. split; [done|]. split; [|done]. intros y. rewrite H2. cbn. destruct (decide (y = x)) as [->|Hyx].
    + rewrite bool_decide_false, (bool_decide_true (x ∈ x :: ls)) by set_solver. by rewrite lookup_insert_eq, Hx.
    + rewrite lookup_insert_ne by done. rewrite (bool_decide_ext (y ∈ x :: ls) (y ∈ ls)); [done|]. set_solver.
Qed.
Lemma multi_recv_ok m ls data fuel σ :
  heap σ !! m = Some (MultiRecv ls) → StronglySorted ptr_lt ls → sinks ls (heap σ) → (List.length ls + 3 ≤ fuel)%nat →
  ∃ σ', handle_recv fuel m data σ = Ok σ' ∧ handed ls data (heap σ) (heap σ') ∧ next σ' = next σ ∧ wire σ' = wire σ.
Proof.
  intros Hm Hs Hk Hf. destruct fuel as [|fuel]; [lia|]. cbn [handle_recv]. unfold deref. rewrite Hm. cbn [of_option mbind res_bind].
  apply (multi_loop_ok m []); (done || lia).
Qed.

(** ** Accesses that share a device

    What the application has done around a multi receiver: the receiver that each access (or part) was last given; the receivers
    that are [live], to which a packet goes; and those that an access was given while another had them.  Whoever lets go
    of a receiver takes it out of the set, for the others that have it too. *)
Record users := Users { current : gmap nat (option nat); live : gset nat; shared : gset nat }.
Definition recv_set (c : option nat) : gset nat := match c with Some x => {[x]} | None => ∅ end.
Definition held_elsewhere (g x : nat) (cm : gmap nat (option nat)) : Prop := map_Exists (λ g' c, g' ≠ g ∧ c = Some x) cm.
#[export] Instance held_elsewhere_dec g x cm : Decision (held_elsewhere g x cm).
Proof. unfold held_elsewhere. apply _. Defined.
Definition opened (g : nat) (u : users) : users := Users (<[g := None]> (current u)) (live u) (shared u).
Definition given (g : nat) (c recv : option nat) (u : users) : users :=
  Users (<[g := recv]> (current u)) (recv_set recv ∪ (live u ∖ recv_set c))
        (match recv with
         | Some x => if decide (held_elsewhere g x (current u)) then {[x]} ∪ shared u else shared u
         | None => shared u
         end).
Definition gone (g : nat) (c : option nat) (u : users) : users := Users (delete g (current u)) (live u ∖ recv_set c) (shared u).

(** A live receiver is that of an access, and a receiver of an access is live unless it was shared. *)
Record users_ok (u : users) : Prop := {
  uo_live : ∀ x, x ∈ live u → ∃ g, current u !! g = Some (Some x);
  uo_current : ∀ g x, current u !! g = Some (Some x) → x ∈ live u ∨ x ∈ shared u;
  uo_own : ∀ g g' x, current u !! g = Some (Some x) → current u !! g' = Some (Some x) → g = g' ∨ x ∈ shared u
}.
Lemma users_ok_opened g u : current u !! g = None → users_ok u → users_ok (opened g u).
Proof.
  intros Hg [H1 H2 H3].
  assert (Hc : ∀ g' x, current (opened g u) !! g' = Some (Some x) ↔ current u !! g' = Some (Some x)).
  { intros g' x. cbn. destruct (decide (g' = g)) as [->|]; [rewrite lookup_insert_eq, Hg; naive_solver|by rewrite lookup_insert_ne]. }
  split; [intros x Hx; setoid_rewrite Hc; by apply H1|intros g' x ?%Hc; by eapply H2|intros g1 g2 x ?%Hc ?%Hc; by eapply H3].
Qed.
Lemma recv_set_elem x c : x ∈ recv_set c ↔ c = Some x.
Proof. destruct c; cbn; set_solver. Qed.
Lemma users_ok_given g c recv u : current u !! g = Some c → users_ok u → users_ok (given g c recv u).
Proof.
  intros Hg [H1 H2 H3]. set (u' := given g c recv u).
  assert (Hsh : ∀ x, x ∈ shared u → x ∈ shared u').
  { intros x Hx. cbn. destruct recv as [y|]; [case_decide|]; set_solver. }
  assert (Helse : ∀ g' x, recv = Some x → g' ≠ g → current u !! g' = Some (Some x) → x ∈ shared u').
  { intros g' x -> Hne Hg'. cbn. rewrite decide_True; [set_solver|]. by exists g', (Some x). }
  split; cbn [u' given current live].
  - intros x [->%recv_set_elem|[Hx Hc]%elem_of_difference]%elem_of_union; [exists g; by rewrite lookup_insert_eq|].
    destruct (H1 x Hx) as [g' Hg']. exists g'. rewrite lookup_insert_ne; [done|]. intros ->.
    apply Hc, recv_set_elem. congruence.
  - intros g' x Hg'. destruct (decide (g' = g)) as [->|Hne].
    + rewrite lookup_insert_eq in Hg'. injection Hg' as ->. left. cbn. set_solver.
    + rewrite lookup_insert_ne in Hg' by done. destruct (decide (c = Some x)) as [->|Hc].
      * destruct (H3 g' g x Hg' Hg) as [?|Hx]; [done|]. right. by apply Hsh.
      * destruct (H2 g' x Hg') as [Hx|Hx]; [|right; by apply Hsh]. left. apply elem_of_union_r, elem_of_difference.
        split; [done|]. by rewrite recv_set_elem.
  - intros g1 g2 x E1 E2. destruct (decide (g1 = g)) as [->|N1], (decide (g2 = g)) as [->|N2]; [by left|..];
      rewrite ?lookup_insert_eq, ?lookup_insert_ne in E1 by done; rewrite ?lookup_insert_eq, ?lookup_insert_ne in E2 by done.
    + right. eapply (Helse g2); [congruence|done..].
    + right. eapply (Helse g1); [congruence|done..].
    + destruct (H3 g1 g2 x E1 E2) as [?|Hx]; [by left|right; by apply Hsh].
Qed.
Lemma users_ok_gone g c u : current u !! g = Some c → users_ok u → users_ok (gone g c u).
Proof.
  intros Hg [H1 H2 H3]. split; cbn [gone current live shared].
  - intros x [Hx Hc]%elem_of_difference. destruct (H1 x Hx) as [g' Hg']. exists g'. rewrite lookup_delete_ne; [done|].
    intros ->. apply Hc, recv_set_elem. congruence.
  - intros g' x [Hne Hg']%lookup_delete_Some. destruct (decide (c = Some x)) as [->|Hc].
    + destruct (H3 g' g x Hg' Hg) as [?|Hx]; [done|by right].
    + destruct (H2 g' x Hg') as [Hx|Hx]; [left|by right]. apply elem_of_difference. by rewrite recv_set_elem.
  - intros g1 g2 x [_ E1]%lookup_delete_Some [_ E2]%lookup_delete_Some. by apply (H3 g1 g2 x).
Qed.

(** [wired a m σ u]: the device [a] receives into the multi receiver [m], which holds exactly the live receivers; these only keep
    what they are handed. *)
Definition part (m : nat) (acc c : option nat) : object :=
  match acc with Some acc => GeneratedAccess m acc c | None => SplitRecv m c end.
Record wired (a m : nat) (σ : store) (u : users) : Prop := {
  wired_surface : heap σ !! a = Some (Surface (Some m));
  wired_multi : ∃ ls, heap σ !! m = Some (MultiRecv ls) ∧ StronglySorted ptr_lt ls ∧ ∀ x, x ∈ ls ↔ x ∈ live u;
  wired_access : ∀ g c, current u !! g = Some c → ∃ acc, heap σ !! g = Some (part m acc c);
  wired_sink : ∀ x, x ∈ live u → ∃ got, heap σ !! x = Some (Sink got);
  wired_users : users_ok u;
  wired_next : ∀ x, is_Some (heap σ !! x) → (x < next σ)%nat
}.

(** What the program does around the multi receiver [m]: it generates accesses, parts and receivers, gives one
    a receiver (or null), whether or not another has it, deletes an access, and receives. *)
Inductive step (m : nat) : store * users → store * users → Prop :=
  | step_generate σ u acc : step m (σ, u) (snd (generate_net_access m acc σ), opened (next σ) u)
  | step_split σ u : step m (σ, u) (snd (split_loop m 1 [] σ), opened (next σ) u)
  | step_sink σ u : step m (σ, u) (snd (alloc (Sink []) σ), u)
  | step_set σ u fuel g c recv σ' :
      current u !! g = Some c → (∀ x, recv = Some x → ∃ got, heap σ !! x = Some (Sink got)) →
      set_recv_access (S fuel) g recv σ = Ok σ' → step m (σ, u) (σ', given g c recv u)
  | step_delete σ u g c σ' : current u !! g = Some c → delete_generated g σ = Ok σ' → step m (σ, u) (σ', gone g c u)
  | step_recv σ u fuel data σ' :
      (∀ fuel', (fuel ≤ fuel')%nat → handle_recv fuel' m data σ = Ok σ') → step m (σ, u) (σ', u).

(** Dropping the current receiver of an access from the set. *)
Definition without (c : option nat) (ls : list nat) : list nat := match c with Some x => set_erase x ls | None => ls end.
Definition with_recv (c : option nat) (ls : list nat) : list nat := match c with Some x => set_insert x ls | None => ls end.

Lemma remove_curr m ls c σ :
  heap σ !! m = Some (MultiRecv ls) →
  ∃ σ', (if bool_decide (c ≠ None) then '(_, σ) ← remove_listener m c σ; Ok σ else Ok σ) = Ok σ' ∧
    heap σ' = <[m := MultiRecv (without c ls)]> (heap σ) ∧ next σ' = next σ.
Proof.
  intros Hm. destruct c as [x|]; cbn [without].
  - rewrite bool_decide_true by done. unfold remove_listener, deref. rewrite Hm. cbn [of_option mbind res_bind].
    case_bool_decide as Hx; cbn [negb mbind res_bind]; [by eexists|]. exists σ. rewrite set_erase_absent by done. by rewrite insert_id.
  - rewrite bool_decide_false by naive_solver. exists σ. by rewrite insert_id.
Qed.
Lemma add_recv_ok m ls r σ :
  heap σ !! m = Some (MultiRecv ls) →
  ∃ σ', add_recv_listener m r σ = Ok σ' ∧ heap σ' = <[m := MultiRecv (with_recv r ls)]> (heap σ) ∧ next σ' = next σ.
Proof.
  intros Hm. destruct r as [x|]; cbn [with_recv add_recv_listener].
  - unfold deref. rewrite Hm. by eexists.
  - exists σ. by rewrite insert_id.
Qed.
Lemma set_recv_wired a m σ u fuel g c recv :
  wired a m σ u → current u !! g = Some c →
  ∃ σ' ls acc, heap σ !! m = Some (MultiRecv ls) ∧ set_recv_access (S fuel) g recv σ = Ok σ' ∧
    heap σ' = <[g := part m acc recv]> (<[m := MultiRecv (with_recv recv (without c ls))]> (heap σ)) ∧ next σ' = next σ.
Proof.
  intros Hw Hg. destruct (wired_multi _ _ _ _ Hw) as (ls & Hm & Hs & Hls). destruct (wired_access _ _ _ _ Hw g c Hg) as [acc Ha].
  destruct (remove_curr m ls c σ Hm) as (σ1 & H1 & E1 & N1).
  destruct (add_recv_ok m (without c ls) recv σ1) as (σ2 & H2 & E2 & N2). { by rewrite E1, lookup_insert_eq. }
  exists (write g (part m acc recv) σ2), ls, acc. split; [done|].
  cbn [set_recv_access]. unfold deref. rewrite Ha. split.
  { destruct acc; cbn [part of_option mbind res_bind]; rewrite H1; cbn [mbind res_bind]; by rewrite H2. }
  cbn [write heap next]. by rewrite E2, E1, insert_insert_eq, N2.
Qed.

(** Two addresses differ because different objects are there. *)
Ltac apart := intros ->;
  repeat match goal with H : context [part _ ?acc _] |- _ => is_var acc; destruct acc; cbn [part] in H end; congruence.

Lemma without_elem c ls x : x ∈ without c ls ↔ c ≠ Some x ∧ x ∈ ls.
Proof. destruct c as [y|]; cbn [without]; [rewrite set_erase_elem|]; naive_solver. Qed.
Lemma with_recv_elem r ls x : x ∈ with_recv r ls ↔ r = Some x ∨ x ∈ ls.
Proof. destruct r as [y|]; cbn [with_recv]; [rewrite set_insert_elem|]; naive_solver. Qed.
Lemma without_sorted c ls : StronglySorted ptr_lt ls → StronglySorted ptr_lt (without c ls).
Proof. destruct c; [apply set_erase_sorted|done]. Qed.
Lemma with_recv_sorted r ls : StronglySorted ptr_lt ls → StronglySorted ptr_lt (with_recv r ls).
Proof. destruct r; [apply set_insert_sorted|done]. Qed.

Lemma wired_set a m σ u fuel g c recv σ' :
  wired a m σ u → current u !! g = Some c → (∀ x, recv = Some x → ∃ got, heap σ !! x = Some (Sink got)) →
  set_recv_access (S fuel) g recv σ = Ok σ' → wired a m σ' (given g c recv u).
Proof.
  intros Hw Hg Hr Hset. destruct (set_recv_wired a m σ u fuel g c recv Hw Hg) as (σ1 & ls & acc & Hm & E & Hh & Hn).
  rewrite E in Hset. injection Hset as ->. destruct (wired_multi _ _ _ _ Hw) as (ls' & Hm' & Hs & Hls).
  rewrite Hm in Hm'. injection Hm' as <-. destruct (wired_access _ _ _ _ Hw g c Hg) as [acc' Ha].
  assert (Hgm : g ≠ m) by apart.
  assert (Hsurf := wired_surface _ _ _ _ Hw). split; cbn [given current live].
  - by rewrite Hh, !lookup_insert_ne by apart.
  - exists (with_recv recv (without c ls)). rewrite Hh, lookup_insert_ne, lookup_insert_eq by done. split; [done|].
    split; [by apply with_recv_sorted, without_sorted|]. intros x.
    rewrite with_recv_elem, without_elem, Hls, elem_of_union, elem_of_difference, !recv_set_elem. tauto.
  - intros g' c' Hg'. rewrite Hh. destruct (decide (g' = g)) as [->|Hne].
    + rewrite lookup_insert_eq in Hg'. injection Hg' as <-. exists acc. by rewrite lookup_insert_eq.
    + rewrite lookup_insert_ne in Hg' by done. destruct (wired_access _ _ _ _ Hw g' c' Hg') as [acc2 Ha2]. exists acc2.
      by rewrite !lookup_insert_ne by apart.
  - intros x Hx. assert (∃ got, heap σ !! x = Some (Sink got)) as [got Hgot].
    { apply elem_of_union in Hx as [Hx|[Hx _]%elem_of_difference]; [by apply Hr, recv_set_elem|by apply (wired_sink _ _ _ _ Hw)]. }
    exists got. by rewrite Hh, !lookup_insert_ne by apart.
  - apply users_ok_given; [done|apply Hw].
  - intros x Hx. rewrite Hn. apply (wired_next _ _ _ _ Hw). rewrite Hh in Hx.
    destruct (decide (x = g)) as [->|]; [by rewrite Ha|]. rewrite lookup_insert_ne in Hx by done.
    destruct (decide (x = m)) as [->|]; [by rewrite Hm|]. by rewrite lookup_insert_ne in Hx.
Qed.

Lemma wired_alloc a m σ u o : wired a m σ u → wired a m (snd (alloc o σ)) u.
Proof.
  intros Hw. assert (Hf : ∀ x o', heap σ !! x = Some o' → heap (snd (alloc o σ)) !! x = Some o').
  { intros x o' Hx. cbn. rewrite lookup_insert_ne; [done|]. specialize (wired_next _ _ _ _ Hw x (mk_is_Some _ _ Hx)). lia. }
  split.
  - apply Hf, Hw.
  - destruct (wired_multi _ _ _ _ Hw) as (ls & Hm & Hls). exists ls. split; [by apply Hf|done].
  - intros g c [acc Hg]%(wired_access _ _ _ _ Hw). exists acc. by apply Hf.
  - intros x [got Hx]%(wired_sink _ _ _ _ Hw). exists got. by apply Hf.
  - apply Hw.
  - intros x. cbn. destruct (decide (x = next σ)) as [->|]; [lia|]. rewrite lookup_insert_ne by done.
    intros Hx%(wired_next _ _ _ _ Hw). lia.
Qed.
Lemma wired_generate a m σ u acc : wired a m σ u → wired a m (snd (alloc (part m acc None) σ)) (opened (next σ) u).
Proof.
  intros Hw. assert (Hn : current u !! next σ = None).
  { destruct (current u !! next σ) as [c|] eqn:E; [|done]. apply (wired_access _ _ _ _ Hw) in E as [acc' E].
    specialize (wired_next _ _ _ _ Hw _ (mk_is_Some _ _ E)). lia. }
  pose proof (wired_alloc a m σ u (part m acc None) Hw) as Hw'. split; try apply Hw'.
  - intros g c Hg. cbn [opened current] in Hg. destruct (decide (g = next σ)) as [->|].
    + rewrite lookup_insert_eq in Hg. injection Hg as <-. exists acc. cbn. by rewrite lookup_insert_eq.
    + rewrite lookup_insert_ne in Hg by done. by apply (wired_access _ _ _ _ Hw').
  - by apply users_ok_opened; [|apply Hw].
Qed.
Lemma wired_delete a m σ u g c σ' : wired a m σ u → current u !! g = Some c →
  delete_generated g σ = Ok σ' → wired a m σ' (gone g c u).
Proof.
  intros Hw Hg. destruct (wired_multi _ _ _ _ Hw) as (ls & Hm & Hs & Hls). destruct (wired_access _ _ _ _ Hw g c Hg) as [acc Ha].
  assert (Hgm : g ≠ m) by apart. assert (Hsurf := wired_surface _ _ _ _ Hw).
  unfold delete_generated, deref. rewrite Ha. destruct acc as [acc|]; cbn [part of_option mbind res_bind] in *; [|done].
  destruct (remove_curr m ls c σ Hm) as (σ1 & H1 & E1 & N1).
  rewrite H1. cbn [mbind res_bind]. intros [= <-].
  assert (Hk : ∀ x, x ≠ g → x ≠ m → delete g (heap σ1) !! x = heap σ !! x).
  { intros x ? ?. by rewrite E1, lookup_delete_ne, lookup_insert_ne. }
  split; cbn [destroy heap next gone current live].
  - rewrite Hk by apart. done.
  - exists (without c ls). rewrite E1, lookup_delete_ne, lookup_insert_eq by done. split; [done|].
    split; [by apply without_sorted|]. intros x. rewrite without_elem, Hls, elem_of_difference, recv_set_elem. tauto.
  - intros g' c' [Hne Hg']%lookup_delete_Some. destruct (wired_access _ _ _ _ Hw g' c' Hg') as [acc2 Ha2]. exists acc2.
    by rewrite Hk by apart.
  - intros x [Hx _]%elem_of_difference. destruct (wired_sink _ _ _ _ Hw x Hx) as [got Hgot]. exists got.
    by rewrite Hk by apart.
  - apply users_ok_gone; [done|apply Hw].
  - intros x Hx. rewrite N1. apply (wired_next _ _ _ _ Hw). destruct (decide (x = g)) as [->|]; [by rewrite Ha|].
    destruct (decide (x = m)) as [->|]; [by rewrite Hm|]. by rewrite Hk in Hx.
Qed.

(** A packet reaches every live receiver, once, and nothing else. *)
Definition delivered (u : users) (data : list Z) (σ σ' : store) : Prop :=
  next σ' = next σ ∧
  ∀ x, if decide (x ∈ live u)
       then ∃ got, heap σ !! x = Some (Sink got) ∧ heap σ' !! x = Some (Sink (got ++ [data]))
       else heap σ' !! x = heap σ !! x.

Lemma wired_recv a m σ u data : wired a m σ u →
  ∃ fuel σ', (∀ fuel', (fuel ≤ fuel')%nat → handle_recv fuel' m data σ = Ok σ') ∧ delivered u data σ σ' ∧ wired a m σ' u.
Proof.
  intros Hw. destruct (wired_multi _ _ _ _ Hw) as (ls & Hm & Hs & Hls).
  assert (Hk : sinks ls (heap σ)). { intros x Hx%Hls. by apply (wired_sink _ _ _ _ Hw). }
  destruct (multi_recv_ok m ls data (List.length ls + 3) σ Hm Hs Hk) as (σ' & H1 & H2 & H3 & H4); [done|].
  exists (List.length ls + 3)%nat, σ'. split.
  { intros fuel' Hf. destruct (multi_recv_ok m ls data fuel' σ Hm Hs Hk Hf) as (σ2 & H1' & H2' & H3' & H4'). rewrite H1'. f_equal.
    destruct σ' as [h1 n1 w1], σ2 as [h2 n2 w2]; cbn in *. f_equal; [|congruence..]. apply map_eq. intros x. by rewrite H2, H2'. }
  assert (Hout : ∀ x, x ∉ ls → heap σ' !! x = heap σ !! x). { intros x Hx. by rewrite H2, bool_decide_false. }
  assert (Hin : ∀ x, x ∈ ls → ∃ got, heap σ !! x = Some (Sink got) ∧ heap σ' !! x = Some (Sink (got ++ [data]))).
  { intros x Hx. destruct (Hk x Hx) as [got Hgot]. exists got. by rewrite H2, bool_decide_true, Hgot. }
  assert (Hkeep : ∀ x o, heap σ !! x = Some o → (∀ got, o ≠ Sink got) → heap σ' !! x = Some o).
  { intros x o Ho Hn. rewrite Hout; [done|]. intros Hx. destruct (Hk x Hx) as [got Hgot]. congruence. }
  split; [split; [done|]; intros x; destruct (decide (x ∈ live u)) as [Hx|Hx]|split].
  - by apply Hin, Hls.
  - apply Hout. by rewrite Hls.
  - apply Hkeep; [apply Hw|done].
  - exists ls. split; [by apply Hkeep|done].
  - intros g c [acc Hg]%(wired_access _ _ _ _ Hw). exists acc. apply Hkeep; [done|by destruct acc].
  - intros x Hx. destruct (Hin x) as (got & _ & ?); [by apply Hls|]. by eexists.
  - apply Hw.
  - intros x Hx. rewrite H3. apply (wired_next _ _ _ _ Hw). rewrite H2 in Hx. case_bool_decide; [|done].
    by apply fmap_is_Some in Hx.
Qed.

Lemma wired_steps a m s s' : rtc (step m) s s' → wired a m (fst s) (snd s) → wired a m (fst s') (snd s').
Proof.
  induction 1 as [|s1 s2 s3 Hst _ IH]; [done|]. intros Hw. apply IH. clear IH. destruct Hst; cbn [fst snd] in *.
  - by apply (wired_generate a m σ u (Some acc)).
  - by apply (wired_generate a m σ u None).
  - by apply wired_alloc.
  - by eapply wired_set.
  - by eapply wired_delete.
  - destruct (wired_recv a m σ u data Hw) as (n & σ1 & E & _ & Hw'). specialize (E (n + fuel)%nat ltac:(lia)).
    rewrite H0 in E by lia. congruence.
Qed.

(** No access yet. *)
Definition no_users : users := Users ∅ ∅ ∅.

(** Well-formed stores have no object beyond [next]. *)
Definition fresh_next (σ : store) : Prop := ∀ x, is_Some (heap σ !! x) → (x < next σ)%nat.

Lemma fresh_single o : fresh_next (Store {[0%nat := o]} 1 []).
Proof. intros x [o' Hx]. cbn in Hx |- *. apply lookup_singleton_Some in Hx as [<- _]. lia. Qed.

Lemma multi_net_access_wired fuel a σ r m σ' :
  heap σ !! a = Some (Surface r) → fresh_next σ → multi_net_access (S fuel) a σ = Ok (m, σ') →
  m = next σ ∧ wired a m σ' no_users.
Proof.
  intros Ha Hf. assert (a < next σ)%nat by (apply Hf; by rewrite Ha).
  unfold multi_net_access. cbn [alloc set_recv_access]. unfold deref. cbn [heap].
  rewrite lookup_insert_ne, Ha by lia. cbn. intros [= <- <-]. split; [done|]. split; cbn [heap next write].
  - by rewrite lookup_insert_eq.
  - exists []. rewrite lookup_insert_ne, lookup_insert_eq by lia. repeat split; [constructor|set_solver..].
  - intros g c Hg. cbn in Hg. by rewrite lookup_empty in Hg.
  - intros x Hx. cbn in Hx. set_solver.
  - split; cbn; [set_solver|intros g x Hg; by rewrite lookup_empty in Hg|intros g g' x Hg; by rewrite lookup_empty in Hg].
  - intros x. destruct (decide (x = a)) as [->|]; [lia|]. rewrite lookup_insert_ne by done.
    destruct (decide (x = next σ)) as [->|]; [lia|]. rewrite lookup_insert_ne by done. intros Hx%Hf. lia.
Qed.

(** C11: accesses that share a device. After [multi_net_access] is built over a device, whatever sequence of steps
    follows (accesses and parts are created, receivers that keep what they are handed are created, set, replaced, taken away and shared,
    accesses are deleted, packets arrive), giving an access a receiver always succeeds, and a packet that arrives at the
    device is handed exactly once to each live receiver, to nothing else, and the call ends.  A live receiver is that of an
    access; and the receiver of an access is live, unless it is one that two accesses have had at the same time, which the first of them to let it go
    has taken from both. *)
Theorem shared_receivers fuel0 a σ0 r m σ1 σ u data :
  heap σ0 !! a = Some (Surface r) → fresh_next σ0 →
  multi_net_access (S fuel0) a σ0 = Ok (m, σ1) → rtc (step m) (σ1, no_users) (σ, u) →
  (∃ fuel σ', (∀ fuel', (fuel ≤ fuel')%nat → receive fuel' a data σ = Ok σ') ∧ delivered u data σ σ') ∧
  (∀ x, x ∈ live u → ∃ g, current u !! g = Some (Some x)) ∧
  (∀ g x, current u !! g = Some (Some x) → x ∈ live u ∨ x ∈ shared u) ∧
  (∀ fuel g recv, is_Some (current u !! g) → ∃ σ', set_recv_access (S fuel) g recv σ = Ok σ').
Proof.
  intros Ha Hf Hb Hr. destruct (multi_net_access_wired _ _ _ _ _ _ Ha Hf Hb) as [-> Hw].
  apply (wired_steps a _ _ _ Hr) in Hw. cbn [fst snd] in Hw. split; [|split; [|split]].
  - destruct (wired_recv a _ σ u data Hw) as (fuel & σ' & H1 & H2 & _). exists fuel, σ'. split; [|done].
    intros fuel' Hle. unfold receive, deref. rewrite (wired_surface _ _ _ _ Hw). cbn. by apply H1.
  - apply Hw.
  - apply Hw.
  - intros fuel g recv [c Hg]. destruct (set_recv_wired a _ σ u fuel g c recv Hw Hg) as (σ' & ? & ? & _ & E & _).
    rewrite E. by eexists.
Qed.

(** ** Generators *)

Fixpoint receive_all (fuel : nat) (a : nat) (pkts : list (list Z)) (σ : store) : res store :=
  match pkts with [] => Ok σ | pkt :: pkts => σ ← receive fuel a pkt σ; receive_all fuel a pkts σ end.

(** The device [a] receives into the generator that [connect_generator] made, not into the multi receiver [n] that
    it made before; the accesses opened so far have received the data [ds], one packet each. *)
Record generating (a n : nat) (f : F) (ds : list (H * list Z)) (σ : store) : Prop := {
  gen_before : (a < n)%nat;
  gen_next : next σ = (n + 3 + 5 * List.length ds)%nat;
  gen_surface : heap σ !! a = Some (Surface (Some (n + 2)%nat));
  gen_proto : heap σ !! (n + 2)%nat = Some (ProtoRecv f (n + 1));
  gen_recv : heap σ !! (n + 1)%nat = Some (GeneratorRecv f n a true);
  gen_multi : ∃ ls, heap σ !! n = Some (MultiRecv ls);
  gen_opened : ∀ i h d, ds !! i = Some (h, d) →
    heap σ !! (n + 3 + 5 * i + 1)%nat = Some (SingleAccess (n + 3 + 5 * i) (gen_filter f h) (Some (n + 3 + 5 * i + 4)%nat)) ∧
    heap σ !! (n + 3 + 5 * i + 4)%nat = Some (Sink [d])
}.

(** A listener that gives each new access a receiver of its own, as the servers under [src/main] do. *)
Definition serve (a : nat) (σ : store) : res store :=
  let '(s, σ) := alloc (Sink []) σ in set_recv_access 1 a (Some s) σ.

Ltac heap_step :=
  repeat first [ rewrite lookup_insert_eq | rewrite lookup_insert_ne by lia
               | progress cbn [of_option mbind res_bind write alloc heap next wire snd fst negb] ].

(** Opening the protocol on a generated access puts its listener into the multi receiver. *)
Lemma single_generated fuel m ls acc k f σ :
  (m < k)%nat → heap σ !! m = Some (MultiRecv ls) → heap σ !! k = Some (GeneratedAccess m acc None) → next σ = S k →
  net_access_single (S fuel) k f σ =
    Ok (S k, Store (<[k := GeneratedAccess m acc (Some (S (S (S k))))]> (<[m := MultiRecv (set_insert (S (S (S k))) ls)]>
                   (<[S (S (S k)) := ProtoRecv f (S (S k))]> (<[S (S k) := SingleRecv (S k)]>
                   (<[S k := SingleAccess k f None]> (heap σ)))))) (S (S (S (S k)))) (wire σ)).
Proof.
  intros Hmk Hm Hk Hn. unfold net_access_single, connect_recv. cbn [alloc heap next]. rewrite Hn. cbn [set_recv_access].
  unfold deref. heap_step. rewrite Hk. heap_step. rewrite bool_decide_false by naive_solver. cbn [add_recv_listener].
  unfold deref. heap_step. rewrite Hm. heap_step. done.
Qed.

Lemma generating_receive fuel a n f ds σ pkt o :
  (∀ g τ, handle_new_net_access prog g τ = serve g τ) → (3 ≤ fuel)%nat →
  generating a n f ds σ → proto_recv f pkt = Ok o →
  ∃ σ', receive fuel a pkt σ = Ok σ' ∧ generating a n f (ds ++ option_list o) σ'.
Proof.
  intros Hhook Hfuel Hg Hp. pose proof Hg as [H1 H2 H3 H4 H5 [ls H6] H7].
  destruct fuel as [|[|[|fuel]]]; try lia. unfold receive, deref. rewrite H3. cbn [of_option mbind res_bind handle_recv].
  unfold deref. rewrite H4. cbn [of_option mbind res_bind]. rewrite Hp. cbn [mbind res_bind].
  destruct o as [[h d]|]; cbn [option_list].
  2: { exists σ. by rewrite app_nil_r. }
  cbn [handle_header]. unfold deref. rewrite H5. cbn [of_option mbind res_bind negb].
  unfold generate_net_access. cbn [alloc]. set (k := next σ) in *.
  rewrite (single_generated fuel n ls a k) by (cbn [heap next]; heap_step; (done || lia)). cbn [mbind res_bind heap].
  rewrite Hhook. unfold serve. cbn [alloc heap next set_recv_access]. unfold deref. heap_step. cbn [handle_recv].
  unfold deref. heap_step. eexists. split; [reflexivity|]. split; cbn [heap next]; heap_step; try done.
  - rewrite length_app. simpl. lia.
  - by eexists.
  - intros i h' d' [Hi|[Hi Hd]]%lookup_app_Some.
    + assert (i < List.length ds)%nat by by eapply lookup_lt_Some. heap_step. by apply H7.
    + assert (i = List.length ds) as -> by (apply list_lookup_singleton_Some in Hd; lia).
      apply list_lookup_singleton_Some in Hd as [_ [= <- <-]]. rewrite <- H2.
      replace (k + 1)%nat with (S k) by lia. replace (k + 4)%nat with (S (S (S (S k)))) by lia. by heap_step.
Qed.

Lemma connect_generator_ok fuel a f r σ :
  heap σ !! a = Some (Surface r) → fresh_next σ →
  ∃ σ', connect_generator (S fuel) a f true σ = Ok σ' ∧ generating a (next σ) f [] σ'.
Proof.
  intros Ha Hf. assert (Hlt : (a < next σ)%nat) by (apply Hf; by rewrite Ha). set (n := next σ) in *.
  unfold connect_generator, multi_net_access, connect_recv. cbn [alloc set_recv_access]. fold n. unfold deref. heap_step. rewrite Ha.
  heap_step. eexists. split; [reflexivity|]. assert (E1 : (n + 1)%nat = S n) by lia. assert (E2 : (n + 2)%nat = S (S n)) by lia.
  split; cbn [heap next]; rewrite ?E1, ?E2; heap_step; try done; try (simpl; lia). by eexists.
Qed.

Lemma generating_receive_all fuel a n f pkts os ds σ :
  (∀ g τ, handle_new_net_access prog g τ = serve g τ) → (3 ≤ fuel)%nat →
  generating a n f ds σ → Forall2 (λ pkt o, proto_recv f pkt = Ok o) pkts os →
  ∃ σ', receive_all fuel a pkts σ = Ok σ' ∧ generating a n f (ds ++ omap (λ o, o) os) σ'.
Proof.
  intros Hhook Hfuel Hg Hp. revert ds σ Hg. induction Hp as [|pkt o pkts os Ho _ IH]; intros ds σ Hg.
  { exists σ. by rewrite app_nil_r. }
  destruct (generating_receive fuel a n f ds σ pkt o Hhook Hfuel Hg Ho) as (σ1 & E & Hg1). cbn [receive_all]. rewrite E.
  cbn [mbind res_bind]. destruct (IH _ _ Hg1) as (σ2 & E2 & Hg2). exists σ2. split; [done|].
  rewrite <- app_assoc in Hg2. by destruct o.
Qed.

(** C12: the generator of a protocol. After [connect_net_access_generator_listener] on a device, every packet that
    the generator's filters accept opens an access of its own, whose receiver gets the data of that packet
    and of no other, even though later packets pass its filter too: the generator's own listener has taken the
    place of the multi receiver that the opened accesses share, so nothing that arrives reaches them again. *)
Theorem generator_opens_for_each_packet fuel a f r σ pkts os :
  (∀ g τ, handle_new_net_access prog g τ = serve g τ) → (3 ≤ fuel)%nat →
  heap σ !! a = Some (Surface r) → fresh_next σ → Forall2 (λ pkt o, proto_recv f pkt = Ok o) pkts os →
  ∃ σ1 σ2, connect_generator fuel a f true σ = Ok σ1 ∧ receive_all fuel a pkts σ1 = Ok σ2 ∧
    let n := next σ in
    heap σ2 !! a = Some (Surface (Some (n + 2)%nat)) ∧ heap σ2 !! (n + 2)%nat = Some (ProtoRecv f (n + 1)) ∧
    next σ2 = (n + 3 + 5 * List.length (omap (λ o, o) os))%nat ∧
    ∀ i h d, omap (λ o, o) os !! i = Some (h, d) →
      heap σ2 !! (n + 3 + 5 * i + 1)%nat = Some (SingleAccess (n + 3 + 5 * i) (gen_filter f h) (Some (n + 3 + 5 * i + 4)%nat)) ∧
      heap σ2 !! (n + 3 + 5 * i + 4)%nat = Some (Sink [d]).
Proof.
  intros Hhook Hfuel Ha Hf Hp. destruct fuel as [|fuel]; [lia|].
  destruct (connect_generator_ok fuel a f r σ Ha Hf) as (σ1 & E1 & Hg1).
  destruct (generating_receive_all (S fuel) a _ f pkts os [] σ1 Hhook Hfuel Hg1 Hp) as (σ2 & E2 & Hg2).
  exists σ1, σ2. split; [done|]. split; [done|]. cbn [app] in Hg2. destruct Hg2. split; [done|]. split; [done|]. split; [done|]. exact gen_opened0.
Qed.
End net_access.

(** The same steps for the programs built on the store. *)
Ltac heap_step :=
  repeat first [ rewrite lookup_insert_eq | rewrite lookup_insert_ne by lia
               | progress cbn [of_option mbind res_bind write alloc heap next wire snd fst negb] ].

#[local] Existing Instance allocation_order.

(** Two accesses share a device over IPv4, and a receiver; when the first is deleted, the second has the receiver but it is live no
    more. *)
Lemma shared_receivers_witness :
  let hook := Application (F := option ip4_addr * option ip4_addr * option Z) (H := ip4_header) (λ _ σ, Ok σ) (λ _ d, Ok d) in
  let σ0 := Store {[0%nat := Surface None]} 1 [] in
  ∃ σ1 σ u,
    multi_net_access 1 0 σ0 = Ok (1%nat, σ1) ∧
    rtc (step (H := ip4_header) hook 1) (σ1, no_users) (σ, u) ∧
    (current u = {[3%nat := Some 4%nat]} ∧ live u = ∅ ∧ shared u = {[4%nat]}) ∧
    (∃ fuel σ', (∀ fuel', (fuel ≤ fuel')%nat → receive (H := ip4_header) hook fuel' 0 [7] σ = Ok σ') ∧ delivered u [7] σ σ') ∧
    (∀ x, x ∈ live u → ∃ g, current u !! g = Some (Some x)) ∧
    (∀ g x, current u !! g = Some (Some x) → x ∈ live u ∨ x ∈ shared u) ∧
    (∀ fuel g recv, is_Some (current u !! g) → ∃ σ', set_recv_access (S fuel) g recv σ = Ok σ').
Proof.
  intros hook σ0. eexists _, _, _. split; [vm_compute; reflexivity|].
  match goal with |- ?A ∧ _ => assert (Hr : A) end.
  { eapply rtc_l; [apply (step_generate hook 1 _ _ 0)|]. eapply rtc_l; [apply (step_generate hook 1 _ _ 0)|].
    eapply rtc_l; [apply step_sink|].
    eapply rtc_l; [eapply (step_set hook 1 _ _ 0 2 None (Some 4%nat)); [reflexivity| |vm_compute; reflexivity]; intros x [= <-]; by eexists|].
    eapply rtc_l; [eapply (step_set hook 1 _ _ 0 3 None (Some 4%nat)); [reflexivity| |vm_compute; reflexivity]; intros x [= <-]; by eexists|].
    eapply rtc_l; [|apply rtc_refl]. eapply (step_delete hook 1 _ _ 2 (Some 4%nat)); [reflexivity|vm_compute; reflexivity]. }
  split; [exact Hr|]. split; [by vm_compute|].
  eapply (shared_receivers hook 0 0 σ0 None 1); [reflexivity| |vm_compute; reflexivity|exact Hr].
  apply fresh_single.
Defined.

Definition res_values {A B} (f : A → res (option B)) (l : list A) : list (option B) :=
  (λ x, match f x with Ok o => o | Fault _ => None end) <$> l.
Definition example_packet (src : Z) (data : list Z) : list Z :=
  match ip4_send true (Ip4Header 4 5 0 (20 + Z.of_nat (List.length data)) 1 0 0 64 ip_prot_udp 0
                         (Ip4Addr [10; 0; 0; src]) (Ip4Addr [10; 0; 0; 9])) data with
  | Ok (Some pkt) => pkt
  | _ => []
  end.

(** The same host sends two packets: two accesses are opened, each with one of them. *)
Lemma generator_opens_for_each_packet_witness :
  let f : option ip4_addr * option ip4_addr * option Z := (None, Some (Ip4Addr [10; 0; 0; 9]), Some ip_prot_udp) in
  let σ := Store {[0%nat := Surface None]} 1 [] in
  ∃ σ1 σ2, connect_generator 3 0 f true σ = Ok σ1 ∧
    receive_all (H := ip4_header) (Application serve (λ _ d, Ok d)) 3 0 [example_packet 1 [7]; example_packet 1 [8]] σ1 = Ok σ2 ∧
    next σ2 = 14%nat ∧ heap σ2 !! 8%nat = Some (Sink [[7]]) ∧ heap σ2 !! 13%nat = Some (Sink [[8]]).
Proof.
  intros f σ.
  destruct (generator_opens_for_each_packet (H := ip4_header) (Application serve (λ _ d, Ok d)) 3 0 f None σ [example_packet 1 [7]; example_packet 1 [8]]
      (res_values (λ pkt, proto_recv f pkt) [example_packet 1 [7]; example_packet 1 [8]]))
    as (σ1 & σ2 & E1 & E2 & _ & _ & E3 & E4).
  - done.
  - lia.
  - done.
  - apply fresh_single.
  - constructor; [vm_compute; reflexivity|]. constructor; [vm_compute; reflexivity|constructor].
  - exists σ1, σ2. split; [done|]. split; [done|]. split; [exact E3|].
    split; [eapply (E4 0%nat _ [7])|eapply (E4 1%nat _ [8])]; vm_compute; reflexivity.
Defined.
