(* ===== verification/Async.v ===== *)
(** The asynchronous receiver of [src/abstract/receiving/async_recv_listener.h]: a queue that producers fill and
    a worker thread empties into a listener, as a labelled transition system.

    The queue enters by its promise [BoundedQueue].  Everything that touches it holds [buff_mtx], so a critical
    section is one step, possible when the worker does not hold the mutex; the worker keeps it from the
    moment it takes a message to the end of the listener's [handle_recv].  Only the worker uses [awake_mtx], which
    the producers do not take before they notify: a notification that comes between the test of the
    wake condition and the moment the worker sleeps is lost. *)

From Stdlib Require Import ZArith Lia.
From stdpp Require Import base decidable list relations numbers.
From S2P Require Import Prelude CircularQueue.

Section async.
Context {Q T L : Type} `{!BoundedQueue Q T}.

(** Where the worker is. *)
Inductive worker_pc : Type :=
  | Top                     (** [while (!stop_flag)] *)
  | Pred                    (** about to evaluate the predicate of [wait], with [awake_mtx] *)
  | Falling                 (** the predicate was false; not asleep yet *)
  | Sleeping                (** blocked in [wait], [awake_mtx] released *)
  | Woken                   (** [wait] returned *)
  | Taking                  (** holds [buff_mtx] *)
  | Forwarding (data : T)   (** holds [buff_mtx] with a message taken out *)
  | Done.

Record async_recv_listener := AsyncRecvListener {
  listener : option L;
  queue : Q;
  stop_flag : bool;
  pc : worker_pc
}.

Inductive event : Type :=
  | Tau
  | Accept (data : T)              (** [handle_recv] stored a message *)
  | Refuse (data : T)              (** [handle_recv] found the queue full *)
  | Take (data : T)                (** the worker took a message out of the queue *)
  | Deliver (l : L) (data : T)     (** the worker called the listener *)
  | Discard (data : T)             (** the worker had taken a message and there was no listener *)
  | SetListener (l : L)            (** [set_recv_listener] of a listener that is not null *)
  | RemoveListener.                (** [remove_listener] *)

Definition new_async (q : Q) : async_recv_listener := AsyncRecvListener None q false Top.
Definition go (s : async_recv_listener) (p : worker_pc) : async_recv_listener :=
  AsyncRecvListener (listener s) (queue s) (stop_flag s) p.

(** The worker holds [buff_mtx]. *)
Definition holds_buff (p : worker_pc) : bool := match p with Taking | Forwarding _ => true | _ => false end.
(** [notify_one] and [notify_all]: there is one waiter at most. *)
Definition notify (p : worker_pc) : worker_pc := match p with Sleeping => Pred | p => p end.

(** One step of the worker; [None] when it is blocked or has ended. *)
Definition worker (s : async_recv_listener) : option (event * async_recv_listener) :=
  match pc s with
  | Top => Some (Tau, go s (if stop_flag s then Done else Pred))
  | Pred => Some (Tau, go s (if stop_flag s then Woken else if q_empty (queue s) then Falling else Woken))
  | Falling => Some (Tau, go s Sleeping)
  | Sleeping => None
  | Woken => Some (Tau, go s (if stop_flag s then Done else Taking))
  | Taking =>
      if q_empty (queue s) then Some (Tau, go s Top)
      else
        match q_front (queue s) with
        | None => None
        | Some data =>
            Some (Take data, AsyncRecvListener (listener s) (snd (q_pop_front (queue s))) (stop_flag s) (Forwarding data))
        end
  | Forwarding data =>
      Some (match listener s with None => Discard data | Some l => Deliver l data end, go s Top)
  | Done => None
  end.

(** [handle_recv]; [None] while the worker holds the mutex. *)
Definition handle_recv_async (data : T) (s : async_recv_listener) : option (event * async_recv_listener) :=
  if holds_buff (pc s) then None
  else if q_full (queue s) then Some (Refuse data, s)
  else Some (Accept data, AsyncRecvListener (listener s) (snd (q_push_back data (queue s))) (stop_flag s) (notify (pc s))).

(** The two operations that take [listener_mtx], which the worker holds only while it forwards. *)
Definition set_recv_listener (l : option L) (s : async_recv_listener) : async_recv_listener :=
  match l with None => s | Some l => AsyncRecvListener (Some l) (queue s) (stop_flag s) (pc s) end.
Definition set_event (l : option L) : event := match l with None => Tau | Some l => SetListener l end.
Definition remove_async_listener (s : async_recv_listener) : async_recv_listener :=
  AsyncRecvListener None (queue s) (stop_flag s) (pc s).

(** The first two statements of the destructor. *)
Definition stop (s : async_recv_listener) : async_recv_listener :=
  AsyncRecvListener (listener s) (queue s) true (notify (pc s)).

Inductive async_step : async_recv_listener → event → async_recv_listener → Prop :=
  | step_worker s e s' : worker s = Some (e, s') → async_step s e s'
  | step_producer s data e s' : handle_recv_async data s = Some (e, s') → async_step s e s'
  | step_set_listener s l : async_step s (set_event l) (set_recv_listener l s)
  | step_remove_listener s : async_step s RemoveListener (remove_async_listener s)
  | step_stop s : async_step s Tau (stop s)
  (** A wait may return without a notification. *)
  | step_spurious s : pc s = Sleeping → async_step s Tau (go s Pred).

Inductive async_run : async_recv_listener → list event → async_recv_listener → Prop :=
  | run_nil s : async_run s [] s
  | run_snoc s tr s1 e s2 : async_run s tr s1 → async_step s1 e s2 → async_run s (tr ++ [e]) s2.

(** What a trace accepted, and what it took out of the queue. *)
Definition accepted (tr : list event) : list T := omap (λ e, match e with Accept d => Some d | _ => None end) tr.
Definition processed (tr : list event) : list T :=
  omap (λ e, match e with Deliver _ d | Discard d => Some d | _ => None end) tr.
Definition delivered_to (tr : list event) : list T := omap (λ e, match e with Deliver _ d => Some d | _ => None end) tr.
Definition in_flight (p : worker_pc) : list T := match p with Forwarding d => [d] | _ => [] end.

(** ** The specification: a mailbox

    What the receiver holds, the message on its way to the listener, and the listener.  A message is refused only by a full mailbox; messages
    leave it in the order in which they came; the message on its way goes to the listener that is set then, and is dropped only if none is. *)
Record mailbox := Mailbox { held : list T; on_the_way : option T; mail_listener : option L }.
Inductive mailbox_step : mailbox → event → mailbox → Prop :=
  | mail_tau m : mailbox_step m Tau m
  | mail_accept xs d l : (length xs < q_capacity)%nat → mailbox_step (Mailbox xs None l) (Accept d) (Mailbox (xs ++ [d]) None l)
  | mail_refuse xs d l : length xs = q_capacity → mailbox_step (Mailbox xs None l) (Refuse d) (Mailbox xs None l)
  | mail_take d xs l : mailbox_step (Mailbox (d :: xs) None l) (Take d) (Mailbox xs (Some d) l)
  | mail_deliver xs d l : mailbox_step (Mailbox xs (Some d) (Some l)) (Deliver l d) (Mailbox xs None (Some l))
  | mail_discard xs d : mailbox_step (Mailbox xs (Some d) None) (Discard d) (Mailbox xs None None)
  | mail_set m l : mailbox_step m (SetListener l) (Mailbox (held m) (on_the_way m) (Some l))
  | mail_remove m : mailbox_step m RemoveListener (Mailbox (held m) (on_the_way m) None).
Inductive mailbox_run : mailbox → list event → mailbox → Prop :=
  | mail_nil m : mailbox_run m [] m
  | mail_snoc m tr m1 e m2 : mailbox_run m tr m1 → mailbox_step m1 e m2 → mailbox_run m (tr ++ [e]) m2.
Definition empty_mailbox : mailbox := Mailbox [] None None.
(** The mailbox that a receiver stands for, when its queue stands for [xs]. *)
Definition mail_of (s : async_recv_listener) (xs : list T) : mailbox :=
  Mailbox xs (match pc s with Forwarding d => Some d | _ => None end) (listener s).

(** The worker alone, for at most [n] steps. *)
Fixpoint run_worker (n : nat) (s : async_recv_listener) : list event * async_recv_listener :=
  match n with
  | O => ([], s)
  | S n =>
      match worker s with
      | None => ([], s)
      | Some (e, s) => let '(tr, s) := run_worker n s in (e :: tr, s)
      end
  end.

(** ** Order *)

Lemma accepted_snoc tr e : accepted (tr ++ [e]) = accepted tr ++ accepted [e].
Proof. apply omap_app. Qed.
Lemma processed_snoc tr e : processed (tr ++ [e]) = processed tr ++ processed [e].
Proof. apply omap_app. Qed.
Lemma delivered_snoc tr e : delivered_to (tr ++ [e]) = delivered_to tr ++ delivered_to [e].
Proof. apply omap_app. Qed.

(** One step of the receiver is one of the mailbox. *)
Lemma async_step_mailbox s e s' xs : q_repr (queue s) xs → async_step s e s' →
  ∃ ys, q_repr (queue s') ys ∧ mailbox_step (mail_of s xs) e (mail_of s' ys).
Proof.
  intros Hq Hs. destruct Hs as [s e s' Hw|s d e s' Hp|s l|s|s|s Hpc].
  - unfold worker in Hw. unfold mail_of. destruct (pc s) as [| | | | | |d|] eqn:Ep; simplify_eq.
    all: try (exists xs; split; [done|]; cbn; repeat case_match; simplify_eq; constructor).
    rewrite (q_empty_spec _ _ Hq), (q_front_spec _ _ Hq) in Hw. destruct xs as [|x xs].
    + rewrite bool_decide_true in Hw by done. simplify_eq. exists []. split; [done|constructor].
    + rewrite bool_decide_false in Hw by done. simplify_eq/=. exists xs. split; [apply (q_pop_front_spec _ _ Hq)|constructor].
  - unfold handle_recv_async in Hp. destruct (holds_buff (pc s)) eqn:Hh; [done|].
    assert (Hf : ∀ ys, mail_of s ys = Mailbox ys None (listener s)) by (intros ys; unfold mail_of; by destruct (pc s)).
    destruct (q_push_back_spec _ _ d Hq) as [_ Hr]. pose proof (q_bound _ _ Hq). rewrite (q_full_spec _ _ Hq) in Hp.
    destruct (decide (length xs = q_capacity)).
    + rewrite bool_decide_true in Hp by done. simplify_eq. exists xs. rewrite Hf. split; [done|by constructor].
    + rewrite bool_decide_false in Hp by done. simplify_eq. exists (xs ++ [d]). rewrite bool_decide_true in Hr by lia. split; [done|].
      rewrite Hf. replace (mail_of _ _) with (Mailbox (xs ++ [d]) None (listener s)) by (unfold mail_of; cbn; by destruct (pc s)).
      constructor. lia.
  - exists xs. destruct l as [l|]; (split; [done|]); [apply (mail_set (mail_of s xs))|constructor].
  - exists xs. split; [done|]. apply (mail_remove (mail_of s xs)).
  - exists xs. split; [done|]. replace (mail_of (stop s) xs) with (mail_of s xs) by (unfold mail_of; cbn; by destruct (pc s)). constructor.
  - exists xs. split; [done|]. replace (mail_of (go s Pred) xs) with (mail_of s xs) by (unfold mail_of; cbn; by rewrite Hpc). constructor.
Qed.
Lemma async_run_mailbox q tr s : q_repr q [] → async_run (new_async q) tr s →
  ∃ xs, q_repr (queue s) xs ∧ mailbox_run empty_mailbox tr (mail_of s xs).
Proof.
  intros Hq Hr. remember (new_async q) as s0 eqn:Es. induction Hr as [s|s tr s1 e s2 Hr IH Hst]; subst.
  - exists []. split; [done|constructor].
  - destruct (IH eq_refl) as (xs & Hx & Hm). destruct (async_step_mailbox _ _ _ _ Hx Hst) as (ys & Hy & Hs).
    exists ys. split; [done|]. by eapply mail_snoc.
Qed.
(** What a run of the mailbox does to the messages. *)
Lemma mailbox_order m tr m' : mailbox_run m tr m' →
  option_list (on_the_way m) ++ held m ++ accepted tr = processed tr ++ option_list (on_the_way m') ++ held m'.
Proof.
  induction 1 as [m|m tr m1 e m2 _ IH Hs]; [by rewrite app_nil_r|]. rewrite accepted_snoc, processed_snoc, !app_assoc, <- (app_assoc _ (held m)), IH.
  destruct Hs; cbn; rewrite ?app_nil_r, <- ?app_assoc; done.
Qed.
Lemma async_run_queue q tr s : q_repr q [] → async_run (new_async q) tr s →
  ∃ xs, q_repr (queue s) xs ∧ accepted tr = processed tr ++ in_flight (pc s) ++ xs.
Proof.
  intros Hq Hr. destruct (async_run_mailbox q tr s Hq Hr) as (xs & Hx & Hm). exists xs. split; [done|].
  apply mailbox_order in Hm. cbn in Hm. rewrite Hm. unfold mail_of. cbn. by destruct (pc s).
Qed.
Lemma delivered_sublist tr : delivered_to tr `sublist_of` processed tr.
Proof. induction tr as [|[] tr IH]; cbn; try done; by constructor. Qed.

(** ** Progress *)

(** Within [n] steps of its own the worker delivers [out] and goes to sleep over an empty queue. *)
Definition settles (n : nat) (s : async_recv_listener) (out : list T) : Prop :=
  delivered_to (fst (run_worker n s)) = out ∧ pc (snd (run_worker n s)) = Sleeping ∧
  q_repr (queue (snd (run_worker n s))) [].

Lemma settles_step n s e s' out out' :
  worker s = Some (e, s') → settles n s' out → out' = delivered_to [e] ++ out → settles (S n) s out'.
Proof.
  intros Hw Hs ->. unfold settles in *. cbn [run_worker]. rewrite Hw. destruct (run_worker n s') as [tr s'']. cbn [fst snd] in *.
  destruct Hs as (<- & ? & ?). split; [|done]. exact (omap_app _ [e] tr).
Qed.

Section one_listener.
Context (l : L).
Notation at_pc q p := (AsyncRecvListener (Some l) q false p).

Lemma settles_falling n q : q_repr q [] → settles (S n) (at_pc q Falling) [].
Proof. intros Hq. eapply (settles_step _ _ Tau); [reflexivity| |done]. unfold settles. by destruct n. Qed.
Lemma settles_forwarding n q d out : settles n (at_pc q Top) out → settles (S n) (at_pc q (Forwarding d)) (d :: out).
Proof. intros Hs. by eapply settles_step; [reflexivity|exact Hs|reflexivity]. Qed.
Lemma settles_taking n q x xs : q_repr q (x :: xs) →
  settles n (at_pc (snd (q_pop_front q)) (Forwarding x)) (x :: xs) → settles (S n) (at_pc q Taking) (x :: xs).
Proof.
  intros Hq Hs. eapply (settles_step _ _ (Take x)); [|exact Hs|done]. unfold worker; cbn.
  by rewrite (q_empty_spec _ _ Hq), bool_decide_false, (q_front_spec _ _ Hq).
Qed.
Lemma settles_woken n q xs : settles n (at_pc q Taking) xs → settles (S n) (at_pc q Woken) xs.
Proof. intros Hs. by eapply settles_step; [reflexivity|exact Hs|reflexivity]. Qed.
Lemma settles_top n q xs : settles n (at_pc q Pred) xs → settles (S n) (at_pc q Top) xs.
Proof. intros Hs. by eapply settles_step; [reflexivity|exact Hs|reflexivity]. Qed.
Lemma settles_pred n q xs : q_repr q xs →
  settles n (at_pc q (if bool_decide (xs = []) then Falling else Woken)) xs → settles (S n) (at_pc q Pred) xs.
Proof.
  intros Hq Hs. eapply (settles_step _ _ Tau); [|exact Hs|done]. unfold worker; cbn. by rewrite (q_empty_spec _ _ Hq).
Qed.

Lemma settles_from_top xs : ∀ q n, q_repr q xs → (5 * length xs + 3 ≤ n)%nat → settles n (at_pc q Top) xs.
Proof.
  induction xs as [|x xs IH]; intros q n Hq Hn; cbn [length] in Hn.
  - do 3 (destruct n as [|n]; [lia|]). apply settles_top, settles_pred; [done|]. rewrite bool_decide_true by done.
    by apply settles_falling.
  - do 5 (destruct n as [|n]; [lia|]). apply settles_top, settles_pred; [done|]. rewrite bool_decide_false by done.
    apply settles_woken, settles_taking; [done|]. apply settles_forwarding, IH; [|lia].
    by apply (q_pop_front_spec _ _ Hq).
Qed.

Lemma settles_from_taking xs q n : q_repr q xs → (5 * length xs + 4 ≤ n)%nat → settles n (at_pc q Taking) xs.
Proof.
  intros Hq Hn. destruct n as [|n]; [lia|]. destruct xs as [|x xs].
  - eapply (settles_step _ _ Tau); [|apply (settles_from_top [] q); [done|simpl in *; lia]|done].
    unfold worker; cbn. by rewrite (q_empty_spec _ _ Hq), bool_decide_true.
  - destruct n as [|n]; [simpl in *; lia|]. apply settles_taking; [done|].
    apply settles_forwarding, settles_from_top; [by apply (q_pop_front_spec _ _ Hq)|simpl in *; lia].
Qed.
Lemma settles_from p q xs n : p ≠ Falling → p ≠ Sleeping → p ≠ Done → q_repr q xs → (5 * length xs + 6 ≤ n)%nat →
  settles n (at_pc q p) (in_flight p ++ xs).
Proof.
  intros H1 H2 H3 Hq Hn. destruct n as [|n]; [lia|]. destruct p as [| | | | | |d|]; try done; cbn [in_flight app].
  - apply settles_from_top; [done|lia].
  - apply settles_pred; [done|]. case_bool_decide as He; [rewrite He; destruct n as [|n]; [lia|]; apply settles_falling; by rewrite <- He|].
    destruct n as [|n]; [lia|]. apply settles_woken, settles_from_taking; [done|lia].
  - apply settles_woken, settles_from_taking; [done|lia].
  - apply settles_from_taking; [done|lia].
  - apply settles_forwarding, settles_from_top; [done|lia].
Qed.
End one_listener.

(** * Properties *)

(** C13: the asynchronous receiver is a mailbox.  Whatever the producers, the worker and the callers that change the listener do, and in
    every order, their steps are steps of a mailbox of the capacity of the queue, whose contents the queue holds: a message is
    refused only when the mailbox is full, the messages that were stored are taken out in the order they came, none twice and none
    lost, each message taken is given to the listener that is set when the worker comes to it, and it is dropped only when none is set then.
    So the stored messages are those already dealt with, the one in the worker's hands and those in the queue. *)
Theorem async_in_order q tr s : q_repr q [] → async_run (new_async q) tr s →
  ∃ xs, q_repr (queue s) xs ∧ (length xs ≤ q_capacity)%nat ∧ mailbox_run empty_mailbox tr (mail_of s xs) ∧
    accepted tr = processed tr ++ in_flight (pc s) ++ xs.
Proof.
  intros Hq Hr. destruct (async_run_mailbox q tr s Hq Hr) as (xs & Hx & Hm). exists xs.
  split_and!; [done|by apply (q_bound (queue s))|done|].
  apply mailbox_order in Hm. cbn in Hm. rewrite Hm. unfold mail_of. cbn. by destruct (pc s).
Qed.

(** C17: as long as the worker has not decided to sleep, is not told to stop and has a listener, its own steps deliver
    everything that is stored, in order, and bring it to sleep over an empty queue. *)
Theorem async_drains q tr s l n : q_repr q [] → async_run (new_async q) tr s →
  stop_flag s = false → listener s = Some l → pc s ≠ Falling → pc s ≠ Sleeping → pc s ≠ Done →
  (5 * q_capacity + 6 ≤ n)%nat →
  let '(tr', s') := run_worker n s in
  accepted tr = processed tr ++ delivered_to tr' ∧ pc s' = Sleeping ∧ q_repr (queue s') [].
Proof.
  intros Hq Hr Hst Hl H1 H2 H3 Hn. destruct (async_run_queue q tr s Hq Hr) as (xs & Hx & Ha).
  pose proof (q_bound _ _ Hx). destruct s as [l' q' b p]; cbn [pc stop_flag listener queue] in *; subst.
  destruct (settles_from l p q' xs n H1 H2 H3 Hx ltac:(lia)) as (H4 & H5 & H6).
  destruct (run_worker n _) as [tr' s']. cbn [fst snd] in *. by rewrite H4.
Qed.

(** C18: a wake-up can be lost. After the worker has found the queue empty and before it sleeps, a message can be
    stored (and the notification finds nobody waiting); the worker then sleeps, over a queue that is not empty, and has
    no step of its own; the state in which this happens is reached with a listener set and no
    message sent. The destructor's notification is lost in the same way. *)
Theorem async_lost_wakeup q l data : q_repr q [] → (0 < q_capacity)%nat →
  ∃ tr s s1 s2, async_run (new_async q) tr s ∧ accepted tr = [] ∧ listener s = Some l ∧
    handle_recv_async data s = Some (Accept data, s1) ∧ worker s1 = Some (Tau, s2) ∧
    q_repr (queue s2) [data] ∧ pc s2 = Sleeping ∧ worker s2 = None ∧
    worker (stop s) = Some (Tau, go (stop s) Sleeping) ∧ worker (go (stop s) Sleeping) = None.
Proof.
  intros Hq Hc. set (s := AsyncRecvListener (Some l) q false Falling).
  exists ([SetListener l] ++ [Tau] ++ [Tau]), s, (AsyncRecvListener (Some l) (snd (q_push_back data q)) false Falling),
    (AsyncRecvListener (Some l) (snd (q_push_back data q)) false Sleeping).
  split; [|split; [done|split; [done|]]].
  - change ([SetListener l] ++ [Tau] ++ [Tau] : list event) with ((([] ++ [SetListener l]) ++ [Tau]) ++ [Tau] : list event).
    eapply run_snoc; [eapply run_snoc; [eapply run_snoc; [constructor|]|]|].
    + apply (step_set_listener _ (Some l)).
    + by apply step_worker.
    + apply step_worker. unfold worker; cbn. by rewrite (q_empty_spec _ _ Hq), bool_decide_true.
  - destruct (q_push_back_spec _ _ data Hq) as [_ Hr]. rewrite bool_decide_true in Hr by (simpl; lia).
    unfold handle_recv_async. cbn. rewrite (q_full_spec _ _ Hq), bool_decide_false by (simpl; lia).
    done.
Qed.
End async.
Arguments worker_pc : clear implicits.
Arguments async_recv_listener : clear implicits.
Arguments event : clear implicits.
Arguments mailbox : clear implicits.

(** ** Witnesses, over the circular queue *)

#[local] Notation Queue := (circular_queue Z).
Definition idle_async : async_recv_listener Queue Z nat := new_async (new_queue (replicate (Z.to_nat 2000) 0)).
Definition filled_async : async_recv_listener Queue Z nat :=
  match handle_recv_async 7 idle_async with Some (_, s) => set_recv_listener (Some 1%nat) s | None => idle_async end.
Lemma idle_repr : q_repr (new_queue (replicate (Z.to_nat 2000) 0)) [].
Proof. by apply (repr_new 2000); [lia|rewrite length_replicate; lia]. Qed.
Lemma filled_run : async_run idle_async (([] ++ [Accept 7]) ++ [SetListener 1%nat]) filled_async.
Proof.
  eapply run_snoc; [eapply run_snoc; [constructor|]|apply (step_set_listener _ (Some 1%nat))].
  by apply (step_producer _ 7).
Qed.

Lemma async_in_order_witness :
  ∃ xs, q_repr (queue filled_async) xs ∧ (length xs ≤ Z.to_nat 2000)%nat ∧
    mailbox_run empty_mailbox (([] ++ [Accept 7]) ++ [SetListener 1%nat]) (mail_of filled_async xs) ∧
    [7] = @nil Z ++ in_flight (pc filled_async) ++ xs.
Proof. exact (async_in_order _ _ _ idle_repr filled_run). Defined.

Lemma async_drains_witness :
  let '(tr', s') := run_worker (Z.to_nat 10006) filled_async in
  [7] = [] ++ delivered_to tr' ∧ pc s' = Sleeping ∧ q_repr (queue s') [].
Proof.
  apply (async_drains _ _ filled_async 1%nat (Z.to_nat 10006) idle_repr filled_run); try done.
Defined.

Lemma async_lost_wakeup_witness :
  ∃ tr s s1 s2, async_run idle_async tr s ∧ accepted tr = [] ∧ listener s = Some 1%nat ∧
    handle_recv_async 7 s = Some (Accept 7, s1) ∧ worker s1 = Some (Tau, s2) ∧
    q_repr (queue s2) [7] ∧ pc s2 = Sleeping ∧ worker s2 = None ∧
    worker (stop s) = Some (Tau, go (stop s) Sleeping) ∧ worker (go (stop s) Sleeping) = None.
Proof.
  apply (async_lost_wakeup _ 1%nat 7 idle_repr). change (0 < Z.to_nat 2000)%nat. lia.
Defined.
