(* ===== verification/ArpTool.v ===== *)
(** The ARP tool of [src/tools/arp_tool/arp_tool.cpp]: the search for one address, the scan of a subnet, the announcement
    and the rounds of the spoofing attack.

    What a call of [front] gives is an observation; the clock, the prints and [system] are left out. *)

From Stdlib Require Import ZArith Znumtheory Lia.
From stdpp Require Import base decidable list numbers gmap.
From S2P Require Import Prelude Cursor Encap Ether2 Ip4 Arp.

#[export] Instance ip4_addr_countable : Countable ip4_addr.
Proof. by refine (inj_countable' ip4_octets Ip4Addr _); intros []. Defined.

(** Every header of the tool is for Ethernet and IPv4. *)
Definition arp_tool_header (op : Z) (sender_mac : mac_addr) (sender_ip : ip4_addr) (target_mac : mac_addr)
    (target_ip : ip4_addr) : arp_header :=
  ArpHeader 1 ethertype_ip4 6 4 op (mac_octets sender_mac) (ip4_octets sender_ip)
    (mac_octets target_mac) (ip4_octets target_ip).
Definition arp_request (src_mac : mac_addr) (src_ip searched_ip : ip4_addr) : arp_header :=
  arp_tool_header arp_op_request src_mac src_ip mac_addr_empty searched_ip.

(** [extract_from_network_order] from the data of a vector of the reply. *)
Definition reply_ip (reply : arp_header) : res ip4_addr := fst <$> run_extract extract_ip4_addr (sender_prot_addr reply).
Definition reply_mac (reply : arp_header) : res mac_addr := fst <$> run_extract extract_mac_addr (sender_hard_addr reply).

(** * search_for_mac_addr *)

(** The loop after the request has been sent [sent] times; an observation is [None] when [front] times out.  [None]: it still
    waits when the observations end. *)
Fixpoint search_loop (searched_ip : ip4_addr) (sent : nat) (obs : list (option arp_header)) :
    res (option (nat * mac_addr)) :=
  match obs with
  | [] => Ok None
  | None :: obs => search_loop searched_ip (S sent) obs
  | Some reply :: obs =>
      ip ← reply_ip reply;
      if ip4_neb ip searched_ip then search_loop searched_ip (S sent) obs
      else m ← reply_mac reply; Ok (Some (sent, m))
  end.
(** The requests sent, and the address found. *)
Definition search_for_mac_addr (searched_ip : ip4_addr) (src_mac : mac_addr) (src_ip : ip4_addr)
    (obs : list (option arp_header)) : res (option (list (list Z) * mac_addr)) :=
  pkt ← arp_send (arp_request src_mac src_ip searched_ip);
  o ← search_loop searched_ip 1 obs;
  Ok ('(sent, m) ← o; Some (replicate sent pkt, m)).

(** * scan_entire_subnet *)

(** The packets sent and [request_cnt]. *)
Fixpoint scan_loop (fuel : nat) (mask : ip4_subnet_mask) (skip_addrs : gset ip4_addr) (src_mac : mac_addr)
    (src_ip curr_ip : ip4_addr) (request_cnt : nat) : res (list (list Z) * nat) :=
  match fuel with
  | O => Fault OutOfFuel
  | S fuel =>
      inside ← is_inside_subnet mask curr_ip;
      if negb inside then Ok ([], request_cnt)
      else
        pkts ← (if bool_decide (curr_ip ∈ skip_addrs) then Ok []
                else pkt ← arp_send (arp_request src_mac src_ip curr_ip); Ok [pkt]);
        '(rest, cnt) ← scan_loop fuel mask skip_addrs src_mac src_ip (generate_next_ip curr_ip) (S request_cnt);
        Ok (pkts ++ rest, cnt)
  end.

(** The loop over the replies in the queue. *)
Fixpoint collect_replies (mask : ip4_subnet_mask) (queue : list arp_header) (found : gmap ip4_addr mac_addr) :
    res (gmap ip4_addr mac_addr) :=
  match queue with
  | [] => Ok found
  | reply :: queue =>
      ip ← reply_ip reply;
      inside ← is_inside_subnet mask ip;
      if negb inside then collect_replies mask queue found
      else if bool_decide (is_Some (found !! ip)) then collect_replies mask queue found
      else m ← reply_mac reply; collect_replies mask queue (<[ip := m]> found)
  end.

Definition scan_entire_subnet (fuel : nat) (mask : ip4_subnet_mask) (skip_addrs : gset ip4_addr) (src_mac : mac_addr)
    (src_ip : ip4_addr) (queue : list arp_header) : res (list (list Z) * nat * gmap ip4_addr mac_addr) :=
  curr_ip ← smallest_ip_addr_in_subnet mask;
  '(pkts, request_cnt) ← scan_loop fuel mask skip_addrs src_mac src_ip curr_ip 0;
  found ← collect_replies mask queue ∅;
  Ok (pkts, request_cnt, found).

(** * announce_new_pair and spoofing_attack *)

Definition announce_new_pair (new_ip : ip4_addr) (new_mac : mac_addr) : res (list Z) :=
  arp_send (arp_tool_header arp_op_reply new_mac new_ip mac_addr_empty ip4_addr_empty).
(** One round of the attack over the targets, each with the access that its packet goes to. *)
Fixpoint spoofing_round {A} (targets : list (A * mac_addr * ip4_addr)) (dest_ip : ip4_addr) (src_mac : mac_addr) :
    res (list (A * list Z)) :=
  match targets with
  | [] => Ok []
  | (access, m, ip) :: targets =>
      pkt ← arp_send (arp_tool_header arp_op_reply src_mac dest_ip m ip);
      rest ← spoofing_round targets dest_ip src_mac;
      Ok ((access, pkt) :: rest)
  end.

(** * Lemmas *)

(** ** Subnets as numbers *)

(** The subnet test on the numbers of the addresses, for a mask of [8 * k + b] bits: [u] is 256^(3-k). *)
Definition inside_value (u B w v : Z) : Prop :=
  v `div` (256 * u) = w `div` (256 * u) ∧ (v `div` u) `mod` B = (w `div` u) `mod` B.
#[export] Instance inside_value_dec u B w v : Decision (inside_value u B w v).
Proof. unfold inside_value. apply _. Defined.

(** The number of the first address that a scan requests. *)
Definition first_value (u B w : Z) : Z := w `div` (256 * u) * (256 * u) + (w `div` u) `mod` B * u.

Lemma mod_pow_256 x b : 0 ≤ b < 8 → (x `mod` 256) `mod` 2 ^ b = x `mod` 2 ^ b.
Proof.
  intros Hb. symmetry. apply Zmod_div_mod; [by apply Z.pow_pos_nonneg; lia|lia|]. exists (2 ^ (8 - b)).
  rewrite <- Z.pow_add_r by lia. by replace (8 - b + b) with 8 by lia.
Qed.

(** The powers of 256 that belong to an index below 4. *)
Definition place (k : nat) : Z := 256 ^ (3 - Z.of_nat k).

Lemma octet_place a k o : ip4_ok a → ip4_octets a !! k = Some o →
  o = (ip4_value a `div` place k) `mod` 256 ∧ (k < 4)%nat.
Proof.
  intros Ha Ho. destruct (ip4_digits a Ha) as (a0&a1&a2&a3&E&?&?&?&?&->). rewrite E in Ho. unfold byte_ok, place in *.
  destruct k as [|[|[|[|k]]]]; simplify_eq/=; split; (lia || Z.div_mod_to_equations; lia).
Qed.
Lemma take_place a a' k : ip4_ok a → ip4_ok a' → (k < 4)%nat →
  take k (ip4_octets a) = take k (ip4_octets a') ↔
  ip4_value a' `div` (256 * place k) = ip4_value a `div` (256 * place k).
Proof.
  intros Ha Ha' Hk. destruct (ip4_digits a Ha) as (a0&a1&a2&a3&E&?&?&?&?&->), (ip4_digits a' Ha') as (b0&b1&b2&b3&E'&?&?&?&?&->).
  rewrite E, E'. unfold byte_ok, place in *. destruct k as [|[|[|[|k]]]]; cbn -[Z.mul Z.div]; try lia.
  all: change (256 * 256 ^ (3 - 0)) with 4294967296; change (256 * 256 ^ (3 - 1)) with 16777216;
       change (256 * 256 ^ (3 - 2)) with 65536; change (256 * 256 ^ (3 - 3)) with 256.
  all: split; [intros [=]; subst; Z.div_mod_to_equations; lia|intros He].
  - done.
  - f_equal. Z.div_mod_to_equations; lia.
  - assert (a0 = b0 ∧ a1 = b1) as [-> ->] by (Z.div_mod_to_equations; lia). done.
  - assert (a0 = b0 ∧ a1 = b1 ∧ a2 = b2) as (-> & -> & ->) by (Z.div_mod_to_equations; lia). done.
Qed.

Lemma inside_spec m ip k b : subnet_ok m → ip4_ok ip → no_mask_bits m = 8 * Z.of_nat k + b → 0 ≤ b < 8 → (k < 4)%nat →
  is_inside_subnet m ip = Ok (bool_decide (inside_value (place k) (2 ^ b) (ip4_value (base_addr m)) (ip4_value ip))).
Proof.
  intros [Hm _] Hip Hbits Hb Hk.
  destruct (lookup_lt_is_Some_2 (ip4_octets (base_addr m)) k) as [o Ho]; [destruct Hm as [-> _]; lia|].
  destruct (lookup_lt_is_Some_2 (ip4_octets ip) k) as [o' Ho']; [destruct Hip as [-> _]; lia|].
  rewrite (is_inside_subnet_eq m ip k b o o') by done. f_equal.
  destruct (octet_place _ _ _ Hm Ho) as [-> _], (octet_place _ _ _ Hip Ho') as [-> _]. rewrite !mod_pow_256 by lia.
  pose proof (take_place (base_addr m) ip k Hm Hip Hk) as Ht.
  apply eq_true_iff_eq. rewrite andb_true_iff, !bool_decide_eq_true, Z.eqb_eq. unfold inside_value. naive_solver.
Qed.

Lemma smallest_spec m k b : subnet_ok m → no_mask_bits m = 8 * Z.of_nat k + b → 0 ≤ b < 8 → (k < 4)%nat →
  ∃ s, smallest_ip_addr_in_subnet m = Ok s ∧ ip4_ok s ∧
    ip4_value s = first_value (place k) (2 ^ b) (ip4_value (base_addr m)).
Proof.
  intros [Hm _] Hbits Hb Hk. unfold smallest_ip_addr_in_subnet.
  rewrite Z.quot_div_nonneg, Z.rem_mod_nonneg by lia.
  assert (Hq : no_mask_bits m `div` 8 = Z.of_nat k) by (rewrite Hbits; Z.div_mod_to_equations; lia).
  assert (Hr : no_mask_bits m `mod` 8 = b) by (rewrite Hbits; Z.div_mod_to_equations; lia).
  rewrite Hq, Hr. destruct (lookup_lt_is_Some_2 (ip4_octets (base_addr m)) k) as [o Ho]; [destruct Hm as [-> _]; lia|].
  unfold octet_at. rewrite (proj2 (Z.ltb_ge _ _)), Nat2Z.id, Ho by lia. cbn [of_option mbind res_bind].
  rewrite land_low_bits by lia. eexists. split; [done|]. destruct (octet_place _ _ _ Hm Ho) as [-> _].
  rewrite mod_pow_256 by lia. destruct (ip4_digits _ Hm) as (a0&a1&a2&a3&E&?&?&?&?&Hv). rewrite E.
  assert (Hx : 0 ≤ (ip4_value (base_addr m) `div` place k) `mod` 2 ^ b < 256).
  { pose proof (Z.mod_pos_bound (ip4_value (base_addr m) `div` place k) (2 ^ b) ltac:(apply Z.pow_pos_nonneg; lia)).
    assert (2 ^ b ≤ 2 ^ 7) by (apply Z.pow_le_mono_r; lia). lia. }
  unfold first_value. set (x := (_ `div` _) `mod` 2 ^ b) in *. rewrite Hv. clearbody x. clear Hv Ho.
  assert (Hok : ∀ l, length l = 4%nat → bytes_ok l → ip4_ok (Ip4Addr l)) by done.
  unfold place, byte_ok in *.
  destruct k as [|[|[|[|k]]]]; try lia; cbn -[Z.mul Z.div Z.pow];
    (split; [apply Hok; [done|]; repeat apply Forall_cons_2; try apply Forall_nil_2; unfold byte_ok; lia|]);
    unfold ip4_value; cbn -[Z.mul Z.div Z.pow].
  - change (256 ^ (3 - 0)) with 16777216. Z.div_mod_to_equations; lia.
  - change (256 ^ (3 - 1)) with 65536. Z.div_mod_to_equations; lia.
  - change (256 ^ (3 - 2)) with 256. Z.div_mod_to_equations; lia.
  - change (256 ^ (3 - 3)) with 1. Z.div_mod_to_equations; lia.
Qed.

Lemma iter_next s i : ip4_ok s →
  ip4_ok (Nat.iter i generate_next_ip s) ∧
  ip4_value (Nat.iter i generate_next_ip s) = (ip4_value s + Z.of_nat i) `mod` 2 ^ 32.
Proof.
  intros Hs. induction i as [|i [IH1 IH2]].
  - split; [done|]. change (Nat.iter 0 generate_next_ip s) with s. rewrite Z.add_0_r.
    by rewrite Z.mod_small by by apply ip4_value_bound.
  - change (Nat.iter (S i) generate_next_ip s) with (generate_next_ip (Nat.iter i generate_next_ip s)).
    destruct (generate_next_ip_spec _ IH1) as [H1 H2]. split; [done|]. rewrite H2, IH2, Zplus_mod_idemp_l.
    f_equal. lia.
Qed.

(** ** The walk over the numbers *)

Section walk.
Context (u B C w : Z) (Hu : 0 < u) (HB : 1 ≤ B) (HC : 256 = B * C) (HC1 : 2 ≤ C) (Hw : 0 ≤ w).

(** How many addresses a scan visits. *)
Definition scan_count (u B : Z) : Z := if B =? 1 then 256 * u else u.

Lemma first_inside i : 0 ≤ i < scan_count u B → inside_value u B w (first_value u B w + i).
Proof.
  unfold scan_count, inside_value, first_value. intros Hi.
  pose proof (Z.mod_pos_bound (w `div` u) B ltac:(lia)) as Hr. set (r := (w `div` u) `mod` B) in *.
  set (P := w `div` (256 * u)). destruct (Z.eqb_spec B 1) as [HB1|HB1].
  - assert (r = 0) as E by lia. split; [|rewrite HB1, Z.mod_1_r; lia].
    replace (P * (256 * u) + r * u + i) with (i + P * (256 * u)) by lia. rewrite Z.div_add, Z.div_small by lia. lia.
  - assert (r < 256) by nia. split.
    + replace (P * (256 * u) + r * u + i) with (r * u + i + P * (256 * u)) by lia.
      rewrite Z.div_add, Z.div_small by nia. lia.
    + assert (HPC : P * C * B = 256 * P) by (rewrite HC; ring).
      replace (P * (256 * u) + r * u + i) with (i + (r + P * C * B) * u) by (rewrite HPC; ring).
      rewrite Z.div_add, Z.div_small, Z.add_0_l, Z.mod_add, Z.mod_small by lia. done.
Qed.

(** The address after them is outside, unless all addresses are inside. *)
Lemma last_outside K : 256 * u * K = 2 ^ 32 → w < 2 ^ 32 → (B = 1 → 2 ≤ K) →
  ¬ inside_value u B w ((first_value u B w + scan_count u B) `mod` 2 ^ 32).
Proof.
  unfold scan_count, inside_value, first_value. intros HK Hw' HK2 [H1 H2].
  pose proof (Z.mod_pos_bound (w `div` u) B ltac:(lia)) as Hr. set (r := (w `div` u) `mod` B) in *.
  set (P := w `div` (256 * u)) in *.
  assert (HP : 0 ≤ P < K).
  { split; [apply Z.div_pos; lia|apply Z.div_lt_upper_bound; lia]. }
  destruct (Z.eqb_spec B 1) as [HB1|HB1].
  - assert (r = 0) as E by lia. clear H2. specialize (HK2 HB1).
    replace (P * (256 * u) + r * u + 256 * u) with ((256 * u) * (P + 1)) in H1 by lia.
    rewrite <- HK, Z.mul_mod_distr_l, Z.mul_comm, Z.div_mul in H1 by lia.
    destruct (Z.eq_dec (P + 1) K) as [E'|]; [rewrite E', Z.mod_same in H1 by lia; lia|].
    rewrite Z.mod_small in H1; lia.
  - assert (r + 1 < 256) by nia. assert ((r + 1) * u < 256 * u) by (apply Z.mul_lt_mono_pos_r; lia).
    assert ((P + 1) * (256 * u) ≤ K * (256 * u)) by (apply Z.mul_le_mono_nonneg_r; lia).
    assert (0 ≤ P * (256 * u) ∧ 0 ≤ r * u) as [? ?] by (split; apply Z.mul_nonneg_nonneg; lia).
    rewrite (Z.mod_small (P * (256 * u) + r * u + u) (2 ^ 32)) in H2 by lia.
    assert (HPC : P * C * B = 256 * P) by (rewrite HC; ring).
    replace (P * (256 * u) + r * u + u) with ((r + 1 + P * C * B) * u) in H2 by (rewrite HPC; ring).
    rewrite Z.div_mul, Z.mod_add in H2 by lia. destruct (Z.eq_dec (r + 1) B) as [E'|].
    + rewrite E', Z.mod_same in H2 by lia. lia.
    + rewrite Z.mod_small in H2; lia.
Qed.

(** With a mask of whole octets the walk visits every address inside. *)
Lemma inside_visited v : B = 1 → 0 ≤ v → inside_value u B w v → ∃ i, 0 ≤ i < scan_count u B ∧ v = first_value u B w + i.
Proof.
  intros HB1 Hv [H1 _]. unfold scan_count, first_value. rewrite HB1, Z.mod_1_r. change (1 =? 1) with true. cbv iota.
  exists (v `mod` (256 * u)). split; [apply Z.mod_pos_bound; lia|]. rewrite <- H1.
  pose proof (Z.div_mod v (256 * u) ltac:(lia)). lia.
Qed.
End walk.

(** ** Packets and replies *)

Definition tool_packet (h : arp_header) : list Z := arp_bytes h ++ replicate 76 0.

Lemma arp_tool_sent op sm sip tm tip : u16_ok op → mac_ok sm → ip4_ok sip → mac_ok tm → ip4_ok tip →
  arp_send (arp_tool_header op sm sip tm tip) = Ok (tool_packet (arp_tool_header op sm sip tm tip)) ∧
  ∀ f, arp_handle_recv f (tool_packet (arp_tool_header op sm sip tm tip))
       = Ok (if decide (filter_accepts f op) then Some (arp_tool_header op sm sip tm tip) else None).
Proof.
  intros Hop [H1 _] [H2 _] [H3 _] [H4 _]. set (h := arp_tool_header op sm sip tm tip).
  assert (Ho : arp_header_ok h) by (repeat split; (done || apply Hop)).
  assert (Hm : arp_sizes_match h) by (unfold arp_sizes_match; cbn; by rewrite H1, H2, H3, H4).
  split; [rewrite arp_send_ok by (done || (vm_compute; lia)); done|]. intros f. by apply (arp_recv_ok f h).
Qed.

Definition reply_ok (r : arp_header) : Prop :=
  (4 ≤ length (sender_prot_addr r))%nat ∧ bytes_ok (sender_prot_addr r) ∧ (6 ≤ length (sender_hard_addr r))%nat.
(** The addresses that a reply pairs. *)
Definition paired_ip (r : arp_header) : ip4_addr := Ip4Addr (take 4 (sender_prot_addr r)).
Definition paired_mac (r : arp_header) : mac_addr := MacAddr (take 6 (sender_hard_addr r)).

Lemma extract_front {A} (f : list Z → A) n l : (n ≤ length l)%nat →
  run_extract (bs ← get_bytes n; mret (f bs, n)) l = Ok (f (take n l), n).
Proof.
  intros Hl. rewrite <- (take_drop n l) at 1. apply run_extract_reads. eapply reads_cast.
  - eapply reads_bind; [apply (reads_get_bytes' n (take n l)); rewrite length_take; lia|apply reads_ret].
  - apply app_nil_r.
  - done.
Qed.
Lemma reply_ip_ok r : (4 ≤ length (sender_prot_addr r))%nat → bytes_ok (sender_prot_addr r) → reply_ip r = Ok (paired_ip r) ∧ ip4_ok (paired_ip r).
Proof.
  intros H1 H2. unfold reply_ip, extract_ip4_addr. rewrite (extract_front Ip4Addr 4) by done. repeat split; [|by apply Forall_take].
  cbn. rewrite length_take. lia.
Qed.
Lemma reply_ip_short r : (length (sender_prot_addr r) < 4)%nat → reply_ip r = Fault OutOfBounds.
Proof.
  intros Hl. unfold reply_ip. assert (Hs : extract_size extract_ip4_addr 4 4)
    by (eapply extract_size_cast; [unfold extract_ip4_addr; solve_size|done]).
  by rewrite (extract_size_short _ _ _ _ Hs Hl).
Qed.
Lemma reply_addrs r : reply_ok r → reply_ip r = Ok (paired_ip r) ∧ reply_mac r = Ok (paired_mac r) ∧ ip4_ok (paired_ip r).
Proof.
  intros (H1 & H2 & H3). unfold reply_ip, reply_mac, extract_ip4_addr, extract_mac_addr.
  rewrite (extract_front Ip4Addr 4), (extract_front MacAddr 6) by done. repeat split; [|by apply Forall_take].
  cbn. rewrite length_take. lia.
Qed.

(** ** search_for_mac_addr *)

Definition answers (searched : ip4_addr) (r : arp_header) : Prop := reply_ok r ∧ paired_ip r = searched.
Definition misses (searched : ip4_addr) (o : option arp_header) : Prop :=
  match o with
  | None => True
  | Some r => (4 ≤ length (sender_prot_addr r))%nat ∧ bytes_ok (sender_prot_addr r) ∧ paired_ip r ≠ searched
  end.

Lemma search_loop_spec searched sent pre r obs : ip4_ok searched → Forall (misses searched) pre → answers searched r →
  search_loop searched sent (pre ++ Some r :: obs) = Ok (Some ((sent + length pre)%nat, paired_mac r)).
Proof.
  intros Hs Hp [Hr He]. revert sent. induction Hp as [|o pre Ho Hp IH]; intros sent; cbn [app search_loop length].
  - destruct (reply_addrs r Hr) as (-> & -> & Hok). cbn [mbind res_bind]. unfold ip4_neb.
    rewrite ip4_eqb_spec, bool_decide_true by done. cbn. by rewrite Nat.add_0_r.
  - rewrite <- Nat.add_succ_comm. destruct o as [r'|]; [|apply IH]. destruct Ho as (Hl & Hb & Hne).
    destruct (reply_ip_ok r' Hl Hb) as [-> Hok]. cbn [mbind res_bind]. unfold ip4_neb.
    rewrite ip4_eqb_spec, bool_decide_false by congruence. apply IH.
Qed.

(** A reply with a shorter address is read past its end. *)
Lemma search_loop_short searched pre r obs : ip4_ok searched → Forall (misses searched) pre → (length (sender_prot_addr r) < 4)%nat →
  ∀ sent, search_loop searched sent (pre ++ Some r :: obs) = Fault OutOfBounds.
Proof.
  intros Hs Hp Hr. induction Hp as [|o pre Ho Hp IH]; intros sent; cbn [app search_loop]; [by rewrite reply_ip_short|].
  destruct o as [r'|]; [|apply IH]. destruct Ho as (Hl & Hb & Hne). destruct (reply_ip_ok r' Hl Hb) as [-> Hok]. cbn [mbind res_bind].
  unfold ip4_neb. rewrite ip4_eqb_spec, bool_decide_false by congruence. apply IH.
Qed.

(** ** scan_entire_subnet *)

(** [n] addresses in a row. *)
Definition addrs (s : ip4_addr) (n : nat) : list ip4_addr := (λ i, Nat.iter i generate_next_ip s) <$> seq 0 n.

Lemma addrs_S s n : addrs s (S n) = s :: addrs (generate_next_ip s) n.
Proof.
  unfold addrs. cbn [seq fmap list_fmap]. f_equal. rewrite <- fmap_S_seq, <- list_fmap_compose.
  apply list_fmap_ext. intros i x _. apply Nat.iter_succ_r.
Qed.
Lemma addrs_NoDup s n : ip4_ok s → Z.of_nat n ≤ 2 ^ 32 → NoDup (addrs s n).
Proof.
  intros Hs Hn. unfold addrs. apply NoDup_alt. intros i j x Hi Hj.
  rewrite list_lookup_fmap in Hi, Hj. apply fmap_Some in Hi as (i' & Hi & ->), Hj as (j' & Hj & E).
  apply lookup_seq in Hi as [-> Hi], Hj as [-> Hj].
  change (Nat.iter i generate_next_ip s = Nat.iter j generate_next_ip s) in E.
  destruct (iter_next s i Hs) as [_ Ei], (iter_next s j Hs) as [_ Ej]. rewrite E, Ej in Ei.
  change (2 ^ 32) with 4294967296 in *. Z.div_mod_to_equations. lia.
Qed.

Lemma scan_loop_spec mask skip sm sip n : mac_ok sm → ip4_ok sip → ∀ fuel s cnt, ip4_ok s →
  Forall (λ a, is_inside_subnet mask a = Ok true) (addrs s n) →
  is_inside_subnet mask (Nat.iter n generate_next_ip s) = Ok false → (n < fuel)%nat →
  scan_loop fuel mask skip sm sip s cnt
  = Ok ((λ a, tool_packet (arp_request sm sip a)) <$> filter (λ a, a ∉ skip) (addrs s n), (cnt + n)%nat).
Proof.
  intros Hsm Hsip. induction n as [|n IH]; intros fuel s cnt Hs Hin Hout Hf; (destruct fuel as [|fuel]; [lia|]); cbn [scan_loop].
  - change (Nat.iter 0 generate_next_ip s) with s in Hout. rewrite Hout. cbn. by rewrite Nat.add_0_r.
  - rewrite addrs_S in *. apply Forall_cons_1 in Hin as [Hi Hin]. rewrite Hi. cbn [mbind res_bind negb].
    rewrite Nat.iter_succ_r in Hout. rewrite (IH fuel) by (done || lia || by apply generate_next_ip_spec).
    assert (Hp : arp_send (arp_request sm sip s) = Ok (tool_packet (arp_request sm sip s)))
      by by apply arp_tool_sent; [| | |apply mac_empty_ok|].
    rewrite Hp, filter_cons, Nat.add_succ_comm.
    destruct (decide (s ∈ skip)) as [Hk|Hk].
    + rewrite bool_decide_true, decide_False by tauto. done.
    + rewrite bool_decide_false, decide_True by done. done.
Qed.

Lemma collect_spec mask k b queue : subnet_ok mask → no_mask_bits mask = 8 * Z.of_nat k + b → 0 ≤ b < 8 → (k < 4)%nat →
  Forall reply_ok queue → ∀ found, ∃ found', collect_replies mask queue found = Ok found' ∧
    ∀ ip, found' !! ip = match found !! ip with
                         | Some m => Some m
                         | None => paired_mac <$> head (filter (λ r, paired_ip r = ip ∧ is_inside_subnet mask ip = Ok true) queue)
                         end.
Proof.
  intros Hm Hbits Hb Hk Hq. induction Hq as [|r queue Hr Hq IH]; intros found; cbn [collect_replies].
  { exists found. split; [done|]. intros ip. by destruct (found !! ip). }
  destruct (reply_addrs r Hr) as (-> & -> & Hok). cbn [mbind res_bind].
  pose proof (inside_spec mask (paired_ip r) k b Hm Hok Hbits Hb Hk) as Hi. rewrite Hi. cbn [mbind res_bind].
  destruct (bool_decide (inside_value _ _ _ _)) eqn:Hd; cbn [negb].
  - destruct (found !! paired_ip r) as [m|] eqn:Hf.
    + rewrite bool_decide_true by by eexists. destruct (IH found) as (found' & E & Hl). exists found'. split; [done|].
      intros ip. rewrite Hl, filter_cons. destruct (found !! ip) eqn:Hip; [done|]. rewrite decide_False; [done|]. naive_solver.
    + rewrite bool_decide_false by (intros [? ?]; done). destruct (IH (<[paired_ip r := paired_mac r]> found)) as (found' & E & Hl).
      exists found'. split; [done|]. intros ip. rewrite Hl, filter_cons. destruct (decide (paired_ip r = ip)) as [<-|Hne].
      * rewrite lookup_insert_eq, Hf, decide_True by done. done.
      * rewrite lookup_insert_ne by done. destruct (found !! ip); [done|]. rewrite decide_False; [done|]. tauto.
  - destruct (IH found) as (found' & E & Hl). exists found'. split; [done|]. intros ip. rewrite Hl, filter_cons.
    destruct (found !! ip); [done|]. rewrite decide_False; [done|]. intros [<- Hx]. rewrite Hi in Hx. done.
Qed.

Lemma place_pos k : (k < 4)%nat → 0 < place k ∧ 256 * place k * 256 ^ Z.of_nat k = 2 ^ 32.
Proof. intros Hk. destruct k as [|[|[|[|k]]]]; try lia; done. Qed.
Lemma pow_divides b : 0 ≤ b < 8 → 1 ≤ 2 ^ b ∧ 256 = 2 ^ b * 2 ^ (8 - b) ∧ 2 ≤ 2 ^ (8 - b) ∧ (2 ^ b = 1 ↔ b = 0).
Proof.
  intros Hb. assert (b ∈ [0; 1; 2; 3; 4; 5; 6; 7]) as Hin by (rewrite !elem_of_cons; lia).
  repeat (apply elem_of_cons in Hin as [->|Hin]; [cbn; lia|]). by apply elem_of_nil in Hin.
Qed.

(** The addresses of a scan: what the walk from [s] visits. *)
Lemma scan_walk mask k b : subnet_ok mask → no_mask_bits mask = 8 * Z.of_nat k + b → 0 ≤ b < 8 → (k < 4)%nat →
  0 < no_mask_bits mask →
  let n := Z.to_nat (scan_count (place k) (2 ^ b)) in
  ∃ s, smallest_ip_addr_in_subnet mask = Ok s ∧ ip4_ok s ∧ Z.of_nat n ≤ 2 ^ 32 ∧
    Forall (λ a, is_inside_subnet mask a = Ok true) (addrs s n) ∧
    is_inside_subnet mask (Nat.iter n generate_next_ip s) = Ok false ∧
    (b = 0 → ∀ ip, ip4_ok ip → is_inside_subnet mask ip = Ok true → ip ∈ addrs s n).
Proof.
  intros Hm Hbits Hb Hk Hpos. destruct (smallest_spec mask k b Hm Hbits Hb Hk) as (s & Hs & Hok & Hv).
  destruct (place_pos k Hk) as [Hu HK], (pow_divides b Hb) as (HB & HC & HC1 & HB1).
  pose proof (ip4_value_bound _ (proj1 Hm)) as Hw. set (w := ip4_value (base_addr mask)) in *.
  set (u := place k) in *. set (B := 2 ^ b) in *. set (n := Z.to_nat (scan_count u B)).
  assert (Hn : Z.of_nat n = scan_count u B).
  { unfold n. rewrite Z2Nat.id; [done|]. unfold scan_count. case_match; lia. }
  assert (HK1 : B = 1 → 2 ≤ 256 ^ Z.of_nat k).
  { intros H1. assert (1 ≤ Z.of_nat k) by lia. pose proof (Z.pow_le_mono_r 256 1 (Z.of_nat k)). lia. }
  assert (Hsum : ∀ i, 0 ≤ i < scan_count u B → 0 ≤ first_value u B w + i < 2 ^ 32).
  { intros i Hi. destruct (first_inside u B (2 ^ (8 - b)) w Hu HB HC HC1 i Hi) as [Hd _].
    pose proof (ip4_value_bound _ Hok). rewrite Hv in H. split; [lia|].
    assert (w `div` (256 * u) < 256 ^ Z.of_nat k) by (apply Z.div_lt_upper_bound; lia).
    rewrite <- HK. pose proof (Z.mod_pos_bound (first_value u B w + i) (256 * u) ltac:(lia)).
    rewrite (Z.div_mod (first_value u B w + i) (256 * u)), Hd by lia. nia. }
  exists s. split; [done|]. split; [done|]. split.
  { destruct (Z.eq_dec (scan_count u B) 0) as [|Hc]; [lia|]. pose proof (ip4_value_bound _ Hok).
    specialize (Hsum (scan_count u B - 1)). lia. }
  split; [|split].
  - apply Forall_fmap, Forall_forall. intros i [_ Hi]%elem_of_seq. cbn. destruct (iter_next s i Hok) as [Hoki Hvi].
    rewrite (inside_spec mask _ k b) by done. f_equal. apply bool_decide_eq_true. fold u B w. rewrite Hvi, Hv, Z.mod_small.
    + apply (first_inside u B (2 ^ (8 - b))); (done || lia).
    + apply Hsum. lia.
  - destruct (iter_next s n Hok) as [Hokn Hvn]. rewrite (inside_spec mask _ k b) by done. f_equal. apply bool_decide_eq_false.
    fold u B w. rewrite Hvn, Hv, Hn. apply (last_outside u B (2 ^ (8 - b)) w Hu HB HC HC1 (proj1 Hw) (256 ^ Z.of_nat k)); (done || lia).
  - intros Hb0 ip Hip Hin. rewrite (inside_spec mask _ k b) in Hin by done. injection Hin as Hin.
    apply bool_decide_eq_true in Hin. fold u B w in Hin. pose proof (ip4_value_bound _ Hip).
    destruct (inside_visited u B w Hu (ip4_value ip)) as (i & Hi & Ei); [by apply HB1|lia|done|].
    apply list_elem_of_fmap. exists (Z.to_nat i). split; [|apply elem_of_seq; lia].
    destruct (iter_next s (Z.to_nat i) Hok) as [Hoki Hvi]. apply ip4_value_inj; [done..|].
    rewrite Hvi, Hv, Ei, Z2Nat.id, Z.mod_small; [done|by apply Hsum|lia].
Qed.

Lemma scan_endless mask skip sm sip : subnet_ok mask → no_mask_bits mask = 0 → mac_ok sm → ip4_ok sip →
  ∀ fuel s cnt, ip4_ok s → scan_loop fuel mask skip sm sip s cnt = Fault OutOfFuel.
Proof.
  intros Hm H0 Hsm Hsip. induction fuel as [|fuel IH]; intros s cnt Hs; [done|]. cbn [scan_loop].
  rewrite (inside_spec mask s 0 0) by (done || lia). cbn [mbind res_bind].
  rewrite bool_decide_true.
  2: { pose proof (ip4_value_bound _ Hs). pose proof (ip4_value_bound _ (proj1 Hm)). unfold inside_value.
       change (256 * place 0) with (2 ^ 32). rewrite !Z.div_small by done. rewrite !Z.mod_1_r. done. }
  cbn [negb]. assert (Hp : arp_send (arp_request sm sip s) = Ok (tool_packet (arp_request sm sip s)))
    by by apply arp_tool_sent; [| | |apply mac_empty_ok|].
  rewrite Hp, IH by by apply generate_next_ip_spec. by destruct (bool_decide _).
Qed.

(** * Properties *)

(** C14: the scan of a subnet with 1 to 31 mask bits ends. It sends one request for each of the addresses it walks
    through that is not to be skipped, in order and none twice, all of them inside by the subnet test; a mask of
    whole octets (8, 16 or 24 bits) has every address inside requested, 2^(32-bits) of them, while for the
    other masks the walk stops after 256^(3 - bits / 8), because the test compares low bits. The result pairs each
    address inside with the one in the first reply for it, and has no other entry. *)
Theorem arp_scan_subnet (mask : ip4_subnet_mask) (skip : gset ip4_addr) (sm : mac_addr) (sip : ip4_addr) (k : nat) (b : Z)
    (queue : list arp_header) (fuel : nat) :
  subnet_ok mask → mac_ok sm → ip4_ok sip → Forall reply_ok queue →
  no_mask_bits mask = 8 * Z.of_nat k + b → 0 ≤ b < 8 → (k < 4)%nat → 0 < no_mask_bits mask →
  let n := Z.to_nat (if decide (b = 0) then 256 * place k else place k) in
  (n < fuel)%nat →
  ∃ s found, scan_entire_subnet fuel mask skip sm sip queue
      = Ok ((λ a, tool_packet (arp_request sm sip a)) <$> filter (λ a, a ∉ skip) (addrs s n), n, found) ∧
    smallest_ip_addr_in_subnet mask = Ok s ∧ NoDup (addrs s n) ∧
    Forall (λ a, is_inside_subnet mask a = Ok true) (addrs s n) ∧
    (b = 0 → ∀ ip, ip4_ok ip → is_inside_subnet mask ip = Ok true → ip ∈ addrs s n) ∧
    ∀ ip, found !! ip =
      paired_mac <$> head (filter (λ r, paired_ip r = ip ∧ is_inside_subnet mask ip = Ok true) queue).
Proof.
  intros Hm Hsm Hsip Hq Hbits Hb Hk Hpos n Hf. destruct (pow_divides b Hb) as (_ & _ & _ & HB1).
  assert (Hn : n = Z.to_nat (scan_count (place k) (2 ^ b))).
  { unfold n, scan_count. case_decide; [rewrite (proj2 (Z.eqb_eq _ _)) by tauto|rewrite (proj2 (Z.eqb_neq _ _)) by tauto]; done. }
  destruct (scan_walk mask k b Hm Hbits Hb Hk Hpos) as (s & Hs & Hok & Hlt & Hin & Hout & Hall). rewrite <- Hn in *.
  destruct (collect_spec mask k b queue Hm Hbits Hb Hk Hq ∅) as (found & Hc & Hl).
  exists s, found. split.
  { unfold scan_entire_subnet. rewrite Hs. cbn [mbind res_bind].
    rewrite (scan_loop_spec mask skip sm sip n) by done. cbn [mbind res_bind]. by rewrite Hc. }
  split; [done|]. split; [by apply addrs_NoDup|]. split; [done|]. split; [done|].
  intros ip. by rewrite Hl, lookup_empty.
Qed.
Definition scan_reply (last : Z) (m : mac_addr) : arp_header :=
  arp_tool_header arp_op_reply m (Ip4Addr [10; 0; 0; last]) mac_addr_empty ip4_addr_empty.
Lemma arp_scan_subnet_witness :
  let mask := Ip4SubnetMask (Ip4Addr [10; 0; 0; 9]) 24 in
  let sm := MacAddr [2; 0; 0; 0; 0; 1] in
  ∃ s found, scan_entire_subnet 300 mask {[Ip4Addr [10; 0; 0; 1]]} sm (Ip4Addr [10; 0; 0; 1]) [scan_reply 4 sm; scan_reply 4 mac_addr_empty]
      = Ok ((λ a, tool_packet (arp_request sm (Ip4Addr [10; 0; 0; 1]) a)) <$>
            filter (λ a, a ∉ ({[Ip4Addr [10; 0; 0; 1]]} : gset ip4_addr)) (addrs s 256), 256%nat, found) ∧
    found !! Ip4Addr [10; 0; 0; 4] = Some sm.
Proof.
  intros mask sm.
  destruct (arp_scan_subnet mask {[Ip4Addr [10; 0; 0; 1]]} sm (Ip4Addr [10; 0; 0; 1]) 3 0 [scan_reply 4 sm; scan_reply 4 mac_addr_empty] 300)
    as (s & found & E & _ & _ & _ & _ & Hl).
  - by repeat constructor.
  - by repeat constructor.
  - by repeat constructor.
  - repeat apply Forall_cons_2; try apply Forall_nil_2; split_and!; (simpl; lia) || by repeat constructor.
  - reflexivity.
  - lia.
  - lia.
  - reflexivity.
  - apply Nat.ltb_lt. vm_compute. reflexivity.
  - exists s, found. split; [exact E|]. rewrite Hl. vm_compute. reflexivity.
Defined.

(** The scan of a mask of 0 bits never ends, whatever the fuel, and that of a mask of 32 bits reads past the
    octets of the address before it sends anything. *)
Theorem arp_scan_extremes (mask : ip4_subnet_mask) (skip : gset ip4_addr) (sm : mac_addr) (sip : ip4_addr)
    (queue : list arp_header) (fuel : nat) :
  subnet_ok mask → mac_ok sm → ip4_ok sip →
  (no_mask_bits mask = 0 → scan_entire_subnet fuel mask skip sm sip queue = Fault OutOfFuel) ∧
  (no_mask_bits mask = 32 → scan_entire_subnet fuel mask skip sm sip queue = Fault OutOfBounds).
Proof.
  intros Hm Hsm Hsip. split; intros Hb.
  - destruct (smallest_spec mask 0 0 Hm Hb) as (s & Hs & Hok & _); [lia..|].
    unfold scan_entire_subnet. rewrite Hs. cbn [mbind res_bind]. by rewrite scan_endless.
  - unfold scan_entire_subnet, smallest_ip_addr_in_subnet. rewrite Hb. unfold octet_at. cbn.
    destruct (ip4_digits _ (proj1 Hm)) as (a0 & a1 & a2 & a3 & -> & _). done.
Qed.
Lemma arp_scan_extremes_witness :
  let sm := MacAddr [2; 0; 0; 0; 0; 1] in
  scan_entire_subnet 1000 (Ip4SubnetMask ip4_addr_empty 0) ∅ sm (Ip4Addr [10; 0; 0; 1]) [] = Fault OutOfFuel ∧
  scan_entire_subnet 1000 (Ip4SubnetMask (Ip4Addr [10; 0; 0; 9]) 32) ∅ sm (Ip4Addr [10; 0; 0; 1]) [] = Fault OutOfBounds.
Proof.
  intros sm. split.
  - by apply (arp_scan_extremes (Ip4SubnetMask ip4_addr_empty 0) ∅ sm (Ip4Addr [10; 0; 0; 1]) [] 1000); repeat constructor.
  - by apply (arp_scan_extremes (Ip4SubnetMask (Ip4Addr [10; 0; 0; 9]) 32) ∅ sm (Ip4Addr [10; 0; 0; 1]) [] 1000); repeat constructor.
Defined.

(** The search for an address ends with the hardware address of the first reply whose protocol address is the
    one searched for; before it every timeout and every other reply makes it send the request once more. *)
Theorem arp_search (searched : ip4_addr) (sm : mac_addr) (sip : ip4_addr) (pre : list (option arp_header)) (r : arp_header)
    (obs : list (option arp_header)) :
  ip4_ok searched → mac_ok sm → ip4_ok sip → Forall (misses searched) pre → answers searched r →
  search_for_mac_addr searched sm sip (pre ++ Some r :: obs) =
    Ok (Some (replicate (S (length pre)) (tool_packet (arp_request sm sip searched)), paired_mac r)).
Proof.
  intros Hs Hsm Hsip Hp Hr. unfold search_for_mac_addr.
  assert (E : arp_send (arp_request sm sip searched) = Ok (tool_packet (arp_request sm sip searched)))
    by by apply arp_tool_sent; [| | |apply mac_empty_ok|].
  rewrite E. cbn [mbind res_bind]. by rewrite search_loop_spec.
Qed.
Lemma arp_search_witness :
  let sm := MacAddr [2; 0; 0; 0; 0; 1] in
  search_for_mac_addr (Ip4Addr [10; 0; 0; 4]) sm (Ip4Addr [10; 0; 0; 1]) ([None; Some (scan_reply 5 sm)] ++ Some (scan_reply 4 sm) :: [])
  = Ok (Some (replicate 3 (tool_packet (arp_request sm (Ip4Addr [10; 0; 0; 1]) (Ip4Addr [10; 0; 0; 4]))), sm)).
Proof.
  intros sm. apply (arp_search (Ip4Addr [10; 0; 0; 4]) sm (Ip4Addr [10; 0; 0; 1]) [None; Some (scan_reply 5 sm)] (scan_reply 4 sm) []).
  - by repeat constructor.
  - by repeat constructor.
  - by repeat constructor.
  - apply Forall_cons_2; [done|]. apply Forall_cons_2; [|apply Forall_nil_2].
    split_and!; (simpl; lia) || by repeat constructor.
  - split; [|done]. split_and!; (simpl; lia) || by repeat constructor.
Defined.

(** One round of the spoofing attack sends one packet to each target, in order; what the target's receiver reads is an
    ARP reply that gives the attacker's hardware address for the intercepted address; an announcement is read
    as a reply that gives the new pair. *)
Theorem arp_claims {A} (targets : list (A * mac_addr * ip4_addr)) (dest_ip : ip4_addr) (sm : mac_addr) :
  Forall (λ t, mac_ok (snd (fst t)) ∧ ip4_ok (snd t)) targets → ip4_ok dest_ip → mac_ok sm →
  (∃ sent, spoofing_round targets dest_ip sm = Ok sent ∧
    Forall2 (λ t '(access, pkt), access = fst (fst t) ∧
      arp_handle_recv (Some arp_op_reply) pkt = Ok (Some (arp_tool_header arp_op_reply sm dest_ip (snd (fst t)) (snd t)))) targets sent) ∧
  ∃ pkt, announce_new_pair dest_ip sm = Ok pkt ∧
    arp_handle_recv (Some arp_op_reply) pkt = Ok (Some (arp_tool_header arp_op_reply sm dest_ip mac_addr_empty ip4_addr_empty)).
Proof.
  intros Ht Hd Hsm. split.
  - induction Ht as [|[[access m] ip] targets [Hm Hip] Ht (sent & E & IH)]; cbn [spoofing_round]; [by exists []|].
    destruct (arp_tool_sent arp_op_reply sm dest_ip m ip ltac:(done) Hsm Hd Hm Hip) as [-> Hr]. cbn [mbind res_bind].
    rewrite E. eexists. split; [done|]. constructor; [|done]. split; [done|]. by rewrite Hr.
  - destruct (arp_tool_sent arp_op_reply sm dest_ip mac_addr_empty ip4_addr_empty ltac:(done) Hsm Hd mac_empty_ok ip4_empty_ok) as [E Hr].
    eexists. split; [exact E|]. by rewrite Hr.
Qed.
Lemma arp_claims_witness :
  let sm := MacAddr [2; 0; 0; 0; 0; 1] in
  let targets := [(7, MacAddr [2; 0; 0; 0; 0; 9], Ip4Addr [10; 0; 0; 9])] in
  (∃ sent, spoofing_round targets (Ip4Addr [10; 0; 0; 1]) sm = Ok sent ∧
    Forall2 (λ t '(access, pkt), access = fst (fst t) ∧
      arp_handle_recv (Some arp_op_reply) pkt
      = Ok (Some (arp_tool_header arp_op_reply sm (Ip4Addr [10; 0; 0; 1]) (snd (fst t)) (snd t)))) targets sent) ∧
  ∃ pkt, announce_new_pair (Ip4Addr [10; 0; 0; 1]) sm = Ok pkt ∧
    arp_handle_recv (Some arp_op_reply) pkt
    = Ok (Some (arp_tool_header arp_op_reply sm (Ip4Addr [10; 0; 0; 1]) mac_addr_empty ip4_addr_empty)).
Proof.
  intros sm targets. apply (arp_claims targets (Ip4Addr [10; 0; 0; 1]) sm).
  - apply Forall_cons_2; [|apply Forall_nil_2]. by repeat constructor.
  - by repeat constructor.
  - by repeat constructor.
Defined.
