(* ===== verification/Analyzer.v ===== *)
(** The packet analyzer of [src/tools/net_analyzer/parsed_packet.cpp]: a captured frame is taken apart into its layers, each
    with a line of description.  The layers call each other through receivers connected to temporary accesses,
    so that a layer is the [handle_recv] of its protocol followed by the analyzer's own handler.
    The printing and the time of the capture are left out. *)

From Stdlib Require Import ZArith Lia String.
From stdpp Require Import base decidable list numbers.
From S2P Require Import Prelude Cursor Text Encap Ether2 Ip4 Arp.

(** * Protocol names *)

Inductive net_analyzer_prot : Type :=
  prot_ethernet2 | prot_arp | prot_ip4 | prot_udp | prot_tcp | prot_icmp | prot_dns | prot_mdns.
#[export] Instance net_analyzer_prot_eq_dec : EqDecision net_analyzer_prot.
Proof. solve_decision. Defined.
Inductive net_analyzer_parsed_status : Type := status_valid | status_corrupted | status_untested | status_unknown.

Definition net_analyzer_prot_to_str (prot : net_analyzer_prot) : list Z :=
  match prot with
  | prot_ethernet2 => str "ethernet2"
  | prot_arp => str "arp"
  | prot_ip4 => str "ip4"
  | prot_udp => str "udp"
  | prot_tcp => str "tcp"
  | prot_icmp => str "icmp"
  | prot_dns => str "dns"
  | prot_mdns => str "mdns"
  end.
Definition str_to_net_analyzer_prot (s : list Z) : option net_analyzer_prot :=
  if decide (s = str "ethernet2") then Some prot_ethernet2
  else if decide (s = str "arp") then Some prot_arp
  else if decide (s = str "ip4") then Some prot_ip4
  else if decide (s = str "udp") then Some prot_udp
  else if decide (s = str "tcp") then Some prot_tcp
  else if decide (s = str "icmp") then Some prot_icmp
  else if decide (s = str "dns") then Some prot_dns
  else if decide (s = str "mdns") then Some prot_mdns
  else None.

Record net_analyzer_parsed_prot := ParsedProt {
  parsed_status : net_analyzer_parsed_status; parsed_prot : option net_analyzer_prot; parsed_desc : list Z
}.

(** * The layers *)

Definition name_or (name : option (list Z)) (other : list Z) : list Z := default other name.

Definition ip4_desc (h : ip4_header) : list Z :=
  str "src: " ++ ip4_addr_to_str (src_addr h) ++ str ", dest: " ++ ip4_addr_to_str (dest_addr h) ++
  str ", prot: " ++ name_or (ip_prot_to_str (prot h)) (str "<unsupported>").
(** [my_recv_ip4::handle_recv]: the three protocols it knows are not looked into. *)
Definition recv_ip4 (data : ip4_header * list Z) : list net_analyzer_parsed_prot :=
  [ParsedProt status_valid (Some prot_ip4) (ip4_desc (fst data))].

(** [extract_from_network_order] of an address from the data of a vector, as text. *)
Definition ip4_text (v : list Z) : res (list Z) := '(a, _) ← run_extract extract_ip4_addr v; Ok (ip4_addr_to_str a).
Definition mac_text (v : list Z) : res (list Z) := '(a, _) ← run_extract extract_mac_addr v; Ok (mac_addr_to_str a).
Definition prot_addr_text (prot_type : Z) (v : list Z) : res (list Z) :=
  if prot_type =? ethertype_ip4 then ip4_text v else Ok (str "<unknown>").
Definition arp_desc (h : arp_header) : res (list Z) :=
  let desc := name_or (ethertype_to_str (prot_type h)) (str "<unsupported>") ++ str " -> " ++ str "mac" ++ str ", " in
  if arp_op h =? arp_op_request then
    t ← prot_addr_text (prot_type h) (target_prot_addr h); Ok (desc ++ str "request for " ++ t)
  else if arp_op h =? arp_op_reply then
    t ← prot_addr_text (prot_type h) (sender_prot_addr h);
    m ← mac_text (sender_hard_addr h);
    Ok (desc ++ str "reply: " ++ t ++ str " is " ++ m)
  else Ok (desc ++ str "<unsupported op>").
Definition recv_arp (data : arp_header) : res (list net_analyzer_parsed_prot) :=
  desc ← arp_desc data; Ok [ParsedProt status_valid (Some prot_arp) desc].

Definition ether2_desc (h : ethernet2_header) : list Z :=
  str "src: " ++ mac_addr_to_str (eth_src_addr h) ++ str ", dest: " ++ mac_addr_to_str (eth_dest_addr h) ++
  str ", ethertype: " ++ name_or (ethertype_to_str (eth_prot h)) (str "<unsupported>").
Definition recv_ether2 (data : ethernet2_header * list Z) : res (list net_analyzer_parsed_prot) :=
  let res := [ParsedProt status_valid (Some prot_ethernet2) (ether2_desc (fst data))] in
  if eth_prot (fst data) =? ethertype_arp then
    o ← arp_handle_recv None (snd data);
    match o with None => Ok res | Some h => r ← recv_arp h; Ok (res ++ r) end
  else if eth_prot (fst data) =? ethertype_ip4 then
    o ← ip4_handle_recv None None None (snd data);
    Ok (match o with None => res | Some d => res ++ recv_ip4 d end)
  else Ok res.

(** [parse_prots]. *)
Definition parse_prots (data : list Z) : res (list net_analyzer_parsed_prot) :=
  o ← ether2_handle_recv None None None data;
  match o with None => Ok [] | Some d => recv_ether2 d end.

(** * Lemmas *)

Lemma parse_ether2 h data : ethernet2_header_ok h → parse_prots (ethernet2_bytes h ++ data) = recv_ether2 (h, data).
Proof.
  intros Hh. unfold parse_prots.
  pose proof (ether2_recv_ok (Ether2Filters None None None ltac:(done) ltac:(done)) h data Hh) as E. cbn [ef_src ef_dest ef_type] in E.
  rewrite E. unfold ef_match. by rewrite bool_decide_true.
Qed.
Lemma recv_front_ip4 h data : ip4_header_ok h →
  ip4_handle_recv None None None (ip4_bytes h ++ data) = Ok (Some (clear_flags h, data)).
Proof.
  intros Hh. pose proof (ip4_recv_ok (Ip4Filters None None None ltac:(done) ltac:(done)) h data Hh) as E.
  cbn [if_src if_dest if_prot] in E. rewrite E. unfold ip4_match. by rewrite bool_decide_true.
Qed.
Lemma ip4_text_ok a : ip4_ok a → ip4_text (ip4_octets a) = Ok (ip4_addr_to_str a).
Proof. intros [Hl _]. destruct a as [[|? [|? [|? [|? [|]]]]]]; done. Qed.
Lemma mac_text_ok a : mac_ok a → mac_text (mac_octets a) = Ok (mac_addr_to_str a).
Proof. intros [Hl _]. destruct a as [[|? [|? [|? [|? [|? [|? [|]]]]]]]]; done. Qed.

(** * Properties *)

(** C38: a frame that the protocols of the repository sent is taken apart into the layers it has, in order, with the
    addresses and protocols of their headers in the descriptions: Ethernet alone for an unknown ethertype, Ethernet and
    IPv4 (whatever IPv4 carries), Ethernet and ARP with the pair that a reply claims or the address that a request asks for. *)
Theorem parse_prots_layers (h : ethernet2_header) (ip : ip4_header) (sm tm : mac_addr) (sip tip : ip4_addr) (data post : list Z) :
  ethernet2_header_ok h → ip4_header_ok ip → mac_ok sm → mac_ok tm → ip4_ok sip → ip4_ok tip →
  let eth := ParsedProt status_valid (Some prot_ethernet2) (ether2_desc h) in
  let arp op := ArpHeader 1 ethertype_ip4 6 4 op (mac_octets sm) (ip4_octets sip) (mac_octets tm) (ip4_octets tip) in
  (eth_prot h ≠ ethertype_arp → eth_prot h ≠ ethertype_ip4 → parse_prots (ethernet2_bytes h ++ data) = Ok [eth]) ∧
  (eth_prot h = ethertype_ip4 →
    parse_prots (ethernet2_bytes h ++ ip4_bytes ip ++ data) = Ok [eth; ParsedProt status_valid (Some prot_ip4) (ip4_desc ip)]) ∧
  (eth_prot h = ethertype_arp →
    parse_prots (ethernet2_bytes h ++ arp_bytes (arp arp_op_request) ++ post)
      = Ok [eth; ParsedProt status_valid (Some prot_arp) (str "ip4 -> mac, request for " ++ ip4_addr_to_str tip)] ∧
    parse_prots (ethernet2_bytes h ++ arp_bytes (arp arp_op_reply) ++ post)
      = Ok [eth; ParsedProt status_valid (Some prot_arp)
                   (str "ip4 -> mac, reply: " ++ ip4_addr_to_str sip ++ str " is " ++ mac_addr_to_str sm)]).
Proof.
  intros Hh Hip Hsm Htm Hsip Htip eth arp. rewrite !parse_ether2 by done. unfold recv_ether2. cbn [fst snd].
  split; [|split].
  - intros N1 N2. by rewrite (proj2 (Z.eqb_neq _ _) N1), (proj2 (Z.eqb_neq _ _) N2).
  - intros E. rewrite E. change (ethertype_ip4 =? ethertype_arp) with false. rewrite Z.eqb_refl. cbv iota.
    rewrite recv_front_ip4 by done. done.
  - intros E. rewrite E, Z.eqb_refl. cbv iota.
    assert (Ha : ∀ op, u16_ok op → arp_handle_recv None (arp_bytes (arp op) ++ post) = Ok (Some (arp op))).
    { intros op Hop. rewrite arp_recv_ok; [done|repeat split; (done || apply Hop)|].
      destruct Hsm as [H1 _], Htm as [H2 _], Hsip as [H3 _], Htip as [H4 _]. unfold arp_sizes_match. cbn.
      by rewrite H1, H2, H3, H4. }
    rewrite !Ha by done. cbn [mbind res_bind]. unfold recv_arp, arp_desc. split.
    + cbn [arp arp_op prot_type target_prot_addr]. unfold prot_addr_text. rewrite ip4_text_ok by done. done.
    + cbn [arp arp_op prot_type sender_prot_addr sender_hard_addr]. unfold prot_addr_text.
      rewrite ip4_text_ok, mac_text_ok by done. done.
Qed.
Definition eth_witness (t : Z) : ethernet2_header := Ethernet2Header (MacAddr [2; 0; 0; 0; 0; 1]) mac_addr_broadcast t.
Lemma eth_witness_ok t : u16_ok t → ethernet2_header_ok (eth_witness t).
Proof. intros Ht. split_and!; (exact Ht || by repeat constructor). Qed.
Lemma parse_prots_layers_witness :
  parse_prots (ethernet2_bytes (eth_witness ethertype_ip4) ++ ip4_bytes ip4_witness ++ [1; 2])
  = Ok [ParsedProt status_valid (Some prot_ethernet2) (str "src: 02:00:00:00:00:01, dest: ff:ff:ff:ff:ff:ff, ethertype: ip4");
        ParsedProt status_valid (Some prot_ip4) (str "src: 10.0.0.1, dest: 10.0.0.2, prot: udp")].
Proof.
  apply (parse_prots_layers (eth_witness ethertype_ip4) ip4_witness mac_addr_broadcast mac_addr_empty ip4_addr_empty
    ip4_addr_empty [1; 2] []); [by apply eth_witness_ok|apply ip4_witness_ok|by repeat constructor..|reflexivity].
Defined.

(** The analyzer trusts the lengths of what it captures: a frame shorter than the Ethernet header, or shorter than
    the IPv4 header that its ethertype announces, is read past its end; so is an ARP message about IPv4 whose
    addresses are announced shorter than 4 bytes, although it is complete. *)
Theorem parse_prots_short (frame : list Z) (h : ethernet2_header) (data : list Z) (a : arp_header) (post : list Z) :
  (length frame < 14)%nat → ethernet2_header_ok h → (length data < 20)%nat →
  arp_header_ok a → arp_sizes_match a → prot_type a = ethertype_ip4 → prot_addr_sz a < 4 →
  arp_op a = arp_op_request ∨ arp_op a = arp_op_reply →
  parse_prots frame = Fault OutOfBounds ∧
  (eth_prot h = ethertype_ip4 → parse_prots (ethernet2_bytes h ++ data) = Fault OutOfBounds) ∧
  (eth_prot h = ethertype_arp → parse_prots (ethernet2_bytes h ++ arp_bytes a ++ post) = Fault OutOfBounds).
Proof.
  intros Hf Hh Hd Ha Hm Ht Hs Hop. rewrite !parse_ether2 by done. unfold recv_ether2. cbn [fst snd]. split; [|split].
  - unfold parse_prots. by rewrite ether2_recv_short.
  - intros E. rewrite E. change (ethertype_ip4 =? ethertype_arp) with false. rewrite Z.eqb_refl. cbv iota.
    by rewrite ip4_recv_short.
  - intros E. rewrite E, Z.eqb_refl. cbv iota. rewrite arp_recv_ok by done. rewrite decide_True by exact I. cbn [mbind res_bind].
    assert (Hx : ∀ v, Z.of_nat (length v) = prot_addr_sz a → ip4_text v = Fault OutOfBounds).
    { intros v Hv. destruct v as [|? [|? [|? [|]]]]; cbn [length] in Hv; (lia || done). }
    destruct Hm as (_ & H1 & _ & H2). unfold recv_arp, arp_desc, prot_addr_text. rewrite Ht.
    destruct Hop as [-> | ->]; cbn [Z.eqb]; rewrite !Hx by done; done.
Qed.
Definition short_arp : arp_header := ArpHeader 1 ethertype_ip4 6 2 arp_op_request [2; 0; 0; 0; 0; 1] [10; 0] [0; 0; 0; 0; 0; 0] [10; 1].
Lemma parse_prots_short_witness :
  parse_prots [1; 2; 3] = Fault OutOfBounds ∧
  (ethertype_arp = ethertype_ip4 → parse_prots (ethernet2_bytes (eth_witness ethertype_arp) ++ [7]) = Fault OutOfBounds) ∧
  (ethertype_arp = ethertype_arp → parse_prots (ethernet2_bytes (eth_witness ethertype_arp) ++ arp_bytes short_arp ++ []) = Fault OutOfBounds).
Proof.
  apply (parse_prots_short [1; 2; 3] (eth_witness ethertype_arp) [7] short_arp []);
    solve [simpl; lia|by apply eth_witness_ok|by repeat constructor|done|by left].
Defined.

(** The names of the protocols are read back. *)
Lemma net_analyzer_prot_names p : str_to_net_analyzer_prot (net_analyzer_prot_to_str p) = Some p.
Proof. by destruct p. Qed.
