(* ===== verification/MsgBoundary.v ===== *)
(** The separator of messages, [src/protocols/msg_boundary/msg_boundary_seperator.h], which keeps the boundaries of messages over
    a stream of bytes (TCP): each message is preceded by its size, a [uint16_t] (the default [MSG_SZ_FIELD]) in host order.

    [deframe] is the specification: the complete frames at the front of a stream, and what is left. The refinement theorem says that
    the state machine of [handle_callback], fed with the stream in pieces, delivers its frames, as long as no
    piece ends inside a size (the assumption that the header of the file states). *)

From Stdlib Require Import ZArith Lia.
From stdpp Require Import base decidable list numbers.
From S2P Require Import Prelude Cursor.

(** [curr_buff] is the buffer of [curr_msg]. *)
Record separator := Separator { mid_packet : bool; curr_buff : list Z; curr_read : Z }.
Definition new_separator : separator := Separator false [] 0.

(** [send_data]: the size is cut to 16 bits before it is used. *)
Definition separator_send (data : list Z) : list Z :=
  let sz := u16 (Z.of_nat (length data)) in le16 sz ++ take (Z.to_nat sz) data.

(** The start of a message, when none is being read; [buff] is what the pointer has left, [cnt] the
    variable of that name. *)
Definition start_message (s : separator) (buff : list Z) (cnt : Z) : res (separator * list Z * Z) :=
  if mid_packet s then Ok (s, buff, cnt)
  else
    match buff with
    | b0 :: b1 :: buff => Ok (Separator true (replicate (Z.to_nat (of_le16 b0 b1)) 0) 0, buff, u16 (cnt - 2))
    | _ => Fault OutOfBounds
    end.
(** The rest of an iteration: the message is given when it is complete. *)
Definition read_message (s : separator) (buff : list Z) (cnt : Z) : res (separator * list Z * Z * option (list Z)) :=
  let size := Z.of_nat (length (curr_buff s)) in
  let read_left := u16 (size - curr_read s) in
  let reading := Z.min cnt read_left in
  part ← (if decide (Z.to_nat reading ≤ length buff)%nat then Ok (take (Z.to_nat reading) buff) else Fault OutOfBounds);
  msg ← memcpy (curr_buff s) (Z.to_nat (curr_read s)) part;
  let read := u16 (curr_read s + reading) in
  let buff := drop (Z.to_nat reading) buff in
  let cnt := u16 (cnt - reading) in
  if read =? size then Ok (Separator false msg read, buff, cnt, Some msg)
  else Ok (Separator true msg read, buff, cnt, None).

Fixpoint callback_loop (fuel : nat) (s : separator) (buff : list Z) (cnt : Z) (out : list (list Z)) :
    res (separator * list (list Z)) :=
  match fuel with
  | O => Fault OutOfFuel
  | S fuel =>
      if 0 <? cnt then
        '(s, buff, cnt) ← start_message s buff cnt;
        '(s, buff, cnt, msg) ← read_message s buff cnt;
        callback_loop fuel s buff cnt (out ++ option_list msg)
      else Ok (s, out)
  end.
(** [handle_callback] on the data of a message: the new state and the messages handed on.  Every iteration takes a byte
    at least. *)
Definition handle_callback (s : separator) (data : list Z) : res (separator * list (list Z)) :=
  callback_loop (S (length data)) s data (u16 (Z.of_nat (length data))) [].

(** The pieces of a stream, one call each. *)
Fixpoint handle_stream (s : separator) (pieces : list (list Z)) (out : list (list Z)) : res (separator * list (list Z)) :=
  match pieces with
  | [] => Ok (s, out)
  | data :: pieces => '(s, msgs) ← handle_callback s data; handle_stream s pieces (out ++ msgs)
  end.

(** * The specification *)

Fixpoint frames (fuel : nat) (bs : list Z) : list (list Z) * list Z :=
  match fuel, bs with
  | S fuel, b0 :: b1 :: r =>
      let sz := Z.to_nat (of_le16 b0 b1) in
      if decide (sz ≤ length r)%nat then
        let '(ms, rest) := frames fuel (drop sz r) in (take sz r :: ms, rest)
      else ([], bs)
  | _, _ => ([], bs)
  end.
Definition deframe (bs : list Z) : list (list Z) * list Z := frames (length bs) bs.

(** * Lemmas *)

Lemma frames_fuel n m bs : (length bs ≤ n)%nat → (length bs ≤ m)%nat → frames n bs = frames m bs.
Proof.
  revert m bs. induction n as [|n IH]; intros m bs Hn Hm.
  - destruct bs; [|simpl in Hn; lia]. by destruct m.
  - destruct m as [|m]; [destruct bs; [done|simpl in Hm; lia]|]. destruct bs as [|b0 [|b1 r]]; [done..|].
    cbn [frames length] in *. case_decide; [|done]. rewrite (IH m); [done|rewrite length_drop; lia..].
Qed.
Lemma frames_S n b0 b1 r : frames (S n) (b0 :: b1 :: r) =
  if decide (Z.to_nat (of_le16 b0 b1) ≤ length r)%nat then
    (take (Z.to_nat (of_le16 b0 b1)) r :: fst (frames n (drop (Z.to_nat (of_le16 b0 b1)) r)),
     snd (frames n (drop (Z.to_nat (of_le16 b0 b1)) r)))
  else ([], b0 :: b1 :: r).
Proof. cbn [frames]. case_decide; [|done]. by destruct (frames n _). Qed.
(** A message at the front. *)
Lemma deframe_cons b0 b1 m rest : Z.to_nat (of_le16 b0 b1) = length m →
  deframe (b0 :: b1 :: m ++ rest) = (m :: fst (deframe rest), snd (deframe rest)).
Proof.
  intros Hm. unfold deframe at 1. cbn [length]. rewrite frames_S, Hm, decide_True by (rewrite length_app; lia).
  by rewrite take_app_length, drop_app_length, (frames_fuel _ (length rest)) by (rewrite ?length_app; lia).
Qed.
Lemma deframe_short b0 b1 r : (length r < Z.to_nat (of_le16 b0 b1))%nat → deframe (b0 :: b1 :: r) = ([], b0 :: b1 :: r).
Proof. intros Hr. unfold deframe. cbn [length]. by rewrite frames_S, decide_False by lia. Qed.

(** What the state stands for: the bytes of an incomplete frame. *)
Inductive pending : list Z → separator → Prop :=
  | pending_none buff read : pending [] (Separator false buff read)
  | pending_some b0 b1 body :
      byte_ok b0 → byte_ok b1 → (length body < Z.to_nat (of_le16 b0 b1))%nat →
      pending (b0 :: b1 :: body)
        (Separator true (body ++ replicate (Z.to_nat (of_le16 b0 b1) - length body) 0) (Z.of_nat (length body))).

Lemma deframe_pending p s : pending p s → deframe p = ([], p).
Proof. destruct 1; [done|by apply deframe_short]. Qed.

Lemma blit_body body k part : (length part ≤ k)%nat →
  memcpy (body ++ replicate k 0) (length body) part = Ok ((body ++ part) ++ replicate (k - length part) 0).
Proof.
  intros Hk. rewrite memcpy_ok by (rewrite length_app, length_replicate; lia). unfold blit.
  rewrite take_app_length, drop_app_ge, drop_replicate, <- app_assoc by lia.
  by replace (length body + length part - length body)%nat with (length part) by lia.
Qed.

(** One iteration inside a message of [sz] bytes of which [body] has been read. *)
Lemma read_message_spec body sz buff : (length body ≤ sz)%nat → Z.of_nat sz < 2 ^ 16 → Z.of_nat (length buff) < 2 ^ 16 →
  read_message (Separator true (body ++ replicate (sz - length body) 0) (Z.of_nat (length body))) buff (Z.of_nat (length buff)) =
  Ok (if decide (sz - length body ≤ length buff)%nat then
        let m := body ++ take (sz - length body) buff in
        (Separator false m (Z.of_nat sz), drop (sz - length body) buff,
         Z.of_nat (length (drop (sz - length body) buff)), Some m)
      else
        (Separator true ((body ++ buff) ++ replicate (sz - length (body ++ buff)) 0) (Z.of_nat (length (body ++ buff))),
         [], 0, None)).
Proof.
  intros Hb Hsz Hl. unfold read_message. cbn [curr_buff curr_read].
  rewrite length_app, length_replicate, Nat.add_sub_assoc, Nat.add_comm, Nat.add_sub by lia.
  unfold u16. change (2 ^ 16) with 65536 in *. rewrite (Z.mod_small (Z.of_nat sz - Z.of_nat (length body))) by lia.
  set (k := (sz - length body)%nat). replace (Z.of_nat sz - Z.of_nat (length body)) with (Z.of_nat k) by lia.
  destruct (decide (k ≤ length buff)%nat) as [Hk|Hk].
  - rewrite Z.min_r, Nat2Z.id, decide_True by lia. cbn [mbind res_bind]. rewrite Nat2Z.id.
    rewrite blit_body by (rewrite length_take; lia). cbn [mbind res_bind]. rewrite length_take, Nat.min_l, Nat.sub_diag by lia.
    cbn [replicate]. rewrite app_nil_r, !Z.mod_small by lia. rewrite length_drop.
    replace (Z.of_nat (length body) + Z.of_nat k) with (Z.of_nat sz) by lia. rewrite Z.eqb_refl.
    by replace (Z.of_nat (length buff) - Z.of_nat k) with (Z.of_nat (length buff - k)) by lia.
  - rewrite Z.min_l, Nat2Z.id, decide_True by lia. cbn [mbind res_bind]. rewrite Nat2Z.id, take_ge, drop_ge by lia.
    rewrite blit_body by lia. cbn [mbind res_bind]. rewrite !Z.mod_small by lia. rewrite (proj2 (Z.eqb_neq _ _)) by lia.
    rewrite length_app, Z.sub_diag. do 5 f_equal; [|lia]. f_equal. f_equal. lia.
Qed.

Lemma of_le16_bound b0 b1 : byte_ok b0 → byte_ok b1 → 0 ≤ of_le16 b0 b1 < 2 ^ 16.
Proof. unfold byte_ok, of_le16. intros. change (2 ^ 16) with 65536. lia. Qed.

(** The loop against the specification. *)
Definition callback_result (p : list Z) (data : list Z) (out : list (list Z)) (r : res (separator * list (list Z))) : Prop :=
  let '(ms, rest) := deframe (p ++ data) in
  if decide (length rest = 1%nat) then r = Fault OutOfBounds
  else ∃ s, r = Ok (s, out ++ ms) ∧ pending rest s.

Lemma loop_empty fuel s out : callback_loop (S fuel) s [] 0 out = Ok (s, out).
Proof. done. Qed.

(** Inside a message; [sz] may be 0 just after its start. *)
Lemma loop_in_message n b0 b1 body buff out fuel :
  (∀ buff out fuel s, (length buff < n)%nat → (length buff < fuel)%nat → bytes_ok buff → Z.of_nat (length buff) < 2 ^ 16 → mid_packet s = false →
     callback_result [] buff out (callback_loop fuel s buff (Z.of_nat (length buff)) out)) →
  byte_ok b0 → byte_ok b1 → bytes_ok buff → Z.of_nat (length buff) < 2 ^ 16 →
  let sz := Z.to_nat (of_le16 b0 b1) in
  (length body ≤ sz)%nat → (length (drop (sz - length body) buff) < n)%nat → (length (drop (sz - length body) buff) < fuel)%nat →
  callback_result (b0 :: b1 :: body) buff out
    ('(s, buff, cnt, msg) ← read_message (Separator true (body ++ replicate (sz - length body) 0) (Z.of_nat (length body)))
                             buff (Z.of_nat (length buff));
     callback_loop fuel s buff cnt (out ++ option_list msg)).
Proof.
  intros IH H0 H1 Hok Hl sz Hb Hn Hf. pose proof (of_le16_bound _ _ H0 H1) as Hr.
  assert (Hsz : Z.of_nat sz < 2 ^ 16) by (unfold sz; lia).
  rewrite read_message_spec by done. cbn [mbind res_bind]. unfold callback_result. cbn [app].
  destruct (decide (sz - length body ≤ length buff)%nat) as [Hk|Hk].
  - set (m := body ++ take (sz - length body) buff).
    assert (Hm : sz = length m) by (unfold m; rewrite length_app, length_take; lia).
    replace (body ++ buff) with (m ++ drop (sz - length body) buff) by (unfold m; by rewrite <- app_assoc, take_drop).
    rewrite (deframe_cons _ _ m) by done.
    specialize (IH (drop (sz - length body) buff) (out ++ [m]) fuel (Separator false m (Z.of_nat sz)) Hn Hf).
    unfold callback_result in IH. cbn [app option_list] in *. destruct (deframe (drop _ _)) as [ms rest]. cbn [fst snd].
    rewrite length_drop in *. specialize (IH ltac:(by apply Forall_drop) ltac:(lia) eq_refl).
    case_decide; [done|]. destruct IH as (s & E & Hp). exists s. split; [|done].
    change (option_list (Some m)) with [m]. by rewrite E, <- app_assoc.
  - rewrite deframe_short by (fold sz; rewrite length_app; lia). rewrite decide_False by done.
    destruct fuel as [|fuel]; [lia|]. change (option_list None) with (@nil (list Z)). rewrite app_nil_r, loop_empty. eexists. split; [done|].
    apply pending_some; [done..|]. fold sz. rewrite length_app. lia.
Qed.

Lemma loop_between n : ∀ buff out fuel s, (length buff < n)%nat → (length buff < fuel)%nat → bytes_ok buff →
  Z.of_nat (length buff) < 2 ^ 16 → mid_packet s = false →
  callback_result [] buff out (callback_loop fuel s buff (Z.of_nat (length buff)) out).
Proof.
  induction n as [|n IH]; intros buff out fuel s Hn Hf Hok Hl Hs; [lia|]. destruct fuel as [|fuel]; [lia|].
  destruct s as [mid cb cr]. cbn [mid_packet] in Hs. subst mid. unfold callback_result. cbn [app].
  destruct buff as [|b0 [|b1 r]].
  - eexists. split; [by rewrite app_nil_r|]. constructor.
  - done.
  - apply Forall_cons_1 in Hok as [H0 Hok]. apply Forall_cons_1 in Hok as [H1 Hok].
    cbn [callback_loop]. rewrite (proj2 (Z.ltb_lt _ _)) by (simpl; lia). unfold start_message. cbn [mid_packet mbind res_bind].
    assert (E : u16 (Z.of_nat (length (b0 :: b1 :: r)) - 2) = Z.of_nat (length r)).
    { unfold u16. cbn [length] in *. change (2 ^ 16) with 65536 in *. rewrite Z.mod_small; lia. }
    rewrite E. pose proof (loop_in_message n b0 b1 [] r out fuel IH H0 H1 Hok) as Hin. cbn [length] in *.
    rewrite Nat.sub_0_r in Hin. apply Hin; [lia|lia|rewrite length_drop; lia..].
Qed.
Lemma loop_spec p s data : pending p s → bytes_ok data → Z.of_nat (length data) < 2 ^ 16 →
  callback_result p data [] (handle_callback s data).
Proof.
  intros Hp Hok Hl. unfold handle_callback. unfold u16 at 1. rewrite Z.mod_small by lia.
  destruct Hp as [cb cr|b0 b1 body H0 H1 Hlt].
  - apply (loop_between (S (length data))); (done || lia).
  - destruct data as [|d data].
    + unfold callback_result. rewrite app_nil_r, deframe_short by done. eexists. split; [done|]. by constructor.
    + set (buff := d :: data) in *. cbn [callback_loop]. rewrite (proj2 (Z.ltb_lt _ _)) by (simpl; lia).
      unfold start_message. cbn [mid_packet mbind res_bind].
      apply (loop_in_message (S (length buff)) b0 b1 body buff [] (length buff)); try done; try lia.
      * intros. by apply (loop_between (S (length buff))).
      * rewrite length_drop. lia.
      * rewrite length_drop. unfold buff. simpl. lia.
Qed.

Lemma deframe_app a b : let '(m1, r1) := deframe a in let '(m2, r2) := deframe (r1 ++ b) in deframe (a ++ b) = (m1 ++ m2, r2).
Proof.
  remember (length a) as n eqn:En. revert a En. induction (lt_wf n) as [n _ IH]. intros a ->.
  destruct a as [|b0 [|b1 r]].
  - change (deframe []) with (@nil (list Z), @nil Z). cbn [app]. by destruct (deframe b).
  - cbn [app]. change (deframe [b0]) with (@nil (list Z), [b0]). cbn [app]. by destruct (deframe (b0 :: b)).
  - set (sz := Z.to_nat (of_le16 b0 b1)). destruct (decide (sz ≤ length r)%nat) as [Hk|Hk].
    + specialize (IH (length (drop sz r)) ltac:(rewrite length_drop; simpl; lia) (drop sz r) eq_refl).
      assert (Hm : sz = length (take sz r)) by (rewrite length_take; lia).
      rewrite <- (take_drop sz r). rewrite deframe_cons by done. cbn [app]. rewrite <- app_assoc.
      rewrite (deframe_cons _ _ (take sz r) (drop sz r ++ b)) by done.
      destruct (deframe (drop sz r)) as [m1 r1]. cbn [fst snd]. destruct (deframe (r1 ++ b)) as [m2 r2]. by rewrite IH.
    + rewrite deframe_short by (fold sz; lia). cbn [app]. by destruct (deframe _).
Qed.

(** Feeding a stream in pieces none of which ends inside a size. *)
Fixpoint pieces_ok (p : list Z) (pieces : list (list Z)) : Prop :=
  match pieces with
  | [] => True
  | data :: pieces =>
      bytes_ok data ∧ Z.of_nat (length data) < 2 ^ 16 ∧ length (snd (deframe (p ++ data))) ≠ 1%nat ∧
      pieces_ok (snd (deframe (p ++ data))) pieces
  end.

Lemma handle_stream_spec pieces : ∀ p s out, pending p s → pieces_ok p pieces →
  ∃ s', handle_stream s pieces out = Ok (s', out ++ fst (deframe (p ++ concat pieces))) ∧
    pending (snd (deframe (p ++ concat pieces))) s'.
Proof.
  induction pieces as [|data pieces IH]; intros p s out Hp Hok; cbn [handle_stream concat].
  - exists s. rewrite app_nil_r, (deframe_pending p s Hp). cbn. by rewrite app_nil_r.
  - destruct Hok as (Hb & Hl & Hne & Hok). pose proof (loop_spec p s data Hp Hb Hl) as Hr. unfold callback_result in Hr.
    pose proof (deframe_app (p ++ data) (concat pieces)) as Hd.
    destruct (deframe (p ++ data)) as [ms rest]. cbn [fst snd] in *. rewrite decide_False in Hr by done.
    destruct Hr as (s1 & -> & Hp1). cbn [mbind res_bind]. destruct (IH rest s1 (out ++ ms) Hp1 Hok) as (s2 & E & Hp2).
    exists s2. rewrite (app_assoc p data). destruct (deframe (rest ++ concat pieces)) as [m2 r2]. rewrite Hd. cbn [fst snd app] in *.
    by rewrite E, <- app_assoc.
Qed.

(** What [send_data] puts on the stream. *)
Definition frame_ok (m : list Z) : Prop := bytes_ok m ∧ Z.of_nat (length m) < 2 ^ 16.

Lemma deframe_sent ms : Forall frame_ok ms → deframe (concat (separator_send <$> ms)) = (ms, []).
Proof.
  induction 1 as [|m ms [Hb Hl] Hms IH]; [done|]. cbn [fmap list_fmap concat]. unfold separator_send at 1.
  unfold u16. rewrite Z.mod_small by lia. rewrite Nat2Z.id, take_ge by lia. unfold le16. cbn [app].
  rewrite (deframe_cons _ _ m); [by rewrite IH|]. rewrite of_le16_le16 by (unfold u16_ok; lia). apply Nat2Z.id.
Qed.

(** * Properties *)

(** C33: one call of the separator against the specification. From the state that stands for an incomplete frame, data of less
    than 64 KiB gives the frames that the stream now completes, in order, and the state that stands for what is left; when
    what is left is the first byte of a size alone, the call reads past the data. *)
Theorem separator_refines (p : list Z) (s : separator) (data : list Z) :
  pending p s → bytes_ok data → Z.of_nat (length data) < 2 ^ 16 →
  let '(ms, rest) := deframe (p ++ data) in
  if decide (length rest = 1%nat) then handle_callback s data = Fault OutOfBounds
  else ∃ s', handle_callback s data = Ok (s', ms) ∧ pending rest s'.
Proof. exact (loop_spec p s data). Qed.
Lemma separator_refines_witness :
  let '(ms, rest) := deframe ([] ++ [2; 0; 7; 8; 3; 0; 1]) in
  if decide (length rest = 1%nat) then handle_callback new_separator [2; 0; 7; 8; 3; 0; 1] = Fault OutOfBounds
  else ∃ s', handle_callback new_separator [2; 0; 7; 8; 3; 0; 1] = Ok (s', ms) ∧ pending rest s'.
Proof. apply (separator_refines [] new_separator [2; 0; 7; 8; 3; 0; 1]); [constructor|by repeat constructor|done]. Defined.

(** Messages of less than 64 KiB sent through the separator arrive as they were sent, in order, however the stream is cut into
    pieces, as long as no piece ends between the two bytes of a size. *)
Theorem separator_roundtrip (ms : list (list Z)) (pieces : list (list Z)) :
  Forall frame_ok ms → concat pieces = concat (separator_send <$> ms) → pieces_ok [] pieces →
  ∃ s, handle_stream new_separator pieces [] = Ok (s, ms) ∧ mid_packet s = false.
Proof.
  intros Hms Hc Hp. destruct (handle_stream_spec pieces [] new_separator [] ltac:(constructor) Hp) as (s & E & Hs).
  cbn [app] in *. rewrite Hc, deframe_sent in E, Hs by done. exists s. split; [done|]. by inversion Hs.
Qed.
Lemma separator_roundtrip_witness :
  ∃ s, handle_stream new_separator [[2; 0; 7]; [8; 0; 0; 1; 0]; [9]] [] = Ok (s, [[7; 8]; []; [9]]) ∧ mid_packet s = false.
Proof.
  apply (separator_roundtrip [[7; 8]; []; [9]] [[2; 0; 7]; [8; 0; 0; 1; 0]; [9]]).
  - by repeat constructor.
  - reflexivity.
  - split_and!; (exact I || (vm_compute; done) || by repeat constructor).
Defined.
