(* ===== verification/Posix.v ===== *)
(** What the code takes from the operating system in common: the error codes of [src/lib/linux/error_codes.h] (the copy under [src/lib/macos]
    is the same), and sequences of system calls that are given up at the first that fails.

    What a call returns is up to the system: [os c] is the result of the call [c]. *)

From Stdlib Require Import ZArith Lia.
From stdpp Require Import base decidable list numbers.
From S2P Require Import Prelude Text.

Definition OPEN_ERROR : Z := -1.
Definition CLOSE_ERROR : Z := -1.
Definition SEND_ERROR : Z := -1.
Definition RECV_ERROR : Z := -1.
Definition IOCTL_ERROR : Z := -1.
Definition BIND_ERROR : Z := -1.
Definition LISTEN_ERROR : Z := -1.
Definition SETSOCKOPT_ERROR : Z := -1.
Definition SOCKET_ERROR : Z := -1.
Definition CONNECT_ERROR : Z := -1.
Definition ACCEPT_ERROR : Z := -1.
Definition FLOCK_ERROR : Z := -1.
Definition SENDTO_ERROR : Z := -1.

(** [snprintf], or [strncpy] of all bytes but the last, into the 16 zero bytes of [ifreq::ifr_name]: the string that they hold. *)
Definition ifr_name (iface : list Z) : list Z := take 15 (until_nul iface).

Section calls.
Context {C : Type}.

(** The calls of [cs] that are made, each with the result that means failure, and whether all succeed. *)
Fixpoint calls_until (os : C → Z) (cs : list (C * Z)) : list C * bool :=
  match cs with
  | [] => ([], true)
  | (c, err) :: cs =>
      if os c =? err then ([c], false)
      else let '(made, ok) := calls_until os cs in (c :: made, ok)
  end.

Definition succeeds_in (os : C → Z) (c : C * Z) : Prop := os (fst c) ≠ snd c.

(** All succeed, or the calls made end with the first failure. *)
Lemma calls_until_ok os cs : Forall (succeeds_in os) cs → calls_until os cs = (fst <$> cs, true).
Proof.
  induction 1 as [|[c err] cs Hc Hcs IH]; [done|]. cbn [calls_until fmap list_fmap fst]. unfold succeeds_in in Hc. cbn in Hc.
  by rewrite (proj2 (Z.eqb_neq _ _)), IH by done.
Qed.
Lemma calls_until_fail os good c err rest : Forall (succeeds_in os) good → os c = err →
  calls_until os (good ++ (c, err) :: rest) = ((fst <$> good) ++ [c], false).
Proof.
  intros Hg Hc. induction Hg as [|[g e] good Hg _ IH]; cbn [calls_until app fmap list_fmap fst].
  - by rewrite (proj2 (Z.eqb_eq _ _)).
  - unfold succeeds_in in Hg. cbn in Hg. by rewrite (proj2 (Z.eqb_neq _ _)), IH by done.
Qed.
Lemma calls_until_inv os cs : snd (calls_until os cs) = true ↔ Forall (succeeds_in os) cs.
Proof.
  induction cs as [|[c err] cs IH]; cbn [calls_until]; [by split|]. destruct (Z.eqb_spec (os c) err) as [E|E].
  - split; [done|]. by intros [H _]%Forall_cons_1.
  - destruct (calls_until os cs) as [made ok]. cbn [snd] in *. split; intros H.
    + constructor; [done|by apply IH].
    + by apply IH, (Forall_cons_1 _ _ _ H).
Qed.
End calls.
