(* ===== verification/Tcp.v ===== *)
(** TCP sessions: [src/protocols/tcp/tcp_protocol.*], [tcp_session.*], [tcp_boundary_preserving_session.*], the connections of
    [src/direct_connections/tcp], and [src/abstract/session].

    The files are written against headers that the tree no longer has: [recv_forwarder] (what a connection does with its listeners) and
    [send_msg_t] (a buffer of some capacity), and [SEND_MEDIUM_ERROR], enter through the classes [RecvForwarder] and [TcpPlatform].  Sockets
    enter by what their calls return.

    A session is a chain of objects, each owning the next, that one address stands for: the handler of the manager, the session that preserves
    boundaries with its separator, and the connection over the socket.  Its worker is a thread of its own, which the destructor
    detaches: it may outlive the session.  A server is a state that three kinds of threads act on: the worker that accepts, which builds
    and registers one session at a time, the workers of the sessions, and the main loop; each [tcp_event] is a step of one of them, and
    an event that cannot happen changes nothing.  The main loop's round over the set of sessions is one step, as though the set had a lock. *)

From Stdlib Require Import ZArith Lia String.
From stdpp Require Import base decidable list numbers gmap.
From S2P Require Import Prelude Cursor Text Posix Ip4 MsgBoundary.

(** * What is not in the tree *)

(** [recv_forwarder]: how many listeners [handle_callback] calls. *)
Class RecvForwarder := {
  forwarder : Type;
  new_forwarder : forwarder;
  add_listener : forwarder → forwarder;
  listeners : forwarder → nat;
  new_forwarder_law : listeners new_forwarder = 0%nat;
  add_listener_law f : listeners (add_listener f) = S (listeners f)
}.
(** [capacity]: the bytes that each of the two buffers of a [send_msg_t] holds.  The error is not a number of bytes sent. *)
Class TcpPlatform := { SEND_MEDIUM_ERROR : Z; EPIPE : Z; capacity : nat; send_medium_error_law : SEND_MEDIUM_ERROR ≤ 0 }.

#[export] Instance counting_forwarder : RecvForwarder := {
  forwarder := nat; new_forwarder := 0%nat; add_listener := S; listeners := λ n, n;
  new_forwarder_law := eq_refl; add_listener_law f := eq_refl
}.
#[export, refine] Instance linux_platform : TcpPlatform := { SEND_MEDIUM_ERROR := -1; EPIPE := 32; capacity := 4096%nat }.
Proof. lia. Defined.

Section tcp.
Context {FW : RecvForwarder} {PL : TcpPlatform}.

(** * tcp_session *)

Record tcp_session_data := TcpSessionData { sess_dest_addr : ip4_addr; sess_source_port : Z; sess_dest_port : Z }.
Record tcp_session_conn := TcpSessionConn { sd : Z; alive : bool }.

(** What [recv] returns for an observation: the bytes that it has put into the buffer (of 1024), or an error. *)
Definition recv_ret (data : option (list Z)) : Z := match data with None => RECV_ERROR | Some data => Z.of_nat (length data) end.
(** One turn of the worker: what is handed on, or [None] when it ends. *)
Definition worker_turn (data : option (list Z)) (c : tcp_session_conn) : tcp_session_conn * option (list Z) :=
  if recv_ret data =? RECV_ERROR then (TcpSessionConn (sd c) false, None)
  else if recv_ret data =? 0 then (TcpSessionConn (sd c) false, None)
  else (c, data).

(** What [getsockopt] returns and stores, and what [send] returns. *)
Record outcome := Outcome { getsockopt_ret : Z; so_error : Z; send_ret : Z }.
(** [send_data]: what it returns and the bytes that the socket takes.  A [throw] with no exception terminates. *)
Definition tcp_send_data (os : outcome) (c : tcp_session_conn) (data : list Z) : res (Z * tcp_session_conn * list Z) :=
  if negb (alive c) then Ok (-1, c, [])
  else if negb (getsockopt_ret os =? 0) then Fault Aborted
  else if negb (so_error os =? 0) then
    if so_error os =? EPIPE then Ok (SEND_MEDIUM_ERROR, TcpSessionConn (sd c) false, []) else Fault Aborted
  else
    let res := send_ret os in
    if (res =? SEND_ERROR) || (res =? 0) then Ok (SEND_MEDIUM_ERROR, c, []) else Ok (res, c, take (Z.to_nat res) data).

(** * tcp_boundary_preserving_session *)

(** [raw_listeners], [client_listeners], [own_listeners]: the listeners of the connection, of the separator and of the session. *)
Record session := Session {
  sess_data : tcp_session_data; conn : tcp_session_conn; raw_listeners : forwarder;
  client : separator; client_listeners : forwarder; own_listeners : forwarder
}.
Definition set_conn (c : tcp_session_conn) (s : session) : session :=
  Session (sess_data s) c (raw_listeners s) (client s) (client_listeners s) (own_listeners s).
Definition set_client (c : separator) (s : session) : session :=
  Session (sess_data s) (conn s) (raw_listeners s) c (client_listeners s) (own_listeners s).

(** A new connection over a socket: its worker runs, nobody listens. *)
Definition new_tcp_session (data : tcp_session_data) (fd : Z) : session :=
  Session data (TcpSessionConn fd true) new_forwarder new_separator new_forwarder new_forwarder.
(** The separator made over the connection listens to it; the body of the constructor; the application. *)
Definition separator_listens (s : session) : session :=
  Session (sess_data s) (conn s) (add_listener (raw_listeners s)) (client s) (client_listeners s) (own_listeners s).
Definition session_listens (s : session) : session :=
  Session (sess_data s) (conn s) (raw_listeners s) (client s) (add_listener (client_listeners s)) (own_listeners s).
Definition on_session_start (s : session) : session :=
  Session (sess_data s) (conn s) (raw_listeners s) (client s) (client_listeners s) (add_listener (own_listeners s)).

(** [memcpy] into the active buffer of a new message. *)
Definition new_send_msg (data : list Z) : res (list Z) :=
  if decide (length data ≤ capacity)%nat then Ok data else Fault OutOfBounds.
(** [send_data]: the separator frames the message in the other buffer. *)
Definition boundary_send_data (os : outcome) (s : session) (data : list Z) : res (Z * session * list Z) :=
  let framed := separator_send data in
  if decide (length framed ≤ capacity)%nat then
    '(r, c, sent) ← tcp_send_data os (conn s) framed; Ok (r, set_conn c s, sent)
  else Fault OutOfBounds.

Fixpoint call_each {S M} (n : nat) (call : S → res (S * list M)) (s : S) : res (S * list M) :=
  match n with
  | O => Ok (s, [])
  | Datatypes.S n => '(s, a) ← call s; '(s, b) ← call_each n call s; Ok (s, a ++ b)
  end.
Definition forwarded {M} (f : forwarder) (ms : list M) : list M := ms ≫= replicate (listeners f).
(** [handle_callback] of the connection: the messages that the application gets. *)
Definition session_recv (s : session) (data : list Z) : res (session * list (list Z)) :=
  '(sep, ms) ← call_each (listeners (raw_listeners s)) (λ sep, handle_callback sep data) (client s);
  Ok (set_client sep s, forwarded (own_listeners s) (forwarded (client_listeners s) ms)).

(** * tcp_protocol *)

Inductive sys_call :=
  | SysSocket | SysReuseAddr (fd : Z) | SysNoDelay (fd : Z) | SysBindToDevice (fd : Z) (ifr_name : list Z)
  | SysBind (fd : Z) (s_addr : list Z) (sin_port : Z) | SysListen (fd backlog : Z)
  | SysConnect (fd : Z) (s_addr : list Z) (sin_port : Z).

Definition INADDR_ANY : list Z := [0; 0; 0; 0].

(** [accepting]: the worker was started. *)
Record tcp_protocol := TcpProtocol {
  local_iface : list Z; need_server : bool; server_port : Z; listen_sd : option Z; accepting : bool;
  next_addr : ip4_addr; next_dest_port : Z; next_source_port : Z
}.
Definition new_tcp_protocol (server : bool) (port : Z) (iface : list Z) (fd : option Z) (accepting : bool) : tcp_protocol :=
  TcpProtocol iface server port fd accepting ip4_addr_empty 0 0.
(** What is done with the socket of a server, each call with its error. *)
Definition listen_calls (fd port : Z) (iface : list Z) : list (sys_call * Z) :=
  [(SysReuseAddr fd, SETSOCKOPT_ERROR); (SysNoDelay fd, SETSOCKOPT_ERROR);
   (SysBindToDevice fd (ifr_name iface), SETSOCKOPT_ERROR);
   (SysBind fd INADDR_ANY (htons port), BIND_ERROR); (SysListen fd 1, LISTEN_ERROR)].
Definition make_tcp_protocol (os : sys_call → Z) (server : bool) (port : Z) (iface : list Z) : tcp_protocol * list sys_call :=
  if negb server then (new_tcp_protocol server port iface None false, [])
  else
    let fd := os SysSocket in
    if fd =? OPEN_ERROR then (new_tcp_protocol server port iface (Some fd) false, [SysSocket])
    else
      let '(made, ok) := calls_until os (listen_calls fd port iface) in
      (new_tcp_protocol server port iface (Some fd) ok, SysSocket :: made).
(** The destructor: [detach] of a thread that was never started throws, out of a destructor. *)
Definition destroy_tcp_protocol (p : tcp_protocol) : res (option Z) := if accepting p then Ok (listen_sd p) else Fault Aborted.

(** The body of the accepting loop up to the session: what [accept] gives is a socket with the address and port of the peer, in network
    order. *)
Definition tcp_accept (p : tcp_protocol) (client_sd : Z) (s_addr : list Z) (sin_port : Z) : option session :=
  if client_sd =? ACCEPT_ERROR then None
  else Some (new_tcp_session (TcpSessionData (Ip4Addr s_addr) (ntohs sin_port) (server_port p)) client_sd).

(** [set_next_choice] of the three choices. *)
Definition set_next_choices (addr : ip4_addr) (dest_port source_port : Z) (p : tcp_protocol) : tcp_protocol :=
  TcpProtocol (local_iface p) (need_server p) (server_port p) (listen_sd p) (accepting p) addr dest_port source_port.
Definition connect_calls (p : tcp_protocol) (fd : Z) : list (sys_call * Z) :=
  [(SysReuseAddr fd, SETSOCKOPT_ERROR); (SysNoDelay fd, SETSOCKOPT_ERROR);
   (SysBindToDevice fd (ifr_name (local_iface p)), SETSOCKOPT_ERROR);
   (SysBind fd INADDR_ANY (htons (next_source_port p)), BIND_ERROR);
   (SysConnect fd (ip4_octets (next_addr p)) (htons (next_dest_port p)), CONNECT_ERROR)].
Definition start_session (os : sys_call → Z) (p : tcp_protocol) : res session * list sys_call :=
  let fd := os SysSocket in
  if fd =? SOCKET_ERROR then (Fault Aborted, [SysSocket])
  else
    let '(made, ok) := calls_until os (connect_calls p fd) in
    (if ok then Ok (new_tcp_session (TcpSessionData (next_addr p) (next_source_port p) (next_dest_port p)) fd)
     else Fault Aborted, SysSocket :: made).

(** [tcp_server::start_session]; an address that does not parse has no value to choose. *)
Definition tcp_server_start_session (os : sys_call → Z) (ip : list Z) (port : Z) (p : tcp_protocol) : res (res session * list sys_call) :=
  tmp ← str_to_ip4_addr ip;
  addr ← of_option BadConversion tmp;
  Ok (start_session os (set_next_choices addr port 5656 p)).
(** [tcp_boundary_preserving_server::start_session]: the session is wrapped as an accepted one is. *)
Definition boundary_start_session (os : sys_call → Z) (ip : list Z) (port : Z) (p : tcp_protocol) : res (res session * list sys_call) :=
  '(raw, made) ← tcp_server_start_session os ip port p;
  Ok (s ← raw; Ok (session_listens (separator_listens s)), made).

(** * The server

    What a process does that can be seen: text on the standard output, bytes taken by the socket of a session, a closed socket. *)
Inductive output := Printed (p : Z) (text : list Z) | Sent (p : Z) (bytes : list Z) | Closed (p : Z).

(** Where the accepting thread is with the session it builds. *)
Inductive phase := Made | Separated | Wrapped | Handled.

(** [prot_listener], [tcp_listener], [boundary_listener]: whether the session generators of [tcp_protocol], [tcp_server] and
    [tcp_boundary_preserving_server] have their listeners yet, the last of which is the manager.  [conns]: the sessions by their address;
    [sessions]: those in the set of the manager, which is ordered by address; [workers]: whose worker runs. *)
Record server := Server {
  tcp_prot : tcp_protocol; own_port : Z; prot_listener : bool; tcp_listener : bool; boundary_listener : bool;
  building : option (Z * phase); conns : gmap Z session; next_id : Z; sessions : list Z; workers : gset Z
}.
Definition set_building (b : option (Z * phase)) (v : server) : server :=
  Server (tcp_prot v) (own_port v) (prot_listener v) (tcp_listener v) (boundary_listener v) b (conns v) (next_id v) (sessions v) (workers v).
Definition set_conns (c : gmap Z session) (v : server) : server :=
  Server (tcp_prot v) (own_port v) (prot_listener v) (tcp_listener v) (boundary_listener v) (building v) c (next_id v) (sessions v) (workers v).
Definition set_sessions (l : list Z) (v : server) : server :=
  Server (tcp_prot v) (own_port v) (prot_listener v) (tcp_listener v) (boundary_listener v) (building v) (conns v) (next_id v) l (workers v).
Definition set_workers (w : gset Z) (v : server) : server :=
  Server (tcp_prot v) (own_port v) (prot_listener v) (tcp_listener v) (boundary_listener v) (building v) (conns v) (next_id v) (sessions v) w.

(** [tcp_protocol] and [tcp_server] under construction: nobody listens yet. *)
Definition new_server (os : sys_call → Z) (port : Z) (iface : list Z) : server * list sys_call :=
  let '(p, made) := make_tcp_protocol os true port iface in
  (Server p port false false false None ∅ 0 [] ∅, made).
(** The constructors of [tcp_server], of [tcp_boundary_preserving_server] and of [session_manager] set the listeners, in this order. *)
Definition set_generator_listener (v : server) : server :=
  let '(a, b, c) :=
    if negb (prot_listener v) then (true, tcp_listener v, boundary_listener v)
    else if negb (tcp_listener v) then (true, true, boundary_listener v)
    else (true, true, true) in
  Server (tcp_prot v) (own_port v) a b c (building v) (conns v) (next_id v) (sessions v) (workers v).

(** The destructor of a session, with everything it owns: the socket is closed, the worker goes on. *)
Definition destroy_session (p : Z) (v : server) : server := set_conns (delete p (conns v)) v.

(** [sessions.insert]. *)
Fixpoint sessions_insert (p : Z) (l : list Z) : list Z :=
  match l with
  | [] => [p]
  | q :: l => if p <? q then p :: q :: l else if p =? q then q :: l else q :: sessions_insert p l
  end.

(** [session_generator::generate_session]: the session goes to the listener; with none it is destroyed. *)
Definition generate_session (listener : bool) (s : session) : option session := if listener then Some s else None.
(** [handle_callback] of the handler in [tcp_server]; in [tcp_boundary_preserving_server] the session is wrapped; in the manager a handler is
    made of it, which starts. *)
Definition tcp_server_callback (server_port : Z) (listener : bool) (s : session) : option session :=
  if sess_dest_port (sess_data s) =? server_port then generate_session listener s else None.
Definition boundary_server_callback (s : session) : session := separator_listens s.
Definition internal_session_handler (s : session) : session := on_session_start s.
(** The end of the manager's [handle_callback]: the handler, made with the next id, is put into the set. *)
Definition insert_session (p : Z) (v : server) : server :=
  Server (tcp_prot v) (own_port v) (prot_listener v) (tcp_listener v) (boundary_listener v) (building v) (conns v) (next_id v + 1)
    (sessions_insert p (sessions v)) (workers v).

(** A step of the accepting thread with the session it has. *)
Definition build_step (p : Z) (ph : phase) (s : session) (v : server) : server * list output :=
  let go s ph :=
    match s with
    | Some s => (set_building (Some (p, ph)) (set_conns (<[p := s]> (conns v)) v), [])
    | None => (set_building None (destroy_session p v), [Closed p])
    end in
  match ph with
  | Made =>
      go (s ← generate_session (prot_listener v) s;
          s ← tcp_server_callback (own_port v) (tcp_listener v) s; Some (boundary_server_callback s)) Separated
  | Separated => go (Some (session_listens s)) Wrapped
  | Wrapped => go (s ← generate_session (boundary_listener v) s; Some (internal_session_handler s)) Handled
  | Handled => (insert_session p (set_building None v), [])
  end.

Section application.
(** What the handler of a session does with a message; [E] is what it asks of the system meanwhile, for each message of a call.  [reads_lines]:
    whether the main loop sends what is typed. *)
Context {E : Type} (app : E → Z → session → list Z → res (session * list output)) (reads_lines : bool).

Fixpoint app_messages (env : nat → E) (i : nat) (p : Z) (s : session) (ms : list (list Z)) : res (session * list output) :=
  match ms with
  | [] => Ok (s, [])
  | m :: ms => '(s, out) ← app (env i) p s m; '(s, out') ← app_messages env (S i) p s ms; Ok (s, out ++ out')
  end.

(** A turn of the worker of the session at [p]; it touches the session, which may be gone. *)
Definition read_step (p : Z) (data : option (list Z)) (env : nat → E) (v : server) : res (server * list output) :=
  if decide (p ∈ workers v) then
    s ← of_option NullDeref (conns v !! p);
    let '(c, given) := worker_turn data (conn s) in
    let s := set_conn c s in
    match given with
    | None => Ok (set_workers (workers v ∖ {[p]}) (set_conns (<[p := s]> (conns v)) v), [])
    | Some data =>
        '(s, ms) ← session_recv s data;
        '(s, out) ← app_messages env 0 p s ms;
        Ok (set_conns (<[p := s]> (conns v)) v, out)
    end
  else Ok (v, []).

(** One session in the round of the main loop: sent to, and erased when that fails. *)
Definition send_to (line : list Z) (os : outcome) (p : Z) (v : server) : res (server * list output) :=
  send ← new_send_msg line;
  s ← of_option NullDeref (conns v !! p);
  '(r, s, sent) ← boundary_send_data os s send;
  let v := set_conns (<[p := s]> (conns v)) v in
  if (r =? SEND_MEDIUM_ERROR) || (r =? 0) then
    Ok (destroy_session p (set_sessions (filter (.≠ p) (sessions v)) v), [Sent p sent; Closed p])
  else Ok (v, [Sent p sent]).
Fixpoint send_round (line : list Z) (os : Z → outcome) (todo : list Z) (v : server) : res (server * list output) :=
  match todo with
  | [] => Ok (v, [])
  | p :: todo => '(v, out) ← send_to line (os p) p v; '(v, out') ← send_round line os todo v; Ok (v, out ++ out')
  end.

Inductive tcp_event :=
  | Listen                                                              (** the next listener is set *)
  | Accept (p : Z) (client_sd : Z) (s_addr : list Z) (sin_port : Z)     (** [accept] returns; a session would be at [p] *)
  | Build                                                               (** the accepting thread goes on with its session *)
  | Read (p : Z) (data : option (list Z)) (env : nat → E)               (** the worker of [p]: [recv] returns *)
  | Typed (line : list Z) (os : Z → outcome).                           (** a line for the main loop *)

Definition server_step (e : tcp_event) (v : server) : res (server * list output) :=
  match e with
  | Listen => Ok (set_generator_listener v, [])
  | Accept p client_sd s_addr sin_port =>
      match building v, conns v !! p with
      | None, None =>
          if accepting (tcp_prot v) && bool_decide (p ∉ workers v) then
            match tcp_accept (tcp_prot v) client_sd s_addr sin_port with
            | None => Ok (v, [])
            | Some s => Ok (set_workers ({[p]} ∪ workers v) (set_building (Some (p, Made)) (set_conns (<[p := s]> (conns v)) v)), [])
            end
          else Ok (v, [])
      | _, _ => Ok (v, [])
      end
  | Build =>
      match building v with
      | None => Ok (v, [])
      | Some (p, ph) => s ← of_option NullDeref (conns v !! p); Ok (build_step p ph s v)
      end
  | Read p data env => read_step p data env v
  | Typed line os => if reads_lines && boundary_listener v then send_round line os (sessions v) v else Ok (v, [])
  end.
Fixpoint server_run (es : list tcp_event) (v : server) : res (server * list output) :=
  match es with
  | [] => Ok (v, [])
  | e :: es => '(v, out) ← server_step e v; '(v, out') ← server_run es v; Ok (v, out ++ out')
  end.
End application.
Arguments tcp_event : clear implicits.

(** * The client

    [cl_listeners]: those of the [tcp_client], which listens to the connection and is listened to by the separator; [left]: how many of the
    four listeners of the chain are not set yet. *)
Record tcp_boundary_client := TcpBoundaryClient { cl_session : session; cl_listeners : forwarder; cl_worker : bool; left : nat }.
Definition make_client (os : sys_call → Z) (dest_ip : ip4_addr) (dest_port my_port : Z) (iface : list Z) :
    res tcp_boundary_client * list sys_call :=
  let '(p, made) := make_tcp_protocol os false dest_port iface in
  let '(s, made') := start_session os (set_next_choices dest_ip dest_port my_port p) in
  (s ← s; Ok (TcpBoundaryClient s new_forwarder true 4), made ++ made').
(** [tcp_client] adds itself to the connection, the separator to it, [tcp_boundary_preserving_client] to the separator, the program its application. *)
Definition client_listens (c : tcp_boundary_client) : tcp_boundary_client :=
  let s := cl_session c in
  match left c with
  | 4%nat => TcpBoundaryClient (separator_listens s) (cl_listeners c) (cl_worker c) 3
  | 3%nat => TcpBoundaryClient s (add_listener (cl_listeners c)) (cl_worker c) 2
  | 2%nat => TcpBoundaryClient (session_listens s) (cl_listeners c) (cl_worker c) 1
  | 1%nat => TcpBoundaryClient (on_session_start s) (cl_listeners c) (cl_worker c) 0
  | _ => c
  end.
Definition client_recv (c : tcp_boundary_client) (data : list Z) : res (tcp_boundary_client * list (list Z)) :=
  let s := cl_session c in
  '(sep, ms) ← call_each (listeners (raw_listeners s)) (call_each (listeners (cl_listeners c)) (λ sep, handle_callback sep data)) (client s);
  Ok (TcpBoundaryClient (set_client sep s) (cl_listeners c) (cl_worker c) (left c),
      forwarded (own_listeners s) (forwarded (client_listeners s) ms)).

(** [CError]: the message of the main loop that the line was not sent. *)
Inductive client_event := CListen | CRead (data : option (list Z)) | CTyped (line : list Z) (os : outcome).
Inductive client_output := CPrinted (text : list Z) | CSent (bytes : list Z) | CError.
Definition set_cl_session (s : session) (worker : bool) (c : tcp_boundary_client) : tcp_boundary_client :=
  TcpBoundaryClient s (cl_listeners c) worker (left c).

Section client_application.
Context (client_app : list Z → res (list Z)).
Definition client_step (e : client_event) (c : tcp_boundary_client) : res (tcp_boundary_client * list client_output) :=
  match e with
  | CListen => Ok (client_listens c, [])
  | CRead data =>
      if cl_worker c then
        let '(k, given) := worker_turn data (conn (cl_session c)) in
        let c := set_cl_session (set_conn k (cl_session c)) (bool_decide (is_Some given)) c in
        match given with
        | None => Ok (c, [])
        | Some data => '(c, ms) ← client_recv c data; texts ← mapM client_app ms; Ok (c, CPrinted <$> texts)
        end
      else Ok (c, [])
  | CTyped line os =>
      match left c with
      | O =>
          send ← new_send_msg line;
          '(r, s, sent) ← boundary_send_data os (cl_session c) send;
          Ok (set_cl_session s (cl_worker c) c, CSent sent :: (if (r =? 0) || (r =? SEND_MEDIUM_ERROR) then [CError] else []))
      | _ => Ok (c, [])
      end
  end.
Fixpoint client_run (es : list client_event) (c : tcp_boundary_client) : res (tcp_boundary_client * list client_output) :=
  match es with
  | [] => Ok (c, [])
  | e :: es => '(c, out) ← client_step e c; '(c, out') ← client_run es c; Ok (c, out ++ out')
  end.
End client_application.
(** * Lemmas: sessions *)

Definition listener_counts (s : session) : nat * nat * nat :=
  (listeners (raw_listeners s), listeners (client_listeners s), listeners (own_listeners s)).
(** The chain is complete. *)
Definition attached (s : session) : Prop := listener_counts s = (1, 1, 1)%nat.

Lemma forwarded_once {M} f (ms : list M) : listeners f = 1%nat → forwarded f ms = ms.
Proof. intros Hf. unfold forwarded. rewrite Hf. induction ms as [|m ms IH]; [done|].
  change (m :: (ms ≫= replicate 1) = m :: ms). by rewrite IH.
Qed.
Lemma call_each_once {S M} (call : S → res (S * list M)) s : call_each 1 call s = call s.
Proof. cbn. destruct (call s) as [[s' a]|f]; [|done]. cbn. by rewrite app_nil_r. Qed.

Lemma session_recv_attached s data : attached s →
  session_recv s data = '(sep, ms) ← handle_callback (client s) data; Ok (set_client sep s, ms).
Proof.
  unfold attached, listener_counts. intros [= H1 H2 H3]. unfold session_recv. rewrite H1, call_each_once.
  destruct (handle_callback _ _) as [[sep ms]|f]; [|done]. cbn. by rewrite !forwarded_once by done.
Qed.

(** What may come to a session whose separator stands for [rest]. *)
Definition chunk_ok (rest data : list Z) : Prop :=
  bytes_ok data ∧ Z.of_nat (length data) < 2 ^ 16 ∧ length (snd (deframe (rest ++ data))) ≠ 1%nat.
Lemma handle_chunk rest sep data : pending rest sep → chunk_ok rest data →
  ∃ sep', handle_callback sep data = Ok (sep', fst (deframe (rest ++ data))) ∧ pending (snd (deframe (rest ++ data))) sep'.
Proof.
  intros Hp (Hb & Hl & Hr). pose proof (loop_spec rest sep data Hp Hb Hl) as H. unfold callback_result in H.
  destruct (deframe (rest ++ data)) as [ms r]. cbn [fst snd] in *. by rewrite decide_False in H.
Qed.

(** ** What an application may do to its session *)
Definition same_chain (s s' : session) : Prop :=
  listener_counts s' = listener_counts s ∧ client s' = client s ∧ sess_data s' = sess_data s.
#[local] Instance same_chain_refl : Reflexive same_chain.
Proof. done. Qed.
#[local] Instance same_chain_trans : Transitive same_chain.
Proof. intros a b c (H1 & H2 & H3) (H4 & H5 & H6). split_and!; congruence. Qed.
Lemma same_chain_attached s s' : same_chain s s' → attached s → attached s'.
Proof. unfold attached. by intros [-> _]. Qed.
Lemma boundary_send_chain os s data r s' sent : boundary_send_data os s data = Ok (r, s', sent) → same_chain s s'.
Proof.
  unfold boundary_send_data. case_decide; [|done]. intros H'. apply res_bind_ok in H' as ([[r' c] x] & _ & [= <- <- <-]). done.
Qed.

Section application_lemmas.
Context {E : Type} {app : E → Z → session → list Z → res (session * list output)} {reads_lines : bool}.
Context (app_keeps : ∀ e p s m s' out, app e p s m = Ok (s', out) → same_chain s s').

Lemma app_messages_keep env i p s ms s' out : app_messages app env i p s ms = Ok (s', out) → same_chain s s'.
Proof using app_keeps.
  revert i s out. induction ms as [|m ms IH]; intros i s out; cbn [app_messages]; [by intros [= <- <-]|].
  intros ([s1 o1] & H1 & ([s2 o2] & H2 & [= <- <-])%res_bind_ok)%res_bind_ok.
  etrans; [exact (app_keeps _ _ _ _ _ _ H1)|exact (IH _ _ _ H2)].
Qed.
End application_lemmas.

(** * Lemmas: the set of sessions *)

Lemma sessions_insert_elem p l q : q ∈ sessions_insert p l ↔ q = p ∨ q ∈ l.
Proof.
  induction l as [|x l IH]; cbn [sessions_insert]; [rewrite list_elem_of_singleton; set_solver|].
  destruct (Z.ltb_spec p x); [set_solver|]. destruct (Z.eqb_spec p x) as [->|]; [set_solver|]. rewrite !elem_of_cons, IH. naive_solver.
Qed.
Lemma sessions_insert_nodup p l : p ∉ l → NoDup l → NoDup (sessions_insert p l).
Proof.
  intros Hp Hl. induction Hl as [|x l Hx Hl IH]; cbn [sessions_insert]; [apply NoDup_singleton|].
  apply not_elem_of_cons in Hp as [Hpx Hp]. destruct (Z.ltb_spec p x); [by repeat constructor; set_solver|].
  destruct (Z.eqb_spec p x); [done|]. constructor; [|by apply IH]. rewrite sessions_insert_elem. naive_solver.
Qed.

(** * The invariant of a server *)

Definition reached (ph : phase) : nat * nat * nat :=
  match ph with Made => (0, 0, 0) | Separated => (1, 0, 0) | Wrapped => (1, 1, 0) | Handled => (1, 1, 1) end%nat.

(** The sessions of the set exist and are complete; the one that is built exists, is as far as its phase says, and is not in the set yet. *)
Record wf (v : server) : Prop := {
  wf_sessions p : p ∈ sessions v → ∃ s, conns v !! p = Some s ∧ attached s;
  wf_nodup : NoDup (sessions v);
  wf_building p ph : building v = Some (p, ph) → p ∉ sessions v ∧ ∃ s, conns v !! p = Some s ∧ listener_counts s = reached ph
}.

(** A session is replaced by one with the same listeners. *)
Lemma wf_replace v p s s' : wf v → conns v !! p = Some s → listener_counts s' = listener_counts s →
  wf (set_conns (<[p := s']> (conns v)) v).
Proof.
  intros [Hs Hn Hb] Hp Hc. constructor; cbn; [|done|].
  - intros q Hq. destruct (decide (q = p)) as [->|Hne].
    + exists s'. rewrite lookup_insert_eq. split; [done|]. destruct (Hs p Hq) as (x & Hx & Ha). assert (x = s) as -> by congruence. unfold attached. by rewrite Hc.
    + rewrite lookup_insert_ne by done. by apply Hs.
  - intros q ph Hq. destruct (Hb q ph Hq) as (Hin & x & Hx & Hr). split; [done|]. destruct (decide (q = p)) as [->|Hne].
    + exists s'. rewrite lookup_insert_eq. split; [done|]. assert (x = s) as -> by congruence. by rewrite Hc.
    + exists x. by rewrite lookup_insert_ne.
Qed.
Lemma wf_workers v w : wf v → wf (set_workers w v).
Proof. by intros []. Qed.

(** A session of the set is erased. *)
Lemma wf_erase v p : wf v → p ∈ sessions v → wf (destroy_session p (set_sessions (filter (.≠ p) (sessions v)) v)).
Proof.
  intros [Hs Hn Hb] Hp. constructor; cbn.
  - intros q [Hne Hq]%list_elem_of_filter. rewrite lookup_delete_ne by done. by apply Hs.
  - by apply NoDup_filter.
  - intros q ph Hq. destruct (Hb q ph Hq) as (Hin & x & Hx & Hr). split; [rewrite list_elem_of_filter; naive_solver|].
    exists x. split; [|done]. rewrite lookup_delete_ne; [done|]. intros ->. done.
Qed.

(** ** What a step that is not its own does to the session at an address *)

Definition out_at (o : output) : Z := match o with Printed p _ | Sent p _ | Closed p => p end.
Definition printed_at (p : Z) (outs : list output) : list (list Z) :=
  omap (λ o, match o with Printed q text => if decide (q = p) then Some text else None | _ => None end) outs.
Definition sent_at (p : Z) (outs : list output) : list Z :=
  outs ≫= λ o, match o with Sent q bs => if decide (q = p) then bs else [] | _ => [] end.

Lemma printed_at_app p a b : printed_at p (a ++ b) = printed_at p a ++ printed_at p b.
Proof. apply omap_app. Qed.
Lemma sent_at_app p a b : sent_at p (a ++ b) = sent_at p a ++ sent_at p b.
Proof. apply bind_app. Qed.
Lemma printed_elsewhere p q outs : Forall (λ o, out_at o = q) outs → q ≠ p → printed_at p outs = [].
Proof.
  intros H Hne. induction H as [|o outs Ho _ IH]; [done|]. destruct o as [x t|x bs|x]; cbn in *; [|done..]. by rewrite decide_False by congruence.
Qed.

Record evolves (p : Z) (v v' : server) : Prop := {
  ev_worker : p ∈ workers v' ↔ p ∈ workers v;
  ev_gone : conns v !! p = None → conns v' !! p = None;
  ev_kept s : conns v !! p = Some s → attached s → conns v' !! p = None ∨ ∃ s', conns v' !! p = Some s' ∧ same_chain s s'
}.
Lemma evolves_refl p v v' : workers v' = workers v → conns v' !! p = conns v !! p → evolves p v v'.
Proof. intros Hw Hc. constructor; [by rewrite Hw|by rewrite Hc|]. intros s Hs _. right. exists s. by rewrite Hc. Qed.
Lemma evolves_trans p v1 v2 v3 : evolves p v1 v2 → evolves p v2 v3 → evolves p v1 v3.
Proof.
  intros [W1 G1 K1] [W2 G2 K2]. constructor; [by rewrite W2|naive_solver|]. intros s Hs Ha.
  destruct (K1 s Hs Ha) as [Hg|(s1 & Hs1 & Hc1)]; [left; by apply G2|].
  destruct (K2 s1 Hs1 (same_chain_attached _ _ Hc1 Ha)) as [Hg|(s2 & Hs2 & Hc2)]; [by left|]. right. exists s2. split; [done|by trans s1].
Qed.

(** ** The round of the main loop *)

Lemma send_to_inv line os p v v' out : wf v → p ∈ sessions v → send_to line os p v = Ok (v', out) →
  wf v' ∧ (∀ q, evolves q v v') ∧ printed_at p out = [] ∧ Forall (λ o, out_at o = p) out ∧
  boundary_listener v' = boundary_listener v ∧ (∀ q, q ≠ p → q ∈ sessions v → q ∈ sessions v').
Proof.
  intros Hwf Hin. unfold send_to. intros (m & _ & (s & Hs%of_option_ok & ([[r s'] sent] & Hb & E)%res_bind_ok)%res_bind_ok)%res_bind_ok.
  apply boundary_send_chain in Hb. pose proof (wf_replace v p s s' Hwf Hs (proj1 Hb)) as Hwf'.
  assert (Hev : ∀ q, evolves q v (set_conns (<[p := s']> (conns v)) v)).
  { intros q. destruct (decide (q = p)) as [->|Hne]; [|apply evolves_refl; [done|cbn; by rewrite lookup_insert_ne]].
    constructor; [done|congruence|]. intros x Hx _. right. exists s'. cbn. rewrite lookup_insert_eq. split; [done|]. by simplify_eq. }
  destruct ((r =? SEND_MEDIUM_ERROR) || (r =? 0)); injection E as <- <-; [|split_and!; [done..|by repeat constructor|done|done]].
  split_and!; [exact (wf_erase _ p Hwf' Hin)| |done|by repeat constructor|done|].
  - intros q. eapply evolves_trans; [apply Hev|]. constructor; [done| |]; cbn.
    + intros Hq. destruct (decide (q = p)) as [->|Hne]; [apply lookup_delete_eq|by rewrite lookup_delete_ne].
    + intros x Hx _. destruct (decide (q = p)) as [->|Hne]; [left; apply lookup_delete_eq|].
      right. exists x. by rewrite lookup_delete_ne.
  - intros q Hne Hq. cbn. apply list_elem_of_filter. done.
Qed.
Lemma send_to_elsewhere line os q v v' out p : send_to line os q v = Ok (v', out) → p ≠ q → conns v' !! p = conns v !! p.
Proof.
  unfold send_to. intros (m & _ & (s & Hs%of_option_ok & ([[r s'] sent] & Hb & E)%res_bind_ok)%res_bind_ok)%res_bind_ok Hne.
  destruct ((r =? SEND_MEDIUM_ERROR) || (r =? 0)); injection E as <- <-; cbn; [rewrite lookup_delete_ne by done|]; by rewrite lookup_insert_ne.
Qed.
Lemma send_round_inv line os todo : ∀ v v' out, wf v → NoDup todo → (∀ q, q ∈ todo → q ∈ sessions v) →
  send_round line os todo v = Ok (v', out) → wf v' ∧ ∀ q, evolves q v v' ∧ printed_at q out = [].
Proof.
  induction todo as [|p todo IH]; intros v v' out Hwf Hn Hin; cbn [send_round].
  - intros [= <- <-]. split; [done|]. intros q. split; [by apply evolves_refl|done].
  - intros ([v1 o1] & H1 & ([v2 o2] & H2 & [= <- <-])%res_bind_ok)%res_bind_ok. apply NoDup_cons in Hn as [Hp Hn].
    destruct (send_to_inv _ _ _ _ _ _ Hwf (Hin p (list_elem_of_here _ _)) H1) as (Hwf1 & Hev & Hpp & Hat & _ & Hk).
    destruct (IH v1 v2 o2 Hwf1 Hn) as (Hwf2 & Hall); [|exact H2|].
    { intros q Hq. apply Hk; [by intros ->|]. apply Hin. by constructor. }
    split; [done|]. intros q. destruct (Hall q) as [Hev2 Hp2]. split; [by eapply evolves_trans|]. rewrite printed_at_app, Hp2, app_nil_r.
    destruct (decide (q = p)) as [->|Hne]; [done|]. by apply (printed_elsewhere q p).
Qed.

(** ** The other steps *)

Lemma session_recv_listeners s data s' ms : session_recv s data = Ok (s', ms) → listener_counts s' = listener_counts s.
Proof. unfold session_recv. by intros ([sep x] & _ & [= <- <-])%res_bind_ok. Qed.
Lemma evolves_insert p q s v w : q ≠ p → (p ∈ w ↔ p ∈ workers v) → evolves p v (set_workers w (set_conns (<[q := s]> (conns v)) v)).
Proof.
  intros Hne Hw. constructor; [done| |]; cbn; rewrite lookup_insert_ne by done; [done|]. intros x Hx _. right. by exists x.
Qed.

Lemma build_step_inv q ph s v v' out : wf v → building v = Some (q, ph) → conns v !! q = Some s → build_step q ph s v = (v', out) →
  wf v' ∧ (∀ p, evolves p v v') ∧ ∀ p, printed_at p out = [].
Proof.
  intros Hwf Hb Hq. destruct (wf_building v Hwf q ph Hb) as (Hin & x & Hx & Hr). assert (x = s) as -> by congruence.
  assert (Hdrop : wf (set_building None (destroy_session q v)) ∧ ∀ p, ph ≠ Handled → evolves p v (set_building None (destroy_session q v))).
  { split.
    - constructor; cbn; [|apply Hwf|done]. intros p Hp. rewrite lookup_delete_ne by (intros ->; done). by apply Hwf.
    - intros p Hph. constructor; [done| |]; cbn.
      + intros Hp. destruct (decide (p = q)) as [->|Hne]; [apply lookup_delete_eq|by rewrite lookup_delete_ne].
      + intros y Hy _. destruct (decide (p = q)) as [->|Hne]; [left; apply lookup_delete_eq|].
        right. exists y. by rewrite lookup_delete_ne. }
  assert (Hgo : ∀ s' ph', listener_counts s' = reached ph' → ph ≠ Handled →
    wf (set_building (Some (q, ph')) (set_conns (<[q := s']> (conns v)) v)) ∧
    ∀ p, evolves p v (set_building (Some (q, ph')) (set_conns (<[q := s']> (conns v)) v))).
  { intros s' ph' Hr' Hph. split.
    - constructor; cbn; [|apply Hwf|].
      + intros p Hp. rewrite lookup_insert_ne by (intros ->; done). by apply Hwf.
      + intros p ph2 [= <- <-]. split; [done|]. exists s'. by rewrite lookup_insert_eq.
    - intros p. destruct (decide (q = p)) as [->|Hne].
      + constructor; cbn; [done|congruence|]. intros y Hy Ha. unfold attached in Ha. assert (y = s) as -> by congruence.
        rewrite Hr in Ha. by destruct ph.
      + constructor; [done| |]; cbn; rewrite lookup_insert_ne by done; [done|]. intros y Hy _. right. by exists y. }
  unfold listener_counts in Hr. destruct ph; cbn [build_step reached] in *.
  - assert (listener_counts (separator_listens s) = reached Separated) as Hc.
    { unfold listener_counts. cbn. rewrite add_listener_law. injection Hr as -> -> ->. done. }
    unfold generate_session, tcp_server_callback, boundary_server_callback in *.
    destruct (prot_listener v); cbn [mbind option_bind]; [|intros [= <- <-]; split_and!; naive_solver].
    destruct (sess_dest_port (sess_data s) =? own_port v), (tcp_listener v); cbn; intros [= <- <-]; split_and!; naive_solver.
  - assert (listener_counts (session_listens s) = reached Wrapped) as Hc.
    { unfold listener_counts. cbn. rewrite add_listener_law. injection Hr as -> -> ->. done. }
    intros [= <- <-]; split_and!; naive_solver.
  - assert (listener_counts (on_session_start s) = reached Handled) as Hc.
    { unfold listener_counts. cbn. rewrite add_listener_law. injection Hr as -> -> ->. done. }
    unfold generate_session, internal_session_handler.
    destruct (boundary_listener v); cbn; intros [= <- <-]; split_and!; naive_solver.
  - intros [= <- <-]. split_and!; [|intros p; by apply evolves_refl|done]. constructor; cbn.
    + intros p [->|Hp]%sessions_insert_elem; [by exists s|by apply Hwf].
    + apply sessions_insert_nodup; [done|apply Hwf].
    + done.
Qed.

(** A step that leaves the sessions and the workers. *)
Ltac unchanged := split; [done|intros; split; [by apply evolves_refl|done]].

Section steps.
Context {E : Type} {app : E → Z → session → list Z → res (session * list output)} {reads_lines : bool}.
Context (app_keeps : ∀ e p s m s' out, app e p s m = Ok (s', out) → same_chain s s' ∧ Forall (λ o, out_at o = p) out).

Lemma app_messages_inv env i p s ms s' out : app_messages app env i p s ms = Ok (s', out) → same_chain s s' ∧ Forall (λ o, out_at o = p) out.
Proof using app_keeps.
  revert i s out. induction ms as [|m ms IH]; intros i s out; cbn [app_messages]; [by intros [= <- <-]|].
  intros ([s1 o1] & H1 & ([s2 o2] & H2 & [= <- <-])%res_bind_ok)%res_bind_ok.
  destruct (app_keeps _ _ _ _ _ _ H1), (IH _ _ _ H2). split; [by trans s1|by apply Forall_app_2].
Qed.

Lemma read_step_inv q data env v v' out : wf v → read_step app q data env v = Ok (v', out) →
  wf v' ∧ Forall (λ o, out_at o = q) out ∧ ∀ p, q ≠ p → evolves p v v'.
Proof using app_keeps.
  intros Hwf. unfold read_step. case_decide as Hq; [|intros [= <- <-]; split_and!; [done..|intros; by apply evolves_refl]].
  intros (s & Hs%of_option_ok & Hb)%res_bind_ok. destruct (worker_turn data (conn s)) as [c given]. destruct given as [d|].
  - apply res_bind_ok in Hb as ([s1 ms] & H1 & Hb). apply res_bind_ok in Hb as ([s2 o] & H2 & [= <- <-]).
    apply session_recv_listeners in H1. destruct (app_messages_inv _ _ _ _ _ _ _ H2) as [[Hl _] Ho]. split_and!; [|done|].
    + apply (wf_replace v q s); [done..|]. by rewrite Hl, H1.
    + intros p Hne. constructor; [done| |]; cbn; rewrite lookup_insert_ne by done; [done|]. intros x Hx _. right. by exists x.
  - injection Hb as <- <-. split_and!; [by apply wf_workers, (wf_replace v q s)|done|]. intros p Hne. apply evolves_insert; [done|set_solver].
Qed.

(** Every step keeps the invariant; one that is not a read of [p] nor an acceptance there prints nothing for [p] and leaves its session as it
    is or destroys it. *)
Definition own_event (p : Z) (e : tcp_event E) : bool :=
  match e with Accept q _ _ _ => bool_decide (q = p) | Read q _ _ => bool_decide (q = p) | _ => false end.
Lemma server_step_inv e v v' out : wf v → server_step app reads_lines e v = Ok (v', out) →
  wf v' ∧ ∀ p, own_event p e = false → evolves p v v' ∧ printed_at p out = [].
Proof using app_keeps.
  intros Hwf Hs. destruct e as [|q fd a port| |q data env|line os]; cbn [server_step own_event] in *.
  - injection Hs as <- <-. unfold set_generator_listener. destruct Hwf as [H1 H2 H3].
    repeat case_match; (split; [by constructor|intros; split; [by apply evolves_refl|done]]).
  - destruct (building v) as [b|] eqn:Eb; [injection Hs as <- <-; unchanged|].
    destruct (conns v !! q) as [s|] eqn:Eq; [injection Hs as <- <-; unchanged|].
    destruct (accepting (tcp_prot v) && _) eqn:Ea; [|injection Hs as <- <-; unchanged].
    unfold tcp_accept in Hs. destruct (fd =? ACCEPT_ERROR); injection Hs as <- <-; [split; [done|intros; split; [by apply evolves_refl|done]]|].
    split.
    + constructor; cbn; [|apply Hwf|].
      * intros p Hp. destruct (wf_sessions v Hwf p Hp) as (s & Hs & Ha). exists s. rewrite lookup_insert_ne by congruence. done.
      * intros p ph [= <- <-]. split; [intros Hin; destruct (wf_sessions v Hwf q Hin); naive_solver|]. eexists. rewrite lookup_insert_eq.
        split; [done|]. unfold listener_counts. cbn. by rewrite !new_forwarder_law.
    + intros p Hne%bool_decide_eq_false. split; [|done]. constructor; cbn; [set_solver|..]; rewrite lookup_insert_ne by done; [done|].
      intros s Hs _. right. by exists s.
  - destruct (building v) as [[q ph]|] eqn:Eb; [|injection Hs as <- <-; unchanged].
    apply res_bind_ok in Hs as (s & Hq%of_option_ok & [= Hb]).
    destruct (build_step_inv q ph s v v' out Hwf Eb Hq Hb) as (Hw & Hev & Hp). split; [done|]. intros p _. split; [apply Hev|apply Hp].
  - destruct (read_step_inv _ _ _ _ _ _ Hwf Hs) as (Hw & Ho & Hev). split; [done|]. intros p Hne%bool_decide_eq_false.
    split; [by apply Hev|by eapply printed_elsewhere].
  - destruct (reads_lines && boundary_listener v); [|injection Hs as <- <-; unchanged].
    destruct (send_round_inv line os _ _ _ _ Hwf (wf_nodup v Hwf) (λ q Hq, Hq) Hs) as [Hw Hall]. split; [done|]. intros p _. apply Hall.
Qed.

Lemma server_run_wf es : ∀ v v' out, wf v → server_run app reads_lines es v = Ok (v', out) → wf v'.
Proof using app_keeps.
  induction es as [|e es IH]; intros v v' out Hwf; cbn [server_run]; [by intros [= <- <-]|].
  intros ([v1 o1] & E1 & ([v2 o2] & E2 & [= <- <-])%res_bind_ok)%res_bind_ok.
  apply (IH v1 v2 o2); [|done]. by destruct (server_step_inv _ _ _ _ Hwf E1).
Qed.
End steps.

Lemma run_silent {E} (app : E → Z → session → list Z → res (session * list output)) rl e es v v1 :
  server_step app rl e v = Ok (v1, []) → server_run app rl (e :: es) v = server_run app rl es v1.
Proof. intros H1. cbn [server_run]. rewrite H1. cbn [mbind res_bind]. by destruct (server_run _ _ _ _) as [[v2 o2]|f]. Qed.
Lemma server_run_app {E} (app : E → Z → session → list Z → res (session * list output)) rl es es' v :
  server_run app rl (es ++ es') v =
  '(v, out) ← server_run app rl es v; '(v, out') ← server_run app rl es' v; Ok (v, out ++ out').
Proof.
  revert v. induction es as [|e es IH]; intros v; cbn [server_run Datatypes.app mbind res_bind].
  - by destruct (server_run _ _ es' v) as [[? ?]|].
  - destruct (server_step _ _ e v) as [[v1 o1]|f]; [|done]. cbn [mbind res_bind]. rewrite IH.
    destruct (server_run _ _ es v1) as [[v2 o2]|f]; [|done]. cbn [mbind res_bind].
    destruct (server_run _ _ es' v2) as [[v3 o3]|f]; [|done]. cbn. by rewrite app_assoc.
Qed.
Lemma build_ok {E} (app : E → Z → session → list Z → res (session * list output)) rl v p ph s :
  building v = Some (p, ph) → conns v !! p = Some s → server_step app rl Build v = Ok (build_step p ph s v).
Proof. intros Hb Hs. cbn [server_step]. by rewrite Hb, Hs. Qed.

(** * Applications that print *)

(** The data that the worker of [p] gets before it ends. *)
Fixpoint heard {E} (p : Z) (es : list (tcp_event E)) : list (list Z) :=
  match es with
  | [] => []
  | Read q data _ :: es =>
      if decide (q = p) then match data with Some (b :: data) => (b :: data) :: heard p es | _ => [] end else heard p es
  | _ :: es => heard p es
  end.
Definition accepts_at {E} (p : Z) (e : tcp_event E) : Prop := match e with Accept q _ _ _ => q = p | _ => False end.

Section printing.
Context {E : Type} {app : E → Z → session → list Z → res (session * list output)} {reads_lines : bool} (render : list Z → list Z).
Context (app_prints : ∀ e p s m, app e p s m = Ok (s, [Printed p (render m)])).

Lemma app_prints_keeps e p s m s' out : app e p s m = Ok (s', out) → same_chain s s' ∧ Forall (λ o, out_at o = p) out.
Proof using app_prints. rewrite app_prints. intros [= <- <-]. split; [done|by repeat constructor]. Qed.
Lemma app_messages_print env i p s ms : app_messages app env i p s ms = Ok (s, (λ m, Printed p (render m)) <$> ms).
Proof using app_prints.
  revert i. induction ms as [|m ms IH]; intros i; cbn [app_messages]; [done|]. rewrite app_prints. cbn [mbind res_bind]. by rewrite IH.
Qed.
Lemma printed_at_prints p ms : printed_at p ((λ m, Printed p (render m)) <$> ms) = render <$> ms.
Proof. unfold printed_at. induction ms as [|m ms IH]; [done|]. cbn. rewrite decide_True by done. by f_equal. Qed.

(** The session at [p] is complete, its worker runs, and its separator stands for [rest]. *)
Definition live (p : Z) (rest : list Z) (v : server) : Prop :=
  p ∈ workers v ∧ ∃ s, conns v !! p = Some s ∧ attached s ∧ pending rest (client s).

Lemma worker_turn_data data c : data ≠ [] → worker_turn (Some data) c = (c, Some data).
Proof. intros Hd. unfold worker_turn. cbn. destruct data; [done|]. cbn [length]. rewrite !(proj2 (Z.eqb_neq _ _)) by (unfold RECV_ERROR; lia). done. Qed.
Lemma read_live p rest v data env : live p rest v → data ≠ [] → chunk_ok rest data →
  ∃ v', read_step app p (Some data) env v = Ok (v', (λ m, Printed p (render m)) <$> fst (deframe (rest ++ data))) ∧
    live p (snd (deframe (rest ++ data))) v' ∧
    ∃ s s', conns v !! p = Some s ∧ same_chain s (set_client (client s) s') ∧ conn s' = conn s ∧ v' = set_conns (<[p := s']> (conns v)) v.
Proof using app_prints.
  intros (Hw & s & Hs & Ha & Hp) Hd Hc. destruct (handle_chunk rest (client s) data Hp Hc) as (sep & E1 & Hp').
  assert (E0 : set_conn (conn s) s = s) by by destruct s.
  eexists. split_and!.
  - unfold read_step. rewrite decide_True, Hs by done. cbn [of_option mbind res_bind]. rewrite worker_turn_data, E0 by done.
    rewrite session_recv_attached, E1 by done. cbn [mbind res_bind]. rewrite app_messages_print. reflexivity.
  - split; [done|]. exists (set_client sep s). cbn. by rewrite lookup_insert_eq.
  - exists s, (set_client sep s). by destruct s.
Qed.

(** A worker that has ended prints nothing more, and of one whose session is gone nothing more is heard. *)
Lemma run_ended es : ∀ p v v' out, wf v → p ∉ workers v → Forall (λ e, ¬ accepts_at p e) es →
  server_run app reads_lines es v = Ok (v', out) → printed_at p out = [].
Proof using app_prints.
  induction es as [|e es IH]; intros p v v' out Hwf Hp Hac; cbn [server_run]; [by intros [= <- <-]|].
  intros ([v1 o1] & H1 & ([v2 o2] & H2 & [= <- <-])%res_bind_ok)%res_bind_ok. apply Forall_cons_1 in Hac as [He Hac].
  destruct (server_step_inv app_prints_keeps _ _ _ _ Hwf H1) as [Hwf1 Hother]. rewrite printed_at_app.
  destruct (own_event p e) eqn:Eo.
  - destruct e as [|q fd a port| |q data env|line os]; cbn in Eo; try done; apply bool_decide_eq_true in Eo as ->; [by destruct He|].
    cbn in H1. unfold read_step in H1. rewrite decide_False in H1 by done. injection H1 as <- <-. by apply (IH p v v2 o2).
  - destruct (Hother p Eo) as [Hev ->]. apply (IH p v1 v2 o2); [done|by rewrite (ev_worker _ _ _ Hev)|done|done].
Qed.
Lemma run_gone es : ∀ p v v' out, wf v → p ∈ workers v → conns v !! p = None → Forall (λ e, ¬ accepts_at p e) es →
  server_run app reads_lines es v = Ok (v', out) → heard p es = [] ∧ printed_at p out = [].
Proof using app_prints.
  induction es as [|e es IH]; intros p v v' out Hwf Hp Hg Hac; cbn [server_run]; [by intros [= <- <-]|].
  intros ([v1 o1] & H1 & ([v2 o2] & H2 & [= <- <-])%res_bind_ok)%res_bind_ok. apply Forall_cons_1 in Hac as [He Hac].
  destruct (server_step_inv app_prints_keeps _ _ _ _ Hwf H1) as [Hwf1 Hother]. rewrite printed_at_app.
  destruct (own_event p e) eqn:Eo.
  - destruct e as [|q fd a port| |q data env|line os]; cbn in Eo; try done; apply bool_decide_eq_true in Eo as ->; [by destruct He|].
    cbn in H1. unfold read_step in H1. by rewrite decide_True, Hg in H1.
  - destruct (Hother p Eo) as [Hev ->]. cbn [Datatypes.app].
    destruct (IH p v1 v2 o2) as [Hh Ho]; [done|by rewrite (ev_worker _ _ _ Hev)|by apply (ev_gone _ _ _ Hev)|done|done|].
    split; [|done]. destruct e as [| | |q data env|]; cbn [heard] in *; try done. cbn in Eo. apply bool_decide_eq_false in Eo. by rewrite decide_False.
Qed.

Lemma run_live es : ∀ p rest v v' out, wf v → live p rest v → Forall (λ e, ¬ accepts_at p e) es → pieces_ok rest (heard p es) →
  server_run app reads_lines es v = Ok (v', out) → printed_at p out = render <$> fst (deframe (rest ++ concat (heard p es))).
Proof using app_prints.
  induction es as [|e es IH]; intros p rest v v' out Hwf Hlive Hac Hok; cbn [server_run].
  { intros [= <- <-]. destruct Hlive as (_ & s & _ & _ & Hp). cbn. by rewrite app_nil_r, (deframe_pending rest (client s)). }
  intros ([v1 o1] & H1 & ([v2 o2] & H2 & [= <- <-])%res_bind_ok)%res_bind_ok. apply Forall_cons_1 in Hac as [He Hac].
  destruct (server_step_inv app_prints_keeps _ _ _ _ Hwf H1) as [Hwf1 Hother]. rewrite printed_at_app.
  pose proof Hlive as (Hw & s & Hs & Ha & Hp). destruct (own_event p e) eqn:Eo.
  - destruct e as [|q fd a port| |q data env|line os]; cbn in Eo; try done; apply bool_decide_eq_true in Eo as ->; [by destruct He|].
    cbn [heard] in *. rewrite decide_True in * by done. cbn [server_step] in H1.
    assert (Hend : worker_turn data (conn s) = (TcpSessionConn (sd (conn s)) false, None) →
      printed_at p o1 ++ printed_at p o2 = render <$> fst (deframe (rest ++ []))).
    { intros E1. unfold read_step in H1. rewrite decide_True, Hs in H1 by done. cbn [of_option mbind res_bind] in H1. rewrite E1 in H1.
      injection H1 as <- <-. rewrite app_nil_r, (deframe_pending rest (client s)) by done. cbn.
      eapply (run_ended es p); [exact Hwf1|cbn; set_solver|done|exact H2]. }
    destruct data as [[|b data]|]; [by apply Hend|clear Hend|by apply Hend].
    destruct Hok as (Hb & Hl & Hr & Hok). destruct (read_live p rest v (b :: data) env Hlive ltac:(done) (conj Hb (conj Hl Hr))) as (w & E1 & Hlive1 & _).
    rewrite E1 in H1. injection H1 as <- <-. rewrite printed_at_prints, (IH p _ _ _ _ Hwf1 Hlive1 Hac Hok H2). cbn [concat].
    rewrite app_assoc. pose proof (deframe_app (rest ++ b :: data) (concat (heard p es))) as Hd.
    destruct (deframe (rest ++ b :: data)) as [m1 r1]. cbn [fst snd]. destruct (deframe (r1 ++ _)) as [m2 r2]. rewrite Hd. cbn [fst snd]. by rewrite fmap_app.
  - destruct (Hother p Eo) as [Hev ->]. cbn [Datatypes.app].
    assert (Hh : heard p (e :: es) = heard p es).
    { destruct e as [| | |q data env|]; try done. cbn in Eo |- *. apply bool_decide_eq_false in Eo. by rewrite decide_False. }
    rewrite Hh in Hok |- *. assert (Hw1 : p ∈ workers v1) by (apply (ev_worker _ _ _ Hev), Hw).
    destruct (ev_kept _ _ _ Hev s Hs Ha) as [Hg|(s1 & Hs1 & Hc)].
    + destruct (run_gone es p v1 v2 o2 Hwf1 Hw1 Hg Hac H2) as [-> ->]. cbn. by rewrite app_nil_r, (deframe_pending rest (client s)).
    + apply (IH p rest v1 v2 o2 Hwf1); [|done..]. split; [done|]. exists s1. split_and!; [done|by eapply same_chain_attached|].
      by destruct Hc as (_ & -> & _).
Qed.
End printing.

(** * Lines that are sent whole *)

Definition line_ok (line : list Z) : Prop := frame_ok line ∧ (length (separator_send line) ≤ capacity)%nat.
Definition takes_all (line : list Z) (os : outcome) : Prop :=
  getsockopt_ret os = 0 ∧ so_error os = 0 ∧ send_ret os = Z.of_nat (length (separator_send line)).

Lemma separator_send_length line : frame_ok line → length (separator_send line) = (2 + length line)%nat.
Proof.
  intros [_ Hl]. unfold separator_send, u16. rewrite Z.mod_small by lia. rewrite length_app, Nat2Z.id, take_ge by lia. done.
Qed.
Lemma new_send_msg_ok line : line_ok line → new_send_msg line = Ok line.
Proof. intros [Hf Hc]. rewrite separator_send_length in Hc by done. unfold new_send_msg. by rewrite decide_True by lia. Qed.
Lemma boundary_send_dead os s line : line_ok line → alive (conn s) = false → boundary_send_data os s line = Ok (-1, s, []).
Proof.
  intros [_ Hc] Ha. unfold boundary_send_data, tcp_send_data. rewrite decide_True, Ha by done. cbn. by destruct s.
Qed.
Lemma boundary_send_all os s line : line_ok line → takes_all line os → alive (conn s) = true →
  boundary_send_data os s line = Ok (Z.of_nat (length (separator_send line)), s, separator_send line).
Proof.
  intros [Hf Hc] (H1 & H2 & H3) Ha. unfold boundary_send_data, tcp_send_data. rewrite decide_True, Ha, H1, H2, H3 by done.
  pose proof (separator_send_length line Hf). cbn [negb Z.eqb]. rewrite !(proj2 (Z.eqb_neq _ _)) by (unfold SEND_ERROR; lia).
  cbn [orb mbind res_bind]. rewrite Nat2Z.id, take_ge by lia. by destruct s.
Qed.

(** The round of the main loop, when every socket takes the line: a session that is alive stays as it is. *)
Definition settled (p : Z) (v : server) : Prop := p ∈ sessions v ∧ ∃ s, conns v !! p = Some s ∧ alive (conn s) = true.
Record same_at (p : Z) (v v' : server) : Prop := {
  same_worker : workers v' = workers v;
  same_conn : conns v' !! p = conns v !! p;
  same_listens : boundary_listener v' = boundary_listener v;
  same_sessions : p ∈ sessions v → p ∈ sessions v'
}.
Lemma same_at_refl p v : same_at p v v.
Proof. by constructor. Qed.
Lemma same_at_trans p v1 v2 v3 : same_at p v1 v2 → same_at p v2 v3 → same_at p v1 v3.
Proof. intros [A B C D] [A' B' C' D']. constructor; [congruence..|naive_solver]. Qed.

Lemma send_to_all line os q v : line_ok line → takes_all line os → wf v → q ∈ sessions v →
  ∃ v' out, send_to line os q v = Ok (v', out) ∧ ∀ p, settled p v →
    same_at p v v' ∧ sent_at p out = if decide (p = q) then separator_send line else [].
Proof.
  intros Hl Ht Hwf Hq. destruct (wf_sessions v Hwf q Hq) as (s & Hs & _). unfold send_to.
  rewrite new_send_msg_ok, Hs by done. cbn [of_option mbind res_bind].
  assert (Hid : set_conns (<[q:=s]> (conns v)) v = v) by (unfold set_conns; rewrite insert_id by done; by destruct v).
  destruct (alive (conn s)) eqn:Ea.
  - rewrite boundary_send_all by done. cbn [mbind res_bind]. rewrite Hid. pose proof send_medium_error_law.
    pose proof (separator_send_length line (proj1 Hl)) as Hlen. rewrite !(proj2 (Z.eqb_neq _ _)) by lia. cbn [orb].
    exists v, [Sent q (separator_send line)]. split; [done|]. intros p _. split; [apply same_at_refl|]. unfold sent_at.
    change (([Sent q (separator_send line)] ≫= _)) with ((if decide (q = p) then separator_send line else []) ++ []). rewrite app_nil_r.
    repeat case_decide; congruence.
  - rewrite boundary_send_dead by done. cbn [mbind res_bind]. rewrite Hid.
    assert (Hne : ∀ p, settled p v → p ≠ q) by (intros p (_ & x & Hx & Hax) ->; congruence).
    assert (Hnil : ∀ p (b : bool), sent_at p (Sent q [] :: if b then [Closed q] else []) = []).
    { intros p b. destruct b; cbn; by destruct (decide (q = p)). }
    destruct (_ || _).
    + eexists _, _. split; [done|]. intros p Hp. pose proof (Hne p Hp). rewrite decide_False by done. split; [|apply (Hnil p true)].
      constructor; cbn; [done|by rewrite lookup_delete_ne|done|]. intros ?. by apply list_elem_of_filter.
    + eexists _, _. split; [done|]. intros p Hp. rewrite decide_False by auto. split; [apply same_at_refl|apply (Hnil p false)].
Qed.
Lemma settled_same p v v' : settled p v → same_at p v v' → settled p v'.
Proof. intros (Hp & s & Hs & Ha) [A B C D]. split; [by apply D|]. exists s. by rewrite B. Qed.
Lemma send_round_all line os todo : line_ok line → (∀ q, takes_all line (os q)) → ∀ v, wf v → NoDup todo → (∀ q, q ∈ todo → q ∈ sessions v) →
  ∃ v' out, send_round line os todo v = Ok (v', out) ∧ ∀ p, settled p v →
    same_at p v v' ∧ sent_at p out = if decide (p ∈ todo) then separator_send line else [].
Proof.
  intros Hl Ht. induction todo as [|q todo IH]; intros v Hwf Hn Hin; cbn [send_round].
  - eexists _, _. split; [done|]. intros p _. split; [apply same_at_refl|done].
  - apply NoDup_cons in Hn as [Hq Hn]. pose proof (Hin q (list_elem_of_here _ _)) as Hqs.
    destruct (send_to_all line (os q) q v Hl (Ht q) Hwf Hqs) as (v1 & o1 & E1 & Hall1). rewrite E1. cbn [mbind res_bind].
    destruct (send_to_inv _ _ _ _ _ _ Hwf Hqs E1) as (Hwf1 & _ & _ & _ & _ & Hk).
    destruct (IH v1 Hwf1 Hn) as (v2 & o2 & E2 & Hall2).
    { intros x Hx. apply Hk; [by intros ->|]. apply Hin. by constructor. }
    rewrite E2. cbn [mbind res_bind]. eexists _, _. split; [done|]. intros p Hp. destruct (Hall1 p Hp) as [Hs1 Hb1].
    destruct (Hall2 p (settled_same _ _ _ Hp Hs1)) as [Hs2 Hb2]. split; [by eapply same_at_trans|]. rewrite sent_at_app, Hb1, Hb2.
    destruct (decide (p = q)) as [->|Hne].
    + rewrite (decide_False (P := q ∈ todo)), decide_True by (done || by constructor). apply app_nil_r.
    + cbn [Datatypes.app]. apply decide_ext. rewrite elem_of_cons. naive_solver.
Qed.

(** * The socket of the server *)

(** The accepting thread is started exactly when the socket opens and each of the five calls on it succeeds; they are made in order up to the first
    that fails, and a protocol whose thread was not started cannot be destroyed. *)
Lemma tcp_server_listens os port iface :
  let fd := os SysSocket in
  let '(p, made) := make_tcp_protocol os true port iface in
  (accepting p = true ↔ fd ≠ OPEN_ERROR ∧ Forall (succeeds_in os) (listen_calls fd port iface)) ∧
  (accepting p = true → made = SysSocket :: (fst <$> listen_calls fd port iface)) ∧
  destroy_tcp_protocol p = if accepting p then Ok (Some fd) else Fault Aborted.
Proof.
  unfold make_tcp_protocol. cbn [negb]. destruct (Z.eqb_spec (os SysSocket) OPEN_ERROR) as [E|E].
  - split_and!; [|done|done]. cbn. naive_solver.
  - pose proof (calls_until_inv os (listen_calls (os SysSocket) port iface)) as Hi.
    pose proof (calls_until_ok os (listen_calls (os SysSocket) port iface)) as Ho.
    destruct (calls_until _ _) as [made ok]. cbn [snd] in Hi. split_and!; [cbn; tauto| |by destruct ok].
    cbn. intros ->. by injection (Ho (proj1 Hi eq_refl)) as ->.
Qed.

(** * What can go wrong in a step

    A session that is there faults in other ways than by being gone. *)

Lemma callback_faults fuel : ∀ s buff cnt out, callback_loop fuel s buff cnt out ≠ Fault NullDeref.
Proof.
  induction fuel as [|fuel IH]; intros s buff cnt out; cbn [callback_loop]; [done|]. destruct (0 <? cnt); [|done].
  destruct (start_message s buff cnt) as [[[s1 b1] c1]|f] eqn:E1; cbn [mbind res_bind].
  - destruct (read_message s1 b1 c1) as [[[[s2 b2] c2] m]|f] eqn:E2; cbn [mbind res_bind]; [apply IH|]. intros [= ->]. revert E2.
    unfold read_message. destruct (decide _); [|done]. cbn [mbind res_bind]. unfold memcpy. destruct (decide _); [|done].
    cbn [mbind res_bind]. by destruct (_ =? _).
  - intros [= ->]. revert E1. unfold start_message. destruct (mid_packet s); [done|]. by destruct buff as [|? [|? ?]].
Qed.
Lemma session_recv_faults s data : session_recv s data ≠ Fault NullDeref.
Proof.
  unfold session_recv.
  assert (Hc : ∀ n sep, call_each n (λ sep, handle_callback sep data) sep ≠ Fault NullDeref).
  { induction n as [|n IH]; intros sep; cbn [call_each]; [done|].
    destruct (handle_callback sep data) as [[sep1 m1]|f] eqn:E1; cbn [mbind res_bind].
    - specialize (IH sep1). destruct (call_each n _ sep1) as [[sep2 m2]|f]; cbn [mbind res_bind]; [done|congruence].
    - intros [= ->]. by apply callback_faults in E1. }
  specialize (Hc (listeners (raw_listeners s)) (client s)). destruct (call_each _ _ _) as [[sep ms]|f]; cbn [mbind res_bind]; [done|congruence].
Qed.
Lemma boundary_send_faults os s data : boundary_send_data os s data ≠ Fault NullDeref.
Proof.
  unfold boundary_send_data. destruct (decide _); [|done]. unfold tcp_send_data.
  repeat (destruct (negb _); [try done|]); repeat case_match; done.
Qed.
Lemma send_to_faults line os p v : wf v → p ∈ sessions v → send_to line os p v ≠ Fault NullDeref.
Proof.
  intros Hwf Hp. destruct (wf_sessions v Hwf p Hp) as (s & Hs & _). unfold send_to, new_send_msg. destruct (decide _); [|done].
  cbn [mbind res_bind]. rewrite Hs. cbn [of_option mbind res_bind].
  destruct (boundary_send_data os s line) as [[[r s'] sent]|f] eqn:E; cbn [mbind res_bind]; [by case_match|].
  intros [= ->]. by apply boundary_send_faults in E.
Qed.
Lemma send_round_faults line os todo : ∀ v, wf v → NoDup todo → (∀ q, q ∈ todo → q ∈ sessions v) → send_round line os todo v ≠ Fault NullDeref.
Proof.
  induction todo as [|p todo IH]; intros v Hwf Hn Hin; cbn [send_round]; [done|]. apply NoDup_cons in Hn as [Hp Hn].
  pose proof (Hin p (list_elem_of_here _ _)) as Hps. destruct (send_to line (os p) p v) as [[v1 o1]|f] eqn:E; cbn [mbind res_bind].
  - destruct (send_to_inv _ _ _ _ _ _ Hwf Hps E) as (Hwf1 & _ & _ & _ & _ & Hk).
    specialize (IH v1 Hwf1 Hn). destruct (send_round line os todo v1) as [[v2 o2]|f]; cbn [mbind res_bind]; [done|].
    assert (Hin1 : ∀ q, q ∈ todo → q ∈ sessions v1) by (intros q Hq; apply Hk; [by intros ->|apply Hin; by constructor]). specialize (IH Hin1). congruence.
  - intros [= ->]. by apply send_to_faults in E.
Qed.

(** The worker of [p] runs and its session is gone. *)
Definition dangling (p : Z) (v : server) : Prop := p ∈ workers v ∧ conns v !! p = None.
Lemma server_step_faults {E} (app : E → Z → session → list Z → res (session * list output)) rl e v :
  (∀ e p s m, app e p s m ≠ Fault NullDeref) → wf v →
  server_step app rl e v = Fault NullDeref ↔ ∃ p data env, e = Read p data env ∧ dangling p v.
Proof.
  intros Happ Hwf.
  assert (Hmsgs : ∀ ms env i p s, app_messages app env i p s ms ≠ Fault NullDeref).
  { induction ms as [|m ms IH]; intros env i p s; cbn [app_messages]; [done|].
    destruct (app (env i) p s m) as [[s1 o1]|f] eqn:E1; cbn [mbind res_bind].
    - specialize (IH env (S i) p s1). destruct (app_messages _ _ _ _ _ ms) as [[s2 o2]|f]; cbn [mbind res_bind]; [done|congruence].
    - intros [= ->]. by apply Happ in E1. }
  split.
  - destruct e as [|q fd a port| |q data env|line os]; cbn [server_step].
    + done.
    + destruct (building v), (conns v !! q); try done. destruct (_ && _); [|done]. by destruct (tcp_accept _ _ _ _).
    + destruct (building v) as [[q ph]|] eqn:Eb; [|done]. destruct (wf_building v Hwf q ph Eb) as (_ & s & -> & _). done.
    + unfold read_step. case_decide as Hq; [|done]. destruct (conns v !! q) as [s|] eqn:Es; [|intros _; by exists q, data, env].
      cbn [of_option mbind res_bind]. destruct (worker_turn data (conn s)) as [c [d|]]; [|done].
      destruct (session_recv (set_conn c s) d) as [[s1 ms]|f] eqn:E1; cbn [mbind res_bind]; [|intros [= ->]; by apply session_recv_faults in E1].
      destruct (app_messages app env 0 q s1 ms) as [[s2 o]|f] eqn:E2; cbn [mbind res_bind]; [done|]. intros [= ->]. by apply Hmsgs in E2.
    + destruct (rl && boundary_listener v); [|done]. intros Hf. exfalso.
      exact (send_round_faults line os (sessions v) v Hwf (wf_nodup v Hwf) (λ q Hq, Hq) Hf).
  - intros (p & data & env & -> & Hw & Hc). cbn [server_step]. unfold read_step. by rewrite decide_True, Hc.
Qed.

(** ** A session that cannot be sent to *)

(** The socket's answer is one that [send_data] expects; it is one that says that the session is over. *)
Definition answers (os : outcome) : Prop := getsockopt_ret os = 0 ∧ (so_error os = 0 ∨ so_error os = EPIPE).
Definition fails (os : outcome) : Prop := so_error os ≠ 0 ∨ send_ret os = SEND_ERROR ∨ send_ret os = 0.

Lemma boundary_send_answers os s line : line_ok line → answers os →
  ∃ r s' sent, boundary_send_data os s line = Ok (r, s', sent) ∧ (alive (conn s) = true → fails os → r = SEND_MEDIUM_ERROR).
Proof.
  intros [_ Hc] [H1 H2]. unfold boundary_send_data, tcp_send_data. rewrite decide_True by done.
  destruct (alive (conn s)); cbn [negb]; [|eexists _, _, _; split; [reflexivity|done]]. rewrite H1. cbn [Z.eqb negb].
  destruct (Z.eqb_spec (so_error os) 0) as [E|E]; cbn [negb].
  - destruct ((send_ret os =? SEND_ERROR) || (send_ret os =? 0)) eqn:Eb; eexists _, _, _; (split; [reflexivity|]); [done|].
    apply orb_false_iff in Eb as [Ea%Z.eqb_neq Eb%Z.eqb_neq]. intros _ [?|[?|?]]; done.
  - destruct H2 as [H2|H2]; [done|]. rewrite H2, Z.eqb_refl. eexists _, _, _. by split.
Qed.
Lemma send_to_answers line os p v : line_ok line → answers os → wf v → p ∈ sessions v →
  ∃ v' out, send_to line os p v = Ok (v', out) ∧ (∀ q, q ∈ sessions v' → q ∈ sessions v) ∧
    (settled p v → fails os → conns v' !! p = None ∧ p ∉ sessions v' ∧ Closed p ∈ out).
Proof.
  intros Hl Ha Hwf Hp. destruct (wf_sessions v Hwf p Hp) as (s & Hs & _). unfold send_to. rewrite new_send_msg_ok, Hs by done.
  cbn [of_option mbind res_bind]. destruct (boundary_send_answers os s line Hl Ha) as (r & s' & sent & E & Hf). rewrite E. cbn [mbind res_bind].
  destruct ((r =? SEND_MEDIUM_ERROR) || (r =? 0)) eqn:Er; eexists _, _; (split; [reflexivity|]).
  - split; [intros q; cbn; rewrite list_elem_of_filter; naive_solver|]. intros _ _. cbn. split_and!; [apply lookup_delete_eq| |set_solver].
    rewrite list_elem_of_filter. naive_solver.
  - split; [done|]. intros (_ & x & Hx & Hal) Hfl. assert (x = s) as -> by congruence. rewrite (Hf Hal Hfl), Z.eqb_refl in Er. done.
Qed.
Lemma send_round_answers line os todo : line_ok line → (∀ q, answers (os q)) → ∀ v, wf v → NoDup todo → (∀ q, q ∈ todo → q ∈ sessions v) →
  ∃ v' out, send_round line os todo v = Ok (v', out) ∧ (∀ q, q ∈ sessions v' → q ∈ sessions v) ∧
    ∀ p, p ∈ todo → settled p v → fails (os p) → conns v' !! p = None ∧ p ∉ sessions v' ∧ Closed p ∈ out.
Proof.
  intros Hl Ha. induction todo as [|q todo IH]; intros v Hwf Hn Hin; cbn [send_round].
  - eexists _, _. split_and!; [done|done|]. intros p Hp. by apply not_elem_of_nil in Hp.
  - apply NoDup_cons in Hn as [Hq Hn]. pose proof (Hin q (list_elem_of_here _ _)) as Hqs.
    destruct (send_to_answers line (os q) q v Hl (Ha q) Hwf Hqs) as (v1 & o1 & E1 & Hsub1 & Hf1). rewrite E1. cbn [mbind res_bind].
    destruct (send_to_inv _ _ _ _ _ _ Hwf Hqs E1) as (Hwf1 & Hev1 & _ & _ & _ & Hk).
    destruct (IH v1 Hwf1 Hn) as (v2 & o2 & E2 & Hsub2 & Hf2); [intros x Hx; apply Hk; [by intros ->|apply Hin; by constructor]|].
    rewrite E2. cbn [mbind res_bind]. eexists _, _. split_and!; [done|naive_solver|]. intros p Hp Hset Hfl.
    destruct (decide (p = q)) as [->|Hne].
    + destruct (Hf1 Hset Hfl) as (Hg & Hns & Hcl). destruct (send_round_inv _ _ _ _ _ _ Hwf1 Hn ltac:(intros x Hx; apply Hk; [by intros ->|apply Hin; by constructor]) E2) as [_ Hall].
      split_and!; [by apply (ev_gone _ _ _ (proj1 (Hall q)))|naive_solver|apply elem_of_app; by left].
    + apply elem_of_cons in Hp as [?|Hp]; [done|]. destruct (Hf2 p Hp) as (Hg & Hns & Hcl); [|done|split_and!; [done|done|apply elem_of_app; by right]].
      split; [by apply Hk, Hset|]. destruct Hset as (_ & s & Hs & Hal). exists s. split; [|done].
      rewrite <- Hs. by apply (send_to_elsewhere line (os q) q v v1 o1 p).
Qed.

End tcp.
Arguments tcp_event _ : clear implicits.
