(* ===== verification/TcpMain.v ===== *)
(** The programs over TCP sessions: [src/main/netcat/netcat.cpp] and [src/main/remote_shell/remote_shell_util.cpp].

    They differ in the handler of the server's sessions, in what the server does with its standard input, and in names; the two
    clients and the two [main]s are the same code.  [popen] gives what the command of the shell prints, or fails; a [uint8_t*] goes to a
    stream as a C string, and the buffer of a message is a [basic_string], which ends with a 0.  The text of messages to the standard error and
    the prompts of the library are left out. *)

From Stdlib Require Import ZArith Lia String.
From stdpp Require Import base decidable list numbers gmap.
From S2P Require Import Prelude Cursor Text Posix Ip4 MsgBoundary Tcp.

Section programs.
Context {FW : RecvForwarder} {PL : TcpPlatform}.

(** * netcat *)

Definition NETCAT_SERVER_PORT : Z := 6977.
Definition NETCAT_CLIENT_PORT : Z := 5455.

(** [server_app::handle_callback]: the message, and the end of the line. *)
Definition netcat_tcp_callback (_ : unit) (p : Z) (s : session) (msg : list Z) : res (session * list output) :=
  text ← c_string (msg ++ [0]); Ok (s, [Printed p (text ++ [10])]).
(** [client_app::handle_callback], of both programs. *)
Definition tcp_client_callback (msg : list Z) : res (list Z) := text ← c_string (msg ++ [0]); Ok (text ++ [10]).

(** [netcat_server_main] and [shell_server_main] up to their loops, with nothing accepted meanwhile: the server, and the manager of its sessions. *)
Definition tcp_server_main (os : sys_call → Z) (iface : list Z) (port : Z) : server * list sys_call :=
  let '(v, made) := new_server os port iface in
  (set_generator_listener (set_generator_listener (set_generator_listener v)), made).
(** [netcat_server_main]: a step of one of its threads; the main loop reads lines. *)
Definition netcat_tcp_server_run : list (tcp_event unit) → server → res (server * list output) := server_run netcat_tcp_callback true.
(** [netcat_client_main]. *)
Definition tcp_client_main (os : sys_call → Z) (dest_ip : ip4_addr) (port : Z) (iface : list Z) :
    res tcp_boundary_client * list sys_call :=
  make_client os dest_ip port NETCAT_CLIENT_PORT iface.
Definition tcp_client_run : list client_event → tcp_boundary_client → res (tcp_boundary_client * list client_output) :=
  client_run tcp_client_callback.

(** * remote shell *)

Definition REMOTE_SHELL_SERVER_PORT : Z := 6977.
Definition REMOTE_SHELL_CLIENT_PORT : Z := 5455.

(** The loop of [fread] puts the bytes into the active buffer one by one. *)
Fixpoint fill_buff (todo buff : list Z) : res (list Z) :=
  match todo with
  | [] => Ok buff
  | byte :: todo => if decide (length buff < capacity)%nat then fill_buff todo (buff ++ [byte]) else Fault OutOfBounds
  end.
(** [server_app::handle_callback]; [popen]: what the command prints. *)
Definition shell_callback (env : (list Z → option (list Z)) * outcome) (p : Z) (s : session) (msg : list Z) :
    res (session * list output) :=
  let '(popen, os) := env in
  cmd ← c_string (msg ++ [0]);
  let echo := Printed p (str "client's command: " ++ cmd ++ [10]) in
  match popen cmd with
  | None =>
      send ← new_send_msg (str "err");
      '(_, s, sent) ← boundary_send_data os s send; Ok (s, [echo; Sent p sent])
  | Some out =>
      send ← fill_buff out [];
      '(_, s, sent) ← boundary_send_data os s send; Ok (s, [echo; Sent p sent])
  end.
(** [shell_server_main]: its main loop does nothing. *)
Definition shell_server_run : list (tcp_event ((list Z → option (list Z)) * outcome)) → server → res (server * list output) :=
  server_run shell_callback false.

Definition shell_client_main (os : sys_call → Z) (dest_ip : ip4_addr) (port : Z) (iface : list Z) :
    res tcp_boundary_client * list sys_call :=
  make_client os dest_ip port REMOTE_SHELL_CLIENT_PORT iface.
Definition shell_client_run : list client_event → tcp_boundary_client → res (tcp_boundary_client * list client_output) :=
  client_run tcp_client_callback.

(** * The options, as Boost has parsed them: which are given, and the values of those that have one *)

Record tcp_options := TcpOptions {
  to_help : bool; to_iface : option (list Z); to_client : bool; to_server : bool; to_dest : option (list Z); to_port : option Z
}.
Inductive tcp_command := TcpUsage | TcpServe (iface : list Z) (port : Z) | TcpConnect (iface : list Z) (dest : ip4_addr) (port : Z).
(** [main] of both.  The port is the default of the program when it is not given; an address that does not parse has no value. *)
Definition tcp_main (default_port : Z) (vm : tcp_options) : res tcp_command :=
  if to_help vm then Ok TcpUsage
  else
    match to_iface vm with
    | None => Ok TcpUsage
    | Some iface =>
        let port := default default_port (to_port vm) in
        if to_server vm then Ok (TcpServe iface port)
        else if to_client vm then
          match to_dest vm with
          | None => Ok TcpUsage
          | Some dest => tmp ← str_to_ip4_addr dest; addr ← of_option BadConversion tmp; Ok (TcpConnect iface addr port)
          end
        else Ok TcpUsage
    end.
Definition netcat_tcp_main : tcp_options → res tcp_command := tcp_main NETCAT_SERVER_PORT.
Definition remote_shell_main : tcp_options → res tcp_command := tcp_main REMOTE_SHELL_SERVER_PORT.

(** * Lemmas *)

(** What a line looks like on the screen of the other side. *)
Definition shown (line : list Z) : list Z := until_nul line ++ [10].

Lemma netcat_tcp_prints e p s m : netcat_tcp_callback e p s m = Ok (s, [Printed p (shown m)]).
Proof. unfold netcat_tcp_callback. by rewrite c_string_until. Qed.
Lemma tcp_client_prints m : tcp_client_callback m = Ok (shown m).
Proof. unfold tcp_client_callback. by rewrite c_string_until. Qed.
Lemma client_prints_all ms : mapM tcp_client_callback ms = Ok (shown <$> ms).
Proof. induction ms as [|m ms IH]; [done|]. cbn. rewrite tcp_client_prints. cbn in IH |- *. by rewrite IH. Qed.

(** ** The server's side of an exchange *)

Definition typed {E} (es : list (tcp_event E)) : list (list Z) := omap (λ e, match e with Typed line _ => Some line | _ => None end) es.
(** The session at [p] gets data, or a line is typed, which every socket takes. *)
Definition exchange_event {E} (p : Z) (e : tcp_event E) : Prop :=
  match e with
  | Read q (Some data) _ => q = p ∧ data ≠ []
  | Typed line os => ∀ q, takes_all line (os q)
  | _ => False
  end.

(** A server that has accepted and completed the session at [p]. *)
Record talking (p : Z) (rest : list Z) (v : server) : Prop := {
  tk_wf : wf v;
  tk_live : live p rest v;
  tk_settled : settled p v;
  tk_listens : boundary_listener v = true
}.

Lemma server_exchange es : ∀ p rest v, talking p rest v → Forall (exchange_event p) es → Forall line_ok (typed es) →
  pieces_ok rest (heard p es) →
  ∃ v' out, netcat_tcp_server_run es v = Ok (v', out) ∧ sent_at p out = concat (separator_send <$> typed es) ∧
    sess_data <$> conns v' !! p = sess_data <$> conns v !! p ∧ settled p v' ∧ boundary_listener v' = true.
Proof.
  induction es as [|e es IH]; intros p rest v Htk Hes Hls Hok; [eexists _, _; split_and!; [done..|apply Htk|apply Htk]|].
  apply Forall_cons_1 in Hes as [He Hes]. unfold netcat_tcp_server_run in *. cbn [server_run]. destruct Htk as [Hwf Hlive Hset Hb].
  destruct e as [| | |q [data|] env|line os]; cbn [exchange_event] in He; try done.
  - destruct He as [-> Hd]. cbn [heard] in Hok. rewrite decide_True in Hok by done. destruct data as [|b data]; [done|].
    destruct Hok as (H1 & H2 & H3 & Hok).
    destruct (read_live shown netcat_tcp_prints p rest v (b :: data) env Hlive Hd (conj H1 (conj H2 H3))) as (v1 & E1 & Hlive1 & s & s' & Hs & Hc & Hcn & Hv1).
    cbn [server_step]. rewrite E1. cbn [mbind res_bind].
    destruct (IH p (snd (deframe (rest ++ b :: data))) v1) as (v2 & o2 & E2 & Hs2 & Hr2 & Hend); [|done|done|exact Hok|].
    + split; [|done|..].
      * by destruct (read_step_inv (app_prints_keeps shown netcat_tcp_prints) _ _ _ _ _ _ Hwf E1).
      * destruct Hset as (Hin & x & Hx & Hax). split; [by subst v1|]. exists s'. subst v1. cbn. rewrite lookup_insert_eq, Hcn. split; [done|]. congruence.
      * by subst v1.
    + rewrite E2. cbn [mbind res_bind]. eexists _, _. split_and!; [done| | |apply Hend..].
      2:{ rewrite Hr2, Hs. subst v1. cbn. rewrite lookup_insert_eq. cbn. f_equal. apply Hc. }
      rewrite sent_at_app, Hs2.
      assert (Hz : ∀ ms, sent_at p ((λ m, Printed p (shown m)) <$> ms) = []) by (intros ms; induction ms; done). by rewrite Hz.
  - apply Forall_cons_1 in Hls as [Hl Hls]. cbn [server_step]. rewrite Hb. cbn [andb].
    destruct (send_round_all line os (sessions v) Hl He v Hwf (wf_nodup v Hwf) (λ q Hq, Hq)) as (v1 & o1 & E1 & Hall).
    destruct (Hall p Hset) as [Hsame Hsent]. rewrite E1. cbn [mbind res_bind].
    destruct (send_round_inv _ _ _ _ _ _ Hwf (wf_nodup v Hwf) (λ q Hq, Hq) E1) as [Hwf1 _].
    destruct (IH p rest v1) as (v2 & o2 & E2 & Hs2 & Hr2 & Hend); [|done|done|exact Hok|].
    + pose proof (settled_same _ _ _ Hset Hsame) as Hset1. pose proof Hsame as [A B C D]. destruct Hlive as [Hw Hc]. split; [done| |done|congruence].
      split; [by rewrite A|by rewrite B].
    + rewrite E2. cbn [mbind res_bind]. eexists _, _. split_and!; [done| |by rewrite Hr2, (same_conn _ _ _ Hsame)|apply Hend..].
      rewrite sent_at_app, Hs2, Hsent, decide_True by apply Hset. done.
Qed.

(** A server whose constructors are done, with its accepting thread idle. *)
Record ready (v : server) : Prop := {
  rd_wf : wf v;
  rd_accepting : accepting (tcp_prot v) = true;
  rd_port : own_port v = server_port (tcp_prot v);
  rd_listeners : prot_listener v = true ∧ tcp_listener v = true ∧ boundary_listener v = true;
  rd_building : building v = None
}.
Definition accept_events {E} (p fd : Z) (addr : list Z) (port : Z) : list (tcp_event E) := [Accept p fd addr port; Build; Build; Build; Build].

Lemma server_main_ready os iface port : os SysSocket ≠ OPEN_ERROR → Forall (succeeds_in os) (listen_calls (os SysSocket) port iface) →
  ready (fst (tcp_server_main os iface port)) ∧ conns (fst (tcp_server_main os iface port)) = ∅ ∧
  workers (fst (tcp_server_main os iface port)) = ∅ ∧ own_port (fst (tcp_server_main os iface port)) = port.
Proof.
  intros H1 H2. unfold tcp_server_main, new_server, make_tcp_protocol. cbn [negb]. rewrite (proj2 (Z.eqb_neq _ _)) by done.
  rewrite calls_until_ok by done. cbn. split_and!; [|done..]. split; [|done..]. split; [|constructor|done].
  intros p Hp. by apply not_elem_of_nil in Hp.
Qed.
Lemma server_accepts p fd addr port v : ready v → conns v !! p = None → p ∉ workers v → fd ≠ ACCEPT_ERROR →
  ∃ v', netcat_tcp_server_run (accept_events p fd addr port) v = Ok (v', []) ∧ talking p [] v' ∧
    ∃ s, conns v' !! p = Some s ∧ sess_data s = TcpSessionData (Ip4Addr addr) (ntohs port) (own_port v).
Proof.
  intros Hrd Hp Hw Hfd. pose proof Hrd as [Hwf Ha Hport (H1 & H2 & H3) Hb].
  destruct v as [pr op l1 l2 l3 bd cs ni ss ws]. cbn in *. subst l1 l2 l3 bd op.
  set (s0 := new_tcp_session (TcpSessionData (Ip4Addr addr) (ntohs port) (server_port pr)) fd).
  set (at_phase b s l := Server pr (server_port pr) true true true b (<[p := s]> cs) (if decide (b = None) then ni + 1 else ni) l ({[p]} ∪ ws)).
  set (s3 := on_session_start (session_listens (separator_listens s0))).
  assert (E : netcat_tcp_server_run (accept_events p fd addr port) (Server pr (server_port pr) true true true None cs ni ss ws) =
    Ok (at_phase None s3 (sessions_insert p ss), [])).
  { unfold netcat_tcp_server_run, accept_events, at_phase.
    rewrite (run_silent _ _ _ _ _ (at_phase (Some (p, Made)) s0 ss)).
    2:{ cbn [server_step building conns tcp_prot]. rewrite Hp, Ha, bool_decide_true by done. unfold tcp_accept. by rewrite (proj2 (Z.eqb_neq _ _)). }
    assert (Hb : ∀ ph s s' ph', build_step p ph s (at_phase (Some (p, ph)) s ss) = (at_phase (Some (p, ph')) s' ss, []) →
      server_step netcat_tcp_callback true Build (at_phase (Some (p, ph)) s ss) = Ok (at_phase (Some (p, ph')) s' ss, [])).
    { intros ph s s' ph' <-. apply build_ok; [done|apply lookup_insert_eq]. }
    assert (Hgo : ∀ s s' ph', (set_building (Some (p, ph')) (set_conns (<[p := s']> (<[p := s]> cs)) (at_phase (Some (p, Made)) s ss)), @nil output) =
      (at_phase (Some (p, ph')) s' ss, [])) by (intros s s' ph'; unfold at_phase; cbn; by rewrite insert_insert_eq).
    rewrite (run_silent _ _ _ _ _ _ (Hb Made s0 (separator_listens s0) Separated ltac:(cbn [build_step generate_session prot_listener tcp_listener own_port at_phase mbind option_bind]; unfold tcp_server_callback; cbn [sess_data s0 new_tcp_session sess_dest_port]; rewrite Z.eqb_refl; apply Hgo))).
    rewrite (run_silent _ _ _ _ _ _ (Hb Separated _ (session_listens (separator_listens s0)) Wrapped ltac:(apply Hgo))).
    rewrite (run_silent _ _ _ _ _ _ (Hb Wrapped _ s3 Handled ltac:(apply Hgo))).
    rewrite (run_silent _ _ _ _ _ (at_phase None s3 (sessions_insert p ss))); [done|].
    rewrite (build_ok _ _ _ p Handled s3); [done..|apply lookup_insert_eq]. }
  assert (Hs3 : conns (at_phase None s3 (sessions_insert p ss)) !! p = Some s3) by apply lookup_insert_eq.
  eexists. split; [exact E|]. split; [|by exists s3]. split; [|split|split|done].
  - exact (server_run_wf (app_prints_keeps shown netcat_tcp_prints) _ _ _ _ Hwf E).
  - cbn. set_solver.
  - exists s3. split_and!; [done| |constructor]. unfold attached, listener_counts. cbn. by rewrite !add_listener_law, !new_forwarder_law.
  - cbn. rewrite sessions_insert_elem. by left.
  - by exists s3.
Qed.

(** ** The client's side *)

Definition client_typed (es : list client_event) : list (list Z) := omap (λ e, match e with CTyped line _ => Some line | _ => None end) es.
Definition client_heard (es : list client_event) : list (list Z) := omap (λ e, match e with CRead data => data | _ => None end) es.
Definition client_printed (outs : list client_output) : list (list Z) := omap (λ o, match o with CPrinted text => Some text | _ => None end) outs.
Definition client_sent (outs : list client_output) : list Z := outs ≫= λ o, match o with CSent bs => bs | _ => [] end.
Definition client_exchange_event (e : client_event) : Prop :=
  match e with
  | CListen => False
  | CRead data => ∃ b bs, data = Some (b :: bs)
  | CTyped line os => takes_all line os
  end.

Record client_talking (rest : list Z) (c : tcp_boundary_client) : Prop := {
  ct_left : left c = 0%nat;
  ct_worker : cl_worker c = true;
  ct_listeners : listeners (cl_listeners c) = 1%nat;
  ct_attached : attached (cl_session c);
  ct_alive : alive (conn (cl_session c)) = true;
  ct_pending : pending rest (client (cl_session c))
}.

Lemma client_read_talking rest data c : client_talking rest c → data ≠ [] → chunk_ok rest data →
  ∃ c', client_step tcp_client_callback (CRead (Some data)) c = Ok (c', CPrinted <$> (shown <$> fst (deframe (rest ++ data)))) ∧
    client_talking (snd (deframe (rest ++ data))) c' ∧ sess_data (cl_session c') = sess_data (cl_session c).
Proof.
  intros [Hl Hw Hn Ha Hal Hp] Hd Hc. destruct (handle_chunk rest _ data Hp Hc) as (sep & E1 & Hp').
  destruct c as [s f w l]. cbn [cl_session cl_listeners cl_worker left] in *. subst l w. assert (E0 : set_conn (conn s) s = s) by by destruct s.
  exists (TcpBoundaryClient (set_client sep s) f true 0). split; [|split; [by split|done]].
  cbn [client_step cl_worker cl_session]. rewrite worker_turn_data by done.
  unfold client_recv, set_cl_session. cbn [cl_session cl_listeners cl_worker left]. rewrite E0.
  unfold attached, listener_counts in Ha. injection Ha as Hx Hy Hz. rewrite Hx, Hn, !call_each_once, E1. cbn [mbind res_bind].
  rewrite !forwarded_once, client_prints_all by done. done.
Qed.

Lemma client_exchange es : ∀ rest c, client_talking rest c → Forall client_exchange_event es → Forall line_ok (client_typed es) →
  pieces_ok rest (client_heard es) →
  ∃ c' out, tcp_client_run es c = Ok (c', out) ∧ client_sent out = concat (separator_send <$> client_typed es) ∧
    client_printed out = shown <$> fst (deframe (rest ++ concat (client_heard es))) ∧ sess_data (cl_session c') = sess_data (cl_session c) ∧
    left c' = 0%nat.
Proof.
  assert (Hprints : ∀ ms, client_sent (CPrinted <$> ms) = [] ∧ client_printed (CPrinted <$> ms) = ms).
  { unfold client_sent, client_printed. intros ms. induction ms as [|m ms [IH1 IH2]]; [done|]. split; [done|]. cbn. by f_equal. }
  induction es as [|e es IH]; intros rest c Htk Hes Hls Hok.
  { eexists _, _. split_and!; [done|done| |done|apply Htk]. cbn. by rewrite app_nil_r, (deframe_pending rest _ (ct_pending _ _ Htk)). }
  apply Forall_cons_1 in Hes as [He Hes]. unfold tcp_client_run in *. cbn [client_run]. destruct e as [|data|line os]; cbn [client_exchange_event] in He; [done|..].
  - destruct He as (b & bs & ->). destruct Hok as (H1 & H2 & H3 & Hok).
    destruct (client_read_talking rest (b :: bs) c Htk ltac:(done) (conj H1 (conj H2 H3))) as (c1 & E1 & Htk1 & Hd1). rewrite E1. cbn [mbind res_bind].
    destruct (IH _ c1 Htk1 Hes Hls Hok) as (c2 & o2 & E2 & Hs2 & Hp2 & Hd2 & Hle2). rewrite E2. cbn [mbind res_bind]. eexists _, _. split_and!; [done| | |congruence|done].
    + unfold client_sent in *. rewrite bind_app, Hs2. by rewrite (proj1 (Hprints _)).
    + unfold client_printed in *. rewrite omap_app, Hp2, (proj2 (Hprints _)).
      change (concat (client_heard (CRead (Some (b :: bs)) :: es))) with ((b :: bs) ++ concat (client_heard es)). rewrite app_assoc.
      pose proof (deframe_app (rest ++ b :: bs) (concat (client_heard es))) as Hd. destruct (deframe (rest ++ b :: bs)) as [m1 r1].
      cbn [fst snd]. destruct (deframe (r1 ++ _)) as [m2 r2]. rewrite Hd. cbn [fst snd]. by rewrite fmap_app.
  - apply Forall_cons_1 in Hls as [Hl Hls]. destruct Htk as [Hle Hw Hn Ha Hal Hp]. cbn [client_step]. rewrite Hle, new_send_msg_ok by done. cbn [mbind res_bind].
    rewrite boundary_send_all by done. cbn [mbind res_bind]. pose proof send_medium_error_law. pose proof (separator_send_length line (proj1 Hl)).
    rewrite !(proj2 (Z.eqb_neq _ _)) by lia. cbn [orb].
    destruct (IH rest (set_cl_session (cl_session c) (cl_worker c) c)) as (c2 & o2 & E2 & Hs2 & Hp2 & Hd2 & Hle2); [by split|done|done|done|].
    rewrite E2. cbn [mbind res_bind]. eexists _, _. split_and!; [done| |done|done|done]. unfold client_sent in *.
    change ((([CSent (separator_send line)] ++ o2) ≫= _)) with (separator_send line ++ (o2 ≫= λ o, match o with CSent bs => bs | _ => [] end)). by rewrite Hs2.
Qed.

Definition listen_events : list client_event := [CListen; CListen; CListen; CListen].
Lemma client_run_listen es c : tcp_client_run (CListen :: es) c = tcp_client_run es (client_listens c).
Proof. unfold tcp_client_run. cbn [client_run client_step mbind res_bind]. by destruct (client_run _ _ _) as [[c2 o2]|f]. Qed.
Lemma client_starts os ip port iface c calls : tcp_client_main os ip port iface = (Ok c, calls) →
  ∃ c', (∀ es, tcp_client_run (listen_events ++ es) c = tcp_client_run es c') ∧ client_talking [] c' ∧
    sess_data (cl_session c') = TcpSessionData ip NETCAT_CLIENT_PORT port.
Proof.
  unfold tcp_client_main, make_client, start_session. cbn [make_tcp_protocol negb]. destruct (os SysSocket =? SOCKET_ERROR); [done|].
  destruct (calls_until _ _) as [made ok]. destruct ok; [|done]. cbn [mbind res_bind]. intros [= <- _]. eexists. split_and!.
  - intros es. unfold listen_events. cbn [Datatypes.app]. by rewrite !client_run_listen.
  - split; cbn; [done|done|by rewrite add_listener_law, new_forwarder_law| |done|constructor].
    unfold attached, listener_counts. cbn. by rewrite !add_listener_law, !new_forwarder_law.
  - done.
Qed.

(** A line whose frame is longer than a message's buffer is copied past its end, by either side. *)
Lemma boundary_send_long os s line : (capacity < length (separator_send line))%nat → boundary_send_data os s line = Fault OutOfBounds.
Proof. intros Hl. unfold boundary_send_data. by rewrite decide_False by lia. Qed.
Lemma new_send_msg_cases line : new_send_msg line = Ok line ∨ new_send_msg line = Fault OutOfBounds.
Proof. unfold new_send_msg. case_decide; tauto. Qed.
Lemma server_types_long v p line os : wf v → settled p v → boundary_listener v = true → (capacity < length (separator_send line))%nat →
  netcat_tcp_server_run [Typed line os] v = Fault OutOfBounds.
Proof.
  intros Hwf [Hp _] Hb Hl. unfold netcat_tcp_server_run. cbn [server_run server_step]. rewrite Hb. cbn [andb].
  destruct (sessions v) as [|q qs] eqn:Hss; [by apply not_elem_of_nil in Hp|]. cbn [send_round]. unfold send_to.
  destruct (new_send_msg_cases line) as [-> | ->]; cbn [mbind res_bind]; [|done].
  destruct (wf_sessions v Hwf q) as (s & Hs & _); [rewrite Hss; by constructor|]. rewrite Hs. cbn [of_option mbind res_bind].
  by rewrite boundary_send_long.
Qed.
Lemma client_types_long c line os : left c = 0%nat → (capacity < length (separator_send line))%nat →
  tcp_client_run [CTyped line os] c = Fault OutOfBounds.
Proof.
  intros Hle Hl. unfold tcp_client_run. cbn [client_run client_step]. rewrite Hle.
  destruct (new_send_msg_cases line) as [-> | ->]; cbn [mbind res_bind]; [|done]. by rewrite boundary_send_long.
Qed.
Lemma client_run_app es1 : ∀ es2 c c1 o1, tcp_client_run es1 c = Ok (c1, o1) →
  tcp_client_run (es1 ++ es2) c = ('(c2, o2) ← tcp_client_run es2 c1; Ok (c2, o1 ++ o2)).
Proof.
  unfold tcp_client_run. induction es1 as [|e es1 IH]; intros es2 c c1 o1; cbn [client_run Datatypes.app].
  - intros [= <- <-]. by destruct (client_run _ es2 c) as [[]|].
  - destruct (client_step _ e c) as [[ca oa]|]; [|done]. cbn [mbind res_bind].
    destruct (client_run _ es1 ca) as [[cb ob]|] eqn:E; [|done]. cbn [mbind res_bind]. intros [= <- <-].
    rewrite (IH es2 ca cb ob E). destruct (client_run _ es2 cb) as [[]|]; [|done]. cbn [mbind res_bind]. by rewrite app_assoc.
Qed.
Lemma fill_buff_ok todo : ∀ buff, (length buff + length todo ≤ capacity)%nat → fill_buff todo buff = Ok (buff ++ todo).
Proof.
  induction todo as [|b todo IH]; intros buff Hl; cbn [fill_buff length] in *; [by rewrite app_nil_r|].
  rewrite decide_True, IH by (rewrite ?length_app; cbn; lia). by rewrite <- app_assoc.
Qed.
Lemma fill_buff_long todo : ∀ buff, (length buff ≤ capacity < length buff + length todo)%nat → fill_buff todo buff = Fault OutOfBounds.
Proof.
  induction todo as [|b todo IH]; intros buff Hl; cbn [fill_buff length] in *; [lia|].
  destruct (decide (length buff < capacity)%nat); [|done]. apply IH. rewrite length_app. cbn. lia.
Qed.

(** * Properties *)

(** C9: netcat over TCP delivers in both directions.  A server is ready and a client's calls succeed; the server accepts the connection, from
    the address and port of the client, and completes the session while the client sets its listeners.  From then on lines that fit
    the buffer of a message are typed on both sides and data arrives in any interleaving, cut into any pieces of which none ends inside a size, the sockets take what
    they are given, and in the end everything sent has arrived.  Then neither side faults, the server prints the client's lines and the
    client the server's, each up to its first 0, in order; and the two ends describe the connection by the same ports.  A line more,
    whose frame is longer than the buffer, is copied past the end of it, on either side. *)
Theorem netcat_tcp_exchange (v : server) (os : sys_call → Z) (ip my_ip : ip4_addr) (iface : list Z) (c : tcp_boundary_client)
    (calls : list sys_call) (p fd : Z) (ses : list (tcp_event unit)) (ces : list client_event) :
  ready v → conns v !! p = None → p ∉ workers v → fd ≠ ACCEPT_ERROR →
  tcp_client_main os ip (own_port v) iface = (Ok c, calls) →
  Forall (exchange_event p) ses → Forall client_exchange_event ces →
  Forall line_ok (typed ses) → Forall line_ok (client_typed ces) →
  concat (heard p ses) = concat (separator_send <$> client_typed ces) → pieces_ok [] (heard p ses) →
  concat (client_heard ces) = concat (separator_send <$> typed ses) → pieces_ok [] (client_heard ces) →
  let server_events := accept_events p fd (ip4_octets my_ip) (htons NETCAT_CLIENT_PORT) ++ ses in
  (∃ v' c' sout cout,
    netcat_tcp_server_run server_events v = Ok (v', sout) ∧ tcp_client_run (listen_events ++ ces) c = Ok (c', cout) ∧
    sent_at p sout = concat (client_heard ces) ∧ client_sent cout = concat (heard p ses) ∧
    printed_at p sout = shown <$> client_typed ces ∧ client_printed cout = shown <$> typed ses ∧
    (sess_data <$> conns v' !! p) = Some (TcpSessionData my_ip NETCAT_CLIENT_PORT (own_port v)) ∧
    sess_data (cl_session c') = TcpSessionData ip NETCAT_CLIENT_PORT (own_port v)) ∧
  ∀ line, (capacity < length (separator_send line))%nat →
    (∀ outcomes, netcat_tcp_server_run (server_events ++ [Typed line outcomes]) v = Fault OutOfBounds) ∧
    (∀ outcome, tcp_client_run ((listen_events ++ ces) ++ [CTyped line outcome]) c = Fault OutOfBounds).
Proof.
  intros Hrd Hp Hw Hfd Hc Hses Hces Hls Hlc Hs1 Hk1 Hs2 Hk2 server_events.
  destruct (server_accepts p fd (ip4_octets my_ip) (htons NETCAT_CLIENT_PORT) v Hrd Hp Hw Hfd) as (v1 & E1 & Htk & s & Hs & Hd).
  destruct (server_exchange ses p [] v1 Htk Hses Hls Hk1) as (v2 & sout & E2 & Hsent & Hd2 & Hset & Hb2).
  destruct (client_starts _ _ _ _ _ _ Hc) as (c1 & Ec & Hct & Hcd).
  destruct (client_exchange ces [] c1 Hct Hces Hlc Hk2) as (c2 & cout & E3 & Hcsent & Hcp & Hcd2 & Hle2).
  assert (Hq : ∀ E (es : list (tcp_event E)), Forall (exchange_event p) es → Forall (λ e, ¬ accepts_at p e) es)
    by (intros E es He; eapply Forall_impl; [exact He|]; intros [| | | |]; cbn; tauto).
  pose proof (run_live shown netcat_tcp_prints ses p [] v1 v2 sout (tk_wf _ _ _ Htk) (tk_live _ _ _ Htk) (Hq _ _ Hses) Hk1 E2) as Hpr.
  assert (Hframes : ∀ ls, Forall line_ok ls → Forall frame_ok ls) by (intros ls Hl; eapply Forall_impl; [exact Hl|]; by intros ? []).
  cbn [Datatypes.app] in Hpr, Hcp. rewrite Hs1, deframe_sent in Hpr by by apply Hframes.
  rewrite Hs2, deframe_sent in Hcp by by apply Hframes.
  assert (Es : netcat_tcp_server_run server_events v = Ok (v2, sout)).
  { unfold server_events, netcat_tcp_server_run in *. rewrite server_run_app, E1. cbn [mbind res_bind]. by rewrite E2. }
  assert (Ecl : tcp_client_run (listen_events ++ ces) c = Ok (c2, cout)) by by rewrite Ec. split.
  - exists v2, c2, sout, cout. split_and!; [exact Es|exact Ecl|by rewrite Hsent, Hs2|by rewrite Hcsent, Hs1|exact Hpr|exact Hcp| |by rewrite Hcd2].
    rewrite Hd2, Hs. cbn. rewrite Hd. by destruct my_ip.
  - pose proof (server_run_wf (app_prints_keeps shown netcat_tcp_prints) _ _ _ _ (rd_wf v Hrd) Es) as Hwf2.
    intros line Hlong. split; [intros outcomes|intros o].
    + pose proof (server_types_long v2 p line outcomes Hwf2 Hset Hb2 Hlong) as El. unfold netcat_tcp_server_run in *.
      rewrite server_run_app, Es. cbn [mbind res_bind]. by rewrite El.
    + by rewrite (client_run_app _ _ _ _ _ Ecl), client_types_long.
Qed.
(** C10: a session that cannot be sent to is erased, and its worker stays.  From any state of the server in which the session at [p] is alive
    and its worker runs: when a line is typed, every socket answers and that of [p] says that the session is over, the round of the main
    loop ends with the session closed and out of the set, while the worker dangles; and a step of the server uses an object that is gone
    exactly when it is a turn of a worker that dangles. *)
Theorem netcat_erase_dangles (v : server) (p : Z) (line : list Z) (os : Z → outcome) :
  wf v → settled p v → p ∈ workers v → boundary_listener v = true → line_ok line → (∀ q, answers (os q)) → fails (os p) →
  ∃ v' out, netcat_tcp_server_run [Typed line os] v = Ok (v', out) ∧ Closed p ∈ out ∧ p ∉ sessions v' ∧ dangling p v' ∧
    ∀ e, server_step netcat_tcp_callback true e v' = Fault NullDeref ↔ ∃ q data env, e = Read q data env ∧ dangling q v'.
Proof.
  intros Hwf Hset Hw Hb Hl Ha Hf. pose proof (wf_nodup v Hwf) as Hn.
  destruct (send_round_answers line os (sessions v) Hl Ha v Hwf Hn (λ q Hq, Hq)) as (v' & out & E & _ & Hp).
  destruct (send_round_inv line os _ v v' out Hwf Hn (λ q Hq, Hq) E) as [Hwf' Hev].
  destruct (Hp p (proj1 Hset) Hset Hf) as (Hg & Hns & Hcl). exists v', out. split_and!; [|done|done| |].
  - unfold netcat_tcp_server_run. cbn [server_run server_step]. rewrite Hb. cbn [andb]. rewrite E. cbn [mbind res_bind]. by rewrite app_nil_r.
  - split; [|done]. by apply (ev_worker _ _ _ (proj1 (Hev p))).
  - intros e. apply server_step_faults; [|done]. intros u q s m. by rewrite netcat_tcp_prints.
Qed.

(** C27: the remote shell runs what it is sent.  When the frame of a command arrives at a complete session of the server, the command is
    printed, and what [popen] reads of it up to the first 0, or "err" when it fails, is sent back as one frame, if it fits a message;
    output that is longer than the buffer of the message is written past its end. *)
Theorem shell_answers (v : server) (p : Z) (s : session) (cmd : list Z) (env : nat → (list Z → option (list Z)) * outcome) :
  p ∈ workers v → conns v !! p = Some s → attached s → pending [] (client s) → alive (conn s) = true →
  bytes_ok cmd → 2 + Z.of_nat (length cmd) < 2 ^ 16 →
  let answer := default (str "err") (fst (env 0%nat) (until_nul cmd)) in
  let r := shell_server_run [Read p (Some (separator_send cmd)) env] v in
  (line_ok answer → takes_all answer (snd (env 0%nat)) →
    ∃ v', r = Ok (v', [Printed p (str "client's command: " ++ shown cmd); Sent p (separator_send answer)]) ∧ live p [] v') ∧
  ((capacity < length answer)%nat → fst (env 0%nat) (until_nul cmd) = Some answer → r = Fault OutOfBounds).
Proof.
  intros Hw Hs Ha Hp Hal Hb Hl answer r. assert (Hf : frame_ok cmd) by (split; [done|lia]).
  assert (Hd : deframe (separator_send cmd) = ([cmd], [])) by (rewrite <- (app_nil_r (separator_send cmd)); apply (deframe_sent [cmd]), Forall_singleton, Hf).
  assert (Hc : chunk_ok [] (separator_send cmd)).
  { unfold chunk_ok. cbn [Datatypes.app]. rewrite Hd, separator_send_length by done. split_and!; [|lia|done].
    unfold separator_send. apply Forall_app_2; [solve_bytes|by apply Forall_take]. }
  destruct (handle_chunk [] _ _ Hp Hc) as (sep & E1 & Hp'). cbn [Datatypes.app] in E1, Hp'. rewrite Hd in E1, Hp'. cbn [fst snd] in E1, Hp'.
  assert (Er : r = '(s', out) ← shell_callback (env 0%nat) p (set_client sep s) cmd; Ok (set_conns (<[p := s']> (conns v)) v, out)).
  { unfold r, shell_server_run. cbn [server_run server_step]. unfold read_step. rewrite decide_True, Hs by done. cbn [of_option mbind res_bind].
    rewrite worker_turn_data by done. assert (E0 : set_conn (conn s) s = s) by (by destruct s). rewrite E0, session_recv_attached, E1 by done.
    cbn [mbind res_bind app_messages]. destruct (shell_callback _ _ _ _) as [[s' out]|f]; [|done]. cbn [mbind res_bind]. by rewrite !app_nil_r. }
  rewrite Er. unfold shell_callback. rewrite c_string_until. destruct (env 0%nat) as [popen os]. cbn [fst snd mbind res_bind] in *. split.
  - intros Hlo Ht. exists (set_conns (<[p := set_client sep s]> (conns v)) v). split; [|split; [done|exists (set_client sep s); cbn; by rewrite lookup_insert_eq]].
    pose proof (boundary_send_all os (set_client sep s) answer Hlo Ht Hal) as Es. unfold answer in *.
    destruct (popen (until_nul cmd)) as [out|]; cbn [default from_option] in *; unfold Datatypes.id in *.
    + rewrite fill_buff_ok by (pose proof (separator_send_length _ (proj1 Hlo)); destruct Hlo; cbn in *; lia).
      cbn [mbind res_bind Datatypes.app]. rewrite Es. reflexivity.
    + rewrite new_send_msg_ok by done. cbn [mbind res_bind]. rewrite Es. reflexivity.
  - intros Hlong Hpo. rewrite Hpo. by rewrite fill_buff_long by (cbn; lia).
Qed.
End programs.

(** * Witnesses

    Every system call gives 3, and a socket takes 4 bytes. *)
Definition granted : sys_call → Z := λ _, 3.
Definition echo_server : server := fst (tcp_server_main granted (str "eth0") NETCAT_SERVER_PORT).
Lemma echo_server_ready : ready echo_server ∧ conns echo_server = ∅ ∧ workers echo_server = ∅ ∧ own_port echo_server = NETCAT_SERVER_PORT.
Proof. apply server_main_ready; [done|]. by repeat constructor. Qed.

Lemma line_ok_two a b : byte_ok a → byte_ok b → line_ok [a; b].
Proof. intros Ha Hb. split; [split; [by apply Forall_cons_2; [|apply Forall_singleton]|done]|]. change (4 ≤ 4096)%nat. lia. Qed.
Lemma takes_all_two a b : takes_all [a; b] (Outcome 0 0 4).
Proof. done. Qed.

Lemma server_events_ok : Forall (exchange_event 7)
  [Read 7 (Some [2; 0; 104]) (λ _, ()); Typed [111; 107] (λ _, Outcome 0 0 4); Read 7 (Some [105]) (λ _, ())].
Proof.
  apply Forall_cons_2; [by split|]. apply Forall_cons_2; [done|]. apply Forall_singleton. by split.
Qed.
Lemma client_events_ok : Forall client_exchange_event [CTyped [104; 105] (Outcome 0 0 4); CRead (Some [2; 0; 111; 107])].
Proof. apply Forall_cons_2; [done|]. apply Forall_singleton. by eexists _, _. Qed.
Lemma pieces_of_hi : pieces_ok [] [[2; 0; 104]; [105]].
Proof. cbn [pieces_ok]. split_and!; [solve_bytes|done|by vm_compute|solve_bytes|done|by vm_compute|done]. Qed.
Lemma pieces_of_ok : pieces_ok [] [[2; 0; 111; 107]].
Proof. cbn [pieces_ok]. split_and!; [solve_bytes|done|by vm_compute|done]. Qed.

Lemma netcat_tcp_exchange_witness :
  ∃ v' c' c calls sout cout,
    tcp_client_main granted (Ip4Addr [10; 0; 0; 1]) NETCAT_SERVER_PORT (str "eth0") = (Ok c, calls) ∧
    netcat_tcp_server_run (accept_events 7 4 [10; 0; 0; 2] (htons NETCAT_CLIENT_PORT) ++
      [Read 7 (Some [2; 0; 104]) (λ _, ()); Typed [111; 107] (λ _, Outcome 0 0 4); Read 7 (Some [105]) (λ _, ())]) echo_server = Ok (v', sout) ∧
    tcp_client_run (listen_events ++ [CTyped [104; 105] (Outcome 0 0 4); CRead (Some [2; 0; 111; 107])]) c = Ok (c', cout) ∧
    printed_at 7 sout = [[104; 105; 10]] ∧ client_printed cout = [[111; 107; 10]] ∧
    ∀ line o, (4096 < length (separator_send line))%nat →
      tcp_client_run ((listen_events ++ [CTyped [104; 105] (Outcome 0 0 4); CRead (Some [2; 0; 111; 107])]) ++ [CTyped line o]) c = Fault OutOfBounds.
Proof.
  destruct echo_server_ready as (Hrd & Hc & Hw & Hp).
  destruct (netcat_tcp_exchange echo_server granted (Ip4Addr [10; 0; 0; 1]) (Ip4Addr [10; 0; 0; 2]) (str "eth0")
    (TcpBoundaryClient (new_tcp_session (TcpSessionData (Ip4Addr [10; 0; 0; 1]) NETCAT_CLIENT_PORT NETCAT_SERVER_PORT) 3) new_forwarder true 4)
    (snd (tcp_client_main granted (Ip4Addr [10; 0; 0; 1]) NETCAT_SERVER_PORT (str "eth0"))) 7 4
    [Read 7 (Some [2; 0; 104]) (λ _, ()); Typed [111; 107] (λ _, Outcome 0 0 4); Read 7 (Some [105]) (λ _, ())]
    [CTyped [104; 105] (Outcome 0 0 4); CRead (Some [2; 0; 111; 107])]) as [(v' & c' & sout & cout & E1 & E2 & _ & _ & E3 & E4 & _) Hlong].
  - exact Hrd.
  - by rewrite Hc.
  - rewrite Hw. set_solver.
  - done.
  - by rewrite Hp.
  - exact server_events_ok.
  - exact client_events_ok.
  - apply Forall_singleton. by apply line_ok_two.
  - apply Forall_singleton. by apply line_ok_two.
  - done.
  - exact pieces_of_hi.
  - done.
  - exact pieces_of_ok.
  - eexists v', c', _, _, sout, cout. split; [reflexivity|]. split; [exact E1|]. split; [exact E2|]. split; [exact E3|]. split; [exact E4|].
    intros line o Hl. exact (proj2 (Hlong line Hl) o).
Defined.
Lemma echo_server_accepts : ∃ v, netcat_tcp_server_run (accept_events 7 4 [10; 0; 0; 2] (htons NETCAT_CLIENT_PORT)) echo_server = Ok (v, []) ∧
  talking 7 [] v.
Proof.
  destruct echo_server_ready as (Hrd & Hc & Hw & _).
  destruct (server_accepts 7 4 [10; 0; 0; 2] (htons NETCAT_CLIENT_PORT) echo_server Hrd) as (v & E & Htk & _); [by rewrite Hc|rewrite Hw; set_solver|done|].
  by exists v.
Qed.

Lemma netcat_erase_dangles_witness :
  ∃ v v' out, netcat_tcp_server_run (accept_events 7 4 [10; 0; 0; 2] (htons NETCAT_CLIENT_PORT)) echo_server = Ok (v, []) ∧
    netcat_tcp_server_run [Typed [104; 105] (λ _, Outcome 0 EPIPE 0)] v = Ok (v', out) ∧
    server_step netcat_tcp_callback true (Read 7 None (λ _, ())) v' = Fault NullDeref.
Proof.
  destruct echo_server_accepts as (v & E & [Hwf [Hw Hs] Hset Hb]).
  destruct (netcat_erase_dangles v 7 [104; 105] (λ _, Outcome 0 EPIPE 0)) as (v' & out & E' & _ & _ & Hd & Hiff);
    [done|done|done|done|by apply line_ok_two|by (split; [|right])|by left|].
  exists v, v', out. split_and!; [done|done|]. apply Hiff. by exists 7, None, (λ _, ()).
Defined.

Lemma shell_answers_witness :
  ∃ v v', netcat_tcp_server_run (accept_events 7 4 [10; 0; 0; 2] (htons NETCAT_CLIENT_PORT)) echo_server = Ok (v, []) ∧
    shell_server_run [Read 7 (Some (separator_send (str "id"))) (λ _, (λ _, Some [48; 10], Outcome 0 0 4))] v =
      Ok (v', [Printed 7 (str "client's command: " ++ str "id" ++ [10]); Sent 7 [2; 0; 48; 10]]).
Proof.
  destruct echo_server_accepts as (v & E & [Hwf (Hw & s & Hs & Ha & Hp) (_ & x & Hx & Hal) Hb]).
  assert (Hals : alive (conn s) = true) by congruence.
  destruct (shell_answers v 7 s (str "id") (λ _, (λ _, Some [48; 10], Outcome 0 0 4)) Hw Hs Ha Hp Hals) as [Hgood _]; [by solve_bytes|done|].
  destruct (Hgood (line_ok_two 48 10 ltac:(done) ltac:(done)) ltac:(done)) as (v' & E' & _). exists v, v'. split; [exact E|exact E'].
Defined.
