(* ===== verification/Multiplexer.v ===== *)
(** The multiplexer of [src/utils/multiplexer.h]: handlers with requirements on the components of a tuple, and the search
    of the handlers whose requirements a tuple meets.

    The components of the tuple have types of their own in the source; here they are values of one type [V], and a
    tuple is a list of [no_multiplexing_types] of them.  [get<I>(maps)] is the entry [I] of a list of maps.
    [unique_id] is taken not to wrap: it counts the searches, in 64 bits. *)

From Stdlib Require Import ZArith Lia.
From stdpp Require Import base decidable list numbers gmap sorting.
From S2P Require Import Prelude.

Section multiplexer.
Context {DATA V : Type} `{Countable V}.

Record handler := Handler { last_id : nat; no_reqs : nat; reqs_satisfied : nat; handler_data : DATA }.
Record multiplexer := Multiplexer {
  unique_id : nat;
  handlers_pool : list handler;
  maps : list (gmap V (list nat))
}.
(** A new multiplexer over [n] types. *)
Definition new_multiplexer (n : nat) : multiplexer := Multiplexer 1 [] (replicate n ∅).

Definition append_new_empty_handler (data : DATA) (m : multiplexer) : multiplexer :=
  Multiplexer (unique_id m) (handlers_pool m ++ [Handler 0 0 0 data]) (maps m).

(** [get<I>(maps)[val]]: the entry is made when it is missing. *)
Definition map_at (i : nat) (val : V) (ms : list (gmap V (list nat))) : res (list nat) :=
  mp ← of_option OutOfBounds (ms !! i); Ok (default [] (mp !! val)).
Definition map_set (i : nat) (val : V) (l : list nat) (ms : list (gmap V (list nat))) : list (gmap V (list nat)) :=
  alter (λ mp, <[val := l]> mp) i ms.

Definition incr_reqs (h : handler) : handler := Handler (last_id h) (S (no_reqs h)) (reqs_satisfied h) (handler_data h).
(** [handlers_pool.back()] of an empty pool is undefined. *)
Definition add_requirement_to_last_handler (type_index : nat) (val : V) (m : multiplexer) : res multiplexer :=
  l ← map_at type_index val (maps m);
  match handlers_pool m with
  | [] => Fault OutOfBounds
  | pool => Ok (Multiplexer (unique_id m) (alter incr_reqs (pred (length pool)) pool)
                  (map_set type_index val (l ++ [pred (length pool)]) (maps m)))
  end.

(** The loop over the handlers of one entry: the pool, and the data of those whose requirements are now all met. *)
Definition reset_handler (id : nat) (h : handler) : handler :=
  if negb (last_id h =? id)%nat then Handler id (no_reqs h) 0 (handler_data h) else h.
Definition satisfy (h : handler) : handler := Handler (last_id h) (no_reqs h) (S (reqs_satisfied h)) (handler_data h).
Fixpoint visit_handlers (id : nat) (ins : list nat) (pool : list handler) (stream_res : list DATA) :
    res (list handler * list DATA) :=
  match ins with
  | [] => Ok (pool, stream_res)
  | handler_in :: ins =>
      h ← of_option OutOfBounds (pool !! handler_in);
      let h := satisfy (reset_handler id h) in
      visit_handlers id ins (<[handler_in := h]> pool)
        (if (reqs_satisfied h =? no_reqs h)%nat then stream_res ++ [handler_data h] else stream_res)
  end.
(** [rec_stream_array] from the component [i] on. *)
Fixpoint rec_stream_array (i : nat) (arr : list V) (m : multiplexer) (stream_res : list DATA) : res (multiplexer * list DATA) :=
  match arr with
  | [] => Ok (m, stream_res)
  | val :: arr =>
      l ← map_at i val (maps m);
      '(pool, stream_res) ← visit_handlers (unique_id m) l (handlers_pool m) stream_res;
      rec_stream_array (S i) arr (Multiplexer (unique_id m) pool (map_set i val l (maps m))) stream_res
  end.
Definition stream_array (arr : list V) (m : multiplexer) : res (multiplexer * list DATA) :=
  rec_stream_array 0 arr (Multiplexer (S (unique_id m)) (handlers_pool m) (maps m)) [].

(** * The specification: a list of handlers, each with its requirements *)

Notation spec := (list (DATA * list (nat * V))).
Definition meets (arr : list V) (r : nat * V) : Prop := arr !! fst r = Some (snd r).
(** A handler answers when it has requirements and all are met. *)
Definition spec_answers (arr : list V) (h : DATA * list (nat * V)) : Prop :=
  snd h ≠ [] ∧ Forall (meets arr) (snd h).
#[export] Instance spec_answers_dec arr h : Decision (spec_answers arr h).
Proof. unfold spec_answers, meets. apply _. Defined.

(** How often a number is in a list, and how many requirements of the handler [k] are [r]. *)
Definition occurs (k : nat) (l : list nat) : nat := length (filter (λ x, x = k) l).
Definition req_count (s : spec) (k : nat) (r : nat * V) : nat :=
  match s !! k with Some h => length (filter (λ x, x = r) (snd h)) | None => 0 end.

Definition same_handler (id : nat) (h : handler) (d : DATA * list (nat * V)) : Prop :=
  handler_data h = fst d ∧ no_reqs h = length (snd d) ∧ (last_id h ≤ id)%nat.
(** Every entry lists a handler once per requirement of that value. *)
Definition maps_represent (n : nat) (ms : list (gmap V (list nat))) (s : spec) : Prop :=
  length ms = n ∧ ∀ i val mp k, ms !! i = Some mp → occurs k (default [] (mp !! val)) = req_count s k (i, val).
Definition represents (n : nat) (m : multiplexer) (s : spec) : Prop :=
  Forall2 (same_handler (unique_id m)) (handlers_pool m) s ∧ maps_represent n (maps m) s ∧
  Forall (λ h, Forall (λ r, (fst r < n)%nat) (snd h)) s.

(** * Lemmas *)

Lemma occurs_app k l l' : occurs k (l ++ l') = (occurs k l + occurs k l')%nat.
Proof. unfold occurs. by rewrite filter_app, length_app. Qed.
Lemma occurs_one k x : occurs k [x] = if decide (x = k) then 1%nat else 0%nat.
Proof. unfold occurs. rewrite filter_cons, filter_nil. by case_decide. Qed.
Lemma occurs_elem k l : (0 < occurs k l)%nat ↔ k ∈ l.
Proof.
  unfold occurs. split.
  - destruct (filter _ l) as [|x l'] eqn:E; simpl; [lia|]. intros _.
    assert (x ∈ filter (λ x, x = k) l) as [-> ?]%list_elem_of_filter by (rewrite E; left). done.
  - intros Hk. assert (k ∈ filter (λ x, x = k) l) as Hin by by apply list_elem_of_filter.
    destruct (filter _ l); [by apply elem_of_nil in Hin|simpl; lia].
Qed.

(** ** Visits *)

(** After the visits [vs], from the pool [pool0]. *)
Definition visited (id : nat) (pool0 : list handler) (vs : list nat) (pool : list handler) (out : list DATA) : Prop :=
  length pool = length pool0 ∧
  (∀ k h0, pool0 !! k = Some h0 → ∃ h, pool !! k = Some h ∧ handler_data h = handler_data h0 ∧ no_reqs h = no_reqs h0 ∧
     if decide (occurs k vs = 0%nat) then h = h0 else last_id h = id ∧ reqs_satisfied h = occurs k vs) ∧
  ∃ ks, NoDup ks ∧ out = omap (λ k, handler_data <$> pool0 !! k) ks ∧
    ∀ k, k ∈ ks ↔ ∃ h0, pool0 !! k = Some h0 ∧ (0 < no_reqs h0 ≤ occurs k vs)%nat.

Lemma visited_none id pool : visited id pool [] pool [].
Proof.
  split; [done|]. split; [intros k h0 Hk; by exists h0|]. exists []. split; [constructor|]. split; [done|].
  intros k. split; [by intros ?%elem_of_nil|]. intros (h0 & _ & ?). unfold occurs in *. simpl in *. lia.
Qed.

Lemma visited_step id pool0 vs pool out k :
  Forall (λ h, last_id h ≠ id) pool0 → (k < length pool0)%nat → visited id pool0 vs pool out →
  ∃ h, pool !! k = Some h ∧
    let h' := satisfy (reset_handler id h) in
    visited id pool0 (vs ++ [k]) (<[k := h']> pool)
      (if (reqs_satisfied h' =? no_reqs h')%nat then out ++ [handler_data h'] else out).
Proof.
  intros Hid Hk (Hl & Hp & ks & Hnd & Hout & Hks). destruct (lookup_lt_is_Some_2 pool0 k Hk) as [h0 H0].
  destruct (Hp k h0 H0) as (h & Hh & Hd & Hn & Hc). exists h. split; [done|]. intros h'.
  assert (Hh' : handler_data h' = handler_data h0 ∧ no_reqs h' = no_reqs h0 ∧ last_id h' = id ∧ reqs_satisfied h' = S (occurs k vs)).
  { unfold h', satisfy, reset_handler. destruct (decide (occurs k vs = 0%nat)) as [E|E].
    - subst h. rewrite Forall_lookup in Hid. specialize (Hid k h0 H0). rewrite (proj2 (Nat.eqb_neq _ _) Hid), E. done.
    - destruct Hc as [Hc1 Hc2]. rewrite Hc1, Nat.eqb_refl. cbn. rewrite Hc1, Hc2. done. }
  destruct Hh' as (Hd' & Hn' & Hi' & Hr'). clearbody h'. split; [by rewrite length_insert|]. split.
  - intros j g0 Hj. destruct (decide (j = k)) as [->|Hne].
    + rewrite H0 in Hj. injection Hj as <-. exists h'. rewrite list_lookup_insert_eq by lia. split; [done|]. split; [done|].
      split; [done|]. rewrite occurs_app, occurs_one, (decide_True (P := k = k)) by done.
      rewrite decide_False by lia. split; [done|]. lia.
    + rewrite list_lookup_insert_ne by done. rewrite occurs_app, occurs_one, (decide_False (P := k = j)), Nat.add_0_r by done. by apply Hp.
  - rewrite Hr', Hn', Hd'. exists (if (S (occurs k vs) =? no_reqs h0)%nat then ks ++ [k] else ks).
    destruct (Nat.eqb_spec (S (occurs k vs)) (no_reqs h0)) as [E|E].
    + assert (Hnk : k ∉ ks). { intros Hin. apply Hks in Hin as (g & Hg & ?). rewrite H0 in Hg. injection Hg as <-. lia. }
      split; [apply NoDup_app; split_and!; [done| |by apply NoDup_singleton]; intros x Hx ->%list_elem_of_singleton; done|].
      split; [by rewrite omap_app, <- Hout; cbn; rewrite H0|].
      intros j. rewrite elem_of_app, list_elem_of_singleton, Hks. setoid_rewrite occurs_app. rewrite occurs_one.
      destruct (decide (k = j)) as [<-|Hne].
      * split; [|by right]. intros _. exists h0. split; [done|]. lia.
      * setoid_rewrite Nat.add_0_r. naive_solver.
    + split; [done|]. split; [done|]. intros j. rewrite Hks. setoid_rewrite occurs_app. rewrite occurs_one.
      destruct (decide (k = j)) as [<-|Hne]; [|by setoid_rewrite Nat.add_0_r].
      split; intros (g & Hg & ?); (exists g; split; [done|]); rewrite H0 in Hg; injection Hg as <-; lia.
Qed.

Lemma visit_handlers_spec id pool0 ins : ∀ vs pool out,
  Forall (λ h, last_id h ≠ id) pool0 → Forall (λ k, (k < length pool0)%nat) ins → visited id pool0 vs pool out →
  ∃ pool' out', visit_handlers id ins pool out = Ok (pool', out') ∧ visited id pool0 (vs ++ ins) pool' out'.
Proof.
  induction ins as [|k ins IH]; intros vs pool out Hid Hin Hv; cbn [visit_handlers].
  - exists pool, out. by rewrite app_nil_r.
  - apply Forall_cons_1 in Hin as [Hk Hin]. destruct (visited_step id pool0 vs pool out k Hid Hk Hv) as (h & Hh & Hv').
    rewrite Hh. cbn [of_option mbind res_bind]. destruct (IH _ _ _ Hid Hin Hv') as (pool' & out' & E & Hv2).
    exists pool', out'. by rewrite <- app_assoc in Hv2.
Qed.

(** ** The components *)

Definition meets_from (i : nat) (arr : list V) (r : nat * V) : Prop := (i ≤ fst r)%nat ∧ arr !! (fst r - i)%nat = Some (snd r).
#[export] Instance meets_from_dec i arr r : Decision (meets_from i arr r).
Proof. unfold meets_from. apply _. Defined.

Lemma meets_from_cons i val arr rs :
  length (filter (meets_from i (val :: arr)) rs)
  = (length (filter (λ x, x = (i, val)) rs) + length (filter (meets_from (S i) arr) rs))%nat.
Proof.
  induction rs as [|[j w] rs IH]; [done|]. rewrite !filter_cons.
  destruct (decide (j = i)) as [->|Hne].
  - rewrite (decide_False (P := meets_from (S i) arr (i, w))) by (intros [? _]; simpl in *; lia).
    destruct (decide (w = val)) as [->|Hw].
    + rewrite (decide_True (P := meets_from i (val :: arr) (i, val))) by (split; [done|]; simpl; by rewrite Nat.sub_diag).
      rewrite decide_True by done. simpl. lia.
    + rewrite (decide_False (P := meets_from i (val :: arr) (i, w)))
        by (intros [_ E]; simpl in E; rewrite Nat.sub_diag in E; simpl in E; congruence).
      rewrite decide_False by congruence. done.
  - rewrite (decide_False (P := (j, w) = (i, val))) by congruence.
    assert (E : meets_from i (val :: arr) (j, w) ↔ meets_from (S i) arr (j, w)).
    { unfold meets_from. simpl. destruct (decide (i ≤ j)%nat) as [Hle|]; [|split; intros [? _]; lia].
      replace (j - i)%nat with (S (j - S i)) by lia. simpl. split; intros [? ?]; (split; [lia|done]). }
    destruct (decide (meets_from (S i) arr (j, w))) as [Hm|Hm].
    + rewrite (decide_True (P := meets_from i (val :: arr) (j, w))) by by apply E. simpl. lia.
    + rewrite (decide_False (P := meets_from i (val :: arr) (j, w))) by by rewrite E. done.
Qed.
Definition count_from (i : nat) (arr : list V) (s : spec) (k : nat) : nat :=
  match s !! k with Some h => length (filter (meets_from i arr) (snd h)) | None => 0 end.
Lemma count_from_cons i val arr s k : count_from i (val :: arr) s k = (req_count s k (i, val) + count_from (S i) arr s k)%nat.
Proof. unfold count_from, req_count. destruct (s !! k); [apply meets_from_cons|done]. Qed.
Lemma count_from_nil i s k : count_from i [] s k = 0%nat.
Proof.
  unfold count_from. destruct (s !! k) as [[d rs]|]; [|done]. simpl. induction rs as [|r rs IH]; [done|].
  rewrite filter_cons, decide_False; [done|]. intros [_ E]. done.
Qed.

Lemma map_set_represent n ms s i val l mp : maps_represent n ms s → ms !! i = Some mp → l = default [] (mp !! val) →
  maps_represent n (map_set i val l ms) s.
Proof.
  intros [Hl Hm] Hi ->. split; [by unfold map_set; rewrite length_alter|]. intros j w mp' k. unfold map_set.
  destruct (decide (j = i)) as [->|Hne].
  - rewrite list_lookup_alter_eq, Hi. intros [= <-]. destruct (decide (w = val)) as [->|Hw].
    + rewrite lookup_insert_eq. by apply (Hm i val mp k).
    + rewrite lookup_insert_ne by done. by apply (Hm i w mp k).
  - rewrite list_lookup_alter_ne by done. apply Hm.
Qed.

Lemma rec_stream_spec n s pool0 id : Forall (λ h, last_id h ≠ id) pool0 → length pool0 = length s →
  ∀ arr i m vs out, maps_represent n (maps m) s → visited id pool0 vs (handlers_pool m) out → unique_id m = id →
  (i + length arr = n)%nat →
  ∃ m' out' ws, rec_stream_array i arr m out = Ok (m', out') ∧ visited id pool0 (vs ++ ws) (handlers_pool m') out' ∧
    (∀ k, occurs k ws = count_from i arr s k) ∧ maps_represent n (maps m') s ∧ unique_id m' = id.
Proof.
  intros Hid Hlen. induction arr as [|val arr IH]; intros i m vs out Hm Hv Hu Hi; cbn [rec_stream_array].
  - exists m, out, []. rewrite app_nil_r. split; [done|]. split; [done|]. split; [|done].
    intros k. by rewrite count_from_nil.
  - cbn [length] in Hi. destruct (lookup_lt_is_Some_2 (maps m) i) as [mp Hmp]; [destruct Hm as [-> _]; lia|].
    unfold map_at. rewrite Hmp. cbn [of_option mbind res_bind]. set (l := default [] (mp !! val)).
    assert (Hc : ∀ k, occurs k l = req_count s k (i, val)) by (intros k; by apply (proj2 Hm)).
    assert (Hl : Forall (λ k, (k < length pool0)%nat) l).
    { apply Forall_forall. intros k Hk%occurs_elem. rewrite Hc in Hk. rewrite Hlen. apply lookup_lt_is_Some_1.
      apply not_eq_None_Some. intros E. unfold req_count in Hk. rewrite E in Hk. lia. }
    rewrite Hu. destruct (visit_handlers_spec id pool0 l vs (handlers_pool m) out Hid Hl Hv) as (pool & out1 & -> & Hv1).
    cbn [mbind res_bind].
    destruct (IH (S i) (Multiplexer id pool (map_set i val l (maps m))) (vs ++ l) out1) as (m' & out' & ws & E & Hv2 & Hw & ?);
      [by eapply map_set_represent|done|done|lia|].
    exists m', out', (l ++ ws). split; [done|]. split; [by rewrite app_assoc|]. split; [|done].
    intros k. by rewrite occurs_app, count_from_cons, Hc, Hw.
Qed.

Lemma filter_all {A} (P : A → Prop) `{∀ x, Decision (P x)} l : (length l ≤ length (filter P l))%nat ↔ Forall P l.
Proof.
  induction l as [|x l IH]; [done|]. rewrite filter_cons, Forall_cons. pose proof (length_filter P l).
  case_decide; simpl; [rewrite <- IH|]; [split; [intros; split; [done|lia]|lia]|split; [lia|tauto]].
Qed.

(** ** The operations *)

Lemma new_represents n : represents n (new_multiplexer n) [].
Proof.
  split; [constructor|]. split; [|constructor]. split; [apply length_replicate|].
  intros i val mp k [-> _]%lookup_replicate_1. by rewrite lookup_empty.
Qed.
Lemma append_represents n m s data : represents n m s → represents n (append_new_empty_handler data m) (s ++ [(data, [])]).
Proof.
  intros (Hp & [Hl Hm] & Hr). split; [|split; [split; [done|]|]].
  - apply Forall2_app; [done|]. constructor; [|constructor]. split; [done|]. split; [done|]. simpl. lia.
  - intros i val mp k Hi. rewrite (Hm i val mp k Hi). unfold req_count.
    destruct (decide (k < length s)%nat) as [Hk|Hk]; [by rewrite lookup_app_l|].
    rewrite (lookup_ge_None_2 s), lookup_app_r by lia. destruct (k - length s)%nat as [|j]; [done|]. simpl. by destruct j.
  - apply Forall_app_2; [done|]. by repeat constructor.
Qed.
(** The requirement [r] more for the last handler. *)
Definition require (r : nat * V) (h : DATA * list (nat * V)) : DATA * list (nat * V) := (fst h, snd h ++ [r]).
Lemma add_represents n m s h i val : represents n m (s ++ [h]) → (i < n)%nat →
  ∃ m', add_requirement_to_last_handler i val m = Ok m' ∧ represents n m' (s ++ [require (i, val) h]).
Proof.
  intros (Hp & [Hl Hm] & Hr) Hi. destruct (lookup_lt_is_Some_2 (maps m) i) as [mp Hmp]; [lia|].
  unfold add_requirement_to_last_handler, map_at. rewrite Hmp. cbn [of_option mbind res_bind].
  apply Forall2_app_inv_r in Hp as (pool & last & Hpool & Hlast & Epool).
  apply Forall2_cons_inv_r in Hlast as (h0 & l0 & (Hd & Hn & Hid) & Hnil & ->). apply Forall2_nil_inv_r in Hnil as ->.
  assert (Hlen : length pool = length s) by by eapply Forall2_length.
  rewrite Epool. assert (Hpred : pred (length (pool ++ [h0])) = length s) by (rewrite length_app; simpl; lia).
  destruct (pool ++ [h0]) as [|x l] eqn:E; [by destruct pool|]. rewrite Hpred. eexists. split; [done|].
  split; [|split; [split|]]; cbn [handlers_pool maps unique_id].
  - rewrite <- E, <- Hlen, <- (Nat.add_0_r (length pool)), alter_app_r. apply Forall2_app; [done|]. constructor; [|constructor].
    split; [done|]. split; [|done]. cbn. rewrite length_app, Hn. simpl. lia.
  - unfold map_set. by rewrite length_alter.
  - intros j w mp' k. unfold map_set.
    assert (Hcount : req_count (s ++ [require (i, val) h]) k (j, w)
              = (req_count (s ++ [h]) k (j, w) + if decide (k = length s ∧ (i, val) = (j, w)) then 1 else 0)%nat).
    { unfold req_count. destruct (decide (k = length s)) as [->|Hk].
      - rewrite !list_lookup_middle by done. cbn [require snd]. rewrite filter_app, length_app, filter_cons. f_equal.
        destruct (decide ((i, val) = (j, w))) as [Ev|Ev]; [by rewrite decide_True|rewrite decide_False by tauto; done].
      - rewrite decide_False by tauto. rewrite Nat.add_0_r. destruct (decide (k < length s)%nat); [by rewrite !lookup_app_l by done|].
        by rewrite !lookup_ge_None_2 by (rewrite length_app; simpl; lia). }
    rewrite Hcount. destruct (decide (j = i)) as [->|Hne].
    + rewrite list_lookup_alter_eq, Hmp. intros [= <-]. destruct (decide (w = val)) as [->|Hw].
      * rewrite lookup_insert_eq. cbn [from_option id]. rewrite occurs_app, (Hm i val mp k Hmp), occurs_one. f_equal.
        destruct (decide (length s = k)) as [<-|Hk]; [by rewrite decide_True|by rewrite decide_False by naive_solver].
      * rewrite lookup_insert_ne by done. rewrite (Hm i w mp k Hmp), decide_False by naive_solver. lia.
    + rewrite list_lookup_alter_ne by done. intros Hj. rewrite (Hm j w mp' k Hj), decide_False by naive_solver. lia.
  - apply Forall_app in Hr as [Hr Hh]. apply Forall_app_2; [done|]. constructor; [|constructor].
    apply Forall_cons_1 in Hh as [Hh _]. apply Forall_app_2; [done|]. by repeat constructor.
Qed.

Lemma same_data id pool s k : Forall2 (same_handler id) pool s → handler_data <$> pool !! k = fst <$> s !! k.
Proof.
  intros Hp. revert k. induction Hp as [|h d pool s [Hd _] Hp IH]; intros [|k]; [done|done|cbn; by rewrite Hd|apply IH].
Qed.
Lemma meets_from_0 arr r : meets_from 0 arr r ↔ meets arr r.
Proof. unfold meets_from, meets. rewrite Nat.sub_0_r. split; [by intros [_ ?]|intros ?; split; [lia|done]]. Qed.
Lemma answers_count arr d :
  (0 < length (snd d) ≤ length (filter (meets_from 0 arr) (snd d)))%nat ↔ spec_answers arr d.
Proof.
  assert (Hall : Forall (meets_from 0 arr) (snd d) ↔ Forall (meets arr) (snd d)).
  { split; intros Hf; (eapply Forall_impl; [exact Hf|]); intros r; apply meets_from_0. }
  unfold spec_answers. rewrite filter_all, Hall. destruct (snd d); simpl; split; intros [? ?]; (split; [|done]); [lia|done|done|lia].
Qed.

Lemma stream_represents n m s arr : represents n m s → length arr = n →
  ∃ m' ks, stream_array arr m = Ok (m', omap (λ k, fst <$> s !! k) ks) ∧ represents n m' s ∧ NoDup ks ∧
    ∀ k, k ∈ ks ↔ ∃ h, s !! k = Some h ∧ spec_answers arr h.
Proof.
  intros (Hp & Hm & Hr) Hlen. unfold stream_array. set (id := S (unique_id m)).
  assert (Hid : Forall (λ h, last_id h ≠ id) (handlers_pool m)).
  { apply Forall_lookup. intros k h Hk. eapply Forall2_lookup_l in Hp as (d & _ & (_ & _ & ?)); [|exact Hk]. unfold id. lia. }
  assert (Hls : length (handlers_pool m) = length s) by by eapply Forall2_length.
  destruct (rec_stream_spec n s (handlers_pool m) id Hid Hls arr 0 (Multiplexer id (handlers_pool m) (maps m)) [] [])
    as (m' & out & ws & E & Hv & Hw & Hm' & Hu); [done|apply visited_none|done|done|].
  cbn [app] in Hv. destruct Hv as (Hl' & Hpool & ks & Hnd & Hout & Hks).
  assert (Hreqs : ∀ k h0 d, handlers_pool m !! k = Some h0 → s !! k = Some d → same_handler (unique_id m) h0 d).
  { intros k h0 d H1 H2. by eapply Forall2_lookup_lr. }
  exists m', ks. rewrite E, Hout. split; [|split; [|split; [done|]]].
  - do 2 f_equal. clear Hnd Hout Hks E. induction ks as [|k ks IH]; [done|]. cbn. rewrite IH.
    assert (Hk : handler_data <$> handlers_pool m !! k = fst <$> s !! k) by by eapply same_data. by rewrite Hk.
  - split; [|done]. apply Forall2_same_length_lookup_2; [congruence|]. intros k h d Hh Hd. rewrite Hu.
    destruct (lookup_lt_is_Some_2 (handlers_pool m) k) as [h0 H0]; [rewrite Hls; by eapply lookup_lt_Some|].
    destruct (Hpool k h0 H0) as (h' & Hh' & E1 & E2 & E3). rewrite Hh in Hh'. injection Hh' as <-.
    destruct (Hreqs k h0 d H0 Hd) as (R1 & R2 & R3). split; [congruence|]. split; [congruence|].
    unfold id. case_decide; [subst h; lia|]. destruct E3 as [-> _]. done.
  - intros k. rewrite Hks, (Hw k). split.
    + intros (h0 & H0 & Hc). destruct (lookup_lt_is_Some_2 s k) as [d Hd]; [rewrite <- Hls; by eapply lookup_lt_Some|].
      exists d. split; [done|]. destruct (Hreqs k h0 d H0 Hd) as (_ & R2 & _). unfold count_from in Hc. rewrite Hd, R2 in Hc.
      by apply answers_count.
    + intros (d & Hd & Ha). destruct (lookup_lt_is_Some_2 (handlers_pool m) k) as [h0 H0]; [rewrite Hls; by eapply lookup_lt_Some|].
      exists h0. split; [done|]. destruct (Hreqs k h0 d H0 Hd) as (_ & R2 & _). unfold count_from. rewrite Hd, R2.
      by apply answers_count.
Qed.

(** ** The order of an answer is that of completion, so answers are compared as bags *)

Definition answering (P : DATA * list (nat * V) → Prop) `{∀ x, Decision (P x)} (s : spec) (k : nat) : Prop :=
  from_option (λ h, bool_decide (P h)) false (s !! k) = true.
#[export] Instance answering_dec P `{∀ x, Decision (P x)} s k : Decision (answering P s k).
Proof. unfold answering. apply _. Defined.
Lemma omap_answering P `{∀ x, Decision (P x)} (s : spec) : ∀ i t, length t = i →
  omap (λ k, fst <$> (t ++ s) !! k) (filter (answering P (t ++ s)) (seq i (length s))) = fst <$> filter P s.
Proof.
  induction s as [|x s IH]; intros i t Hi; [done|]. cbn [length seq]. rewrite !filter_cons.
  assert (Hx : (t ++ x :: s) !! i = Some x) by by apply list_lookup_middle.
  assert (Ha : answering P (t ++ x :: s) i ↔ P x) by (unfold answering; rewrite Hx; simpl; apply bool_decide_eq_true).
  specialize (IH (S i) (t ++ [x])). rewrite length_app, <- app_assoc in IH. cbn [app length] in IH.
  destruct (decide (P x)) as [Hp|Hp].
  - rewrite decide_True by by apply Ha. cbn. rewrite Hx. cbn. f_equal. apply IH. lia.
  - rewrite decide_False by by rewrite Ha. apply IH. lia.
Qed.
Lemma answers_permutation arr s ks : NoDup ks → (∀ k, k ∈ ks ↔ ∃ h, s !! k = Some h ∧ spec_answers arr h) →
  omap (λ k, fst <$> s !! k) ks ≡ₚ fst <$> filter (spec_answers arr) s.
Proof.
  intros Hnd Hks. rewrite <- (omap_answering (spec_answers arr) s 0 []) by done. apply omap_Permutation. cbn [app].
  apply NoDup_Permutation; [done|apply NoDup_filter, NoDup_ListNoDup, seq_NoDup|]. intros k.
  rewrite Hks, list_elem_of_filter, elem_of_seq. unfold answering. split.
  - intros (h & Hh & Ha). rewrite Hh. simpl. split; [by apply bool_decide_eq_true|]. apply lookup_lt_Some in Hh. lia.
  - intros [Ha _]. destruct (s !! k) as [h|]; [|done]. exists h. split; [done|]. by apply bool_decide_eq_true in Ha.
Qed.

(** ** Runs *)

Inductive mux_op := AppendHandler (data : DATA) | AddRequirement (i : nat) (val : V) | StreamArray (arr : list V).
(** The code on a list of calls, with the answers of the searches. *)
Fixpoint mux_run (ops : list mux_op) (m : multiplexer) : res (multiplexer * list (list DATA)) :=
  match ops with
  | [] => Ok (m, [])
  | AppendHandler d :: ops => mux_run ops (append_new_empty_handler d m)
  | AddRequirement i val :: ops => m ← add_requirement_to_last_handler i val m; mux_run ops m
  | StreamArray arr :: ops =>
      '(m, out) ← stream_array arr m; '(m, outs) ← mux_run ops m; Ok (m, out :: outs)
  end.
(** The calls a client over [n] types may make: the indices and tuples are well typed, and a requirement follows a handler. *)
Fixpoint spec_run (n : nat) (ops : list mux_op) (s : spec) : option (spec * list (list DATA)) :=
  match ops with
  | [] => Some (s, [])
  | AppendHandler d :: ops => spec_run n ops (s ++ [(d, [])])
  | AddRequirement i val :: ops =>
      if decide (i < n)%nat then
        h ← last s; spec_run n ops (removelast s ++ [require (i, val) h])
      else None
  | StreamArray arr :: ops =>
      if decide (length arr = n) then
        '(s', outs) ← spec_run n ops s; Some (s', (fst <$> filter (spec_answers arr) s) :: outs)
      else None
  end.

Lemma mux_run_represents n ops : ∀ m s s' outs, represents n m s → spec_run n ops s = Some (s', outs) →
  ∃ m' outs', mux_run ops m = Ok (m', outs') ∧ represents n m' s' ∧ Forall2 (≡ₚ) outs' outs.
Proof.
  induction ops as [|[d|i val|arr] ops IH]; intros m s s' outs Hm; cbn [spec_run mux_run].
  - intros [= <- <-]. by exists m, [].
  - apply IH. by apply append_represents.
  - case_decide as Hi; [|done]. destruct (last s) as [h|] eqn:Hl; [|done]. cbn [mbind option_bind]. intros Hs.
    apply last_Some in Hl as [s0 ->]. rewrite removelast_last in Hs.
    destruct (add_represents n m s0 h i val Hm Hi) as (m1 & -> & H1). by eapply IH.
  - case_decide as Ha; [|done]. destruct (spec_run n ops s) as [[s1 outs1]|] eqn:Hs; [|done]. intros [= <- <-].
    destruct (stream_represents n m s arr Hm Ha) as (m1 & ks & -> & H1 & Hnd & Hks). cbn [mbind res_bind].
    destruct (IH m1 s s1 outs1 H1 Hs) as (m' & outs' & -> & H2 & Hf). cbn [mbind res_bind].
    eexists m', _. split; [done|]. split; [done|]. constructor; [|done]. by apply answers_permutation.
Qed.
End multiplexer.

(** * The property *)

(** C26: the multiplexer implements the list of handlers with their requirements: for every list of calls a client may
    make on a new multiplexer, in any interleaving of building and searching, no access is out of range, and every search
    answers exactly the handlers that have requirements and whose requirements the tuple all meets, each once (the order
    is that in which they are completed). *)
Theorem multiplexer_refines {DATA V : Type} `{Countable V} (n : nat) (ops : list mux_op) (s : list (DATA * list (nat * V)))
    (outs : list (list DATA)) :
  spec_run n ops [] = Some (s, outs) →
  ∃ m outs', mux_run ops (new_multiplexer n) = Ok (m, outs') ∧ represents n m s ∧ Forall2 (≡ₚ) outs' outs.
Proof. intros Hs. eapply mux_run_represents; [apply new_represents|done]. Qed.
(** Three handlers, one without requirements and one required twice of the same value, and two searches. *)
Lemma multiplexer_refines_witness :
  let ops := [AppendHandler 10; AddRequirement 0 1; AddRequirement 1 2; AppendHandler 20; AppendHandler 30;
              AddRequirement 1 2; StreamArray [1; 2]; AddRequirement 1 2; StreamArray [5; 2]]%nat in
  ∃ m outs', mux_run ops (new_multiplexer 2) = Ok (m, outs') ∧
    represents 2 m [(10, [(0, 1); (1, 2)]); (20, []); (30, [(1, 2); (1, 2)])]%nat ∧
    Forall2 (≡ₚ) outs' [[10; 30]; [30]]%nat.
Proof. intros ops. apply (multiplexer_refines 2 ops). vm_compute. reflexivity. Defined.
