(* ===== verification/Filters.v ===== *)
(** Firewalls and sniffers: [src/abstract/firewall/firewall.h] (with [basic_firewall_filter.h]) and
    [src/abstract/sniffer/sniffer.h].

    Both stand in front of a sending medium, of a receiver, or of a net access.  Media, receivers, filters and handlers are
    virtual functions: here they are functions over the state [W] of the program that may change it and may go wrong.  A net
    access is a record of its two functions: the medium that [get_send_access] gives (which may be null), and what happens
    when data arrives while a given receiver is set.  Two accesses are related by a relation of states when they
    take related states to related states ([access_sim]): over equality this is extensional equality, and over "equal up to what
    the sniffers have seen" it says that a sniffer is transparent.

    The header of the firewall does not compile (its constructors have the names of other classes); what is modelled is what its
    functions say. *)

From Stdlib Require Import ZArith Lia.
From stdpp Require Import base decidable list numbers.
From S2P Require Import Prelude.

Inductive firewall_policy := BLOCK | ALLOW | DELAY.
#[export] Instance firewall_policy_eq_dec : EqDecision firewall_policy.
Proof. solve_decision. Defined.
Section filters.
Context {T W : Type}.

Abbreviation send_medium := (T → W → res (err_t * W)).
Abbreviation recv_listener := (T → W → res W).
Abbreviation basic_firewall_filter := (T → W → res (firewall_policy * W)).
Abbreviation basic_sniff_handler := (T → W → res W).

(** [sleep_for], in milliseconds. *)
Context (sleep_for : Z → W → W).

(** * firewall.h *)

(** The loop over the filters: does the data pass? *)
Fixpoint pass_filters (filters : list basic_firewall_filter) (data : T) (w : W) : res (bool * W) :=
  match filters with
  | [] => Ok (true, w)
  | filter :: filters =>
      '(policy, w) ← filter data w;
      match policy with
      | ALLOW => pass_filters filters data w
      | BLOCK => Ok (false, w)
      | DELAY => pass_filters filters data (sleep_for 1000 w)
      end
  end.
(** [add_filter] and [add_handler]: a null pointer is ignored. *)
Definition add_filter {A} (filter : option A) (filters : list A) : list A := filters ++ option_list filter.

Record firewall_send := FirewallSend { fws_send : send_medium; fws_filters : list basic_firewall_filter }.
Definition firewall_send_data (fw : firewall_send) (data : T) (w : W) : res (err_t * W) :=
  '(pass, w) ← pass_filters (fws_filters fw) data w;
  if (pass : bool) then fws_send fw data w else Ok (ERR, w).

Record firewall_recv := FirewallRecv { fwr_recv : recv_listener; fwr_filters : list basic_firewall_filter }.
Definition firewall_handle_recv (fw : firewall_recv) (data : T) (w : W) : res W :=
  '(pass, w) ← pass_filters (fwr_filters fw) data w;
  if (pass : bool) then fwr_recv fw data w else Ok w.

(** * Net accesses *)

Record access := Access {
  get_send_access : W → option send_medium;
  (** data arrives while the receiver is set *)
  arrive : option recv_listener → T → W → res W
}.
(** [access->get_send_access()->send_data(data)]. *)
Definition send_data (a : access) (data : T) (w : W) : res (err_t * W) :=
  send ← of_option NullDeref (get_send_access a w); send data w.
(** [if (recv != nullptr) recv->handle_recv(data)]. *)
Definition pass_on (recv : option recv_listener) (data : T) (w : W) : res W :=
  match recv with Some l => l data w | None => Ok w end.

Record firewall_net_access := FirewallNetAccess {
  fw_access : access; filters_send : list basic_firewall_filter; filters_recv : list basic_firewall_filter
}.
Definition firewall_my_send (fw : firewall_net_access) (data : T) (w : W) : res (err_t * W) :=
  '(pass, w) ← pass_filters (filters_send fw) data w;
  if (pass : bool) then send_data (fw_access fw) data w else Ok (ERR, w).
Definition firewall_my_recv (fw : firewall_net_access) (recv : option recv_listener) (data : T) (w : W) : res W :=
  '(pass, w) ← pass_filters (filters_recv fw) data w;
  if (pass : bool) then pass_on recv data w else Ok w.
(** The access it is: its [my_recv] is the receiver of the base access from the constructor on. *)
Definition firewall_access (fw : firewall_net_access) : access :=
  Access (λ _, Some (firewall_my_send fw)) (λ recv, arrive (fw_access fw) (Some (firewall_my_recv fw recv))).
Definition add_filter_send (filter : option basic_firewall_filter) (fw : firewall_net_access) : firewall_net_access :=
  FirewallNetAccess (fw_access fw) (add_filter filter (filters_send fw)) (filters_recv fw).
Definition add_filter_recv (filter : option basic_firewall_filter) (fw : firewall_net_access) : firewall_net_access :=
  FirewallNetAccess (fw_access fw) (filters_send fw) (add_filter filter (filters_recv fw)).

(** * sniffer.h *)

Fixpoint handle_sniffs (handlers : list basic_sniff_handler) (data : T) (w : W) : res W :=
  match handlers with
  | [] => Ok w
  | handler :: handlers => w ← handler data w; handle_sniffs handlers data w
  end.
Definition sniffer_send_data (handlers : list basic_sniff_handler) (data : T) (w : W) : res (err_t * W) :=
  w ← handle_sniffs handlers data w; Ok (OK, w).
Definition sniffer_handle_recv (handlers : list basic_sniff_handler) (data : T) (w : W) : res W :=
  handle_sniffs handlers data w.

Record sniffer_net_access := SnifferNetAccess {
  sn_access : access; handlers_send : list basic_sniff_handler; handlers_recv : list basic_sniff_handler
}.
Definition sniffer_my_send (sn : sniffer_net_access) (data : T) (w : W) : res (err_t * W) :=
  w ← handle_sniffs (handlers_send sn) data w; send_data (sn_access sn) data w.
Definition sniffer_my_recv (sn : sniffer_net_access) (recv : option recv_listener) (data : T) (w : W) : res W :=
  w ← handle_sniffs (handlers_recv sn) data w; pass_on recv data w.
Definition sniffer_access (sn : sniffer_net_access) : access :=
  Access (λ _, Some (sniffer_my_send sn)) (λ recv, arrive (sn_access sn) (Some (sniffer_my_recv sn recv))).

(** * Accesses related by a relation of states *)

Section sim.
Context (R : relation W).

Inductive res_sim {A} (RA : relation A) : res A → res A → Prop :=
  | res_sim_ok a a' : RA a a' → res_sim RA (Ok a) (Ok a')
  | res_sim_fault f : res_sim RA (Fault f) (Fault f).
Definition result_sim {A} : relation (A * W) := λ x y, fst x = fst y ∧ R (snd x) (snd y).
Definition listener_sim : relation recv_listener := λ l l', ∀ d w w', R w w' → res_sim R (l d w) (l' d w').
Definition medium_sim : relation send_medium := λ s s', ∀ d w w', R w w' → res_sim result_sim (s d w) (s' d w').
Definition filter_sim : relation basic_firewall_filter := λ f f', ∀ d w w', R w w' → res_sim result_sim (f d w) (f' d w').
(** A null receiver is as one that does nothing. *)
Definition access_sim : relation access := λ a a',
  medium_sim (send_data a) (send_data a') ∧
  ∀ L L', listener_sim (pass_on L) (pass_on L') →
    ∀ d w w', R w w' → res_sim R (arrive a L d w) (arrive a' L' d w').

(** A handler that does nothing the relation sees. *)
Definition quiet (h : basic_sniff_handler) : Prop := ∀ d w, ∃ w', h d w = Ok w' ∧ R w w'.

(** ** The relations are closed under what the code does *)

Lemma res_sim_bind {A B} (RA : relation A) (RB : relation B) (m m' : res A) (k k' : A → res B) :
  res_sim RA m m' → (∀ a a', RA a a' → res_sim RB (k a) (k' a')) → res_sim RB (m ≫= k) (m' ≫= k').
Proof. intros [a a' Ha|f] Hk; [by apply Hk|constructor]. Qed.
#[export] Instance res_sim_refl {A} (RA : relation A) `{!Reflexive RA} : Reflexive (res_sim RA).
Proof. intros [a|f]; by constructor. Qed.
#[export] Instance res_sim_sym {A} (RA : relation A) `{!Symmetric RA} : Symmetric (res_sim RA).
Proof. intros m m' [a a' Ha|f]; by constructor. Qed.
#[export] Instance res_sim_trans {A} (RA : relation A) `{!Transitive RA} : Transitive (res_sim RA).
Proof. intros m1 m2 m3 [a a' Ha|f]; inversion 1; subst; constructor. by etrans. Qed.
#[export] Instance result_sim_equiv {A} `{!Equivalence R} : Equivalence (@result_sim A).
Proof.
  split.
  - by intros [a w].
  - intros [a w] [a' w'] [? ?]. by split.
  - intros [a w] [a' w'] [a'' w''] [? ?] [? ?]. split; by etrans.
Qed.

Lemma medium_sim_sym `{!Equivalence R} : Symmetric medium_sim.
Proof. intros s s' Hs d w w' Hw. symmetry. apply Hs. by symmetry. Qed.
Lemma medium_sim_trans `{!Equivalence R} : Transitive medium_sim.
Proof. intros s1 s2 s3 H1 H2 d w w' Hw. etrans; [by apply H1|by apply H2]. Qed.
Lemma listener_sim_sym `{!Equivalence R} : Symmetric listener_sim.
Proof. intros s s' Hs d w w' Hw. symmetry. apply Hs. by symmetry. Qed.
Lemma listener_sim_trans `{!Equivalence R} : Transitive listener_sim.
Proof. intros s1 s2 s3 H1 H2 d w w' Hw. etrans; [by apply H1|by apply H2]. Qed.
#[export] Instance access_sim_per `{!Equivalence R} : RelationClasses.PER access_sim.
Proof.
  split.
  - intros a a' [Hs Ha]. split; [by apply medium_sim_sym|]. intros L L' HL d w w' Hw. symmetry. apply Ha; [|by symmetry].
    by apply listener_sim_sym.
  - intros a1 a2 a3 [Hs1 Ha1] [Hs2 Ha2]. split; [by eapply medium_sim_trans|]. intros L L' HL d w w' Hw.
    etrans; [by apply Ha1|]. apply Ha2; [|done]. eapply listener_sim_trans; [apply listener_sim_sym|]; exact HL.
Qed.

Lemma pass_filters_sim fs fs' d w w' : Proper (R ==> R) (sleep_for 1000) → Forall2 filter_sim fs fs' → R w w' →
  res_sim result_sim (pass_filters fs d w) (pass_filters fs' d w').
Proof.
  intros Hsl Hfs. revert w w'. induction Hfs as [|f f' fs fs' Hf _ IH]; intros w w' Hw; cbn [pass_filters].
  - by constructor.
  - eapply res_sim_bind; [by apply Hf|]. intros [p v] [p' v'] [Hp Hv]. cbn in Hp, Hv. subst p'.
    destruct p; [by constructor|by apply IH|by apply IH, Hsl].
Qed.
(** What is put behind filters: [k] when the data passes, [e] when it is blocked. *)
Lemma filtered_sim {A} (RA : relation A) fs fs' (k k' e e' : W → res A) d w w' :
  Proper (R ==> R) (sleep_for 1000) → Forall2 filter_sim fs fs' → R w w' →
  (∀ v v', R v v' → res_sim RA (k v) (k' v')) → (∀ v v', R v v' → res_sim RA (e v) (e' v')) →
  res_sim RA ('(pass, w) ← pass_filters fs d w; if (pass : bool) then k w else e w)
             ('(pass, w) ← pass_filters fs' d w'; if (pass : bool) then k' w else e' w).
Proof.
  intros Hsl Hfs Hw Hk He. eapply res_sim_bind; [by apply pass_filters_sim|]. intros [b v] [b' v'] [Hb Hv]. cbn in Hb, Hv.
  subst b'. destruct b; [by apply Hk|by apply He].
Qed.

(** A firewall respects the relation when its parts do. *)
Lemma firewall_access_sim a a' fs fs' gs gs' : Proper (R ==> R) (sleep_for 1000) →
  access_sim a a' → Forall2 filter_sim fs fs' → Forall2 filter_sim gs gs' →
  access_sim (firewall_access (FirewallNetAccess a fs gs)) (firewall_access (FirewallNetAccess a' fs' gs')).
Proof.
  intros Hsl [Hs Ha] Hfs Hgs. split.
  - intros d w w' Hw. apply filtered_sim; try done; intros v v' Hv; [by apply Hs|by constructor].
  - intros L L' HL d w w' Hw. apply Ha; [|done]. clear d w w' Hw. intros d w w' Hw.
    apply filtered_sim; try done; intros v v' Hv; [by apply HL|by constructor].
Qed.

Lemma handle_sniffs_quiet `{!Equivalence R} hs d w : Forall quiet hs → ∃ w', handle_sniffs hs d w = Ok w' ∧ R w w'.
Proof.
  intros Hq. revert w. induction Hq as [|h hs Hh _ IH]; intros w; cbn [handle_sniffs]; [by exists w|].
  destruct (Hh d w) as (w1 & -> & H1). cbn [mbind res_bind]. destruct (IH w1) as (w2 & -> & H2). exists w2. split; [done|by etrans].
Qed.
Lemma sniffer_quiet_sim `{!Equivalence R} a hs gs : access_sim a a → Forall quiet hs → Forall quiet gs →
  access_sim (sniffer_access (SnifferNetAccess a hs gs)) a.
Proof.
  intros [Hs Ha] Hhs Hgs. split.
  - intros d w w' Hw. unfold send_data at 1. cbn. unfold sniffer_my_send. cbn [handlers_send sn_access].
    destruct (handle_sniffs_quiet hs d w Hhs) as (v & -> & Hv). cbn [mbind res_bind]. apply Hs. symmetry. etrans; [|exact Hv]. by symmetry.
  - intros L L' HL d w w' Hw. apply Ha; [|done]. clear d w w' Hw. intros d w w' Hw. cbn [pass_on]. unfold sniffer_my_recv.
    cbn [handlers_recv]. destruct (handle_sniffs_quiet gs d w Hgs) as (v & -> & Hv). cbn [mbind res_bind]. apply HL.
    symmetry. etrans; [|exact Hv]. by symmetry.
Qed.
End sim.

(** ** Stacks *)

Lemma pass_filters_app fs gs d w : pass_filters (fs ++ gs) d w =
  '(pass, w) ← pass_filters fs d w; if (pass : bool) then pass_filters gs d w else Ok (false, w).
Proof.
  revert w. induction fs as [|f fs IH]; intros w; [done|]. cbn [app pass_filters].
  destruct (f d w) as [[[] v]|e]; [done|by apply IH|by apply IH|done].
Qed.
Lemma firewall_send_eq a fs gs d w : send_data (firewall_access (FirewallNetAccess a fs gs)) d w =
  '(pass, w) ← pass_filters fs d w; if (pass : bool) then send_data a d w else Ok (ERR, w).
Proof. done. Qed.
Lemma firewall_recv_eq a fs gs L d w : pass_on (Some (firewall_my_recv (FirewallNetAccess a fs gs) L)) d w =
  '(pass, w) ← pass_filters gs d w; if (pass : bool) then pass_on L d w else Ok w.
Proof. done. Qed.
Lemma res_sim_bind_app {A} (R : relation W) (RA : relation A) (m m' : res (bool * W)) (k k' e : W → res A) (g : W → res (bool * W)) :
  res_sim (result_sim R) m m' →
  (∀ v v', R v v' → res_sim RA (k v) ('(pass, w) ← g v'; if (pass : bool) then k' w else e w)) →
  (∀ v v', R v v' → res_sim RA (e v) (e v')) →
  res_sim RA ('(pass, w) ← m; if (pass : bool) then k w else e w)
    ('(pass, w) ← ('(pass, w) ← m'; if (pass : bool) then g w else Ok (false, w)); if (pass : bool) then k' w else e w).
Proof.
  intros [[b v] [b' v'] [Hb Hv]|f] Hk He; [|constructor]. cbn in Hb, Hv. subst b'. cbn [mbind res_bind].
  destruct b; [by apply Hk|by apply He].
Qed.
(** One firewall with the filters of two, in the order in which data meets them. *)
Lemma firewall_stack_sim (R : relation W) a fs1 gs1 fs2 gs2 : Equivalence R → Proper (R ==> R) (sleep_for 1000) →
  access_sim R a a → Forall (λ f, filter_sim R f f) (fs1 ++ fs2) → Forall (λ f, filter_sim R f f) (gs1 ++ gs2) →
  access_sim R (firewall_access (FirewallNetAccess (firewall_access (FirewallNetAccess a fs2 gs2)) fs1 gs1))
    (firewall_access (FirewallNetAccess a (fs1 ++ fs2) (gs2 ++ gs1))).
Proof.
  intros HR Hsl [Hs Ha] [Hf1 Hf2]%Forall_app [Hg1 Hg2]%Forall_app.
  assert (Hrefl : ∀ fs, Forall (λ f, filter_sim R f f) fs → Forall2 (filter_sim R) fs fs) by (by induction 1; constructor).
  split.
  - intros d w w' Hw. rewrite !firewall_send_eq. rewrite pass_filters_app.
    eapply res_sim_bind_app; [by apply pass_filters_sim; auto|intros v v' Hv|intros v v' Hv; by constructor].
    rewrite firewall_send_eq. apply (filtered_sim R); [done|by apply Hrefl|done|by apply Hs|intros u u' Hu; by constructor].
  - intros L L' HL d w w' Hw. apply Ha; [|done]. clear d w w' Hw. intros d w w' Hw. rewrite !firewall_recv_eq, pass_filters_app.
    eapply res_sim_bind_app; [by apply pass_filters_sim; auto|intros v v' Hv|intros v v' Hv; by constructor].
    rewrite firewall_recv_eq. apply (filtered_sim R); [done|by apply Hrefl|done|by apply HL|intros u u' Hu; by constructor].
Qed.
End filters.

(** * A device, and what goes through a firewall or a sniffer over it *)

Section device.
Context {T : Type}.

(** What has been sent by the device and handed to the application, what each sniff handler has been shown, and the time
    slept. *)
Record world := World { sent : list T; got : list T; seen : list (nat * T); slept : Z }.
Definition sleep_world (ms : Z) (w : world) : world := World (sent w) (got w) (seen w) (slept w + ms).
Definition device : access := Access
  (λ _, Some (λ d w, Ok (OK, World (sent w ++ [d]) (got w) (seen w) (slept w))))
  pass_on.
Definition application : T → world → res world := λ d w, Ok (World (sent w) (got w ++ [d]) (seen w) (slept w)).
(** A filter that decides by the data alone, and the handler number [i]. *)
Definition stateless (p : T → firewall_policy) : T → world → res (firewall_policy * world) := λ d w, Ok (p d, w).
Definition watcher (i : nat) : T → world → res world := λ d w, Ok (World (sent w) (got w) (seen w ++ [(i, d)]) (slept w)).

Inductive io := Send (d : T) | Arrive (d : T).
Fixpoint io_run (a : access) (evs : list io) (w : world) : res (list err_t * world) :=
  match evs with
  | [] => Ok ([], w)
  | Send d :: evs => '(e, w) ← send_data a d w; '(es, w) ← io_run a evs w; Ok (e :: es, w)
  | Arrive d :: evs => w ← arrive a (Some application) d w; io_run a evs w
  end.

(** The data is blocked by no policy; the time it is delayed for, until it is blocked. *)
Definition allowed (ps : list (T → firewall_policy)) (d : T) : Prop := Forall (λ p, p d ≠ BLOCK) ps.
#[export] Instance allowed_dec ps d : Decision (allowed ps d).
Proof. unfold allowed. apply _. Defined.
Fixpoint delay (ps : list (T → firewall_policy)) (d : T) : Z :=
  match ps with
  | [] => 0
  | p :: ps => match p d with BLOCK => 0 | ALLOW => delay ps d | DELAY => 1000 + delay ps d end
  end.

Definition sends (evs : list io) : list T := omap (λ e, match e with Send d => Some d | Arrive _ => None end) evs.
Definition arrivals (evs : list io) : list T := omap (λ e, match e with Arrive d => Some d | Send _ => None end) evs.
Definition delays (ps qs : list (T → firewall_policy)) (evs : list io) : Z :=
  foldr (λ e t, match e with Send d => delay ps d | Arrive d => delay qs d end + t) 0 evs.

Lemma pass_stateless ps d w :
  pass_filters sleep_world (stateless <$> ps) d w = Ok (bool_decide (allowed ps d), sleep_world (delay ps d) w).
Proof.
  revert w. induction ps as [|p ps IH]; intros w; cbn [fmap list_fmap pass_filters delay].
  - rewrite bool_decide_true by constructor. destruct w. unfold sleep_world. cbn. by rewrite Z.add_0_r.
  - change (stateless p d w) with (Ok (p d, w)). cbn [mbind res_bind].
    assert (Ha : p d ≠ BLOCK → bool_decide (allowed (p :: ps) d) = bool_decide (allowed ps d)).
    { intros Hp. apply bool_decide_ext. unfold allowed. split; [by intros [_ ?]%Forall_cons_1|intros ?; by apply Forall_cons_2]. }
    destruct (p d) eqn:Hp.
    + rewrite bool_decide_false by (intros [? _]%Forall_cons_1; congruence). destruct w. unfold sleep_world. cbn. by rewrite Z.add_0_r.
    + by rewrite IH, Ha.
    + rewrite IH, Ha by done. destruct w. unfold sleep_world. cbn. by rewrite Z.add_assoc.
Qed.

Lemma handle_watchers hs d w :
  handle_sniffs (watcher <$> hs) d w = Ok (World (sent w) (got w) (seen w ++ ((λ i, (i, d)) <$> hs)) (slept w)).
Proof.
  revert w. induction hs as [|i hs IH]; intros w; cbn [fmap list_fmap handle_sniffs].
  - rewrite app_nil_r. by destruct w.
  - change (watcher i d w) with (Ok (World (sent w) (got w) (seen w ++ [(i, d)]) (slept w))). cbn [mbind res_bind]. rewrite IH. cbn. by rewrite <- app_assoc.
Qed.

Lemma firewall_io ps qs evs : ∀ w,
  io_run (firewall_access sleep_world (FirewallNetAccess device (stateless <$> ps) (stateless <$> qs))) evs w =
  Ok ((λ d, if decide (allowed ps d) then OK else ERR) <$> sends evs,
      World (sent w ++ filter (allowed ps) (sends evs)) (got w ++ filter (allowed qs) (arrivals evs)) (seen w)
        (slept w + delays ps qs evs)).
Proof.
  induction evs as [|[d|d] evs IH]; intros w; cbn [io_run].
  - unfold delays. cbn. rewrite !app_nil_r, Z.add_0_r. by destruct w.
  - rewrite firewall_send_eq, pass_stateless. cbn [mbind res_bind].
    unfold sends, delays. cbn [omap list_omap foldr fmap list_fmap]. fold (sends evs) (delays ps qs evs).
    rewrite filter_cons. case_bool_decide as Hd; cbn [mbind res_bind send_data get_send_access device of_option];
      rewrite IH; cbn; [rewrite !decide_True by done|rewrite !decide_False by done]; rewrite <- ?app_assoc, Z.add_assoc; done.
  - change (arrive _ _ d w) with (pass_on (Some (firewall_my_recv sleep_world
      (FirewallNetAccess device (stateless <$> ps) (stateless <$> qs)) (Some application))) d w).
    rewrite firewall_recv_eq, pass_stateless. cbn [mbind res_bind].
    unfold arrivals, delays. cbn [omap list_omap foldr]. fold (arrivals evs) (delays ps qs evs).
    rewrite filter_cons. case_bool_decide as Hd; cbn [pass_on application mbind res_bind];
      rewrite IH; cbn; [rewrite !decide_True by done|rewrite !decide_False by done]; rewrite <- ?app_assoc, Z.add_assoc; done.
Qed.
Lemma sniffer_io hs js evs : ∀ w,
  io_run (sniffer_access (SnifferNetAccess device (watcher <$> hs) (watcher <$> js))) evs w =
  Ok ((λ _, OK) <$> sends evs,
      World (sent w ++ sends evs) (got w ++ arrivals evs)
        (seen w ++ concat ((λ e, match e with Send d => (λ i, (i, d)) <$> hs | Arrive d => (λ j, (j, d)) <$> js end) <$> evs))
        (slept w)).
Proof.
  induction evs as [|[d|d] evs IH]; intros w; cbn [io_run].
  - cbn. rewrite !app_nil_r. by destruct w.
  - unfold send_data. cbn [sniffer_access get_send_access of_option mbind res_bind]. unfold sniffer_my_send. cbn [handlers_send sn_access].
    rewrite handle_watchers. cbn [mbind res_bind send_data get_send_access device of_option]. rewrite IH. cbn.
    by rewrite <- !app_assoc.
  - cbn [sniffer_access arrive sn_access device pass_on]. unfold sniffer_my_recv. cbn [handlers_recv].
    rewrite handle_watchers. cbn [mbind res_bind pass_on application]. rewrite IH. cbn. by rewrite <- !app_assoc.
Qed.
End device.
Arguments world : clear implicits.
Arguments io : clear implicits.

(** * Properties *)

(** A firewall over a device, with filters that decide by the data alone: in every sequence of sends and arrivals, exactly the
    data that no filter of its direction blocks goes through, in order and unchanged; a blocked send returns [ERR], the others
    [OK]; and the program sleeps a second for each filter that delays the data before one blocks it. *)
Theorem firewall_decides {T : Type} (ps qs : list (T → firewall_policy)) (evs : list (io T)) (w : world T) :
  io_run (firewall_access sleep_world (FirewallNetAccess device (stateless <$> ps) (stateless <$> qs))) evs w =
  Ok ((λ d, if decide (allowed ps d) then OK else ERR) <$> sends evs,
      World (sent w ++ filter (allowed ps) (sends evs)) (got w ++ filter (allowed qs) (arrivals evs)) (seen w)
        (slept w + delays ps qs evs)).
Proof. apply firewall_io. Qed.

(** A firewall in front of a firewalled access is one firewall with the filters of both: on the way out the outer
    filters are asked first, on the way in the inner ones. The filters and the access may change the state and may go wrong;
    all that is asked of the access is that it treats a missing receiver as one that does nothing. *)
Theorem firewall_stack {T W : Type} (sleep_for : Z → W → W) (a : @access T W)
    (fs1 gs1 fs2 gs2 : list (T → W → res (firewall_policy * W))) :
  access_sim eq a a →
  access_sim eq
    (firewall_access sleep_for (FirewallNetAccess (firewall_access sleep_for (FirewallNetAccess a fs2 gs2)) fs1 gs1))
    (firewall_access sleep_for (FirewallNetAccess a (fs1 ++ fs2) (gs2 ++ gs1))).
Proof.
  assert (Hf : ∀ fs : list (T → W → res (firewall_policy * W)), Forall (λ f, filter_sim eq f f) fs).
  { intros fs. apply Forall_true. intros f d w w' <-. reflexivity. }
  intros Ha. apply firewall_stack_sim; [apply _|apply _|done|apply Hf..].
Qed.
Lemma device_sim {T} (R : relation (world T)) :
  (∀ d, Proper (R ==> R) (λ w, World (sent w ++ [d]) (got w) (seen w) (slept w))) → access_sim R device device.
Proof.
  intros Hs. split.
  - intros d w w' Hw. constructor. split; [done|]. by apply Hs.
  - intros L L' HL d w w' Hw. by apply HL.
Qed.
Lemma firewall_stack_witness :
  access_sim eq
    (firewall_access sleep_world (FirewallNetAccess
      (firewall_access sleep_world (FirewallNetAccess device [stateless (λ n : nat, if (n <? 10)%nat then BLOCK else DELAY)] []))
      [] [stateless (λ _, BLOCK)]))
    (firewall_access sleep_world (FirewallNetAccess device
      ([] ++ [stateless (λ n : nat, if (n <? 10)%nat then BLOCK else DELAY)]) ([] ++ [stateless (λ _, BLOCK)]))).
Proof.
  apply (firewall_stack sleep_world device). apply device_sim. by intros ? ? ? <-.
Defined.

(** A sniffer is transparent: for every relation of states that the access and the filters respect and in which the handlers
    of the sniffer change nothing, the sniffed access does what the access does, and so it does under any firewall. *)
Theorem sniffer_transparent {T W : Type} (sleep_for : Z → W → W) (R : relation W) (a : @access T W)
    (hs gs : list (T → W → res W)) (ps qs : list (T → W → res (firewall_policy * W))) :
  Equivalence R → Proper (R ==> R) (sleep_for 1000) → access_sim R a a → Forall (quiet R) hs → Forall (quiet R) gs →
  Forall (λ f, filter_sim R f f) ps → Forall (λ f, filter_sim R f f) qs →
  access_sim R (sniffer_access (SnifferNetAccess a hs gs)) a ∧
  access_sim R (firewall_access sleep_for (FirewallNetAccess (sniffer_access (SnifferNetAccess a hs gs)) ps qs))
    (firewall_access sleep_for (FirewallNetAccess a ps qs)).
Proof.
  intros HR Hsl Ha Hhs Hgs Hps Hqs. assert (Hsn := sniffer_quiet_sim R a hs gs Ha Hhs Hgs). split; [done|].
  apply firewall_access_sim; [done|done| |]; by apply Forall_Forall2_diag.
Qed.
(** Worlds equal up to what has been seen. *)
Definition unseen {T} : relation (world T) := λ w w', sent w = sent w' ∧ got w = got w' ∧ slept w = slept w'.
#[export] Instance unseen_equivalence {T} : Equivalence (@unseen T).
Proof.
  split; unfold unseen.
  - done.
  - intros w w' (? & ? & ?). done.
  - intros w w' w'' (? & ? & ?) (? & ? & ?). split_and!; congruence.
Qed.
Lemma sniffer_transparent_witness :
  let a := @device (list Z) in
  let sniffed := sniffer_access (SnifferNetAccess a [watcher 0; watcher 1] [watcher 2]) in
  access_sim unseen sniffed a ∧
  access_sim unseen (firewall_access sleep_world (FirewallNetAccess sniffed [] [stateless (λ _, DELAY)]))
    (firewall_access sleep_world (FirewallNetAccess a [] [stateless (λ _, DELAY)])).
Proof.
  intros a sniffed. apply (sniffer_transparent sleep_world unseen a [watcher 0; watcher 1] [watcher 2] [] [stateless (λ _, DELAY)]).
  - apply _.
  - intros w w' (H1 & H2 & H3). unfold unseen. cbn. by rewrite H1, H2, H3.
  - apply device_sim. intros x w w' (H1 & H2 & H3). unfold unseen. cbn. by rewrite H1, H2, H3.
  - repeat apply Forall_cons_2; try apply Forall_nil_2; intros x w; (eexists; split; [reflexivity|done]).
  - repeat apply Forall_cons_2; try apply Forall_nil_2; intros x w; (eexists; split; [reflexivity|done]).
  - constructor.
  - apply Forall_cons_2; [|apply Forall_nil_2]. intros x w w' Hw. constructor. by split.
Defined.

(** What a sniffer over a device is for: in every sequence of sends and arrivals, each handler of the direction is shown each
    data once, in the order of the events and of the handlers, and the data goes through as it would without. *)
Theorem sniffer_sees_all {T : Type} (hs js : list nat) (evs : list (io T)) (w : world T) :
  io_run (sniffer_access (SnifferNetAccess device (watcher <$> hs) (watcher <$> js))) evs w =
  Ok ((λ _, OK) <$> sends evs,
      World (sent w ++ sends evs) (got w ++ arrivals evs)
        (seen w ++ concat ((λ e, match e with Send d => (λ i, (i, d)) <$> hs | Arrive d => (λ j, (j, d)) <$> js end) <$> evs))
        (slept w)).
Proof. apply sniffer_io. Qed.
