(* ===== verification/Proxy.v ===== *)
(** The IP proxy: [src/tools/proxy/ip_proxy_server.cpp] (and [.h]) and [ip_proxy_client.h].

    The server stands between one connection and a network.  A packet from the connection has its source replaced by the
    address of the server and is sent to the network; a packet from the network has its destination replaced by the last source seen
    on the connection and is sent to the connection.  What the handlers send is the result of the step: they copy the packet into
    the buffer of a [send_msg_t] without a look at its size ([forward]); the class [SendBuffer] has the number of bytes that such a
    buffer holds, which the tree does not say.  The prints are left out.  The tool is written against an earlier interface (its fields
    [source_addr], [checksum] are those of [Ip4.ip4_header]); [write_in_network_order] and [extract_from_network_order] are today's. *)

From Stdlib Require Import ZArith Lia.
From stdpp Require Import base decidable list numbers gmap.
From S2P Require Import Prelude Cursor Text Encap Routing Ip4.

#[export] Instance ip4_addr_countable : Countable ip4_addr.
Proof. exact (inj_countable' ip4_octets Ip4Addr (λ a, match a with Ip4Addr _ => eq_refl end)). Defined.

(** [my_source] is that of the handler of the connection, when there is one. *)
Record ip_proxy_server := IpProxyServer {
  server_ip : ip4_addr; mappings : gset ip4_addr; my_source : option ip4_addr
}.
Definition new_ip_proxy_server (src_ip : ip4_addr) : ip_proxy_server := IpProxyServer src_ip ∅ None.
Definition set_proxied_connection (s : ip_proxy_server) : ip_proxy_server :=
  IpProxyServer (server_ip s) (mappings s) (Some ip4_addr_empty).

(** Where [header] has its checksum: [offsetof(ip4_header, checksum)]. *)
Definition checksum_offset : nat := 10.
(** The header at the front of [buff] is read, changed by [change], written back with a zero checksum, and its checksum
    is computed and stored.  The header as it was read, and the buffer. *)
Definition rewrite_header (change : ip4_header → ip4_header) (buff : list Z) : res (ip4_header * list Z) :=
  '(header, _) ← run_extract extract_ip4_header buff;
  '(buff, _) ← run_write (write_ip4_header (set_checksum 0 (change header))) buff;
  c ← internet_checksum buff sizeof_ip4_header;
  buff ← memcpy buff checksum_offset (le16 c);
  Ok (header, buff).
Definition set_source (a : ip4_addr) (h : ip4_header) : ip4_header :=
  Ip4Header (version h) (header_len h) (type_of_service h) (total_len h) (id h) (flags h) (frag_off h) (ttl h) (prot h)
    (checksum h) a (dest_addr h).
Definition set_dest (a : ip4_addr) (h : ip4_header) : ip4_header :=
  Ip4Header (version h) (header_len h) (type_of_service h) (total_len h) (id h) (flags h) (frag_off h) (ttl h) (prot h)
    (checksum h) (src_addr h) a.

(** The bytes that the buffer of a [send_msg_t] holds. *)
Class SendBuffer := { send_capacity : nat }.

Section server.
Context `{SendBuffer}.

(** [memcpy(send.get_active_buff(), buff, cnt)] and [set_count]. *)
Definition forward (buff : list Z) : res (list Z) :=
  if decide (length buff ≤ send_capacity)%nat then Ok buff else Fault OutOfBounds.

(** [conn_side_handler::handle_callback]: the new state and the packet for the network. *)
Definition conn_side_callback (s : ip_proxy_server) (data : list Z) : res (ip_proxy_server * option (list Z)) :=
  if (length data <=? 0)%nat then Ok (s, None)
  else
    '(header, buff) ← rewrite_header (set_source (server_ip s)) data;
    send ← forward buff;
    Ok (IpProxyServer (server_ip s) ({[ dest_addr header ]} ∪ mappings s) (Some (src_addr header)), Some send).
(** [network_side_handler::handle_callback]: the packet for the connection. *)
Definition network_side_callback (s : ip_proxy_server) (data : list Z) : res (option (list Z)) :=
  match my_source s with
  | None => Ok None
  | Some source =>
      if ip4_eqb source ip4_addr_empty then Ok None
      else if (length data <=? 0)%nat then Ok None
      else '(_, buff) ← rewrite_header (set_dest source) data; send ← forward buff; Ok (Some send)
  end.

(** [ip_proxy_client]: both directions pass the data on. *)
Definition proxy_client_send (data : list Z) : list Z := data.
Definition proxy_client_callback (data : list Z) : list Z := data.

(** The events of a server, in any order, with what it sends: [inl] to the network, [inr] to the connection. *)
Inductive proxy_event := FromConnection (data : list Z) | FromNetwork (data : list Z).
Fixpoint proxy_run (s : ip_proxy_server) (evs : list proxy_event) : res (ip_proxy_server * list (list Z + list Z)) :=
  match evs with
  | [] => Ok (s, [])
  | FromConnection data :: evs =>
      '(s, p) ← conn_side_callback s data; '(s, out) ← proxy_run s evs; Ok (s, option_list (inl <$> p) ++ out)
  | FromNetwork data :: evs =>
      p ← network_side_callback s data; '(s, out) ← proxy_run s evs; Ok (s, option_list (inr <$> p) ++ out)
  end.
End server.

(** * Lemmas *)

(** The store of the checksum computes: the fields before it are single bytes. *)
Lemma rewrite_header_ok change h data : ip4_header_ok h → ip4_header_ok (change (clear_flags h)) →
  rewrite_header change (ip4_bytes h ++ data) = Ok (clear_flags h, ip4_bytes (ip4_sealed (change (clear_flags h))) ++ data).
Proof.
  intros Hh Hc. set (h' := change (clear_flags h)) in *. unfold rewrite_header.
  assert (H0 : ip4_header_ok (set_checksum 0 h')) by (by apply set_checksum_ok; [|unfold u16_ok; lia]).
  pose proof (ip4_bytes_length _ Hh) as Hl. pose proof (ip4_bytes_length _ H0) as Hl0.
  rewrite (run_extract_reads _ _ _ data (reads_ip4 h Hh)). cbn [mbind res_bind]. fold h'.
  rewrite (run_write_fits _ _ _ _ (writes_ip4 _ H0)) by (rewrite length_app; lia). cbn [mbind res_bind].
  rewrite blit_prefix by (rewrite length_app; lia). rewrite drop_app_length' by lia.
  unfold internet_checksum, sizeof_ip4_header. rewrite (proj2 (Nat.leb_le _ _)) by (rewrite length_app; lia).
  cbn [mbind res_bind]. rewrite take_app_length' by lia. fold (ip4_checksum h').
  rewrite memcpy_ok by (rewrite length_app, Hl0; unfold checksum_offset; simpl; lia). cbn [mbind res_bind]. do 2 f_equal.
Qed.
Lemma rewrite_header_short change data : (length data < 20)%nat → rewrite_header change data = Fault OutOfBounds.
Proof. intros Hl. unfold rewrite_header. by rewrite (extract_size_short _ _ _ _ size_ip4 Hl). Qed.

Lemma clear_flags_ok h : ip4_header_ok h → ip4_header_ok (clear_flags h).
Proof. unfold ip4_header_ok, clear_flags. cbn. intros Hh. split_and!; first [tauto|lia]. Qed.
Lemma set_source_ok a h : ip4_ok a → ip4_header_ok h → ip4_header_ok (set_source a h).
Proof. unfold ip4_header_ok, set_source. cbn. tauto. Qed.
Lemma set_dest_ok a h : ip4_ok a → ip4_header_ok h → ip4_header_ok (set_dest a h).
Proof. unfold ip4_header_ok, set_dest. cbn. tauto. Qed.

(** The packet a server makes of one with header [h], towards the network and towards the connection. *)
Definition outgoing (a : ip4_addr) (h : ip4_header) : ip4_header := ip4_sealed (set_source a (clear_flags h)).
Definition incoming (a : ip4_addr) (h : ip4_header) : ip4_header := ip4_sealed (set_dest a (clear_flags h)).
Lemma outgoing_ok a h : ip4_ok a → ip4_header_ok h → ip4_header_ok (outgoing a h).
Proof. intros. by apply ip4_checksum_verifies, set_source_ok, clear_flags_ok. Qed.
Lemma incoming_ok a h : ip4_ok a → ip4_header_ok h → ip4_header_ok (incoming a h).
Proof. intros. by apply ip4_checksum_verifies, set_dest_ok, clear_flags_ok. Qed.

Lemma bytes_nonempty h data : ip4_header_ok h → (length (ip4_bytes h ++ data) <=? 0)%nat = false.
Proof. intros Hh. apply Nat.leb_gt. rewrite length_app, ip4_bytes_length by done. lia. Qed.

(** A packet with its header, of at most the bytes of a buffer. *)
Definition fits `{SendBuffer} (data : list Z) : Prop := (20 + length data ≤ send_capacity)%nat.
#[export] Instance fits_dec `{SendBuffer} data : Decision (fits data).
Proof. unfold fits. apply _. Defined.
Lemma forward_packet `{SendBuffer} h data : ip4_header_ok h →
  forward (ip4_bytes h ++ data) = if decide (fits data) then Ok (ip4_bytes h ++ data) else Fault OutOfBounds.
Proof. intros Hh. unfold forward, fits. by rewrite length_app, ip4_bytes_length. Qed.

Lemma conn_side_spec `{SendBuffer} s h data : ip4_ok (server_ip s) → ip4_header_ok h →
  conn_side_callback s (ip4_bytes h ++ data) =
  if decide (fits data)
  then Ok (IpProxyServer (server_ip s) ({[ dest_addr h ]} ∪ mappings s) (Some (src_addr h)),
           Some (ip4_bytes (outgoing (server_ip s) h) ++ data))
  else Fault OutOfBounds.
Proof.
  intros Hs Hh. unfold conn_side_callback. rewrite bytes_nonempty by done.
  rewrite rewrite_header_ok by (try apply set_source_ok, clear_flags_ok; done). cbn [mbind res_bind].
  rewrite forward_packet by (by apply outgoing_ok). by destruct (decide (fits data)).
Qed.
Lemma network_side_spec `{SendBuffer} s a h data : my_source s = Some a → ip4_ok a → a ≠ ip4_addr_empty → ip4_header_ok h →
  network_side_callback s (ip4_bytes h ++ data) =
  if decide (fits data) then Ok (Some (ip4_bytes (incoming a h) ++ data)) else Fault OutOfBounds.
Proof.
  intros Hs Ha Hne Hh. unfold network_side_callback. rewrite Hs, ip4_eqb_spec, bool_decide_false by (done || (split; [done|cbn; solve_bytes])).
  rewrite bytes_nonempty by done. rewrite rewrite_header_ok by (try apply set_dest_ok, clear_flags_ok; done). cbn [mbind res_bind].
  rewrite forward_packet by (by apply incoming_ok). by destruct (decide (fits data)).
Qed.
Lemma conn_side_ok `{SendBuffer} s h data : ip4_ok (server_ip s) → ip4_header_ok h → fits data →
  conn_side_callback s (ip4_bytes h ++ data) =
  Ok (IpProxyServer (server_ip s) ({[ dest_addr h ]} ∪ mappings s) (Some (src_addr h)),
      Some (ip4_bytes (outgoing (server_ip s) h) ++ data)).
Proof. intros. by rewrite conn_side_spec, decide_True. Qed.
Lemma network_side_ok `{SendBuffer} s a h data : my_source s = Some a → ip4_ok a → a ≠ ip4_addr_empty → ip4_header_ok h → fits data →
  network_side_callback s (ip4_bytes h ++ data) = Ok (Some (ip4_bytes (incoming a h) ++ data)).
Proof. intros. by rewrite (network_side_spec s a), decide_True. Qed.

(** ** Runs *)

(** An event that is a packet with the header [h]. *)
Definition packet_event (e : bool * (ip4_header * list Z)) : proxy_event :=
  let '(from_connection, (h, data)) := e in
  if from_connection then FromConnection (ip4_bytes h ++ data) else FromNetwork (ip4_bytes h ++ data).
Definition event_ok (e : bool * (ip4_header * list Z)) : Prop := ip4_header_ok (fst (snd e)).

(** What has to come out: packets of the connection in the name of the server, packets of the network to the client whose packet was the
    last, and none while there has been no client. *)
Fixpoint translated (ip : ip4_addr) (source : option ip4_addr) (evs : list (bool * (ip4_header * list Z))) :
    list (bool * (ip4_header * list Z)) :=
  match evs with
  | [] => []
  | (true, (h, data)) :: evs => (true, (outgoing ip h, data)) :: translated ip (Some (src_addr h)) evs
  | (false, (h, data)) :: evs =>
      match source with
      | Some a => if decide (a = ip4_addr_empty) then translated ip source evs
                  else (false, (incoming a h, data)) :: translated ip source evs
      | None => translated ip source evs
      end
  end.
Definition sent_packet (e : bool * (ip4_header * list Z)) : list Z + list Z :=
  let '(to_network, (h, data)) := e in
  if to_network then inl (ip4_bytes h ++ data) else inr (ip4_bytes h ++ data).
(** The destinations that the clients have asked for. *)
Definition dests (evs : list (bool * (ip4_header * list Z))) : gset ip4_addr :=
  list_to_set (omap (λ e : bool * (ip4_header * list Z), if fst e then Some (dest_addr (fst (snd e))) else None) evs).

Lemma network_side_none `{SendBuffer} s data :
  (my_source s = None ∨ my_source s = Some ip4_addr_empty) → network_side_callback s data = Ok None.
Proof. unfold network_side_callback. by intros [-> | ->]. Qed.

(** The packets that are sent are copied: the run goes on as long as they fit. *)
Definition all_fit `{SendBuffer} (out : list (bool * (ip4_header * list Z))) : Prop := Forall (λ e, fits (snd (snd e))) out.
#[export] Instance all_fit_dec `{SendBuffer} out : Decision (all_fit out).
Proof. apply Forall_dec. intros e. apply fits_dec. Defined.
Lemma all_fit_cons `{SendBuffer} b h data out : all_fit ((b, (h, data)) :: out) ↔ fits data ∧ all_fit out.
Proof. unfold all_fit. by rewrite Forall_cons. Qed.

(** What a server has done after the events. *)
Definition proxied `{SendBuffer} (s : ip_proxy_server) (evs : list (bool * (ip4_header * list Z)))
    (r : res (ip_proxy_server * list (list Z + list Z))) : Prop :=
  let out := translated (server_ip s) (my_source s) evs in
  if decide (all_fit out) then ∃ s', r = Ok (s', sent_packet <$> out) ∧ mappings s' = dests evs ∪ mappings s
  else r = Fault OutOfBounds.

Lemma proxy_run_ok `{SendBuffer} evs : ∀ s, Forall event_ok evs → ip4_ok (server_ip s) → (∀ a, my_source s = Some a → ip4_ok a) →
  proxied s evs (proxy_run s (packet_event <$> evs)).
Proof.
  induction evs as [|[[] [h data]] evs IH]; intros s Hevs Hs Ha; cbn [fmap list_fmap proxy_run packet_event].
  - unfold proxied. cbn [translated]. rewrite decide_True by constructor. exists s. split; [done|]. unfold dests. set_solver.
  - apply Forall_cons_1 in Hevs as [Hh Hevs]. unfold event_ok in Hh. cbn [fst snd] in Hh. unfold proxied. cbn [translated].
    rewrite conn_side_spec by done. destruct (decide (fits data)) as [Hf|Hf].
    2: { rewrite decide_False; [done|]. rewrite all_fit_cons. tauto. }
    cbn [mbind res_bind].
    specialize (IH (IpProxyServer (server_ip s) ({[dest_addr h]} ∪ mappings s) (Some (src_addr h))) Hevs Hs).
    unfold proxied in IH. cbn [server_ip my_source mappings] in IH.
    destruct (decide (all_fit (translated (server_ip s) (Some (src_addr h)) evs))) as [Hall|Hall].
    + destruct IH as (s' & -> & Hm); [intros a [= <-]; apply Hh|]. rewrite decide_True by (by rewrite all_fit_cons).
      exists s'. split; [done|]. rewrite Hm. unfold dests. cbn. set_solver.
    + rewrite IH by (intros a [= <-]; apply Hh). rewrite decide_False; [done|]. rewrite all_fit_cons. tauto.
  - apply Forall_cons_1 in Hevs as [Hh Hevs]. unfold event_ok in Hh. cbn [fst snd] in Hh.
    specialize (IH s Hevs Hs Ha). unfold proxied in *. cbn [translated].
    assert (Hd : dests ((false, (h, data)) :: evs) = dests evs) by done. rewrite Hd.
    destruct (my_source s) as [a|] eqn:Hm; [destruct (decide (a = ip4_addr_empty)) as [->|Hne]|].
    + rewrite network_side_none by tauto. cbn [mbind res_bind]. destruct (decide (all_fit _)); [|by rewrite IH].
      destruct IH as (s' & -> & Hms). by exists s'.
    + rewrite (network_side_spec s a) by (try apply Ha; done). destruct (decide (fits data)) as [Hf|Hf].
      2: { rewrite decide_False; [done|]. rewrite all_fit_cons. tauto. }
      cbn [mbind res_bind]. destruct (decide (all_fit (translated _ _ evs))) as [Hall|Hall].
      * destruct IH as (s' & -> & Hms). rewrite decide_True by (by rewrite all_fit_cons). by exists s'.
      * rewrite IH, decide_False; [done|]. rewrite all_fit_cons. tauto.
    + rewrite network_side_none by tauto. cbn [mbind res_bind]. destruct (decide (all_fit _)); [|by rewrite IH].
      destruct IH as (s' & -> & Hms). by exists s'.
Qed.

(** A packet that its receiver takes: the checksum verifies and the header is the one it was written with. *)
Definition well_received (p : list Z) (h : ip4_header) (data : list Z) : Prop :=
  internet_checksum p sizeof_ip4_header = Ok 0 ∧ ip4_handle_recv None None None p = Ok (Some (h, data)).
Lemma sealed_received h data : ip4_header_ok h → well_received (ip4_bytes (ip4_sealed h) ++ data) (clear_flags (ip4_sealed h)) data.
Proof.
  intros Hh. destruct (ip4_checksum_verifies h Hh) as [Hs Hv]. pose proof (ip4_bytes_length _ Hs) as Hl. split.
  - unfold internet_checksum, sizeof_ip4_header in *. rewrite Hl in Hv. cbn [Nat.leb] in Hv. rewrite take_ge in Hv by lia.
    rewrite (proj2 (Nat.leb_le _ _)) by (rewrite length_app; lia). by rewrite take_app_length' by lia.
  - pose proof (ip4_recv_ok (Ip4Filters None None None ltac:(done) ltac:(done)) (ip4_sealed h) data Hs) as E.
    cbn [if_src if_dest if_prot] in E. rewrite E. unfold ip4_match. by rewrite bool_decide_true.
Qed.

(** * Properties *)

(** C25: the proxy on every sequence of packets from its connection and from the network: each packet of the connection goes to the
    network and each packet of the network, once a client has spoken, to the connection, in order and with their data; the
    destinations asked for are recorded.  The first of these packets that is longer than a message's buffer is written past its end, and
    only then does the proxy fault.  Every packet sent verifies and is received with the source replaced by the server's address
    (towards the network), or the destination by the last client's (towards the connection), and its flags cleared. *)
Theorem proxy_translates `{SendBuffer} (s : ip_proxy_server) (evs : list (bool * (ip4_header * list Z))) :
  Forall event_ok evs → ip4_ok (server_ip s) → (∀ a, my_source s = Some a → ip4_ok a) →
  (let out := translated (server_ip s) (my_source s) evs in
   if decide (all_fit out)
   then ∃ s', proxy_run s (packet_event <$> evs) = Ok (s', sent_packet <$> out) ∧ mappings s' = dests evs ∪ mappings s
   else proxy_run s (packet_event <$> evs) = Fault OutOfBounds) ∧
  ∀ h data a, ip4_header_ok h → ip4_ok a →
    (∃ h', well_received (ip4_bytes (outgoing a h) ++ data) h' data ∧ src_addr h' = a ∧ dest_addr h' = dest_addr h ∧
      prot h' = prot h ∧ flags h' = 0) ∧
    ∃ h', well_received (ip4_bytes (incoming a h) ++ data) h' data ∧ src_addr h' = src_addr h ∧ dest_addr h' = a ∧
      prot h' = prot h ∧ flags h' = 0.
Proof.
  intros Hevs Hs Ha. split.
  - exact (proxy_run_ok evs s Hevs Hs Ha).
  - intros h data a Hh Hok. split.
    + eexists. split; [apply sealed_received, set_source_ok, clear_flags_ok; done|done].
    + eexists. split; [apply sealed_received, set_dest_ok, clear_flags_ok; done|done].
Qed.
(** A buffer of twenty-two bytes, for the witness: the second request is too long for it. *)
Definition small_buffer : SendBuffer := {| send_capacity := 22 |}.
Lemma proxy_translates_witness :
  let ip := Ip4Addr [10; 0; 0; 1] in
  let client := Ip4Addr [192; 168; 1; 7] in
  let peer := Ip4Addr [8; 8; 8; 8] in
  let request := Ip4Header 4 5 0 22 77 2 0 64 17 0 client peer in
  let reply := Ip4Header 4 5 0 21 78 0 0 60 17 0 peer ip in
  let evs := [(false, (reply, [9; 9; 9])); (true, (request, [1; 2])); (false, (reply, [3]))] in
  let s := set_proxied_connection (new_ip_proxy_server ip) in
  (∃ s', proxy_run (H := small_buffer) s (packet_event <$> evs) = Ok (s', sent_packet <$> translated ip (Some ip4_addr_empty) evs) ∧
    mappings s' = dests evs ∪ ∅) ∧
  proxy_run (H := small_buffer) s (packet_event <$> evs ++ [(true, (request, [1; 2; 3]))]) = Fault OutOfBounds.
Proof.
  intros ip client peer request reply evs s.
  assert (Ha : ∀ a, my_source s = Some a → ip4_ok a) by (intros a [= <-]; split; [done|cbn; solve_bytes]).
  assert (Hs : ip4_ok (server_ip s)) by (split; [done|cbn; solve_bytes]).
  assert (Hevs : Forall event_ok (evs ++ [(true, (request, [1; 2; 3]))])).
  { repeat apply Forall_cons_2; try apply Forall_nil_2; unfold event_ok, ip4_header_ok, ip4_ok; cbn; split_and!; solve_bytes || done. }
  split.
  - destruct (proxy_translates (H := small_buffer) s evs) as [E _]; [by apply Forall_app in Hevs as [? _]|done|done|].
    revert E. by rewrite decide_True by (apply (bool_decide_unpack _); vm_compute; exact I).
  - destruct (proxy_translates (H := small_buffer) s (evs ++ [(true, (request, [1; 2; 3]))])) as [E _]; [done..|].
    revert E. by rewrite decide_False by (apply (bool_decide_unpack _); vm_compute; exact I).
Defined.
