(* ===== verification/Onion.v ===== *)
(** The onion network: [src/tools/onion_network], with the ends of UDP that it is built on
    ([src/direct_connections/udp/udp_client.cpp], [udp_server.cpp]).

    A client wraps a packet in a UDP packet per node of its chain, the last node innermost; each node unwraps one and proxies what is
    inside ([Proxy]).  The protocol objects that these classes hold belong to an interface that the tree no longer has; what they are
    relied on for is the class [UdpStack]: a datagram is sent in an IPv4 packet with the given ends, and is read back whatever a proxy
    does to the IPv4 header.  Today's [send] and [connect_recv] of UDP over IPv4 are an instance.

    The network handler of a node's proxy and the UDP server of the node both listen on the network; in which order they
    are called, the tree does not say: it is the argument [network_first].  Each is taken to get the packet as it came.

    The hosts between the nodes are a network that hands an IPv4 packet to the node whose address is its destination, and to the world
    outside when there is none ([travel]). *)

From Stdlib Require Import ZArith Lia.
From stdpp Require Import base decidable list numbers gmap.
From S2P Require Import Prelude Cursor Text Encap Routing Ip4 Udp Proxy.

(** [udp_stack.h]. *)
Record udp_packet_stack := UdpPacketStack {
  source_addr : ip4_addr; stack_dest_addr : ip4_addr; source_port : Z; stack_dest_port : Z; plain_data : list Z
}.

(** What the stack of UDP over IPv4 promises to the clients and servers built on it. *)
Class UdpStack := {
  us_header : nat; (* the bytes of the datagram's own header *)
  us_send : ip4_addr → ip4_addr → Z → Z → list Z → res (list Z);
  us_recv : list Z → res (option udp_packet_stack);
  us_carries src dst sport dport data : ip4_ok src → ip4_ok dst → u16_ok sport → u16_ok dport →
    ∃ h payload, us_send src dst sport dport data = Ok (ip4_bytes h ++ payload) ∧
      ip4_header_ok h ∧ src_addr h = src ∧ dest_addr h = dst ∧ length payload = (us_header + length data)%nat ∧
      ∀ h', ip4_header_ok h' → prot h' = prot h →
        us_recv (ip4_bytes h' ++ payload) = Ok (Some (UdpPacketStack (src_addr h') (dest_addr h') sport dport data))
}.

Section onion.
Context `{UdpStack} `{SendBuffer}.

(** * udp_client.cpp, udp_server.cpp *)

Record udp_client := UdpClient { uc_dest_ip : ip4_addr; uc_dest_port : Z; uc_my_port : Z; uc_src_ip : ip4_addr }.
Definition udp_client_send (c : udp_client) (data : list Z) : res (list Z) :=
  us_send (uc_src_ip c) (uc_dest_ip c) (uc_my_port c) (uc_dest_port c) data.
(** The requirements on the protocol objects: UDP for the own address and port.  The plain data goes to the listeners. *)
Definition udp_client_recv (c : udp_client) (pkt : list Z) : res (option (list Z)) :=
  o ← us_recv pkt;
  Ok (match o with
      | Some st => if ip4_eqb (stack_dest_addr st) (uc_src_ip c) && (stack_dest_port st =? uc_my_port c) then Some (plain_data st) else None
      | None => None
      end).

Record udp_server := UdpServer { us_port : Z; us_src_ip : ip4_addr }.
Definition udp_server_recv (s : udp_server) (pkt : list Z) : res (option udp_packet_stack) :=
  o ← us_recv pkt;
  Ok (match o with Some st => if stack_dest_port st =? us_port s then Some st else None | None => None end).
Definition send_data_to_client (s : udp_server) (dest_addr : ip4_addr) (dest_port : Z) (msg : list Z) : res (list Z) :=
  us_send (us_src_ip s) dest_addr (us_port s) dest_port msg.

(** * onion_network_client.cpp *)

Definition ONION_NETWORK_NODE_LISTEN_PORT : Z := 11081.
(** The UDP client of a node of the chain. *)
Definition chain_node (src_ip addr : ip4_addr) : udp_client := UdpClient addr ONION_NETWORK_NODE_LISTEN_PORT 2001 src_ip.
(** The constructor: the nodes in the order of the chain.  [proxies_chain.back()] of an empty chain is undefined. *)
Definition onion_network_client (chain : list ip4_addr) (src_ip : ip4_addr) : res (list udp_client) :=
  match chain with [] => Fault OutOfBounds | _ => Ok (chain_node src_ip <$> chain) end.
(** The gateway of a node is the proxy before it, that of the first the network: what reaches the network of data that is
    handed to the last of [nodes]. *)
Fixpoint chain_send (nodes : list udp_client) (data : list Z) : res (list Z) :=
  match nodes with
  | [] => Ok data
  | node :: nodes => inner ← chain_send nodes data; udp_client_send node (proxy_client_send inner)
  end.
Definition onion_send_data (nodes : list udp_client) (data : list Z) : res (list Z) := chain_send nodes data.
(** A packet of the network: each node takes its layer off and its proxy hands the rest to the next. *)
Fixpoint onion_handle_callback (nodes : list udp_client) (pkt : list Z) : res (option (list Z)) :=
  match nodes with
  | [] => Ok (Some pkt)
  | node :: nodes =>
      o ← udp_client_recv node pkt;
      match o with Some data => onion_handle_callback nodes (proxy_client_callback data) | None => Ok None end
  end.

(** * onion_network_node.cpp *)

(** [ip_source] and [port_source] are not initialised; they are read only after a packet has set them. *)
Record onion_network_node := OnionNode { proxy : ip_proxy_server; ip_source : ip4_addr; port_source : Z }.
Definition new_onion_network_node (src_ip : ip4_addr) : onion_network_node :=
  OnionNode (set_proxied_connection (new_ip_proxy_server src_ip)) ip4_addr_empty 0.
Definition node_server (n : onion_network_node) : udp_server :=
  UdpServer ONION_NETWORK_NODE_LISTEN_PORT (server_ip (proxy n)).

(** The proxy's handler of the network: what goes to the client. *)
Definition node_network_side (n : onion_network_node) (pkt : list Z) : res (list (list Z)) :=
  o ← network_side_callback (proxy n) pkt;
  match o with
  | Some p => q ← send_data_to_client (node_server n) (ip_source n) (port_source n) p; Ok [q]
  | None => Ok []
  end.
(** The UDP server and [server_app_handler::handle_callback]: what goes to the network. *)
Definition node_server_side (n : onion_network_node) (pkt : list Z) : res (onion_network_node * list (list Z)) :=
  o ← udp_server_recv (node_server n) pkt;
  match o with
  | Some st =>
      '(px, out) ← conn_side_callback (proxy n) (plain_data st);
      Ok (OnionNode px (source_addr st) (source_port st), option_list out)
  | None => Ok (n, [])
  end.
(** A packet of the network: the node, what it sends to the client and what it proxies. *)
Definition node_recv (network_first : bool) (n : onion_network_node) (pkt : list Z) :
    res (onion_network_node * list (list Z) * list (list Z)) :=
  if network_first then
    to_client ← node_network_side n pkt; '(n, to_network) ← node_server_side n pkt; Ok (n, to_client, to_network)
  else
    '(n, to_network) ← node_server_side n pkt; to_client ← node_network_side n pkt; Ok (n, to_client, to_network).

(** * Packets between the nodes *)

Definition ip_destination (pkt : list Z) : res ip4_addr :=
  '(header, _) ← run_extract extract_ip4_header pkt; Ok (dest_addr header).
(** The nodes by their addresses.  A packet is handed to the node at its destination; what that node then proxies ([onward]), or sends
    to its client, is followed until a packet is for none of the nodes.  [None]: a node sends nothing on, or [fuel] packets were not enough. *)
Fixpoint travel (network_first onward : bool) (fuel : nat) (net : gmap ip4_addr onion_network_node) (pkt : list Z) :
    res (gmap ip4_addr onion_network_node * option (list Z)) :=
  match fuel with
  | O => Ok (net, None)
  | S fuel =>
      dst ← ip_destination pkt;
      match net !! dst with
      | None => Ok (net, Some pkt)
      | Some n =>
          '(n, to_client, to_network) ← node_recv network_first n pkt;
          match (if onward then to_network else to_client) with
          | p :: _ => travel network_first onward fuel (<[dst := n]> net) p
          | [] => Ok (<[dst := n]> net, None)
          end
      end
  end.

(** * Lemmas *)

Definition node_ok (n : onion_network_node) : Prop :=
  ip4_ok (server_ip (proxy n)) ∧ (∀ a, my_source (proxy n) = Some a → ip4_ok a) ∧ ip4_ok (ip_source n) ∧ u16_ok (port_source n).

Lemma node_port_ok : u16_ok ONION_NETWORK_NODE_LISTEN_PORT.
Proof. unfold ONION_NETWORK_NODE_LISTEN_PORT. solve_bytes. Qed.
Lemma client_port_ok : u16_ok 2001.
Proof. solve_bytes. Qed.
#[local] Hint Resolve node_port_ok client_port_ok : core.

(** [carried sport dport data prt payload]: the datagram is read from the payload under every header of the protocol. *)
Definition carried (sport dport : Z) (data : list Z) (prt : Z) (payload : list Z) : Prop :=
  ∀ h, ip4_header_ok h → prot h = prt →
    us_recv (ip4_bytes h ++ payload) = Ok (Some (UdpPacketStack (src_addr h) (dest_addr h) sport dport data)).

Lemma us_sends src dst sport dport data : ip4_ok src → ip4_ok dst → u16_ok sport → u16_ok dport →
  ∃ h payload, us_send src dst sport dport data = Ok (ip4_bytes h ++ payload) ∧ ip4_header_ok h ∧ src_addr h = src ∧
    dest_addr h = dst ∧ length payload = (us_header + length data)%nat ∧ carried sport dport data (prot h) payload.
Proof. apply us_carries. Qed.

(** A packet with [data] in as many layers fits the buffers: a layer is an IPv4 header and the datagram's. *)
Definition fits_layers (layers : nat) (data : list Z) : Prop :=
  (20 + length data + layers * (20 + us_header) ≤ send_capacity)%nat.
Lemma fits_in_layers k (data payload : list Z) :
  fits_layers k data → (length payload ≤ length data + k * (20 + us_header))%nat → fits payload.
Proof. unfold fits_layers, fits. lia. Qed.

(** What a node sends to its client of a packet of the network. *)
Lemma network_side_sends n a h payload :
  node_ok n → my_source (proxy n) = Some a → a ≠ ip4_addr_empty → ip4_header_ok h → fits payload →
  ∃ hp pp, node_network_side n (ip4_bytes h ++ payload) = Ok [ip4_bytes hp ++ pp] ∧ ip4_header_ok hp ∧
    src_addr hp = server_ip (proxy n) ∧ dest_addr hp = ip_source n ∧ length pp = (us_header + (20 + length payload))%nat ∧
    carried ONION_NETWORK_NODE_LISTEN_PORT (port_source n) (ip4_bytes (incoming a h) ++ payload) (prot hp) pp.
Proof.
  intros (Hs & Ha & Hi & Hp) Hm Hne Hh Hf. unfold node_network_side. rewrite (network_side_ok _ a) by (try apply Ha; done).
  cbn [mbind res_bind]. unfold send_data_to_client, node_server. cbn [us_src_ip us_port].
  destruct (us_sends (server_ip (proxy n)) (ip_source n) ONION_NETWORK_NODE_LISTEN_PORT (port_source n)
    (ip4_bytes (incoming a h) ++ payload)) as (hp & pp & -> & ? & ? & ? & Hl & ?); [done..|]. exists hp, pp.
  rewrite length_app, ip4_bytes_length in Hl by (apply incoming_ok; [by apply Ha|done]). done.
Qed.
Lemma network_side_total n h payload :
  node_ok n → ip4_header_ok h → fits payload → ∃ l, node_network_side n (ip4_bytes h ++ payload) = Ok l.
Proof.
  intros Hn Hh Hf. destruct (my_source (proxy n)) as [a|] eqn:Hm; [destruct (decide (a = ip4_addr_empty)) as [->|Hne]|].
  - unfold node_network_side. rewrite network_side_none by tauto. by eexists.
  - destruct (network_side_sends n a h payload) as (hp & pp & -> & _); [done..|]. by eexists.
  - unfold node_network_side. rewrite network_side_none by tauto. by eexists.
Qed.

(** A datagram for the node's server: what is inside is proxied, and the client is remembered. *)
Definition served (n : onion_network_node) (sender : ip4_addr) (sport : Z) (hi : ip4_header) : onion_network_node :=
  OnionNode (IpProxyServer (server_ip (proxy n)) ({[ dest_addr hi ]} ∪ mappings (proxy n)) (Some (src_addr hi))) sender sport.
Lemma server_side_ok n h payload sport hi x : node_ok n → ip4_header_ok h → ip4_header_ok hi → fits x →
  carried sport ONION_NETWORK_NODE_LISTEN_PORT (ip4_bytes hi ++ x) (prot h) payload →
  node_server_side n (ip4_bytes h ++ payload) =
  Ok (served n (src_addr h) sport hi, [ip4_bytes (outgoing (server_ip (proxy n)) hi) ++ x]).
Proof.
  intros (Hs & _) Hh Hhi Hf Hc. unfold node_server_side, udp_server_recv. rewrite (Hc h) by done. cbn [mbind res_bind].
  unfold node_server. cbn [us_port stack_dest_port]. rewrite Z.eqb_refl. cbn [plain_data source_addr source_port].
  by rewrite conn_side_ok.
Qed.
Lemma served_ok n sender sport hi : node_ok n → ip4_ok sender → u16_ok sport → ip4_header_ok hi → node_ok (served n sender sport hi).
Proof. intros (Hs & _) ? ? Hh. split_and!; try done. intros a [= <-]. apply Hh. Qed.
Lemma node_forwards b n h payload sport hi x :
  node_ok n → ip4_header_ok h → ip4_header_ok hi → u16_ok sport → fits x → fits payload →
  carried sport ONION_NETWORK_NODE_LISTEN_PORT (ip4_bytes hi ++ x) (prot h) payload →
  ∃ to_client, node_recv b n (ip4_bytes h ++ payload) =
    Ok (served n (src_addr h) sport hi, to_client, [ip4_bytes (outgoing (server_ip (proxy n)) hi) ++ x]).
Proof.
  intros Hn Hh Hhi Hp Hx Hf Hc. unfold node_recv. destruct b.
  - destruct (network_side_total n h payload Hn Hh Hf) as [l ->]. cbn [mbind res_bind].
    rewrite (server_side_ok n h payload sport hi x) by done. by eexists.
  - rewrite (server_side_ok n h payload sport hi x) by done. cbn [mbind res_bind].
    destruct (network_side_total (served n (src_addr h) sport hi) h payload) as [l ->]; [|done..|by eexists].
    apply served_ok; try done. apply Hh.
Qed.
(** A packet that is not for the node's server. *)
Lemma node_returns b n pkt l o : node_network_side n pkt = Ok l → us_recv pkt = Ok o →
  (∀ st, o = Some st → stack_dest_port st ≠ ONION_NETWORK_NODE_LISTEN_PORT) → node_recv b n pkt = Ok (n, l, []).
Proof.
  intros Hl Ho Hp. assert (Hs : node_server_side n pkt = Ok (n, [])).
  { unfold node_server_side, udp_server_recv. rewrite Ho. cbn [mbind res_bind]. destruct o as [st|]; [|done].
    by rewrite (proj2 (Z.eqb_neq _ _)) by by apply Hp. }
  unfold node_recv. destruct b; [by rewrite Hl; cbn [mbind res_bind]; rewrite Hs|by rewrite Hs; cbn [mbind res_bind]; rewrite Hl].
Qed.

(** ** Along a chain and back *)

(** One packet of a travel. *)
Lemma destination_ok h payload : ip4_header_ok h → ip_destination (ip4_bytes h ++ payload) = Ok (dest_addr h).
Proof. intros Hh. unfold ip_destination. by rewrite (run_extract_reads _ _ _ payload (reads_ip4 h Hh)). Qed.
Lemma travel_step b onward fuel net h payload n n' to_client to_network p l :
  ip4_header_ok h → net !! dest_addr h = Some n → node_recv b n (ip4_bytes h ++ payload) = Ok (n', to_client, to_network) →
  (if onward : bool then to_network else to_client) = p :: l →
  travel b onward (S fuel) net (ip4_bytes h ++ payload) = travel b onward fuel (<[dest_addr h := n']> net) p.
Proof. intros Hh Hn Hr Hl. cbn [travel]. rewrite destination_ok by done. cbn [mbind res_bind]. by rewrite Hn, Hr; cbn [mbind res_bind]; rewrite Hl. Qed.
Lemma travel_leaves b onward fuel net h payload : ip4_header_ok h → net !! dest_addr h = None →
  travel b onward (S fuel) net (ip4_bytes h ++ payload) = Ok (net, Some (ip4_bytes h ++ payload)).
Proof. intros Hh Hn. cbn [travel]. rewrite destination_ok by done. cbn [mbind res_bind]. by rewrite Hn. Qed.

(** The nodes of a chain are in the network, whatever they have done before. *)
Definition nodes_in (chain : list ip4_addr) (net : gmap ip4_addr onion_network_node) : Prop :=
  Forall (λ c, ∃ n, net !! c = Some n ∧ server_ip (proxy n) = c ∧ node_ok n) chain.
(** The source that the proxy of a node has last seen, and after it: the application's at the last node, the client's before. *)
Definition inner_source (src app : ip4_addr) (rest : list ip4_addr) : ip4_addr := match rest with [] => app | _ => src end.
Fixpoint primed (src app prev : ip4_addr) (chain : list ip4_addr) (net : gmap ip4_addr onion_network_node) : Prop :=
  match chain with
  | [] => True
  | c :: chain =>
      (∃ n, net !! c = Some n ∧ server_ip (proxy n) = c ∧ node_ok n ∧ my_source (proxy n) = Some (inner_source src app chain) ∧
        ip_source n = prev ∧ port_source n = 2001) ∧ primed src app c chain net
  end.
(** The header with which a packet comes out of a chain. *)
Definition last_header (chain : list ip4_addr) (h h' : ip4_header) : ip4_header :=
  match last chain with Some c => outgoing c h | None => h' end.

Lemma nodes_in_insert c n chain net : c ∉ chain → nodes_in chain net → nodes_in chain (<[c := n]> net).
Proof.
  unfold nodes_in. rewrite !Forall_forall. intros Hc Hin a Ha. destruct (Hin a Ha) as (m & Hm & ?). exists m.
  rewrite lookup_insert_ne by (by intros ->). done.
Qed.

Lemma travel_ok b src h d chain : ip4_ok src → ip4_header_ok h → Forall ip4_ok chain → NoDup chain → fits_layers (length chain) d →
  ∃ hc y, chain_send (chain_node src <$> chain) (ip4_bytes h ++ d) = Ok (ip4_bytes hc ++ y) ∧ ip4_header_ok hc ∧
    src_addr hc = inner_source src (src_addr h) chain ∧ dest_addr hc = default (dest_addr h) (head chain) ∧
    length y = (length d + length chain * (20 + us_header))%nat ∧ (chain = [] → hc = h ∧ y = d) ∧
    ∀ net h', nodes_in chain net → ip4_header_ok h' → prot h' = prot hc → dest_addr h' = dest_addr hc →
      ∃ net', (∀ fuel, travel b true (length chain + fuel) net (ip4_bytes h' ++ y) =
                       travel b true fuel net' (ip4_bytes (last_header chain h h') ++ d)) ∧
        primed src (src_addr h) (src_addr h') chain net' ∧ ∀ a, a ∉ chain → net' !! a = net !! a.
Proof.
  intros Hsrc Hh. induction chain as [|c chain IH]; intros Hc Hnd Hfit.
  - exists h, d. cbn [length]. split_and!; try done. intros net h' _ Hh' _ _. by exists net.
  - apply Forall_cons_1 in Hc as [Hc0 Hc]. apply NoDup_cons in Hnd as [Hnc Hnd].
    destruct IH as (hi & x & Hsend & Hhi & Hhis & Hhid & Hlx & Hempty & Htravel); [done..|unfold fits_layers in *; cbn [length] in Hfit; lia|].
    destruct (us_sends src c 2001 ONION_NETWORK_NODE_LISTEN_PORT (ip4_bytes hi ++ x)) as (hc & y & E & Hhc & Hsc & Hdc & Hly & Hcar); [done..|].
    rewrite length_app, ip4_bytes_length in Hly by done.
    exists hc, y. cbn [fmap list_fmap chain_send]. rewrite Hsend. cbn [mbind res_bind]. unfold udp_client_send, proxy_client_send.
    cbn [chain_node uc_src_ip uc_dest_ip uc_my_port uc_dest_port head default length]. split_and!; try done; [lia|].
    intros net h' Hin Hh' Hp' Hd'. apply Forall_cons_1 in Hin as [(n & Hn & Hip & Hnok) Hin].
    destruct (node_forwards b n h' y 2001 hi x) as [tc Hrecv]; [done..| | |by rewrite Hp'|].
    { apply (fits_in_layers (S (length chain)) d); [done|lia]. }
    { apply (fits_in_layers (S (length chain)) d); [done|lia]. }
    rewrite Hip in Hrecv. set (n' := served n (src_addr h') 2001 hi) in *.
    destruct (Htravel (<[c := n']> net) (outgoing c hi)) as (net' & Et & Hpr & Hrest);
      [by apply nodes_in_insert|by apply outgoing_ok|done|done|].
    exists net'. split; [|split].
    + intros fuel. cbn [Nat.add]. rewrite (travel_step b true _ net h' y n n' tc _ _ _ Hh' ltac:(by rewrite Hd', Hdc) Hrecv eq_refl).
      rewrite Hd', Hdc, Et. unfold last_header. destruct chain as [|c2 chain]; [cbn; by destruct (Hempty eq_refl) as [-> _]|].
      change (last (c :: c2 :: chain)) with (last (c2 :: chain)). destruct (last (c2 :: chain)) eqn:El; [done|by apply last_None in El].
    + cbn [primed]. split; [|done]. exists n'. rewrite Hrest, lookup_insert_eq by done. rewrite <- Hhis.
      split_and!; try done. apply served_ok; try done. apply Hh'.
    + intros a [Hac Ha]%not_elem_of_cons. by rewrite Hrest, lookup_insert_ne.
Qed.

Lemma onion_handle_cons src c chain h payload sport prt data : ip4_ok src → ip4_header_ok h → prot h = prt → dest_addr h = src →
  carried sport 2001 data prt payload →
  onion_handle_callback (chain_node src <$> c :: chain) (ip4_bytes h ++ payload) = onion_handle_callback (chain_node src <$> chain) data.
Proof.
  intros Hsrc Hh Hp Hd Hcar. cbn [fmap list_fmap onion_handle_callback]. unfold udp_client_recv at 1.
  rewrite (Hcar h Hh Hp). cbn [mbind res_bind chain_node stack_dest_addr stack_dest_port uc_src_ip uc_my_port plain_data].
  by rewrite Hd, ip4_eqb_spec, bool_decide_true by done.
Qed.
(** A packet back through one node, which it leaves as it was. *)
Lemma travel_node_back b c n net a h payload o : net !! c = Some n → server_ip (proxy n) = c → node_ok n →
  my_source (proxy n) = Some a → a ≠ ip4_addr_empty → port_source n = 2001 → ip4_header_ok h → dest_addr h = c → fits payload →
  us_recv (ip4_bytes h ++ payload) = Ok o → (∀ st, o = Some st → stack_dest_port st ≠ ONION_NETWORK_NODE_LISTEN_PORT) →
  ∃ hp pp, (∀ fuel, travel b false (S fuel) net (ip4_bytes h ++ payload) = travel b false fuel net (ip4_bytes hp ++ pp)) ∧
    ip4_header_ok hp ∧ dest_addr hp = ip_source n ∧ length pp = (us_header + (20 + length payload))%nat ∧
    carried ONION_NETWORK_NODE_LISTEN_PORT 2001 (ip4_bytes (incoming a h) ++ payload) (prot hp) pp.
Proof.
  intros Hn Hip Hok Hm Hne Hps Hh Hd Hf Ho Hport.
  destruct (network_side_sends n a h payload) as (hp & pp & Hside & Hhp & Hsp & Hdp & Hl & Hcar); [done..|].
  exists hp, pp. rewrite Hps in Hcar. split; [|done]. intros fuel.
  rewrite (travel_step b false _ net h payload n n _ _ _ _ Hh ltac:(by rewrite Hd) (node_returns b n _ _ o Hside Ho Hport) eq_refl).
  by rewrite Hd, insert_id.
Qed.
Lemma travel_back_ok b src app hr dr o net chain : ∀ c prev, ip4_ok src → src ≠ ip4_addr_empty → app ≠ ip4_addr_empty →
  ip4_header_ok hr → last (c :: chain) = Some (dest_addr hr) → us_recv (ip4_bytes hr ++ dr) = Ok o →
  (∀ st, o = Some st → stack_dest_port st ≠ ONION_NETWORK_NODE_LISTEN_PORT) → primed src app prev (c :: chain) net →
  fits_layers (S (length chain)) dr →
  ∃ hp pp, (∀ fuel, travel b false (S (length chain) + fuel) net (ip4_bytes hr ++ dr) = travel b false fuel net (ip4_bytes hp ++ pp)) ∧
    ip4_header_ok hp ∧ dest_addr hp = prev ∧ length pp = (length dr + S (length chain) * (20 + us_header))%nat ∧
    (∃ data, carried ONION_NETWORK_NODE_LISTEN_PORT 2001 data (prot hp) pp) ∧
    ∀ h', ip4_header_ok h' → prot h' = prot hp → dest_addr h' = src →
      onion_handle_callback (chain_node src <$> c :: chain) (ip4_bytes h' ++ pp) = Ok (Some (ip4_bytes (incoming app hr) ++ dr)).
Proof.
  induction chain as [|c2 chain IH]; intros c prev Hsrc Hse Hae Hhr Hlast Ho Hport [(n & Hn & Hip & Hok & Hm & His & Hps) Hpr] Hfit.
  - injection Hlast as Hlast. cbn [inner_source] in Hm.
    destruct (travel_node_back b c n net app hr dr o) as (hp & pp & Et & Hhp & Hdp & Hl & Hcar);
      [done..|apply (fits_in_layers 1 dr); [done|lia]|done|done|].
    exists hp, pp. split_and!; try done; [congruence|cbn; lia|by eexists|]. intros h' Hh' Hp' Hd'.
    by rewrite (onion_handle_cons src c [] h' pp _ (prot hp) _ Hsrc Hh' Hp' Hd' Hcar).
  - destruct (IH c2 c) as (hp & pp & Et & Hhp & Hdp & Hl & [data Hcar] & Hhand); [try done..|].
    { unfold fits_layers in *. cbn [length] in *. lia. }
    cbn [inner_source] in Hm.
    assert (Hf : fits pp) by (apply (fits_in_layers (S (S (length chain))) dr); [done|cbn [length] in *; lia]).
    destruct (travel_node_back b c n net src hp pp _ Hn Hip Hok Hm Hse Hps Hhp Hdp Hf (Hcar hp Hhp eq_refl))
      as (hq & pq & Eq & Hhq & Hdq & Hlq & Hcarq); [by intros st [= <-]|].
    exists hq, pq. split_and!; try done; [|congruence|cbn [length] in *; lia|by eexists|].
    + intros fuel. cbn [length]. replace (S (S (length chain)) + fuel)%nat with (S (length chain) + S fuel)%nat by lia.
      by rewrite Et, Eq.
    + intros h' Hh' Hp' Hd'. rewrite (onion_handle_cons src c (c2 :: chain) h' pq _ (prot hq) _ Hsrc Hh' Hp' Hd' Hcarq).
      apply (Hhand (incoming src hp)); [by apply incoming_ok|done|done].
Qed.
End onion.

(** * Today's protocols as the stack *)

Definition ip4_udp_header (src dst : ip4_addr) (data : list Z) : ip4_header :=
  Ip4Header 4 5 0 (u16 (28 + Z.of_nat (length data))) 1234 0 0 255 ip_prot_udp 0 src dst.
Definition stack_send (src dst : ip4_addr) (sport dport : Z) (data : list Z) : res (list Z) :=
  o ← udp_send true (UdpHeader sport dport 0 0) data; inner ← of_option NullDeref o;
  o ← ip4_send true (ip4_udp_header src dst data) inner; of_option NullDeref o.
Definition stack_recv (pkt : list Z) : res (option udp_packet_stack) :=
  o ← ip4_handle_recv None None (Some ip_prot_udp) pkt;
  match o with
  | None => Ok None
  | Some (ih, d) =>
      o ← udp_handle_recv None None d;
      Ok (match o with
          | None => None
          | Some (uh, d) => Some (UdpPacketStack (src_addr ih) (dest_addr ih) (src_port uh) (dest_port uh) d)
          end)
  end.
Lemma stack_carries src dst sport dport data : ip4_ok src → ip4_ok dst → u16_ok sport → u16_ok dport →
  ∃ h payload, stack_send src dst sport dport data = Ok (ip4_bytes h ++ payload) ∧
    ip4_header_ok h ∧ src_addr h = src ∧ dest_addr h = dst ∧ length payload = (8 + length data)%nat ∧
    ∀ h', ip4_header_ok h' → prot h' = prot h →
      stack_recv (ip4_bytes h' ++ payload) = Ok (Some (UdpPacketStack (src_addr h') (dest_addr h') sport dport data)).
Proof.
  intros Hs Hd Hsp Hdp. set (uh := UdpHeader sport dport 0 0).
  assert (Hok : ip4_header_ok (ip4_udp_header src dst data)).
  { unfold ip4_header_ok, ip4_udp_header. cbn. split_and!; try done; try apply u16_in_range; solve_bytes. }
  exists (ip4_sealed (ip4_udp_header src dst data)), (udp_bytes (udp_sealed uh data) ++ data). split.
  { unfold stack_send. rewrite udp_send_ok. cbn [mbind res_bind of_option]. by rewrite ip4_send_ok. }
  split; [by apply ip4_checksum_verifies|]. split; [done|]. split; [done|]. split; [done|]. intros h' Hh' Hp. unfold stack_recv.
  pose proof (ip4_recv_ok (Ip4Filters None None (Some ip_prot_udp) ltac:(done) ltac:(done)) h'
    (udp_bytes (udp_sealed uh data) ++ data) Hh') as E. cbn [if_src if_dest if_prot] in E. rewrite E. clear E.
  unfold ip4_match. rewrite bool_decide_true by (cbn; rewrite Hp; done). cbn [mbind res_bind].
  pose proof (udp_recv_ok (None, None) (udp_sealed uh data) data (udp_sealed_ok uh data Hsp Hdp)) as E. cbn [fst snd] in E. rewrite E.
  unfold udp_match. by rewrite bool_decide_true.
Qed.
#[export] Instance ip4_udp_stack : UdpStack := {|
  us_header := 8%nat; us_send := stack_send; us_recv := stack_recv; us_carries := stack_carries
|}.

(** Nodes that have just been started, at their addresses. *)
Definition started (chain : list ip4_addr) : gmap ip4_addr onion_network_node :=
  list_to_map ((λ c, (c, new_onion_network_node c)) <$> chain).
Lemma started_lookup chain c : started chain !! c = if decide (c ∈ chain) then Some (new_onion_network_node c) else None.
Proof.
  induction chain as [|d chain IH]; [by rewrite decide_False by (by apply not_elem_of_nil)|].
  change (started (d :: chain)) with (<[d := new_onion_network_node d]> (started chain)). destruct (decide (c = d)) as [->|Hne].
  - rewrite lookup_insert_eq, decide_True; [done|]. by left.
  - rewrite lookup_insert_ne, IH by done. destruct (decide (c ∈ chain)), (decide (c ∈ d :: chain)); try done; set_solver.
Qed.
Lemma started_ok chain : Forall ip4_ok chain → nodes_in chain (started chain).
Proof.
  assert (He : ip4_ok ip4_addr_empty) by (split; [done|cbn; solve_bytes]).
  intros Hc. apply Forall_forall. intros c Hin. exists (new_onion_network_node c).
  rewrite started_lookup, decide_True by done. split; [done|]. split; [done|].
  split_and!; [by apply (proj1 (Forall_forall _ _) Hc)|by intros a [= <-]|done|cbn; solve_bytes].
Qed.

(** * Properties *)

(** C24: the onion network, among any nodes in any state, each packet carried by its destination alone: a packet that the client sends,
    for a host that is not a node and from an address other than 0.0.0.0 (as is its own), goes through the nodes of its chain, which are different nodes, and leaves the last of them in the name of that node, with its
    destination and data; and a packet of the network addressed to the last node, if it is not a datagram for a node's server, comes
    through the chain to the address of the client, which takes off the layers: the packet, addressed to the source of the first.  Both packets with a layer for each
    node fit the buffers of the nodes. *)
Theorem onion_round_trip `{UdpStack} `{SendBuffer} (network_first : bool) (chain : list ip4_addr) (src_ip : ip4_addr)
    (net : gmap ip4_addr onion_network_node) (h : ip4_header) (data : list Z) (fuel : nat) :
  chain ≠ [] → NoDup chain → Forall ip4_ok chain → nodes_in chain net → (length chain < fuel)%nat →
  ip4_ok src_ip → src_ip ≠ ip4_addr_empty → net !! src_ip = None →
  ip4_header_ok h → src_addr h ≠ ip4_addr_empty → net !! dest_addr h = None → fits_layers (length chain) data →
  ∃ nodes pkt net' exit, onion_network_client chain src_ip = Ok nodes ∧ last chain = Some exit ∧
    onion_send_data nodes (ip4_bytes h ++ data) = Ok pkt ∧
    travel network_first true fuel net pkt = Ok (net', Some (ip4_bytes (outgoing exit h) ++ data)) ∧
    ∀ hr dr o, ip4_header_ok hr → dest_addr hr = exit → fits_layers (length chain) dr → us_recv (ip4_bytes hr ++ dr) = Ok o →
      (∀ st, o = Some st → stack_dest_port st ≠ ONION_NETWORK_NODE_LISTEN_PORT) →
      ∃ back, travel network_first false fuel net' (ip4_bytes hr ++ dr) = Ok (net', Some back) ∧ ip_destination back = Ok src_ip ∧
        onion_handle_callback nodes back = Ok (Some (ip4_bytes (incoming (src_addr h) hr) ++ dr)).
Proof.
  intros Hne Hnd Hc Hin Hfuel Hsrc Hse Hns Hh Hae Hnd' Hfit. destruct chain as [|c chain]; [done|]. clear Hne.
  destruct (travel_ok network_first src_ip h data (c :: chain)) as (hc & y & Hsend & Hhc & Hsc & Hdc & _ & _ & Ht); [done..|].
  destruct (Ht net hc Hin Hhc eq_refl eq_refl) as (net' & Et & Hpr & Hrest). cbn [inner_source] in Hsc.
  rewrite Hsc in Hpr.
  assert (Hout : ∀ a, net !! a = None → net' !! a = None).
  { intros a Ha. rewrite Hrest; [done|]. intros Hac. destruct (proj1 (Forall_forall _ _) Hin a Hac) as (n & Hn & _). congruence. }
  destruct (last (c :: chain)) as [exit|] eqn:Hl; [|by apply last_None in Hl].
  assert (Hexit : ip4_ok exit) by (apply (proj1 (Forall_forall _ _) Hc), last_Some_elem_of, Hl).
  exists (chain_node src_ip <$> c :: chain), (ip4_bytes hc ++ y), net', exit. split; [done|]. split; [done|]. split; [done|].
  unfold last_header in Et. rewrite Hl in Et.
  assert (∃ k, fuel = (length (c :: chain) + S k)%nat) as [k ->] by (exists (fuel - S (length (c :: chain)))%nat; lia). split.
  { rewrite Et. apply travel_leaves; [by apply outgoing_ok|]. by apply Hout. }
  intros hr dr o Hhr <- Hfr Ho Hport.
  destruct (travel_back_ok network_first src_ip (src_addr h) hr dr o net' chain c src_ip Hsrc Hse Hae Hhr Hl Ho Hport Hpr Hfr)
    as (hp & pp & Eb & Hhp & Hdp & _ & _ & Hhand).
  exists (ip4_bytes hp ++ pp). cbn [length]. rewrite Eb. split; [|split].
  - apply travel_leaves; [done|]. rewrite Hdp. by apply Hout.
  - by rewrite destination_ok, Hdp.
  - by apply Hhand.
Qed.
(** A buffer of two hundred bytes, for the witness. *)
Definition example_buffer : SendBuffer := {| send_capacity := 200 |}.
Lemma onion_round_trip_witness :
  let B := example_buffer in
  let chain := [Ip4Addr [10; 0; 0; 1]; Ip4Addr [10; 0; 0; 2]; Ip4Addr [10; 0; 0; 3]] in
  let src_ip := Ip4Addr [192; 168; 1; 7] in
  let h := Ip4Header 4 5 0 22 77 0 0 64 6 0 src_ip (Ip4Addr [8; 8; 8; 8]) in
  ∃ nodes pkt net' exit, onion_network_client chain src_ip = Ok nodes ∧ last chain = Some exit ∧
    onion_send_data nodes (ip4_bytes h ++ [1; 2]) = Ok pkt ∧
    travel true true 4 (started chain) pkt = Ok (net', Some (ip4_bytes (outgoing exit h) ++ [1; 2])) ∧
    ∀ hr dr o, ip4_header_ok hr → dest_addr hr = exit → fits_layers (length chain) dr → us_recv (ip4_bytes hr ++ dr) = Ok o →
      (∀ st, o = Some st → stack_dest_port st ≠ ONION_NETWORK_NODE_LISTEN_PORT) →
      ∃ back, travel true false 4 net' (ip4_bytes hr ++ dr) = Ok (net', Some back) ∧ ip_destination back = Ok src_ip ∧
        onion_handle_callback nodes back = Ok (Some (ip4_bytes (incoming (src_addr h) hr) ++ dr)).
Proof.
  intros B chain src_ip h.
  assert (Hc : Forall ip4_ok chain) by (repeat apply Forall_cons_2; try apply Forall_nil_2; (split; [done|cbn; solve_bytes])).
  apply (onion_round_trip (H0 := B) true chain src_ip (started chain) h [1; 2] 4).
  - done.
  - apply (bool_decide_unpack _). vm_compute. exact I.
  - exact Hc.
  - by apply started_ok.
  - cbn. lia.
  - split; [done|cbn; solve_bytes].
  - done.
  - by rewrite started_lookup.
  - unfold ip4_header_ok, ip4_ok; cbn; split_and!; solve_bytes || done.
  - done.
  - by rewrite started_lookup.
  - unfold fits_layers. cbn. lia.
Defined.

(** A node that knows a client sends it every packet of the network: a client's own datagram for the node's server is not only
    proxied but goes back to the client, addressed to the source that the node's proxy last saw. *)
Theorem onion_node_echoes `{UdpStack} `{SendBuffer} (n : onion_network_node) (a client : ip4_addr) (sport : Z) (hi : ip4_header) (x : list Z) :
  node_ok n → my_source (proxy n) = Some a → a ≠ ip4_addr_empty → ip4_ok client → u16_ok sport → ip4_header_ok hi →
  fits_layers 1 x →
  ∃ h payload echo, us_send client (server_ip (proxy n)) sport ONION_NETWORK_NODE_LISTEN_PORT (ip4_bytes hi ++ x) =
      Ok (ip4_bytes h ++ payload) ∧
    node_recv true n (ip4_bytes h ++ payload) =
      Ok (served n client sport hi, [echo], [ip4_bytes (outgoing (server_ip (proxy n)) hi) ++ x]) ∧
    us_recv echo = Ok (Some (UdpPacketStack (server_ip (proxy n)) (ip_source n) ONION_NETWORK_NODE_LISTEN_PORT (port_source n)
      (ip4_bytes (incoming a h) ++ payload))).
Proof.
  intros Hn Hm Hne Hcl Hsp Hhi Hfit.
  destruct (us_sends client (server_ip (proxy n)) sport ONION_NETWORK_NODE_LISTEN_PORT (ip4_bytes hi ++ x) Hcl
    (proj1 Hn) Hsp node_port_ok) as (h & payload & E & Hh & Hs & Hd & Hl & Hc).
  rewrite length_app, ip4_bytes_length in Hl by done.
  assert (Hx : fits x) by (apply (fits_in_layers 1 x); [done|lia]).
  destruct (network_side_sends n a h payload Hn Hm Hne Hh) as (hp & pp & Hside & Hhp & Hsp' & Hdp & _ & Hcp);
    [apply (fits_in_layers 1 x); [done|lia]|].
  exists h, payload, (ip4_bytes hp ++ pp). split; [done|]. split.
  - unfold node_recv. rewrite Hside. cbn [mbind res_bind]. rewrite (server_side_ok n h payload sport hi x) by done.
    cbn [mbind res_bind]. by rewrite Hs.
  - by rewrite (Hcp hp Hhp eq_refl), Hsp', Hdp.
Qed.
Lemma onion_node_echoes_witness :
  let B := example_buffer in
  let ip := Ip4Addr [10; 0; 0; 1] in
  let client := Ip4Addr [192; 168; 1; 7] in
  let hi := Ip4Header 4 5 0 22 77 0 0 64 6 0 client (Ip4Addr [8; 8; 8; 8]) in
  let n := OnionNode (IpProxyServer ip ∅ (Some client)) client 2001 in
  ∃ h payload echo, us_send client ip 2001 ONION_NETWORK_NODE_LISTEN_PORT (ip4_bytes hi ++ [1; 2]) = Ok (ip4_bytes h ++ payload) ∧
    node_recv true n (ip4_bytes h ++ payload) =
      Ok (served n client 2001 hi, [echo], [ip4_bytes (outgoing ip hi) ++ [1; 2]]) ∧
    us_recv echo = Ok (Some (UdpPacketStack ip client ONION_NETWORK_NODE_LISTEN_PORT 2001 (ip4_bytes (incoming client h) ++ payload))).
Proof.
  intros B ip client hi n. assert (Hc : ip4_ok client) by (split; [done|cbn; solve_bytes]).
  apply (onion_node_echoes (H0 := B) n client client 2001 hi [1; 2]).
  - split_and!; [split; [done|cbn; solve_bytes]|by intros a [= <-]|done|cbn; solve_bytes].
  - done.
  - done.
  - done.
  - solve_bytes.
  - unfold ip4_header_ok, ip4_ok; cbn; split_and!; solve_bytes || done.
  - unfold fits_layers. cbn. lia.
Defined.
