(* ===== verification/Traceroute.v ===== *)
(** The traceroute tool: [src/tools/traceroute/traceroute_tool.h] (the [.cpp] is its earlier form, in comments).

    The function is written against protocol objects that the tree no longer has, and does not compile; what is modelled is
    its two loops.  What they see of the world is the list of what became of the successive attempts: the send
    failed, nothing came in time, or a reply came, given by its ICMP header and the source of its IPv4 header.  What they do is the
    list of the times to live of the echos sent, and the list of the addresses printed.  The queue is cleared around every
    attempt, so that no reply is left over. *)

From Stdlib Require Import ZArith Lia.
From stdpp Require Import base decidable list numbers.
From S2P Require Import Prelude Cursor Encap Ether2 Ip4 Icmp.

Inductive attempt := SendFailed | NoReply | Reply (icmp_reply : icmp_header) (source_addr : ip4_addr).

Definition trace_id : Z := 0x1234.
(** The switch on a reply that came. *)
Inductive verdict := Failed | Completed | TtlFail.
Definition handle_response (icmp_reply : icmp_header) : verdict :=
  if icmp_type icmp_reply =? icmp_echoreply then
    if negb (echo_id icmp_reply =? trace_id) then Failed else Completed
  else if icmp_type icmp_reply =? icmp_time_exceeded then TtlFail
  else Failed.

(** The inner loop: the number of echos it has sent when a reply ends it, whether the trace is complete or the hop that the
    reply came from, and the attempts left; [None] while it goes on. *)
Fixpoint trace_await (obs : list attempt) (sent : nat) : option (nat * option ip4_addr * list attempt) :=
  match obs with
  | [] => None
  | SendFailed :: obs => trace_await obs sent
  | NoReply :: obs => trace_await obs (S sent)
  | Reply h src :: obs =>
      match handle_response h with
      | Failed => trace_await obs (S sent)
      | Completed => Some (S sent, None, obs)
      | TtlFail => Some (S sent, Some src, obs)
      end
  end.
(** The outer loop from [curr_ttl] on: the times to live sent, the addresses printed and whether the trace was completed.  Every
    iteration takes an attempt, so that their number is fuel enough. *)
Fixpoint trace_loop (fuel : nat) (curr_ttl : Z) (obs : list attempt) : list Z * list ip4_addr * bool :=
  match fuel with
  | O => ([], [], false)
  | S fuel =>
      match trace_await obs 0 with
      | None => ([], [], false)
      | Some (sent, Some hop, obs) =>
          let '(ttls, hops, done) := trace_loop fuel (curr_ttl + 1) obs in (replicate sent curr_ttl ++ ttls, hop :: hops, done)
      | Some (sent, None, _) => (replicate sent curr_ttl, [], true)
      end
  end.
(** [traceroute]: [dest_ip] is printed last. *)
Definition traceroute (dest_ip : ip4_addr) (obs : list attempt) : list Z * list ip4_addr * bool :=
  let '(ttls, hops, done) := trace_loop (S (length obs)) 1 obs in
  (ttls, hops ++ (if (done : bool) then [dest_ip] else []), done).

(** * Lemmas *)

(** An attempt that is made again, and whether it has sent an echo. *)
Definition wasted (a : attempt) : bool :=
  match a with
  | SendFailed | NoReply => true
  | Reply h _ => match handle_response h with Failed => true | _ => false end
  end.
Definition sends_echo (a : attempt) : bool := match a with SendFailed => false | _ => true end.
Definition echos (obs : list attempt) : nat := length (filter (λ a, sends_echo a = true) obs).

Lemma trace_await_wasted pre obs : ∀ sent, Forall (λ a, wasted a = true) pre →
  trace_await (pre ++ obs) sent = trace_await obs (sent + echos pre).
Proof.
  unfold echos. induction pre as [|a pre IH]; intros sent Hp; [by rewrite Nat.add_0_r|].
  apply Forall_cons_1 in Hp as [Ha Hp]. rewrite filter_cons. cbn [app trace_await].
  destruct a as [| |h src]; cbn [wasted] in Ha.
  - rewrite decide_False by done. by apply IH.
  - rewrite decide_True by done. rewrite IH by done. f_equal. simpl. lia.
  - rewrite decide_True by done. destruct (handle_response h); [|done|done]. rewrite IH by done. f_equal. simpl. lia.
Qed.

(** A path: what happens at each router on the way before its answer, and the answer. *)
Definition hop_obs (hop : list attempt * (icmp_header * ip4_addr)) : list attempt :=
  fst hop ++ [Reply (fst (snd hop)) (snd (snd hop))].
Definition hop_ok (hop : list attempt * (icmp_header * ip4_addr)) : Prop :=
  Forall (λ a, wasted a = true) (fst hop) ∧ icmp_type (fst (snd hop)) = icmp_time_exceeded.
Definition hop_ttls (ttl : Z) (hops : list (list attempt * (icmp_header * ip4_addr))) : list Z :=
  concat (imap (λ i hop, replicate (S (echos (fst hop))) (ttl + Z.of_nat i)) hops).
Lemma hop_ttls_cons ttl hop hops :
  hop_ttls ttl (hop :: hops) = replicate (S (echos (fst hop))) ttl ++ hop_ttls (ttl + 1) hops.
Proof.
  unfold hop_ttls. cbn [imap concat]. rewrite Z.add_0_r. f_equal. f_equal. apply imap_ext. intros i x _. cbn beta delta [compose].
  by replace (ttl + Z.of_nat (S i)) with (ttl + 1 + Z.of_nat i) by lia.
Qed.

Lemma trace_loop_path last_obs h rest hops : ∀ ttl fuel, Forall hop_ok hops → Forall (λ a, wasted a = true) last_obs →
  handle_response h = Completed → (length hops < fuel)%nat → ∀ src,
  trace_loop fuel ttl (concat (hop_obs <$> hops) ++ last_obs ++ Reply h src :: rest) =
  (hop_ttls ttl hops ++ replicate (S (echos last_obs)) (ttl + Z.of_nat (length hops)), (λ hop, snd (snd hop)) <$> hops, true).
Proof.
  induction hops as [|[pre [r router]] hops IH]; intros ttl fuel Hh Hl Hr Hf src.
  - destruct fuel as [|fuel]; [simpl in Hf; lia|]. cbn [trace_loop fmap list_fmap concat app].
    rewrite trace_await_wasted by done. cbn [trace_await]. rewrite Hr. cbn. by rewrite Z.add_0_r.
  - destruct fuel as [|fuel]; [simpl in Hf; lia|]. apply Forall_cons_1 in Hh as [[Hw Ht] Hh]. cbn [fst snd] in Hw, Ht.
    cbn [trace_loop fmap list_fmap concat]. unfold hop_obs at 1. cbn [fst snd]. rewrite <- !app_assoc.
    rewrite trace_await_wasted by done. cbn [app trace_await].
    assert (E : handle_response r = TtlFail) by (unfold handle_response; by rewrite Ht). rewrite E.
    rewrite IH by (done || simpl in Hf; lia). rewrite hop_ttls_cons. cbn [fst]. rewrite <- app_assoc. simpl.
    by replace (ttl + Z.of_nat (S (length hops))) with (ttl + 1 + Z.of_nat (length hops)) by lia.
Qed.

(** * Properties *)

(** C31: the trace of a path: when each router on it answers, after any number of failed sends, lost replies and replies that are
    not for the trace, with time exceeded, and then the destination with an echo reply, the tool prints the routers in the
    order of the path and the destination last, and stops; the echos for the router number [i] all carry the time to live
    [i], those for the destination one more than there are routers, and it sends one for every attempt that could be sent. *)
Theorem traceroute_prints_path (dest_ip : ip4_addr) (hops : list (list attempt * (icmp_header * ip4_addr)))
    (last_obs : list attempt) (h : icmp_header) (src : ip4_addr) (rest : list attempt) :
  Forall hop_ok hops → Forall (λ a, wasted a = true) last_obs → icmp_type h = icmp_echoreply → echo_id h = trace_id →
  traceroute dest_ip (concat (hop_obs <$> hops) ++ last_obs ++ Reply h src :: rest) =
  (hop_ttls 1 hops ++ replicate (S (echos last_obs)) (1 + Z.of_nat (length hops)),
   ((λ hop, snd (snd hop)) <$> hops) ++ [dest_ip], true).
Proof.
  intros Hh Hl Ht Hid. unfold traceroute.
  assert (Hr : handle_response h = Completed) by (unfold handle_response; by rewrite Ht, Hid).
  rewrite trace_loop_path; [done..|]. rewrite length_app. apply Nat.lt_succ_r.
  assert (length hops ≤ length (concat (hop_obs <$> hops)))%nat; [|lia].
  clear. induction hops as [|hop hops IH]; [done|]. cbn. rewrite length_app. unfold hop_obs at 1. rewrite length_app. simpl. lia.
Qed.
Lemma traceroute_prints_path_witness :
  let r1 := Ip4Addr [10; 0; 0; 1] in
  let r2 := Ip4Addr [10; 1; 0; 1] in
  let dest := Ip4Addr [8; 8; 8; 8] in
  let exceeded := IcmpHeader 11 0 0 0 in
  let hops := [([SendFailed; NoReply], (exceeded, r1)); ([Reply (IcmpHeader 0 0 0 7) dest], (exceeded, r2))] in
  traceroute dest (concat (hop_obs <$> hops) ++ [NoReply] ++ Reply (IcmpHeader 0 0 0 (echo_content trace_id 0)) dest :: []) =
  (hop_ttls 1 hops ++ replicate (S (echos [NoReply])) (1 + Z.of_nat (length hops)),
   ((λ hop : list attempt * (icmp_header * ip4_addr), snd (snd hop)) <$> hops) ++ [dest], true).
Proof.
  intros r1 r2 dest exceeded hops.
  apply (traceroute_prints_path dest hops [NoReply] (IcmpHeader 0 0 0 (echo_content trace_id 0)) dest []).
  - repeat apply Forall_cons_2; try apply Forall_nil_2; (split; [by repeat constructor|done]).
  - by repeat constructor.
  - done.
  - done.
Defined.
Example traceroute_three : 
  fst (fst (traceroute (Ip4Addr [8; 8; 8; 8])
    [NoReply; Reply (IcmpHeader 11 0 0 0) (Ip4Addr [10; 0; 0; 1]); Reply (IcmpHeader 0 0 0 0x1234) (Ip4Addr [8; 8; 8; 8])])) = [1; 1; 2].
Proof. reflexivity. Qed.
