(* ===== verification/Packets.v ===== *)
(** Packet buffers: [src/abstract/constructive_packet/constructive_packet.h] (a packet that grows at both ends) and
    [recv_msg_t.h] (a received buffer with the offsets of the protocols in it; the second struct of that file repeats the first under
    another name, with the constructors of the first, and does not compile).

    A pointer to bytes with a count is a list with the count beside it; a pointer into a buffer is what is left of the
    buffer from there. *)

From Stdlib Require Import ZArith Lia.
From stdpp Require Import base decidable list numbers.
From S2P Require Import Prelude Cursor.

(** * constructive_packet.h: the deque is a list *)

(** [data[off]] of a pointer to the bytes [data]. *)
Definition data_at (data : list Z) (off : nat) : res Z := of_option OutOfBounds (data !! off).
(** The loop of [append_data] from [off] on, with [todo] iterations left. *)
Fixpoint append_loop (todo off : nat) (data buff : list Z) : res (list Z) :=
  match todo with
  | O => Ok buff
  | S todo => b ← data_at data off; append_loop todo (S off) data (buff ++ [b])
  end.
Definition append_data (data : list Z) (sz : nat) (buff : list Z) : res (list Z) := append_loop sz 0 data buff.
Fixpoint prepend_loop (todo off : nat) (data buff : list Z) : res (list Z) :=
  match todo with
  | O => Ok buff
  | S todo => b ← data_at data off; prepend_loop todo (S off) data (b :: buff)
  end.
Definition prepend_data (data : list Z) (sz : nat) (buff : list Z) : res (list Z) := prepend_loop sz 0 data buff.
Definition clear_buff (buff : list Z) : list Z := [].

(** [buff.insert(buff.begin() + pos, first, last)]; the position is undefined past the end. *)
Definition deque_insert (pos : nat) (xs buff : list Z) : res (list Z) :=
  if (pos <=? length buff)%nat then Ok (take pos buff ++ xs ++ drop pos buff) else Fault BadRange.
Definition encapsulate_inside_packet (data : list Z) (sz offset : nat) (buff : list Z) : res (list Z) :=
  part ← subvector data 0 sz; deque_insert offset part buff.
(** [--buff.end()] is the last byte; of an empty deque it is undefined. *)
Definition encapsulate_the_packet (data : list Z) (sz offset : nat) (buff : list Z) : res (list Z) :=
  front ← subvector data 0 offset;
  buff ← deque_insert 0 front buff;
  back ← subvector data offset sz;
  match buff with [] => Fault BadRange | _ => deque_insert (pred (length buff)) back buff end.

(** * recv_msg_t.h *)

Record recv_msg_t := RecvMsg { msg_buff : list Z; protocol_offsets : list (Z * Z); curr_offset : Z }.
Definition new_recv_msg : recv_msg_t := RecvMsg [] [] 0.
Definition recv_msg_of (ptr : list Z) (cnt : nat) : res recv_msg_t :=
  b ← subvector ptr 0 cnt; Ok (RecvMsg b [] 0).
(** The copies: a zeroed buffer of the size, filled by [memcpy].  In the assignment the size goes through an [int]; as a
    [size_t] a negative one is more than a string can have. *)
Definition to_int (z : Z) : Z := (z + 2 ^ 31) `mod` 2 ^ 32 - 2 ^ 31.
Definition copy_buff (cnt : Z) (other : list Z) : res (list Z) :=
  if 2 ^ 63 <=? u64 cnt then Fault Thrown
  else
    part ← subvector other 0 (Z.to_nat cnt); memcpy (replicate (Z.to_nat cnt) 0) 0 part.
Definition recv_msg_copy (other : recv_msg_t) : res recv_msg_t :=
  b ← copy_buff (Z.of_nat (length (msg_buff other))) (msg_buff other);
  Ok (RecvMsg b (protocol_offsets other) (curr_offset other)).
Definition recv_msg_assign (other : recv_msg_t) : res recv_msg_t :=
  b ← copy_buff (to_int (Z.of_nat (length (msg_buff other)))) (msg_buff other);
  Ok (RecvMsg b (protocol_offsets other) (curr_offset other)).

(** [buff.data() + offset], and [buff.size() - offset] in a [size_t]. *)
Definition buff_at (m : recv_msg_t) (offset : Z) : res (list Z) :=
  if (0 <=? offset) && (offset <=? Z.of_nat (length (msg_buff m))) then Ok (drop (Z.to_nat offset) (msg_buff m))
  else Fault OutOfBounds.
Definition cnt_at (m : recv_msg_t) (offset : Z) : Z := u64 (Z.of_nat (length (msg_buff m)) - offset).
Definition buff_at_curr_offset (m : recv_msg_t) : res (list Z) := buff_at m (curr_offset m).
Definition buff_cnt_at_curr_offset (m : recv_msg_t) : Z := cnt_at m (curr_offset m).
(** [protocol_offsets[prot_in].first]. *)
Definition offset_of_prot (m : recv_msg_t) (prot_in : Z) : res Z :=
  fst <$> of_option OutOfBounds (protocol_offsets m !! Z.to_nat prot_in).
Definition buff_of_prot (m : recv_msg_t) (prot_in : Z) : res (list Z) :=
  o ← offset_of_prot m prot_in; buff_at m o.
Definition buff_cnt_of_prot (m : recv_msg_t) (prot_in : Z) : res Z := cnt_at m <$> offset_of_prot m prot_in.
(** [protocol_offsets.size() - 1 - prot_in]. *)
Definition from_end (m : recv_msg_t) (prot_in : Z) : Z := u64 (Z.of_nat (length (protocol_offsets m)) - 1 - prot_in).
Definition buff_of_prot_from_end (m : recv_msg_t) (prot_in : Z) : res (list Z) := buff_of_prot m (from_end m prot_in).
Definition buff_cnt_of_prot_from_end (m : recv_msg_t) (prot_in : Z) : res Z := buff_cnt_of_prot m (from_end m prot_in).

(** * data_counter.h, next_choice.h *)

(** [counter++] of an [int] at its maximum is undefined. *)
Definition counter_max : Z := 2 ^ 31 - 1.
Definition counter_callback (counter : Z) : res Z := if counter =? counter_max then Fault BadConversion else Ok (counter + 1).
Definition counter_reset (counter : Z) : Z := 0.

(** * Lemmas *)

Lemma append_loop_ok data : ∀ todo off buff, (off + todo ≤ length data)%nat →
  append_loop todo off data buff = Ok (buff ++ take todo (drop off data)).
Proof.
  induction todo as [|todo IH]; intros off buff Hl; cbn [append_loop]; [by rewrite app_nil_r|].
  destruct (lookup_lt_is_Some_2 data off) as [b Hb]; [lia|]. unfold data_at. rewrite Hb. cbn [of_option mbind res_bind].
  rewrite IH by lia. rewrite (drop_S data b off Hb). cbn [take]. by rewrite <- app_assoc.
Qed.
Lemma prepend_loop_ok data : ∀ todo off buff, (off + todo ≤ length data)%nat →
  prepend_loop todo off data buff = Ok (rev (take todo (drop off data)) ++ buff).
Proof.
  induction todo as [|todo IH]; intros off buff Hl; cbn [prepend_loop]; [done|].
  destruct (lookup_lt_is_Some_2 data off) as [b Hb]; [lia|]. unfold data_at. rewrite Hb. cbn [of_option mbind res_bind].
  rewrite IH by lia. rewrite (drop_S data b off Hb). cbn [take rev]. by rewrite <- app_assoc.
Qed.
Lemma append_loop_short data todo : ∀ off buff, (off ≤ length data < off + todo)%nat →
  append_loop todo off data buff = Fault OutOfBounds.
Proof.
  induction todo as [|todo IH]; intros off buff Hl; cbn [append_loop]; [lia|]. unfold data_at.
  destruct (data !! off) as [b|] eqn:E; cbn [of_option mbind res_bind]; [|done]. apply lookup_lt_Some in E. apply IH. lia.
Qed.

Lemma subvector_ok data a b : (a ≤ b ≤ length data)%nat → subvector data a b = Ok (take (b - a) (drop a data)).
Proof. intros [? ?]. unfold subvector. by rewrite !decide_True by lia. Qed.

Lemma deque_insert_front xs buff : deque_insert 0 xs buff = Ok (xs ++ buff).
Proof. done. Qed.

Lemma to_int_small z : 0 ≤ z < 2 ^ 31 → to_int z = z.
Proof. unfold to_int. change (2 ^ 31) with 2147483648. change (2 ^ 32) with 4294967296. intros. rewrite Z.mod_small; lia. Qed.
Lemma to_int_big z : 2 ^ 31 ≤ z < 2 ^ 32 → -(2 ^ 31) ≤ to_int z < 0.
Proof.
  unfold to_int. change (2 ^ 31) with 2147483648. change (2 ^ 32) with 4294967296. intros.
  replace (z + 2147483648) with ((z - 2147483648) + 1 * 4294967296) by lia. rewrite Z.mod_add, Z.mod_small; lia.
Qed.
Lemma copy_buff_ok b : Z.of_nat (length b) < 2 ^ 63 → copy_buff (Z.of_nat (length b)) b = Ok b.
Proof.
  intros Hl. unfold copy_buff, u64. rewrite Z.mod_small by lia. rewrite (proj2 (Z.leb_gt _ _)) by lia. rewrite Nat2Z.id.
  rewrite subvector_ok by lia. cbn [mbind res_bind]. rewrite drop_0, Nat.sub_0_r, take_ge by lia.
  rewrite memcpy_ok by (rewrite length_replicate; lia). by rewrite (blit_exact (length b)) by (done || apply length_replicate).
Qed.

(** A message whose offsets are inside its buffer. *)
Definition offset_ok (m : recv_msg_t) (o : Z) : Prop := 0 ≤ o ≤ Z.of_nat (length (msg_buff m)).
Definition msg_ok (m : recv_msg_t) : Prop :=
  Z.of_nat (length (msg_buff m)) < 2 ^ 63 ∧ Z.of_nat (length (protocol_offsets m)) < 2 ^ 63 ∧ offset_ok m (curr_offset m) ∧
  Forall (λ p, offset_ok m (fst p)) (protocol_offsets m).

Lemma buff_at_ok m o : Z.of_nat (length (msg_buff m)) < 2 ^ 63 → offset_ok m o →
  ∃ front, buff_at m o = Ok (drop (Z.to_nat o) (msg_buff m)) ∧ msg_buff m = front ++ drop (Z.to_nat o) (msg_buff m) ∧
    Z.of_nat (length front) = o ∧ cnt_at m o = Z.of_nat (length (drop (Z.to_nat o) (msg_buff m))).
Proof.
  intros Hm [H0 Hl]. exists (take (Z.to_nat o) (msg_buff m)). unfold buff_at.
  rewrite (proj2 (Z.leb_le _ _) H0), (proj2 (Z.leb_le _ _) Hl). split; [done|]. split; [by rewrite take_drop|].
  rewrite length_take, length_drop. split; [lia|]. unfold cnt_at, u64. rewrite Z.mod_small by lia. lia.
Qed.

Lemma replicate_shift (x : Z) (l : list Z) : l ++ [x] = x :: l ↔ Forall (λ y, y = x) l.
Proof.
  induction l as [|y l IH]; [by split|]. split.
  - intros [= -> Hl]. apply Forall_cons_2; [done|]. by apply IH.
  - intros [-> Hl]%Forall_cons_1. cbn. f_equal. by apply IH.
Qed.

(** * Properties *)

(** The operations of a constructive packet, as long as the pointers and offsets are inside their buffers: appending keeps the
    order of the bytes, prepending reverses it; the insertion of data into the packet is where it is asked for; but the
    packet put inside data loses its last byte to the far end: the rest of the data comes before it, so that the result is the
    one that is meant exactly when the rest consists of copies of that byte. *)
Theorem constructive_packet_operations (data buff xs : list Z) (x : Z) (sz offset : nat) :
  (offset ≤ sz ≤ length data)%nat →
  append_data data sz buff = Ok (buff ++ take sz data) ∧
  prepend_data data sz buff = Ok (rev (take sz data) ++ buff) ∧
  ((offset ≤ length buff)%nat →
    encapsulate_inside_packet data sz offset buff = Ok (take offset buff ++ take sz data ++ drop offset buff)) ∧
  ∃ out, encapsulate_the_packet data sz offset (xs ++ [x]) = Ok out ∧
    out = take offset data ++ xs ++ take (sz - offset) (drop offset data) ++ [x] ∧
    (out = take offset data ++ (xs ++ [x]) ++ take (sz - offset) (drop offset data) ↔
     Forall (λ y, y = x) (take (sz - offset) (drop offset data))).
Proof.
  intros Hs. split; [unfold append_data; by rewrite append_loop_ok, drop_0 by lia|].
  split; [unfold prepend_data; by rewrite prepend_loop_ok, drop_0 by lia|]. split.
  - intros Ho. unfold encapsulate_inside_packet. rewrite subvector_ok by lia. cbn [mbind res_bind]. unfold deque_insert.
    rewrite (proj2 (Nat.leb_le _ _)) by done. by rewrite drop_0, Nat.sub_0_r.
  - eexists. split; [|split; [reflexivity|]].
    + unfold encapsulate_the_packet. rewrite (subvector_ok data 0 offset) by lia. cbn [mbind res_bind].
      rewrite deque_insert_front, (subvector_ok data offset sz) by lia. cbn [mbind res_bind].
      rewrite drop_0, Nat.sub_0_r, app_assoc.
      destruct ((take offset data ++ xs) ++ [x]) as [|y l] eqn:E; [by destruct (take offset data ++ xs)|]. rewrite <- E.
      rewrite length_app. cbn [length]. rewrite Nat.add_1_r. cbn [pred]. unfold deque_insert.
      rewrite (proj2 (Nat.leb_le _ _)) by (rewrite !length_app; simpl; lia). rewrite take_app_length, drop_app_length. by rewrite <- !app_assoc.
    + rewrite <- replicate_shift. split.
      * intros H. apply app_inv_head in H. rewrite <- app_assoc in H. by apply app_inv_head in H.
      * intros H. by rewrite H, <- app_assoc.
Qed.
Lemma constructive_packet_operations_witness :
  append_data [1; 2; 3] 2 [9] = Ok ([9] ++ take 2 [1; 2; 3]) ∧
  prepend_data [1; 2; 3] 2 [9] = Ok (rev (take 2 [1; 2; 3]) ++ [9]) ∧
  ((1 ≤ length [9])%nat → encapsulate_inside_packet [1; 2; 3] 2 1 [9] = Ok (take 1 [9] ++ take 2 [1; 2; 3] ++ drop 1 [9])) ∧
  ∃ out, encapsulate_the_packet [1; 2; 3] 2 1 ([7] ++ [8]) = Ok out ∧
    out = take 1 [1; 2; 3] ++ [7] ++ take (2 - 1) (drop 1 [1; 2; 3]) ++ [8] ∧
    (out = take 1 [1; 2; 3] ++ ([7] ++ [8]) ++ take (2 - 1) (drop 1 [1; 2; 3]) ↔
     Forall (λ y, y = 8) (take (2 - 1) (drop 1 [1; 2; 3]))).
Proof. apply (constructive_packet_operations [1; 2; 3] [9] [7] 8 2 1). cbn. lia. Defined.

(** The views of a received message whose offsets are inside its buffer: at the current offset and at that of every protocol, the
    pointer and the count agree and the bytes before them are as many as the offset says; counting the protocols from the end is
    counting from the beginning; a protocol that is not there is an access out of bounds; and past the end of the buffer the count
    wraps around instead of being negative. *)
Theorem recv_msg_views (m : recv_msg_t) (i : nat) (o : Z) :
  msg_ok m →
  (∃ front view, msg_buff m = front ++ view ∧ Z.of_nat (length front) = curr_offset m ∧
    buff_at_curr_offset m = Ok view ∧ buff_cnt_at_curr_offset m = Z.of_nat (length view)) ∧
  (if decide (i < length (protocol_offsets m))%nat then
     ∃ front view, msg_buff m = front ++ view ∧ fst <$> protocol_offsets m !! i = Some (Z.of_nat (length front)) ∧
       buff_of_prot m (Z.of_nat i) = Ok view ∧ buff_cnt_of_prot m (Z.of_nat i) = Ok (Z.of_nat (length view)) ∧
       let j := Z.of_nat (length (protocol_offsets m) - 1 - i) in
       buff_of_prot_from_end m j = Ok view ∧ buff_cnt_of_prot_from_end m j = Ok (Z.of_nat (length view))
   else buff_of_prot m (Z.of_nat i) = Fault OutOfBounds ∧
     (Z.of_nat i < 2 ^ 63 → buff_of_prot_from_end m (Z.of_nat i) = Fault OutOfBounds)) ∧
  (Z.of_nat (length (msg_buff m)) < o < 2 ^ 63 → 2 ^ 63 < cnt_at m o).
Proof.
  intros (Hb & Hp & Hc & Hos). split; [|split].
  - destruct (buff_at_ok m (curr_offset m) Hb Hc) as (front & E & Hsplit & Hf & Hn).
    exists front, (drop (Z.to_nat (curr_offset m)) (msg_buff m)). done.
  - assert (Hout : ∀ k, (length (protocol_offsets m) ≤ Z.to_nat k)%nat → buff_of_prot m k = Fault OutOfBounds).
    { intros k Hk. unfold buff_of_prot, offset_of_prot. by rewrite lookup_ge_None_2. }
    destruct (decide (i < length (protocol_offsets m))%nat) as [Hi|Hi].
    + destruct (lookup_lt_is_Some_2 _ _ Hi) as [[off id] Ho].
      assert (Hoff : offset_ok m off) by (rewrite Forall_lookup in Hos; apply (Hos i _ Ho)).
      destruct (buff_at_ok m off Hb Hoff) as (front & E & Hsplit & Hf & Hn).
      exists front, (drop (Z.to_nat off) (msg_buff m)). split; [done|]. split; [rewrite Ho, Hf; done|].
      assert (Hv : buff_of_prot m (Z.of_nat i) = Ok (drop (Z.to_nat off) (msg_buff m)) ∧
        buff_cnt_of_prot m (Z.of_nat i) = Ok (Z.of_nat (length (drop (Z.to_nat off) (msg_buff m))))).
      { unfold buff_of_prot, buff_cnt_of_prot, offset_of_prot. rewrite Nat2Z.id, Ho. cbn. by rewrite E, Hn. }
      split; [apply Hv|]. split; [apply Hv|]. cbv zeta. unfold buff_of_prot_from_end, buff_cnt_of_prot_from_end, from_end, u64.
      rewrite Z.mod_small by lia. replace (_ - _ - _) with (Z.of_nat i) by lia. exact Hv.
    + split; [apply Hout; lia|]. intros Hi2. apply Hout. unfold from_end, u64.
      replace (Z.of_nat (length (protocol_offsets m)) - 1 - Z.of_nat i)
        with ((2 ^ 64 + Z.of_nat (length (protocol_offsets m)) - 1 - Z.of_nat i) + (-1) * 2 ^ 64) by lia.
      rewrite Z.mod_add, Z.mod_small by lia. lia.
  - intros Ho. unfold cnt_at, u64. replace (Z.of_nat (length (msg_buff m)) - o) with
      ((2 ^ 64 + Z.of_nat (length (msg_buff m)) - o) + (-1) * 2 ^ 64) by lia. rewrite Z.mod_add, Z.mod_small by lia. lia.
Qed.
Lemma recv_msg_views_witness :
  let m := RecvMsg [1; 2; 3; 4] [(0, 1); (2, 5)] 3 in
  (∃ front view, msg_buff m = front ++ view ∧ Z.of_nat (length front) = curr_offset m ∧
    buff_at_curr_offset m = Ok view ∧ buff_cnt_at_curr_offset m = Z.of_nat (length view)) ∧
  (if decide (1 < length (protocol_offsets m))%nat then
     ∃ front view, msg_buff m = front ++ view ∧ fst <$> protocol_offsets m !! 1%nat = Some (Z.of_nat (length front)) ∧
       buff_of_prot m (Z.of_nat 1) = Ok view ∧ buff_cnt_of_prot m (Z.of_nat 1) = Ok (Z.of_nat (length view)) ∧
       let j := Z.of_nat (length (protocol_offsets m) - 1 - 1) in
       buff_of_prot_from_end m j = Ok view ∧ buff_cnt_of_prot_from_end m j = Ok (Z.of_nat (length view))
   else buff_of_prot m (Z.of_nat 1) = Fault OutOfBounds ∧
     (Z.of_nat 1 < 2 ^ 63 → buff_of_prot_from_end m (Z.of_nat 1) = Fault OutOfBounds)) ∧
  (Z.of_nat (length (msg_buff m)) < 9 < 2 ^ 63 → 2 ^ 63 < cnt_at m 9).
Proof.
  intros m. apply (recv_msg_views m 1 9). split; [done|]. split; [done|]. split; [split; cbn; lia|].
  repeat apply Forall_cons_2; try apply Forall_nil_2; (split; cbn; lia).
Defined.

(** Copies are exact; but the size goes through an [int] in the assignment, which throws from 2 GiB on. *)
Theorem recv_msg_copies (m : recv_msg_t) :
  Z.of_nat (length (msg_buff m)) < 2 ^ 32 →
  recv_msg_copy m = Ok m ∧
  recv_msg_assign m = if decide (Z.of_nat (length (msg_buff m)) < 2 ^ 31) then Ok m else Fault Thrown.
Proof.
  intros Hl. destruct m as [b ps o]. unfold recv_msg_copy, recv_msg_assign. cbn [msg_buff protocol_offsets curr_offset] in *.
  rewrite copy_buff_ok by lia. split; [done|]. case_decide as Hs.
  - rewrite to_int_small, copy_buff_ok by lia. done.
  - pose proof (to_int_big (Z.of_nat (length b)) ltac:(lia)) as Hi. unfold copy_buff, u64.
    replace (to_int (Z.of_nat (length b))) with ((to_int (Z.of_nat (length b)) + 2 ^ 64) + (-1) * 2 ^ 64) at 1 by lia.
    rewrite Z.mod_add, Z.mod_small by lia. by rewrite (proj2 (Z.leb_le _ _)) by lia.
Qed.
