(* ===== verification/MultiSend.v ===== *)
(** The multiple sender: [src/abstract/sending/multi_send_medium.h].

    Media are numbers, and the [std::set] of pointers is sorted by their addresses ([NetAccess.HeapOrder]); what [send_data] of each
    does to the rest of the program is [medium_send].  The mutex is held while the media are called, so that a medium
    that calls the sender back never returns: here media do not.  [remove_send_medium] of a null pointer is a [return] without
    a value, which does not compile; it is left out. *)

From Stdlib Require Import ZArith Lia.
From stdpp Require Import base decidable list numbers gmap sorting.
From S2P Require Import Prelude NetAccess Filters.

Section multi_send.
Context {T W : Type} {HO : HeapOrder} (medium_send : nat → T → W → res (err_t * W)).

Definition add_send_medium (channel : option nat) (mediums : list nat) : list nat :=
  match channel with None => mediums | Some c => set_insert c mediums end.
Definition remove_all_send_mediums (mediums : list nat) : list nat := [].
Definition remove_send_medium (channel : nat) (mediums : list nat) : bool * list nat :=
  if negb (bool_decide (channel ∈ mediums)) then (false, mediums) else (true, set_erase channel mediums).
(** The loop of [send_data], with its [res]. *)
Fixpoint send_loop (mediums : list nat) (data : T) (result : err_t) (w : W) : res (err_t * W) :=
  match mediums with
  | [] => Ok (result, w)
  | medium :: mediums =>
      '(e, w) ← medium_send medium data w;
      send_loop mediums data (match e with ERR => ERR | OK => result end) w
  end.
Definition multi_send_data (mediums : list nat) (data : T) (w : W) : res (err_t * W) := send_loop mediums data OK w.

(** The calls of a client, and what each returns. *)
Inductive sender_call := AddMedium (channel : option nat) | RemoveAll | RemoveMedium (channel : nat) | SendData (data : T).
Inductive sender_return := Done | Removed (b : bool) | Sent (e : err_t).
Fixpoint sender_run (calls : list sender_call) (mediums : list nat) (w : W) : res (list sender_return * list nat * W) :=
  match calls with
  | [] => Ok ([], mediums, w)
  | c :: calls =>
      '(r, mediums, w) ← match c with
                         | AddMedium ch => Ok (Done, add_send_medium ch mediums, w)
                         | RemoveAll => Ok (Done, remove_all_send_mediums mediums, w)
                         | RemoveMedium ch => let '(b, ms) := remove_send_medium ch mediums in Ok (Removed b, ms, w)
                         | SendData d => '(e, w) ← multi_send_data mediums d w; Ok (Sent e, mediums, w)
                         end;
      '(rs, mediums, w) ← sender_run calls mediums w; Ok (r :: rs, mediums, w)
  end.
End multi_send.
Arguments sender_call : clear implicits.

(** * The specification: a set of media *)

(** Media that note what they are sent, and of which some always fail. *)
Definition noting (fails : nat → bool) {T} (m : nat) (data : T) (w : list (nat * T)) : res (err_t * list (nat * T)) :=
  Ok (if fails m then ERR else OK, w ++ [(m, data)]).

(** One call on the set [s] of media: what is returned, the set afterwards, and what is sent: to each member once, in some order. *)
Inductive sender_spec {T} (fails : nat → bool) : sender_call T → gset nat → sender_return → gset nat → list (nat * T) → Prop :=
  | spec_add s c : sender_spec fails (AddMedium (Some c)) s Done ({[c]} ∪ s) []
  | spec_add_null s : sender_spec fails (AddMedium None) s Done s []
  | spec_clear s : sender_spec fails RemoveAll s Done ∅ []
  | spec_remove s c : sender_spec fails (RemoveMedium c) s (Removed (bool_decide (c ∈ s))) (s ∖ {[c]}) []
  | spec_send s d out :
      out ≡ₚ (λ m, (m, d)) <$> elements s →
      sender_spec fails (SendData d) s (Sent (if decide (set_Exists (λ m, fails m = true) s) then ERR else OK)) s out.
Inductive sender_specs {T} (fails : nat → bool) : list (sender_call T) → gset nat → list sender_return → gset nat → list (nat * T) → Prop :=
  | specs_nil s : sender_specs fails [] s [] s []
  | specs_cons c cs s r s1 o rs s2 os :
      sender_spec fails c s r s1 o → sender_specs fails cs s1 rs s2 os → sender_specs fails (c :: cs) s (r :: rs) s2 (o ++ os).

(** * Lemmas *)

Section lemmas.
Context {HO : HeapOrder}.

(** The set and the sorted list that holds it. *)
Definition holds (mediums : list nat) (s : gset nat) : Prop := StronglySorted ptr_lt mediums ∧ ∀ m, m ∈ mediums ↔ m ∈ s.

Lemma sorted_nodup (l : list nat) : StronglySorted ptr_lt l → NoDup l.
Proof.
  induction 1 as [|x l Hl IH Hx]; constructor; [|done]. apply sorted_fresh. by constructor.
Qed.
Lemma holds_elements mediums s : holds mediums s → mediums ≡ₚ elements s.
Proof.
  intros [Hs Hm]. apply NoDup_Permutation; [by apply sorted_nodup|apply NoDup_elements|]. intros x. by rewrite elem_of_elements.
Qed.

Lemma send_loop_noting fails {T} (mediums : list nat) (d : T) : ∀ r w,
  send_loop (noting fails) mediums d r w =
  Ok (if decide (Exists (λ m, fails m = true) mediums) then ERR else r, w ++ ((λ m, (m, d)) <$> mediums)).
Proof.
  induction mediums as [|m ms IH]; intros r w; cbn [send_loop].
  - rewrite decide_False by by intros ?%Exists_nil. by rewrite app_nil_r.
  - change (noting fails m d w) with (@Ok (err_t * list (nat * T)) (if fails m then ERR else OK, w ++ [(m, d)])).
    cbn [mbind res_bind]. rewrite IH. cbn [fmap list_fmap]. rewrite <- app_assoc. cbn [app]. do 2 f_equal.
    destruct (fails m) eqn:Hf.
    + rewrite (decide_True (P := Exists _ (m :: ms))) by by left. by case_decide.
    + destruct (decide (Exists (λ m, fails m = true) ms)) as [He|He].
      * by rewrite decide_True by by right.
      * rewrite decide_False; [done|]. intros [?|?]%Exists_cons; [congruence|done].
Qed.

Lemma sender_run_ok fails {T} (calls : list (sender_call T)) : ∀ mediums s w, holds mediums s →
  ∃ rs ms s' o, sender_run (noting fails) calls mediums w = Ok (rs, ms, w ++ o) ∧ holds ms s' ∧ sender_specs fails calls s rs s' o.
Proof.
  induction calls as [|c calls IH]; intros mediums s w Hh; cbn [sender_run].
  { exists [], mediums, s, []. rewrite app_nil_r. split; [done|]. split; [done|]. constructor. }
  assert (Hstep : ∃ r ms s1 o, match c with
                         | AddMedium ch => Ok (Done, add_send_medium ch mediums, w)
                         | RemoveAll => Ok (Done, remove_all_send_mediums mediums, w)
                         | RemoveMedium ch => let '(b, ms) := remove_send_medium ch mediums in Ok (Removed b, ms, w)
                         | SendData d => '(e, w) ← multi_send_data (noting fails) mediums d w; Ok (Sent e, mediums, w)
                         end = Ok (r, ms, w ++ o) ∧ holds ms s1 ∧ sender_spec fails c s r s1 o).
  { destruct Hh as [Hs Hm]. destruct c as [[ch|]| |ch|d].
    - exists Done, (set_insert ch mediums), ({[ch]} ∪ s), []. rewrite app_nil_r. split; [done|]. split; [|constructor].
      split; [by apply set_insert_sorted|]. intros m. rewrite set_insert_elem, Hm. set_solver.
    - exists Done, mediums, s, []. rewrite app_nil_r. split; [done|]. split; [done|constructor].
    - exists Done, [], ∅, []. rewrite app_nil_r. split; [done|]. split; [|constructor]. split; [constructor|set_solver].
    - exists (Removed (bool_decide (ch ∈ s))), (set_erase ch mediums), (s ∖ {[ch]}), []. rewrite app_nil_r. split_and!.
      + unfold remove_send_medium. rewrite (bool_decide_ext _ _ (Hm ch)). case_bool_decide as Hin; [done|]. cbn. do 3 f_equal.
        by rewrite set_erase_absent by by rewrite Hm.
      + split; [by apply set_erase_sorted|]. intros m. rewrite set_erase_elem, Hm. set_solver.
      + constructor.
    - exists (Sent (if decide (set_Exists (λ m, fails m = true) s) then ERR else OK)), mediums, s, ((λ m, (m, d)) <$> mediums).
      split_and!; [|done|constructor; by rewrite (holds_elements mediums s)].
      unfold multi_send_data. rewrite send_loop_noting. cbn [mbind res_bind]. do 4 f_equal. apply decide_ext.
      rewrite Exists_exists. unfold set_Exists. by setoid_rewrite Hm. }
  destruct Hstep as (r & ms & s1 & o & -> & Hh1 & Hsp). cbn [mbind res_bind].
  destruct (IH ms s1 (w ++ o) Hh1) as (rs & ms' & s' & o' & -> & Hh' & Hsps). cbn [mbind res_bind].
  exists (r :: rs), ms', s', (o ++ o'). rewrite app_assoc. split; [done|]. split; [done|]. by econstructor.
Qed.

End lemmas.

(** * Property *)

(** C40: the multiple sender implements a set of media: whatever sequence of calls is made on a new one, with media of which
    some may fail, every call returns what the set says (whether a removed medium was there, an error exactly when a medium of
    the set fails), and data is sent to every medium of the set at that time exactly once. *)
Theorem multi_send_is_set {HO : HeapOrder} {T : Type} (fails : nat → bool) (calls : list (sender_call T)) :
  ∃ rs ms s o, sender_run (noting fails) calls [] [] = Ok (rs, ms, o) ∧ (∀ m, m ∈ ms ↔ m ∈ s) ∧
    sender_specs fails calls ∅ rs s o.
Proof.
  destruct (sender_run_ok fails calls [] ∅ []) as (rs & ms & s & o & E & [_ Hm] & Hs).
  - split; [constructor|set_solver].
  - by exists rs, ms, s, o.
Qed.
