(* ===== verification/Netcat.v ===== *)
(** The netcat programs over one protocol: [src/main/netcat/netcat_local_ip4.cpp] and [netcat_local_ether2.cpp].

    The two are the same program over another protocol: [NetcatProtocol] is what they take from it.  [main] decides from the
    options (as Boost has parsed them) what to run; the wiring of the two sides is done on the store of accesses, over the
    device that the virtual net is; the sides are run on what is typed and on what arrives.  What the standard input gives, line
    by line, is a list; at its end [getline] leaves the string empty.  The handler of the server is a static variable,
    made with the first client; here it is made with the server. *)

From Stdlib Require Import ZArith Lia String.
From stdpp Require Import base decidable list numbers gmap.
From S2P Require Import Prelude Text Encap Ether2 Ip4 NetAccess.

(** * The protocol of the program *)

(** Its addresses with their text, and the filters of the accesses it opens: at a host, for one peer or for any. *)
Class NetcatProtocol (A F H : Type) `{!EqDecision A} `{!Protocol F H} := {
  nc_filter : option A → A → F;
  nc_parse : list Z → res (option A);
  nc_text : A → list Z;
  nc_ok : A → Prop;
  nc_parse_text a : nc_ok a → nc_parse (nc_text a) = Ok (Some a);
  (** what a client sends to its server is handed on by the host of that address, and by no other *)
  nc_delivers me peer d : nc_ok me → nc_ok peer →
    ∃ pkt h, proto_send (nc_filter (Some peer) me) d = Ok (Some pkt) ∧
      ∀ host, nc_ok host → proto_recv (nc_filter None host) pkt = Ok (if decide (host = peer) then Some (h, d) else None)
}.

Definition ip4_unsed_prot : Z := 0xa0.
Definition ethertype_unsed_prot : Z := 0x1234.

(** What is sent of lines. *)
Abbreviation terminated := (fmap (λ line, line ++ [0])).

Section netcat.
Context {A F H : Type} `{!EqDecision A} `{!Protocol F H} {HO : HeapOrder} `{!NetcatProtocol A F H}.
Abbreviation store := (NetAccess.store (F := F) (H := H)).

(** * The programs *)

(** The options given, with their values. *)
Record options := Options { opt_help : bool; opt_iface : option (list Z); opt_client : bool; opt_server : bool; opt_dest : option (list Z) }.
(** What [main] does: it prints the description of the options or a message and returns 1, or runs one of the sides. *)
Inductive run := Usage | InvalidDest | RunServer (iface : list Z) | RunClient (iface : list Z) (dest : A).

Definition netcat_main (vm : options) : res run :=
  if opt_help vm then Ok Usage
  else
    match opt_iface vm with
    | None => Ok Usage
    | Some iface =>
        if opt_server vm then Ok (RunServer iface)
        else if opt_client vm then
          match opt_dest vm with
          | None => Ok Usage
          | Some dest =>
              tmp ← nc_parse dest;
              match tmp with Some dest => Ok (RunClient iface dest) | None => Ok InvalidDest end
          end
        else Ok Usage
    end.

(** [handle_new_net_access]: every client gets the one handler. *)
Definition netcat_application (handler : nat) : application (F := F) (H := H) :=
  Application (λ a σ, set_recv_access 1 a (Some handler) σ) (λ _ d, Ok d).

(** [netcat_server_main] up to its loop, which reads lines and does nothing with them: the handler. *)
Definition netcat_server_main (fuel : nat) (surface : nat) (addr_of_iface : option A) (σ : store) : res (nat * store) :=
  let '(handler, σ) := alloc (Sink []) σ in
  addr ← of_option Thrown addr_of_iface;
  σ ← connect_generator fuel surface (nc_filter None addr) true σ; Ok (handler, σ).

(** [netcat_client_main] up to its loop: the access and the receiver. *)
Definition netcat_client_main (fuel : nat) (surface : nat) (server_addr : A) (addr_of_iface : option A) (σ : store) :
    res (nat * nat * store) :=
  addr ← of_option Thrown addr_of_iface;
  '(unused_prot_surface, σ) ← net_access_single fuel surface (nc_filter (Some server_addr) addr) σ;
  let '(client, σ) := alloc (Sink []) σ in
  σ ← set_recv_access fuel unused_prot_surface (Some client) σ; Ok (unused_prot_surface, client, σ).
(** Its loop, for a number of [rounds]. *)
Fixpoint netcat_client_loop (fuel rounds : nat) (lines : list (list Z)) (surface : nat) (σ : store) : res store :=
  match rounds with
  | O => Ok σ
  | S rounds =>
      let line := default [] (head lines) in
      '(_, σ) ← access_send_data fuel surface (line ++ [0]) σ;
      netcat_client_loop fuel rounds (tail lines) surface σ
  end.

(** What [handle_recv] of the two receivers prints for the data it is handed. *)
Definition netcat_server_print (data : list Z) : res (list Z) := s ← c_string data; Ok (str "a client sent: " ++ s).
Definition netcat_client_print (data : list Z) : res (list Z) := s ← c_string data; Ok (str "the server sent: " ++ s).

(** * Lemmas *)

(** The lines typed in so many rounds: after the end of the input they are empty. *)
Definition typed (rounds : nat) (lines : list (list Z)) : list (list Z) := take rounds (lines ++ replicate rounds []).
Lemma typed_S rounds lines : typed (S rounds) lines = default [] (head lines) :: typed rounds (tail lines).
Proof.
  unfold typed. destruct lines as [|l lines]; cbn [app head tail from_option take replicate].
  - done.
  - f_equal. unfold id. rewrite !take_app. f_equal. change ([] :: replicate rounds []) with (replicate (S rounds) (@nil Z)).
    rewrite !take_replicate. f_equal. lia.
Qed.

(** The server's device [a] receives into its generator, and the handler [n] has been handed [got]. *)
Record serving (a n : nat) (f : F) (got : list (list Z)) (σ : store) : Prop := {
  srv_before : (a < n)%nat;
  srv_next : (n + 4 ≤ next σ)%nat;
  srv_surface : heap σ !! a = Some (Surface (Some (n + 3)%nat));
  srv_proto : heap σ !! (n + 3)%nat = Some (ProtoRecv f (n + 2));
  srv_recv : heap σ !! (n + 2)%nat = Some (GeneratorRecv f (n + 1) a true);
  srv_multi : ∃ ls, heap σ !! (n + 1)%nat = Some (MultiRecv ls);
  srv_handler : heap σ !! n = Some (Sink got)
}.

Lemma netcat_server_ok fuel a addr r σ :
  heap σ !! a = Some (Surface r) → fresh_next σ →
  ∃ σ', netcat_server_main (S fuel) a (Some addr) σ = Ok (next σ, σ') ∧ serving a (next σ) (nc_filter None addr) [] σ'.
Proof.
  intros Ha Hf. assert (Hlt : (a < next σ)%nat) by (apply Hf; by rewrite Ha). set (n := next σ) in *.
  unfold netcat_server_main, connect_generator, multi_net_access, connect_recv. cbn [alloc set_recv_access]. fold n.
  unfold deref. heap_step. rewrite Ha. heap_step. eexists. split; [reflexivity|].
  assert (E1 : (n + 1)%nat = S n) by lia. assert (E2 : (n + 2)%nat = S (S n)) by lia. assert (E3 : (n + 3)%nat = S (S (S n))) by lia.
  split; cbn [heap next]; rewrite ?E1, ?E2, ?E3; heap_step; try done; [lia|]. by eexists.
Qed.

Lemma serving_receive fuel a n f got σ pkt o :
  (3 ≤ fuel)%nat → serving a n f got σ → proto_recv f pkt = Ok o →
  ∃ σ', receive (netcat_application n) fuel a pkt σ = Ok σ' ∧ serving a n f (got ++ option_list (snd <$> o)) σ'.
Proof.
  intros Hfuel Hs Hp. pose proof Hs as [H1 H2 H3 H4 H5 [ls H6] H7].
  destruct fuel as [|[|[|fuel]]]; try lia. unfold receive, deref. rewrite H3. cbn [of_option mbind res_bind handle_recv].
  unfold deref. rewrite H4. cbn [of_option mbind res_bind]. rewrite Hp. cbn [mbind res_bind].
  destruct o as [[h d]|]; cbn [fmap option_fmap option_map snd option_list].
  2: { exists σ. by rewrite app_nil_r. }
  cbn [handle_header]. unfold deref. rewrite H5. cbn [of_option mbind res_bind negb].
  unfold generate_net_access. cbn [alloc]. set (k := next σ) in *.
  rewrite (single_generated fuel (n + 1) ls a k) by (cbn [heap next]; heap_step; (done || lia)). cbn [mbind res_bind heap].
  cbn [netcat_application handle_new_net_access set_recv_access]. unfold deref. heap_step. cbn [handle_recv].
  unfold deref. heap_step. rewrite H7. heap_step. eexists. split; [reflexivity|]. split; cbn [heap next]; heap_step; try done; [lia|].
  by eexists.
Qed.
Lemma serving_receive_all fuel a n f got σ pkts os :
  (3 ≤ fuel)%nat → serving a n f got σ → Forall2 (λ pkt o, proto_recv f pkt = Ok o) pkts os →
  ∃ σ', receive_all (netcat_application n) fuel a pkts σ = Ok σ' ∧ serving a n f (got ++ omap (fmap snd) os) σ'.
Proof.
  intros Hfuel Hs Hp. revert got σ Hs. induction Hp as [|pkt o pkts os Ho _ IH]; intros got σ Hs.
  { exists σ. by rewrite app_nil_r. }
  destruct (serving_receive fuel a n f got σ pkt o Hfuel Hs Ho) as (σ1 & E & Hs1). cbn [receive_all]. rewrite E.
  cbn [mbind res_bind]. destruct (IH _ _ Hs1) as (σ2 & E2 & Hs2). exists σ2. split; [done|].
  rewrite <- app_assoc in Hs2. by destruct o.
Qed.

(** The client's access [s] over its device [a]. *)
Record calling (a s client : nat) (f : F) (σ : store) : Prop := {
  call_surface : ∃ r, heap σ !! a = Some (Surface r);
  call_access : heap σ !! s = Some (SingleAccess a f (Some client))
}.

Lemma netcat_client_ok fuel a server addr r σ :
  heap σ !! a = Some (Surface r) → fresh_next σ →
  ∃ σ', netcat_client_main (S fuel) a server (Some addr) σ = Ok (next σ, next σ + 3, σ')%nat ∧
    calling a (next σ) (next σ + 3) (nc_filter (Some server) addr) σ' ∧ wire σ' = wire σ.
Proof.
  intros Ha Hf. assert (Hlt : (a < next σ)%nat) by (apply Hf; by rewrite Ha). set (n := next σ) in *.
  unfold netcat_client_main, net_access_single, connect_recv. cbn [alloc set_recv_access of_option mbind res_bind]. fold n.
  unfold deref. heap_step. rewrite Ha. heap_step. unfold deref. heap_step. replace (n + 3)%nat with (S (S (S n))) by lia.
  eexists. split; [reflexivity|]. split; [|done]. split; cbn [heap]; heap_step; [|done]. by eexists.
Qed.

Lemma calling_sends fuel a s client f σ pkt data :
  (3 ≤ fuel)%nat → calling a s client f σ → proto_send f data = Ok (Some pkt) →
  ∃ σ', access_send_data fuel s data σ = Ok (OK, σ') ∧ calling a s client f σ' ∧ wire σ' = wire σ ++ [(a, pkt)].
Proof.
  intros Hfuel [[r Ha] Hs] Hp. destruct fuel as [|[|[|fuel]]]; try lia.
  unfold access_send_data. cbn [get_send_access]. unfold deref. rewrite Hs. cbn [of_option mbind res_bind medium_send_data].
  unfold deref. rewrite Hs. cbn [of_option mbind res_bind]. rewrite Hp. cbn [mbind res_bind get_send_access].
  unfold deref. rewrite Ha. cbn [of_option mbind res_bind]. unfold deref. rewrite Ha. cbn [of_option mbind res_bind].
  eexists. split; [reflexivity|]. split; [|done]. split; [by exists r|done].
Qed.

Lemma typed_loop fuel a s client me server : ∀ rounds lines σ,
  nc_ok me → nc_ok server → (3 ≤ fuel)%nat → calling a s client (nc_filter (Some server) me) σ →
  ∃ σ' pkts, netcat_client_loop fuel rounds lines s σ = Ok σ' ∧ wire σ' = wire σ ++ ((λ pkt, (a, pkt)) <$> pkts) ∧
    ∀ host, nc_ok host → ∃ hs, Forall2 (λ pkt o, proto_recv (nc_filter None host) pkt = Ok o) pkts
      (zip_with (λ h d, if decide (host = server) then Some (h, d) else None) hs (terminated (typed rounds lines))) ∧
      List.length hs = rounds.
Proof.
  intros rounds. induction rounds as [|rounds IH]; intros lines σ Hm Hsv Hfuel Hc.
  { exists σ, []. split; [done|]. split; [by rewrite app_nil_r|]. intros host _. by exists []. }
  rewrite typed_S, fmap_cons. cbn [netcat_client_loop]. destruct (nc_delivers me server (default [] (head lines) ++ [0]) Hm Hsv) as (pkt & h & Hp & Hr).
  destruct (calling_sends fuel a s client _ σ pkt _ Hfuel Hc Hp) as (σ1 & E1 & Hc1 & W1). rewrite E1. cbn [mbind res_bind].
  destruct (IH (tail lines) σ1 Hm Hsv Hfuel Hc1) as (σ2 & pkts & E2 & W2 & H2). exists σ2, (pkt :: pkts). split; [done|].
  split; [rewrite W2, W1, <- app_assoc; done|]. intros host Hh. destruct (H2 host Hh) as (hs & Hhs & Hl). exists (h :: hs).
  split; [|cbn; by rewrite Hl]. cbn [zip_with]. constructor; [by apply Hr|done].
Qed.

Lemma terminated_prints lines :
  mapM netcat_server_print (terminated lines) = Ok ((λ l, str "a client sent: " ++ until_nul l) <$> lines).
Proof.
  induction lines as [|l lines IH]; [done|]. rewrite !fmap_cons. cbn [mapM]. rewrite IH. unfold netcat_server_print.
  by rewrite c_string_until.
Qed.

Lemma zip_accepted (b : bool) (hs : list H) (ds : list (list Z)) : List.length hs = List.length ds →
  omap (fmap snd) (zip_with (λ h d, if b then Some (h, d) else None) hs ds) = if b then ds else [].
Proof.
  revert hs. induction ds as [|d ds IH]; intros [|h hs] Hl; try done; [by destruct b|]. cbn. destruct b; cbn; rewrite IH by (simpl in Hl; lia); done.
Qed.
End netcat.

(** * The protocols of the two programs *)

Lemma ip4_nc_delivers me peer d : ip4_ok me → ip4_ok peer →
  ∃ pkt h, proto_send (Some peer, Some me, Some ip4_unsed_prot) d = Ok (Some pkt) ∧
    ∀ host, ip4_ok host → proto_recv (None, Some host, Some ip4_unsed_prot) pkt = Ok (if decide (host = peer) then Some (h : ip4_header, d) else None).
Proof.
  intros Hme Hpeer. cbn [proto_send proto_recv ip4_protocol fst snd]. unfold ip4_single_send. cbn [from_option id].
  set (h := ip4_access_header me peer (Some ip4_unsed_prot) d).
  assert (Hh : ip4_header_ok h).
  { unfold h, ip4_header_ok. cbn. repeat split; (lia || apply Hme || apply Hpeer || apply u16_in_range || done). }
  assert (Hs : ip4_header_ok (ip4_sealed h)) by by apply ip4_checksum_verifies.
  eexists _, (clear_flags (ip4_sealed h)). split; [by apply ip4_send_ok|]. intros host Hhost.
  rewrite (ip4_recv_ok (Ip4Filters None (Some host) (Some ip4_unsed_prot) ltac:(done) ltac:(intros ? [= <-]; done)) _ _ Hs).
  unfold ip4_match. cbn. case_decide; case_bool_decide; naive_solver.
Qed.
#[export] Instance netcat_ip4 : NetcatProtocol ip4_addr (option ip4_addr * option ip4_addr * option Z) ip4_header := {|
  nc_filter peer me := (peer, Some me, Some ip4_unsed_prot);
  nc_parse := str_to_ip4_addr; nc_text := ip4_addr_to_str; nc_ok := ip4_ok;
  nc_parse_text := str_to_ip4_to_str;
  nc_delivers := ip4_nc_delivers
|}.

Lemma ether2_nc_delivers me peer d : mac_ok me → mac_ok peer →
  ∃ pkt h, proto_send (Some peer, Some me, Some ethertype_unsed_prot) d = Ok (Some pkt) ∧
    ∀ host, mac_ok host →
      proto_recv (None, Some host, Some ethertype_unsed_prot) pkt = Ok (if decide (host = peer) then Some (h : ethernet2_header, d) else None).
Proof.
  intros Hme Hpeer. cbn [proto_send proto_recv ether2_protocol fst snd]. unfold ether2_single_send.
  set (h := ether2_single_header peer (Some me) (Some ethertype_unsed_prot)).
  assert (Hh : ethernet2_header_ok h) by by split.
  eexists _, h. split; [by apply ether2_send_ok|]. intros host Hhost.
  rewrite (ether2_recv_ok (Ether2Filters None (Some host) (Some ethertype_unsed_prot) ltac:(done) ltac:(intros ? [= <-]; done)) _ _ Hh).
  unfold ef_match, ether2_match. cbn. case_decide; case_bool_decide; naive_solver.
Qed.
#[export] Instance netcat_ether2 : NetcatProtocol mac_addr (option mac_addr * option mac_addr * option Z) ethernet2_header := {|
  nc_filter peer me := (peer, Some me, Some ethertype_unsed_prot);
  nc_parse := str_to_mac_addr; nc_text := mac_addr_to_str; nc_ok := mac_ok;
  nc_parse_text := str_to_mac_to_str;
  nc_delivers := ether2_nc_delivers
|}.

(** The program over Ethernet. *)
Abbreviation ether2_filter := (option mac_addr * option mac_addr * option Z)%type.
Definition netcat_ether2_main : options → res (run (A := mac_addr)) := netcat_main (F := ether2_filter) (H := ethernet2_header).
Definition netcat_ether2_server_main {HO : HeapOrder} (fuel surface : nat) (addr_of_iface : option mac_addr) :
    NetAccess.store (F := ether2_filter) (H := ethernet2_header) → res (nat * NetAccess.store (F := ether2_filter) (H := ethernet2_header)) :=
  netcat_server_main fuel surface addr_of_iface.
Definition netcat_ether2_client_main {HO : HeapOrder} (fuel surface : nat) (server_addr : mac_addr) (addr_of_iface : option mac_addr) :
    NetAccess.store (F := ether2_filter) (H := ethernet2_header) → res (nat * nat * NetAccess.store (F := ether2_filter) (H := ethernet2_header)) :=
  netcat_client_main fuel surface server_addr addr_of_iface.
Definition netcat_ether2_client_loop {HO : HeapOrder} (fuel rounds : nat) (lines : list (list Z)) (surface : nat) :
    NetAccess.store (F := ether2_filter) (H := ethernet2_header) → res (NetAccess.store (F := ether2_filter) (H := ethernet2_header)) :=
  netcat_client_loop fuel rounds lines surface.

(** * Properties *)

(** C6: the netcat programs.  Given the text of a server's address, the client is run with that address; whatever is typed
    then, line by line, any number of rounds, is one packet each; and a host that runs the server and receives these packets
    prints every line, in order and up to its first NUL, when the address is its own, and nothing when it is another's.
    After the end of the input the client goes on sending empty lines. *)
Theorem netcat_delivers {HO : HeapOrder} `{NetcatProtocol A F H} (me server host : A) (iface : list Z) (lines : list (list Z)) (fuel rounds : nat)
    (a : nat) (ra : option nat) (σc : store (F := F) (H := H)) (b : nat) (rb : option nat) (σs : store (F := F) (H := H)) :
  nc_ok me → nc_ok server → nc_ok host → (3 ≤ fuel)%nat →
  heap σc !! a = Some (Surface ra) → fresh_next σc → wire σc = [] → heap σs !! b = Some (Surface rb) → fresh_next σs →
  netcat_main (Options false (Some iface) true false (Some (nc_text server))) = Ok (RunClient iface server) ∧
  ∃ s c σc1 σc2 handler σs1 σs2,
    netcat_client_main fuel a server (Some me) σc = Ok (s, c, σc1) ∧
    netcat_client_loop fuel rounds lines s σc1 = Ok σc2 ∧
    netcat_server_main fuel b (Some host) σs = Ok (handler, σs1) ∧
    receive_all (netcat_application handler) fuel b (snd <$> wire σc2) σs1 = Ok σs2 ∧
    List.length (wire σc2) = rounds ∧
    let said := if decide (host = server) then typed rounds lines else [] in
    heap σs2 !! handler = Some (Sink (terminated said)) ∧
    mapM netcat_server_print (terminated said) = Ok ((λ l, str "a client sent: " ++ until_nul l) <$> said).
Proof.
  intros Hme Hsv Hho Hfuel Ha Hfc Hw Hb Hfs. split.
  { unfold netcat_main. cbn [opt_help opt_iface opt_server opt_client opt_dest]. by rewrite nc_parse_text. }
  destruct fuel as [|fuel]; [lia|].
  destruct (netcat_client_ok fuel a server me ra σc Ha Hfc) as (σc1 & E1 & Hc & Hw1).
  destruct (typed_loop (S fuel) a _ _ me server rounds lines σc1 Hme Hsv Hfuel Hc) as (σc2 & pkts & E2 & Hw2 & Hr).
  destruct (netcat_server_ok fuel b host rb σs Hb Hfs) as (σs1 & E3 & Hs).
  destruct (Hr host Hho) as (hs & Hall & Hl).
  destruct (serving_receive_all (S fuel) b (next σs) _ [] σs1 _ _ Hfuel Hs Hall) as (σs2 & E4 & Hs2).
  assert (Hp : snd <$> wire σc2 = pkts) by (rewrite Hw2, Hw1, Hw; cbn [app]; rewrite <- list_fmap_compose; apply list_fmap_id).
  assert (Hlen : List.length (typed rounds lines) = rounds).
  { unfold typed. rewrite length_take, length_app, length_replicate. lia. }
  assert (Hdec : zip_with (λ h d, if decide (host = server) then Some (h, d) else None) hs (terminated (typed rounds lines)) =
    zip_with (λ h d, if bool_decide (host = server) then Some (h, d) else None) hs (terminated (typed rounds lines))).
  { apply zip_with_ext; [|done..]. intros h d. by case_bool_decide; case_decide. }
  rewrite Hdec, zip_accepted in Hs2 by (rewrite length_fmap; congruence).
  exists (next σc), (next σc + 3)%nat, σc1, σc2, (next σs), σs1, σs2. split; [done|]. split; [done|]. split; [done|].
  split; [by rewrite Hp|]. split.
  { rewrite <- Hlen, <- (length_fmap (λ line, line ++ [0])), <- (length_fmap snd), Hp. apply Forall2_length in Hall.
    rewrite Hall, length_zip_with, length_fmap. lia. }
  split; [|apply terminated_prints]. rewrite (srv_handler _ _ _ _ _ Hs2). cbn [app]. by case_bool_decide; case_decide.
Qed.
(** Two lines and the end of the input, over IPv4 and over Ethernet. *)
#[local] Existing Instance allocation_order.
Lemma netcat_delivers_witness :
  let σ F H := Store (F := F) (H := H) {[0%nat := Surface None]} 1 [] in
  (∃ s c σc1 σc2 handler σs1 σs2,
    netcat_client_main 3 0 (Ip4Addr [10; 0; 0; 9]) (Some (Ip4Addr [10; 0; 0; 1])) (σ _ _) = Ok (s, c, σc1) ∧
    netcat_client_loop (F := option ip4_addr * option ip4_addr * option Z) (H := ip4_header) 3 3 [str "one"; str "two"] s σc1 = Ok σc2 ∧
    netcat_server_main 3 0 (Some (Ip4Addr [10; 0; 0; 9])) (σ _ _) = Ok (handler, σs1) ∧
    receive_all (netcat_application (H := ip4_header) handler) 3 0 (snd <$> wire σc2) σs1 = Ok σs2 ∧
    heap σs2 !! handler = Some (Sink [str "one" ++ [0]; str "two" ++ [0]; [0]])) ∧
  ∃ s c σc1 σc2 handler σs1 σs2,
    netcat_ether2_client_main 3 0 (MacAddr [2; 0; 0; 0; 0; 9]) (Some (MacAddr [2; 0; 0; 0; 0; 1])) (σ _ _) = Ok (s, c, σc1) ∧
    netcat_ether2_client_loop 3 1 [str "one"] s σc1 = Ok σc2 ∧
    netcat_ether2_server_main 3 0 (Some (MacAddr [2; 0; 0; 0; 0; 8])) (σ _ _) = Ok (handler, σs1) ∧
    receive_all (netcat_application (H := ethernet2_header) handler) 3 0 (snd <$> wire σc2) σs1 = Ok σs2 ∧
    heap σs2 !! handler = Some (Sink []).
Proof.
  split.
  - destruct (netcat_delivers (Ip4Addr [10; 0; 0; 1]) (Ip4Addr [10; 0; 0; 9]) (Ip4Addr [10; 0; 0; 9]) (str "v0") [str "one"; str "two"]
      3 3 0 None (Store {[0%nat := Surface None]} 1 []) 0 None (Store {[0%nat := Surface None]} 1 []))
      as (_ & s & c & σc1 & σc2 & h & σs1 & σs2 & E1 & E2 & E3 & E4 & _ & E5 & _);
      try apply fresh_single; try done; try (split; [done|cbn; solve_bytes]).
    exists s, c, σc1, σc2, h, σs1, σs2. do 4 (split; [assumption|]). exact E5.
  - destruct (netcat_delivers (MacAddr [2; 0; 0; 0; 0; 1]) (MacAddr [2; 0; 0; 0; 0; 9]) (MacAddr [2; 0; 0; 0; 0; 8]) (str "v0") [str "one"]
      3 1 0 None (Store {[0%nat := Surface None]} 1 []) 0 None (Store {[0%nat := Surface None]} 1 []))
      as (_ & s & c & σc1 & σc2 & h & σs1 & σs2 & E1 & E2 & E3 & E4 & _ & E5 & _);
      try apply fresh_single; try done; try (split; [done|cbn; solve_bytes]).
    exists s, c, σc1, σc2, h, σs1, σs2. do 4 (split; [assumption|]). exact E5.
Defined.
