(* ===== verification/Hosts.v ===== *)
(** A host on an IPv4 network behind a gateway, as the programs under [src/main] wire it: [dns/dns_server.cpp],
    [dns/dns_client.cpp], [ping/ping.cpp] and [traceroute/traceroute.cpp] build the same accesses, each to the gateway that it names, on the store
    of [NetAccess].  The device is shared by an Ethernet access to the gateway, through which a routing table with only a default
    sends everything, and a broadcast access that receives; the IPv4 surface receives through the second and sends through
    the table.

    The four programs join the two with [net_access_save_send_access], which the tree does not have: it is a parameter, relied
    on for what the comment beside its call says, that one can send and receive through the result. *)

From Stdlib Require Import ZArith Lia String.
From stdpp Require Import base decidable list numbers gmap sorting.
From S2P Require Import Prelude Text Cursor Encap Routing Ether2 Ip4 NetAccess.

(** The gateway that a program names in its source: the text of its address, and the address. *)
Class Gateway := {
  gateway_text : list Z;
  gateway_mac : mac_addr;
  gateway_mac_text : str_to_mac_addr gateway_text = Ok (Some gateway_mac);
  gateway_mac_ok : mac_ok gateway_mac
}.

Section hosts.
(** The protocols above IPv4. *)
Context {R RH : Type} `{!Protocol R RH} {HO : HeapOrder} {G : Gateway}.
Abbreviation F := (((option mac_addr * option mac_addr * option Z) + (option ip4_addr * option ip4_addr * option Z)) + R)%type.
Abbreviation H := ((ethernet2_header + ip4_header) + RH)%type.
Abbreviation store := (NetAccess.store (F := F) (H := H)).
Definition ether2_f (src dest : option mac_addr) (type : option Z) : F := inl (inl (src, dest, type)).
Definition ip4_f (src dest : option ip4_addr) (prot : option Z) : F := inl (inr (src, dest, prot)).

(** [net_access_save_send_access(base, medium)]. *)
Context (net_access_save_send_access : nat → nat → store → nat * store).
Context (save_send_access : ∀ base medium σ, net_access_save_send_access base medium σ =
  let '(s, σ) := net_access_send_make_static (Some medium) σ in net_access_override_send base s σ).

Definition gateway_table (gateway : nat) : routing_table ip4_subnet_mask nat := set_default_gateway (Some gateway) (RoutingTable [] None).
Definition create_send_access_from_routing_table (t : routing_table ip4_subnet_mask nat) (σ : store) : nat * store :=
  alloc (RoutedSend (ip4_routed_send_data (R := nat) t)) σ.

(** The device [surface] and the address of the interface give the IPv4 surface. *)
Definition open_ip4_surface (fuel : nat) (surface : nat) (mac_of_iface : option mac_addr) (σ : store) : res (nat * store) :=
  '(multi, σ) ← multi_net_access fuel surface σ;
  let '(g, σ) := generate_net_access multi surface σ in
  o ← str_to_mac_addr gateway_text;
  gateway ← of_option Thrown o;
  mac ← of_option Thrown mac_of_iface;
  '(gateway, σ) ← net_access_single fuel g (ether2_f (Some gateway) (Some mac) (Some ethertype_ip4)) σ;
  let '(routed_ip4_send_surface, σ) := create_send_access_from_routing_table (gateway_table gateway) σ in
  let '(g, σ) := generate_net_access multi surface σ in
  '(ip4_recv_surface, σ) ← net_access_single fuel g (ether2_f None (Some mac) (Some ethertype_ip4)) σ;
  Ok (net_access_save_send_access ip4_recv_surface routed_ip4_send_surface σ).

(** * What the surface promises *)

(** The frame that a packet sent through the surface leaves as; the table reads the header first. *)
Definition host_out (mac : mac_addr) (pkt : list Z) : res (option (list Z)) :=
  '(_, _) ← run_extract extract_ip4_header pkt;
  ether2_single_send true gateway_mac (Some mac) (Some ethertype_ip4) pkt.
(** What the surface hands on of a frame. *)
Definition host_in (mac : mac_addr) (frame : list Z) : res (option (list Z)) :=
  o ← ether2_handle_recv None (Some mac) (Some ethertype_ip4) frame;
  Ok (match o with Some (_, d) => Some d | None => None end).

(** The objects of a host whose accesses were made at [n], over the device [a]; [x] is what receives from the surface. *)
Record wired_host (a n : nat) (mac : mac_addr) (x : option nat) (σ : store) : Prop := {
  wh_before : (a < n)%nat;
  wh_next : (n + 12 ≤ next σ)%nat;
  wh_device : heap σ !! a = Some (Surface (Some n));
  wh_multi : heap σ !! n = Some (MultiRecv (set_insert (n + 9) [n + 4]%nat));
  wh_gateway_part : heap σ !! (n + 1)%nat = Some (GeneratedAccess n a (Some (n + 4)%nat));
  wh_gateway : heap σ !! (n + 2)%nat =
    Some (SingleAccess (n + 1) (ether2_f (Some gateway_mac) (Some mac) (Some ethertype_ip4)) None);
  wh_gateway_single : heap σ !! (n + 3)%nat = Some (SingleRecv (n + 2));
  wh_gateway_recv : heap σ !! (n + 4)%nat = Some (ProtoRecv (ether2_f (Some gateway_mac) (Some mac) (Some ethertype_ip4)) (n + 3));
  wh_routed : heap σ !! (n + 5)%nat = Some (RoutedSend (ip4_routed_send_data (gateway_table (n + 2))));
  wh_recv : heap σ !! (n + 7)%nat = Some (SingleAccess (n + 6) (ether2_f None (Some mac) (Some ethertype_ip4)) x);
  wh_recv_single : heap σ !! (n + 8)%nat = Some (SingleRecv (n + 7));
  wh_recv_recv : heap σ !! (n + 9)%nat = Some (ProtoRecv (ether2_f None (Some mac) (Some ethertype_ip4)) (n + 8));
  wh_static : heap σ !! (n + 10)%nat = Some (StaticSend (Some (n + 5)%nat));
  wh_surface : heap σ !! (n + 11)%nat = Some (OverriddenSend (n + 7) (n + 10))
}.

(** What is allocated later, or changed beyond the host, does not matter to it. *)
Definition beyond (k : nat) (σ σ' : store) : Prop :=
  (next σ ≤ next σ')%nat ∧ ∀ y, (y < k)%nat → heap σ' !! y = heap σ !! y.
Lemma wired_host_beyond a n mac x σ σ' : wired_host a n mac x σ → beyond (n + 12) σ σ' → wired_host a n mac x σ'.
Proof. intros [] [Hn Hh]. split; rewrite ?Hh by lia; (done || lia). Qed.

(** The host is wired, and nothing below the device's receiver has changed but its slot. *)
Lemma open_ip4_surface_ok fuel a mac r σ :
  (1 ≤ fuel)%nat → heap σ !! a = Some (Surface r) → fresh_next σ →
  ∃ σ', open_ip4_surface fuel a (Some mac) σ = Ok (next σ + 11, σ')%nat ∧ wired_host a (next σ) mac None σ' ∧
    next σ' = (next σ + 12)%nat ∧ wire σ' = wire σ.
Proof.
  intros Hfuel Ha Hf. assert (Hlt : (a < next σ)%nat) by (apply Hf; by rewrite Ha). set (n := next σ) in *.
  destruct fuel as [|fuel]; [lia|]. unfold open_ip4_surface, multi_net_access. cbn [alloc set_recv_access]. fold n.
  unfold deref. heap_step. rewrite Ha. heap_step. rewrite gateway_mac_text. heap_step. unfold generate_net_access. heap_step.
  rewrite (single_generated fuel n [] a (S n)) by (heap_step; (done || lia)). heap_step.
  unfold create_send_access_from_routing_table, generate_net_access. heap_step.
  rewrite (single_generated fuel n [S (S (S (S n)))] a (S (S (S (S (S (S n))))))) by (heap_step; (done || lia)). heap_step.
  rewrite save_send_access. unfold net_access_send_make_static, net_access_override_send. heap_step.
  assert (E : ∀ i, (n + S i)%nat = S (n + i)) by lia.
  replace (n + 11)%nat with (S (S (S (S (S (S (S (S (S (S (S n))))))))))) by lia.
  eexists. split; [reflexivity|]. split; [|split; [cbn [next]; lia|done]].
  split; cbn [heap next]; rewrite ?E, ?Nat.add_0_r; heap_step; try done; try lia.
Qed.

(** What an access of each protocol parses and sends. *)
Lemma recv_ether2_f src dest type frame :
  proto_recv (ether2_f src dest type) frame =
  (o ← ether2_handle_recv src dest type frame; Ok (match o with Some (h, d) => Some (inl (inl h) : H, d) | None => None end)).
Proof. cbn [proto_recv sum_protocol ether2_f with_header ether2_protocol fst snd]. unfold with_header. by destruct (ether2_handle_recv _ _ _ _) as [[[h d]|]|]. Qed.
Lemma recv_ip4_f src dest prot pkt :
  proto_recv (ip4_f src dest prot) pkt =
  (o ← ip4_handle_recv src dest prot pkt; Ok (match o with Some (h, d) => Some (inl (inr h) : H, d) | None => None end)).
Proof. cbn [proto_recv sum_protocol ip4_f with_header ip4_protocol fst snd]. unfold with_header. by destruct (ip4_handle_recv _ _ _ _) as [[[h d]|]|]. Qed.

Lemma send_ip4_f src dest prot d : proto_send (ip4_f (Some src) dest prot) d = ip4_single_send true src dest prot d.
Proof. reflexivity. Qed.

(** Whether a frame can be parsed does not depend on the filters. *)
Lemma ether2_parse_any src dest type src' dest' type' frame o :
  ether2_handle_recv src dest type frame = Ok o → ∃ o', ether2_handle_recv src' dest' type' frame = Ok o'.
Proof.
  unfold ether2_handle_recv. destruct (run_extract _ frame) as [[h n]|]; [|done]. cbn [mbind res_bind].
  destruct (subvector _ _ _) as [d|]; [|done]. cbn [mbind res_bind]. intros _. repeat case_match; by eexists.
Qed.

(** A frame that arrives is parsed for the gateway's access, which nothing receives from, and handed to what receives from the
    surface, which leaves the host as it is; in which order, the addresses of the two say. *)
Lemma host_receive prog fuel a n mac x σ σ' frame o :
  wired_host a n mac x σ → host_in mac frame = Ok o →
  match o with Some d => hand_on prog fuel x d σ = Ok σ' ∧ wired_host a n mac x σ' | None => σ' = σ end →
  receive prog (5 + fuel) a frame σ = Ok σ'.
Proof.
  intros Hw Hin Hx. unfold host_in in Hin. apply res_bind_ok in Hin as (oe & He & [= Ho]).
  assert (Hw' : wired_host a n mac x σ') by (destruct o; [apply Hx|by subst]).
  destruct (ether2_parse_any _ _ _ (Some gateway_mac) (Some mac) (Some ethertype_ip4) _ _ He) as [og Hg].
  assert (Hskip : ∀ k τ, wired_host a n mac x τ → handle_recv prog (2 + k) (n + 4) frame τ = Ok τ).
  { intros k τ []. cbn [Nat.add]. erewrite handle_recv_proto by done. rewrite recv_ether2_f, Hg. cbn [mbind res_bind].
    destruct og as [[h d]|]; [|done]. by erewrite handle_header_single by done. }
  assert (Hrecv : handle_recv prog (2 + fuel) (n + 9) frame σ = Ok σ').
  { clear Hw' Hskip. destruct Hw as []. cbn [Nat.add]. erewrite handle_recv_proto by done. rewrite recv_ether2_f, He. cbn [mbind res_bind].
    destruct oe as [[h d]|]; subst o; [|by subst]. erewrite handle_header_single by done. apply Hx. }
  assert (Hrecv' : handle_recv prog (2 + S fuel) (n + 9) frame σ = Ok σ') by (eapply handle_recv_more, Hrecv; lia).
  pose proof (Hskip fuel σ' Hw') as Hs1. pose proof (Hskip (S fuel) σ Hw) as Hs2. cbn [Nat.add] in Hrecv, Hrecv', Hs1, Hs2.
  pose proof (set_insert_sorted (n + 9) [n + 4]%nat ltac:(by repeat constructor)) as Hsort.
  pose proof (wh_multi _ _ _ _ _ Hw) as Hm. pose proof (wh_multi _ _ _ _ _ Hw') as Hm'.
  unfold receive. rewrite (deref_ok _ _ _ (wh_device _ _ _ _ _ Hw)). cbn [mbind res_bind Nat.add]. rewrite (handle_recv_multi _ _ _ _ _ _ Hm).
  revert Hm Hm' Hsort. rewrite set_insert_two by lia. case_decide; intros Hm Hm' Hsort; cbn [head].
  - pose proof (iterator_next_ok [] (n + 9) [n + 4]%nat Hsort) as Hi1. pose proof (iterator_next_ok [n + 9]%nat (n + 4) [] Hsort) as Hi2.
    cbn [app head] in Hi1, Hi2. rewrite (multi_loop_some _ _ _ _ _ _ _ _ Hrecv' Hm'), Hi1. cbn [mbind res_bind].
    rewrite (multi_loop_some _ _ _ _ _ _ _ _ Hs1 Hm'), Hi2. done.
  - pose proof (iterator_next_ok [] (n + 4) [n + 9]%nat Hsort) as Hi1. pose proof (iterator_next_ok [n + 4]%nat (n + 9) [] Hsort) as Hi2.
    cbn [app head] in Hi1, Hi2. rewrite (multi_loop_some _ _ _ _ _ _ _ _ Hs2 Hm), Hi1. cbn [mbind res_bind].
    rewrite (multi_loop_some _ _ _ _ _ _ _ _ Hrecv Hm'), Hi2. done.
Qed.

Lemma host_sends fuel a n mac x σ pkt frame :
  wired_host a n mac x σ → host_out mac pkt = Ok (Some frame) →
  get_send_access (3 + fuel) (n + 11) σ = Ok (Some (n + 5)%nat) ∧
  medium_send_data (4 + fuel) (n + 5) pkt σ = Ok (OK, Store (heap σ) (next σ) (wire σ ++ [(a, frame)])).
Proof.
  intros [] Ho. cbn [Nat.add]. split; [by do 2 (erewrite send_access_step by done; cbn match)|].
  unfold host_out in Ho. apply res_bind_ok in Ho as ([h k] & Hp & Hs).
  assert (Hroute : ip4_routed_send_data (gateway_table (n + 2)) pkt = Ok (Some ((n + 2)%nat, pkt))).
  { unfold ip4_routed_send_data. rewrite Hp. cbn [mbind res_bind]. change (ip4_find_route (gateway_table (n + 2)) (dest_addr h))
      with (Ok (A := option nat) (Some (n + 2)%nat)). reflexivity. }
  erewrite medium_send_routed; [|exact wh_routed0|exact Hroute|erewrite send_access_step by done; reflexivity].
  erewrite medium_send_single; [|exact wh_gateway0|exact Hs|do 2 (erewrite send_access_step by done; cbn match); reflexivity].
  by erewrite medium_send_surface by done.
Qed.
End hosts.

(** * Frames of hosts *)

Section frames.
Context {HO : HeapOrder} {G : Gateway}.
Lemma host_in_ok mac h d : ethernet2_header_ok h → eth_dest_addr h = mac → eth_prot h = ethertype_ip4 →
  host_in mac (ethernet2_bytes h ++ d) = Ok (Some d).
Proof.
  intros Hh Hd Hp. assert (Hm : mac_ok mac) by (rewrite <- Hd; apply Hh). unfold host_in.
  pose proof (ether2_recv_ok (Ether2Filters None (Some mac) (Some ethertype_ip4) ltac:(done) ltac:(intros ? [= <-]; done)) h d Hh) as E.
  cbn [ef_src ef_dest ef_type] in E. rewrite E. unfold ef_match, ether2_match. by rewrite bool_decide_true.
Qed.
(** The frame of an IPv4 access of a host. *)
Definition host_frame (pr : Z) (mac : mac_addr) (from to : ip4_addr) (d : list Z) : list Z :=
  ethernet2_bytes (ether2_single_header gateway_mac (Some mac) (Some ethertype_ip4)) ++
  ip4_bytes (ip4_sealed (ip4_access_header from to (Some pr) d)) ++ d.

Lemma access_header_ok pr from to d : byte_ok pr → ip4_ok from → ip4_ok to → ip4_header_ok (ip4_access_header from to (Some pr) d).
Proof. intros Hpr Hf Ht. unfold ip4_header_ok. cbn. repeat split; (lia || apply Hf || apply Ht || apply Hpr || apply u16_in_range || done). Qed.

Lemma host_frame_ok pr mac from to d : byte_ok pr → mac_ok mac → ip4_ok from → ip4_ok to →
  ∃ pkt, ip4_single_send true to (Some from) (Some pr) d = Ok (Some pkt) ∧
    host_out mac pkt = Ok (Some (host_frame pr mac from to d)).
Proof.
  intros Hpr Hm Hf Ht. pose proof (access_header_ok pr from to d Hpr Hf Ht) as Hh.
  assert (Hs : ip4_header_ok (ip4_sealed (ip4_access_header from to (Some pr) d))) by by apply ip4_checksum_verifies.
  eexists. split; [by apply ip4_send_ok|]. unfold host_out.
  rewrite (run_extract_reads _ _ _ _ (reads_ip4 _ Hs)). cbn [mbind res_bind]. unfold ether2_single_send.
  apply ether2_send_ok. by split; [apply Hm|split; [apply gateway_mac_ok|]].
Qed.

(** What an IPv4 access to [to], built on the host's surface, sends. *)
Lemma host_access_sends {R RH : Type} `{!Protocol R RH} fuel a n mac x σ p pr from to r d :
  wired_host (R := R) (RH := RH) a n mac x σ → heap σ !! p = Some (SingleAccess (n + 11) (ip4_f (Some to) (Some from) (Some pr)) r) →
  byte_ok pr → mac_ok mac → ip4_ok from → ip4_ok to →
  access_send_data (6 + fuel) p d σ = Ok (OK, Store (heap σ) (next σ) (wire σ ++ [(a, host_frame pr mac from to d)])).
Proof.
  intros Hw Hp Hpr Hm Hf Ht. destruct (host_frame_ok pr mac from to d Hpr Hm Hf Ht) as (pkt & Hs & Ho).
  destruct (host_sends (S fuel) a n mac _ σ pkt _ Hw Ho) as [_ Hs2].
  destruct (host_sends (S (S fuel)) a n mac _ σ pkt _ Hw Ho) as [Hs1 _]. cbn [Nat.add] in *.
  unfold access_send_data. erewrite send_access_step by exact Hp. cbn [mbind res_bind of_option].
  erewrite medium_send_single; [|exact Hp|rewrite send_ip4_f; exact Hs|exact Hs1]. by rewrite Hs2.
Qed.
End frames.

(** * The gateways *)

(** That of the DNS programs and of ping. *)
Definition home_gateway : Gateway.
Proof.
  refine {| gateway_text := str "c4:eb:42:ed:c5:b7"; gateway_mac := MacAddr [0xc4; 0xeb; 0x42; 0xed; 0xc5; 0xb7] |}; [by vm_compute|].
  split; [done|]. cbn. solve_bytes.
Defined.
(** That of traceroute. *)
Definition trace_gateway : Gateway.
Proof.
  refine {| gateway_text := str "00:09:0f:09:00:01"; gateway_mac := MacAddr [0; 9; 0x0f; 9; 0; 1] |}; [by vm_compute|].
  split; [done|]. cbn. solve_bytes.
Defined.

(** * Witnesses *)

(** What the programs mean by [net_access_save_send_access]. *)
Definition save_witness {R RH : Type} `{!Protocol R RH} (base medium : nat)
    (σ : NetAccess.store (F := ((option mac_addr * option mac_addr * option Z) + (option ip4_addr * option ip4_addr * option Z)) + R)
                         (H := (ethernet2_header + ip4_header) + RH)) :=
  let '(s, σ) := net_access_send_make_static (Some medium) σ in net_access_override_send base s σ.
Definition mac_witness (n : Z) : mac_addr := MacAddr [2; 0; 0; 0; 0; n].
Definition ip_witness (n : Z) : ip4_addr := Ip4Addr [10; 0; 0; n].
