(* ===== verification/DnsMain.v ===== *)
(** The DNS programs: [src/main/dns/dns_server.cpp] and [dns_client.cpp], over the host of [Hosts].

    The server opens IPv4 accesses to whoever sends it UDP packets, on each of these UDP accesses to the ports that send to port 53, and on
    each of those a receiver of DNS messages that answers through the same access.  The two listeners for new accesses are one
    function that tells them apart by the protocol of the access.  The client opens one access of each protocol and a queue.
    [cd] and [ad] are what the bits that nothing initialises hold. *)

From Stdlib Require Import ZArith Lia String.
From stdpp Require Import base decidable list numbers gmap.
From S2P Require Import Prelude Text Cursor Encap Routing Ether2 Ip4 Udp Dns DnsServer NetAccess Hosts.

Definition DNS_SERVER_PORT : Z := 53.
Definition dns_client_port : Z := 1234.

(** DNS has no accesses of its own, only [connect_recv]. *)
#[export] Instance dns_protocol : Protocol unit dns_message := {|
  proto_recv _ d := msg ← dns_handle_recv d; Ok (Some (msg, []));
  gen_filter f _ := f;
  proto_send _ _ := Fault NullDeref; node_packet := no_node; back_filter := no_back
|}.

#[local] Existing Instance home_gateway.
Section dns_programs.
Context {HO : HeapOrder} (cd ad : Z).

Abbreviation R := ((option Z * option Z) + unit)%type.
Abbreviation RH := (udp_header + dns_message)%type.
Abbreviation F := (((option mac_addr * option mac_addr * option Z) + (option ip4_addr * option ip4_addr * option Z)) + R)%type.
Abbreviation H := ((ethernet2_header + ip4_header) + RH)%type.
Abbreviation store := (NetAccess.store (F := F) (H := H)).
Definition udp_f (src dest : option Z) : F := inr (inl (src, dest)).
Definition dns_f : F := inr (inr ()).

Context (net_access_save_send_access : nat → nat → store → nat * store).
Context (save_send_access : ∀ base medium σ, net_access_save_send_access base medium σ =
  let '(s, σ) := net_access_send_make_static (Some medium) σ in net_access_override_send base s σ).
Abbreviation open_surface := (open_ip4_surface (R := R) (RH := RH) net_access_save_send_access).

(** * dns_server.cpp *)

(** [handle_recv] of [my_dns_handler]: the message it sends back, from a buffer of 4096 bytes. *)
Definition dns_reply_bytes (db : dns_database) (msg : dns_message) : res (list Z) :=
  reply ← handle_query cd ad db msg;
  '(tmp_buff, tmp_buff_sz) ← run_write (write_dns_message reply) (replicate (Z.to_nat 0x1000) 0);
  subvector tmp_buff 0 tmp_buff_sz.

(** [handle_new_net_access] of the two listeners. *)
Definition dns_handle_new (a : nat) (σ : store) : res store :=
  o ← deref a σ;
  match o with
  | SingleAccess _ (inl (inr _)) _ => connect_generator 1 a (udp_f None (Some DNS_SERVER_PORT)) true σ
  | SingleAccess _ (inr (inl _)) _ => let '(handler, σ) := alloc (Responder a) σ in connect_recv 1 (Some a) handler dns_f σ
  | _ => Fault NullDeref
  end.
Definition dns_application (db : dns_database) : application (F := F) (H := H) :=
  Application dns_handle_new (λ h _, match h with inr (inr msg) => dns_reply_bytes db msg | _ => Fault NullDeref end).

(** [dns_server_main], up to its loop that sleeps. *)
Definition dns_server_main (fuel : nat) (surface : nat) (mac_of_iface : option mac_addr) (ip_of_iface : option ip4_addr) (σ : store) :
    res store :=
  '(ip4_surface, σ) ← open_surface fuel surface mac_of_iface σ;
  ip ← of_option Thrown ip_of_iface;
  connect_generator fuel ip4_surface (ip4_f None (Some ip) (Some ip_prot_udp)) true σ.

(** The filling of the database in [main]: the files, if they are given and can be opened. *)
Fixpoint add_records_a (rs : list (list Z * ip4_addr)) (db : dns_database) : res dns_database :=
  match rs with [] => Ok db | (name, ip_addr) :: rs => db ← add_record_a db name ip_addr; add_records_a rs db end.
Fixpoint add_records_mx (rs : list (list Z * list Z)) (db : dns_database) : res dns_database :=
  match rs with [] => Ok db | (name, result) :: rs => db ← add_record_mx db name result; add_records_mx rs db end.
(** What [main] runs the server with; [None] when it prints the options and returns 1.  [open_file] is what the parsers read
    of a path. *)
Definition dns_server_program (open_file : list Z → option (list Z)) (help : bool) (iface db_a db_mx : option (list Z)) :
    res (option (list Z * dns_database)) :=
  if help then Ok None
  else
    match iface with
    | None => Ok None
    | Some iface =>
        database ← match db_a with
                   | Some path => rs ← dns_parse_records_a (open_file path); add_records_a rs new_database
                   | None => Ok new_database
                   end;
        database ← match db_mx with
                   | Some path => rs ← dns_parse_records_mx (open_file path); add_records_mx rs database
                   | None => Ok database
                   end;
        Ok (Some (iface, database))
    end.

(** * dns_client.cpp *)

(** [dns_client_main] up to the loop of [send_requests]: the access and the queue that listens to it. *)
Definition dns_client_main (fuel : nat) (surface : nat) (dns_server : ip4_addr) (mac_of_iface : option mac_addr)
    (ip_of_iface : option ip4_addr) (σ : store) : res (nat * nat * store) :=
  '(ip4_surface, σ) ← open_surface fuel surface mac_of_iface σ;
  ip ← of_option Thrown ip_of_iface;
  '(udp_surface, σ) ← net_access_single fuel ip4_surface (ip4_f (Some dns_server) (Some ip) (Some ip_prot_udp)) σ;
  '(dns_surface, σ) ← net_access_single fuel udp_surface (udp_f (Some DNS_SERVER_PORT) (Some dns_client_port)) σ;
  let '(queue, σ) := alloc (HeaderSink []) σ in
  σ ← connect_recv fuel (Some dns_surface) queue dns_f σ;
  Ok (dns_surface, queue, σ).
(** [send] of the request, once. *)
Definition dns_client_send (fuel : nat) (dns_surface : nat) (query : dns_query) (σ : store) : res store :=
  bytes ← dns_send (dns_request cd ad query);
  '(_, σ) ← access_send_data fuel dns_surface bytes σ; Ok σ.

(** What [main] runs the client with: the interface, the address of the server, the name, the type and the class. *)
Inductive dns_run := DnsUsage | DnsInvalid | DnsRun (iface : list Z) (server : ip4_addr) (key : list Z) (type class : Z).
Definition dns_client_program (help : bool) (iface server key type class : option (list Z)) : res dns_run :=
  if help then Ok DnsUsage
  else
    match iface, server with
    | Some iface, Some server =>
        tmp ← str_to_ip4_addr server;
        match tmp, key with
        | None, _ => Ok DnsInvalid
        | Some _, None => Ok DnsUsage
        | Some server_ip, Some key =>
            let type := match type with None => Some dns_type_a | Some t => str_to_dns_record_type t end in
            let class := match class with None => Some dns_class_in | Some c => str_to_dns_record_class c end in
            match type, class with
            | Some type, Some class => Ok (DnsRun iface server_ip key type class)
            | _, _ => Ok DnsInvalid
            end
        end
    | _, _ => Ok DnsUsage
    end.

(** * The specification: what leaves the device for a frame that arrives *)

Definition dns_server_reply (mac : mac_addr) (ip : ip4_addr) (db : dns_database) (frame : list Z) : res (option (list Z)) :=
  o ← host_in mac frame;
  match o with
  | None => Ok None
  | Some pkt =>
      o ← ip4_handle_recv None (Some ip) (Some ip_prot_udp) pkt;
      match o with
      | None => Ok None
      | Some (ih, dgram) =>
          o ← udp_handle_recv None (Some DNS_SERVER_PORT) dgram;
          match o with
          | None => Ok None
          | Some (uh, bytes) =>
              msg ← dns_handle_recv bytes;
              bytes ← dns_reply_bytes db msg;
              o ← udp_single_send true (Some (src_port uh)) DNS_SERVER_PORT bytes;
              dgram ← of_option NullDeref o;
              o ← ip4_single_send true (src_addr ih) (Some ip) (Some ip_prot_udp) dgram;
              pkt ← of_option NullDeref o;
              o ← host_out mac pkt; frame ← of_option NullDeref o; Ok (Some frame)
          end
      end
  end.

Lemma dns_reply_bytes_ok db m reply :
  handle_query cd ad db m = Ok reply → message_ok reply → shifts_ok (header reply) → (List.length (message_bytes reply) ≤ 2000)%nat →
  dns_reply_bytes db m = Ok (message_bytes reply).
Proof.
  intros Hq Hm Hs Hl. unfold dns_reply_bytes. rewrite (bind_Ok _ _ _ Hq).
  assert (Hr : List.length (replicate (Z.to_nat 0x1000) 0) = Z.to_nat 0x1000) by apply length_replicate.
  assert (Hbig : (2000 ≤ Z.to_nat 0x1000)%nat) by lia.
  rewrite (run_write_fits _ _ _ _ (writes_message reply Hm Hs)) by lia. cbn [mbind res_bind].
  rewrite blit_prefix by lia. apply subvector_prefix.
Qed.

(** The codecs are not computed below. *)
#[local] Opaque dns_send dns_handle_recv dns_reply_bytes run_write run_extract.

(** * The server on its store *)

(** The generator of IPv4 accesses on the host's surface. *)
Record wired_server (a n : nat) (mac : mac_addr) (ip : ip4_addr) (σ : store) : Prop := {
  ws_host : wired_host a n mac (Some (n + 14)%nat) σ;
  ws_next : (n + 15 ≤ next σ)%nat;
  ws_multi : ∃ ls, heap σ !! (n + 12)%nat = Some (MultiRecv ls);
  ws_generator : heap σ !! (n + 13)%nat = Some (GeneratorRecv (ip4_f None (Some ip) (Some ip_prot_udp)) (n + 12) (n + 11) true);
  ws_recv : heap σ !! (n + 14)%nat = Some (ProtoRecv (ip4_f None (Some ip) (Some ip_prot_udp)) (n + 13))
}.

Lemma dns_server_main_ok fuel a mac ip r σ :
  heap σ !! a = Some (Surface r) → fresh_next σ →
  ∃ σ', dns_server_main (2 + fuel) a (Some mac) (Some ip) σ = Ok σ' ∧ wired_server a (next σ) mac ip σ' ∧ wire σ' = wire σ.
Proof.
  intros Ha Hf. set (n := next σ).
  destruct (open_ip4_surface_ok _ save_send_access (2 + fuel) a mac r σ ltac:(lia) Ha Hf) as (σ1 & E & Hw & Hn & Hwire). fold n in E, Hw, Hn.
  destruct Hw as [Hb _ Hdev Hm H1 H2 H3 H4 H5 H7 H8 H9 H10 H11].
  unfold dns_server_main. rewrite E. cbn [mbind res_bind of_option].
  unfold connect_generator, multi_net_access, connect_recv. cbn [alloc Nat.add heap next wire]. rewrite Hn.
  erewrite set_recv_overridden by (heap_step; exact H11). erewrite set_recv_single by (heap_step; exact H7).
  cbn [mbind res_bind alloc heap next wire write].
  erewrite set_recv_overridden by (heap_step; exact H11). erewrite set_recv_single by (heap_step; reflexivity).
  eexists. split; [reflexivity|].
  assert (E12 : (n + 13)%nat = S (n + 12)) by lia. assert (E13 : (n + 14)%nat = S (S (n + 12))) by lia.
  split; [|done]. split; cbn [heap next write]; rewrite ?E12, ?E13; [split; cbn [heap next]; heap_step; (done || lia)|lia|heap_step..]; try done.
  by eexists.
Qed.

(** An IPv4 access opened at [k] for the sender [src], listening for the ports that send to the server. *)
Abbreviation server_ports := (udp_f None (Some DNS_SERVER_PORT)).
Record opened_ip4 (n k : nat) (src ip : ip4_addr) (σ : store) : Prop := {
  oi_part : heap σ !! k = Some (GeneratedAccess (n + 12) (n + 11) (Some (k + 3)%nat));
  oi_access : heap σ !! (k + 1)%nat = Some (SingleAccess k (ip4_f (Some src) (Some ip) (Some ip_prot_udp)) (Some (k + 6)%nat));
  oi_multi : ∃ ls, heap σ !! (k + 4)%nat = Some (MultiRecv ls);
  oi_generator : heap σ !! (k + 5)%nat = Some (GeneratorRecv server_ports (k + 4) (k + 1) true);
  oi_recv : heap σ !! (k + 6)%nat = Some (ProtoRecv server_ports (k + 5))
}.

(** Writing [k + i] as the allocations do. *)
Lemma plus_S (k i : nat) : (k + S i)%nat = S (k + i).
Proof. lia. Qed.
Ltac plain k := rewrite ?(plus_S k), ?(Nat.add_0_r k).

Lemma server_opens_ip4 db fuel a n mac ip σ pkt ih dgram :
  wired_server a n mac ip σ → ip4_handle_recv None (Some ip) (Some ip_prot_udp) pkt = Ok (Some (ih, dgram)) →
  ∃ σ', handle_recv (dns_application db) (3 + fuel) (n + 14) pkt σ = handle_recv (dns_application db) (S fuel) (next σ + 6) dgram σ' ∧
    opened_ip4 n (next σ) (src_addr ih) ip σ' ∧ next σ' = (next σ + 7)%nat ∧ wired_server a n mac ip σ' ∧ wire σ' = wire σ.
Proof.
  intros [Hw Hn [ls Hm] Hg Hr] Hp. set (k := next σ) in *. cbn [Nat.add]. erewrite handle_recv_proto by done.
  rewrite recv_ip4_f, Hp. cbn [mbind res_bind]. eexists. split.
  { erewrite handle_header_generator; [|exact Hg|reflexivity|unfold generate_net_access; cbn [alloc fst];
      apply (single_generated fuel (n + 12) ls (n + 11) k); cbn [alloc snd heap next]; [lia|by heap_step..]| |].
    2: { cbn [dns_application handle_new_net_access]. unfold dns_handle_new. fold k. erewrite deref_ok by by heap_step.
      cbn [mbind res_bind gen_filter sum_protocol ip4_f ip4_protocol fst snd].
      unfold connect_generator, multi_net_access, connect_recv. cbn [alloc heap next wire].
      erewrite set_recv_single by by heap_step. cbn [mbind res_bind alloc heap next wire write].
      erewrite set_recv_single by by heap_step. reflexivity. }
    2: { cbn [heap write]. by heap_step. }
    cbn [hand_on]. replace (k + 6)%nat with (S (S (S (S (S (S k)))))) by lia. reflexivity. }
  split; [split; cbn [heap next write]; plain k; heap_step; try done; by eexists|]. split; [cbn [next write]; lia|].
  split; [|done].
  split; cbn [heap next write]; [|lia|eexists; by heap_step|by heap_step..].
  eapply wired_host_beyond; [exact Hw|]. split; cbn [heap next write]; [lia|]. intros y Hy. fold k. by heap_step.
Qed.

Lemma recv_udp_f src dest d :
  proto_recv (udp_f src dest) d =
  (o ← udp_handle_recv src dest d; Ok (match o with Some (h, d) => Some (inr (inl h) : H, d) | None => None end)).
Proof. cbn [proto_recv sum_protocol udp_f with_header udp_protocol fst snd]. unfold with_header. by destruct (udp_handle_recv _ _ _) as [[[h d']|]|]. Qed.

Lemma send_udp_f port my_port d : proto_send (udp_f (Some port) (Some my_port)) d = udp_single_send true (Some port) my_port d.
Proof. reflexivity. Qed.

(** What leaves the device when a UDP access opened on an opened IPv4 access is sent through. *)
Lemma server_sends fuel a n k j m mac src ip port r1 r2 σ bytes dgram pkt frame :
  wired_server a n mac ip σ → opened_ip4 n k src ip σ →
  heap σ !! j = Some (GeneratedAccess m (k + 1) r1) → heap σ !! S j = Some (SingleAccess j (udp_f (Some port) (Some DNS_SERVER_PORT)) r2) →
  udp_single_send true (Some port) DNS_SERVER_PORT bytes = Ok (Some dgram) →
  ip4_single_send true src (Some ip) (Some ip_prot_udp) dgram = Ok (Some pkt) → host_out mac pkt = Ok (Some frame) →
  access_send_data (6 + fuel) (S j) bytes σ = Ok (OK, Store (heap σ) (next σ) (wire σ ++ [(a, frame)])).
Proof.
  intros [Hw _ _ _ _] [Hk Hk1 _ _ _] Hj Hj1 Hu Hi Ho.
  destruct (host_sends fuel a n mac _ σ pkt frame Hw Ho) as [Hs1 Hs2]. cbn [Nat.add] in *.
  unfold access_send_data. erewrite send_access_step by exact Hj1. cbn [mbind res_bind of_option].
  erewrite medium_send_single; [|exact Hj1|rewrite send_udp_f; exact Hu|erewrite send_access_step by exact Hj; cbn match; erewrite send_access_step by exact Hk1; reflexivity].
  erewrite medium_send_single; [|exact Hk1|rewrite send_ip4_f; exact Hi|erewrite send_access_step by exact Hk; cbn match; exact Hs1].
  by rewrite Hs2.
Qed.

Lemma server_answers db fuel a n k mac src ip σ dgram uh bytes msg reply dgram' pkt frame :
  wired_server a n mac ip σ → opened_ip4 n k src ip σ → next σ = (k + 7)%nat → (n + 15 ≤ k)%nat →
  udp_handle_recv None (Some DNS_SERVER_PORT) dgram = Ok (Some (uh, bytes)) → dns_handle_recv bytes = Ok msg →
  dns_reply_bytes db msg = Ok reply → udp_single_send true (Some (src_port uh)) DNS_SERVER_PORT reply = Ok (Some dgram') →
  ip4_single_send true src (Some ip) (Some ip_prot_udp) dgram' = Ok (Some pkt) → host_out mac pkt = Ok (Some frame) →
  ∃ σ', handle_recv (dns_application db) (10 + fuel) (k + 6) dgram σ = Ok σ' ∧ wired_server a n mac ip σ' ∧
    wire σ' = wire σ ++ [(a, frame)].
Proof.
  intros Hws Ho Hnext Hnk Hu Hd Hr Hsu Hsi Hso. pose proof Hws as [Hw Hn [ls Hm] Hg Hrecv].
  pose proof Ho as [Hk Hk1 [ls' Hk4] Hk5 Hk6]. cbn [Nat.add]. erewrite handle_recv_proto by exact Hk6. rewrite recv_udp_f, Hu.
  cbn [mbind res_bind]. set (j := next σ) in *.
  erewrite handle_header_generator; [|exact Hk5|reflexivity|unfold generate_net_access; cbn [alloc fst];
      apply (single_generated (S (S (S (S (S (S (S fuel))))))) (k + 4) ls' (k + 1) j); cbn [alloc snd heap next]; [lia|by heap_step..]| |].
  2: { cbn [dns_application handle_new_net_access]. unfold dns_handle_new. fold j. erewrite deref_ok by by heap_step.
    cbn [mbind res_bind gen_filter sum_protocol udp_f udp_protocol fst snd]. unfold connect_recv. cbn [alloc heap next wire].
    erewrite set_recv_single by by heap_step. reflexivity. }
  2: { cbn [heap write]. by heap_step. }
  cbn [hand_on]. erewrite handle_recv_proto by (cbn [heap write]; by heap_step).
  cbn [proto_recv sum_protocol dns_f with_header dns_protocol]. unfold with_header. rewrite Hd. cbn [mbind res_bind].
  erewrite handle_header_responder by (cbn [heap write]; by heap_step). cbn [dns_application respond]. rewrite Hr. cbn [mbind res_bind].
  match goal with |- context [access_send_data _ (S j) reply ?τ] => set (σ1 := τ) end.
  assert (Hws1 : wired_server a n mac ip σ1).
  { subst σ1. split; cbn [heap next write]; [|lia|eexists; by heap_step|by heap_step..].
    eapply wired_host_beyond; [exact Hw|]. split; cbn [heap next write]; [lia|]. intros y Hy. fold j. by heap_step. }
  assert (Ho1 : opened_ip4 n k src ip σ1).
  { subst σ1. split; cbn [heap next write]; [by heap_step..|eexists; by heap_step|by heap_step|by heap_step]. }
  erewrite (server_sends fuel a n k j); [|exact Hws1|exact Ho1|subst σ1; cbn [heap write]; by heap_step|
    subst σ1; cbn [heap write]; by heap_step|exact Hsu|exact Hsi|exact Hso].
  cbn [mbind res_bind]. eexists. split; [reflexivity|]. split; [|done].
  destruct Hws1 as [Hw1 ? ? ? ?].
  split; [eapply wired_host_beyond; [exact Hw1|by split]|assumption..].
Qed.


Lemma server_receive db fuel a n mac ip σ frame o :
  wired_server a n mac ip σ → dns_server_reply mac ip db frame = Ok o →
  ∃ σ', receive (dns_application db) (17 + fuel) a frame σ = Ok σ' ∧ wired_server a n mac ip σ' ∧
    wire σ' = wire σ ++ (pair a <$> option_list o).
Proof.
  intros Hws Hr. pose proof Hws as [Hw Hn _ _ Hrecv]. unfold dns_server_reply in Hr.
  apply res_bind_ok in Hr as (opkt & Hin & Hr).
  assert (Hdone : ∀ σ', match opkt with
      | Some d => hand_on (dns_application db) (12 + fuel) (Some (n + 14)%nat) d σ = Ok σ' ∧ wired_host a n mac (Some (n + 14)%nat) σ'
      | None => σ' = σ end → receive (dns_application db) (17 + fuel) a frame σ = Ok σ').
  { intros σ' Hx. by apply (host_receive (dns_application db) (12 + fuel) a n mac _ σ σ' frame opkt Hw Hin). }
  assert (Hkeep : ∀ σ', wired_server a n mac ip σ' → wired_host a n mac (Some (n + 14)%nat) σ') by by intros σ' [].
  destruct opkt as [pkt|]; [|injection Hr as <-; exists σ; split; [by apply Hdone|by rewrite app_nil_r]].
  apply res_bind_ok in Hr as (oi & Hi & Hr). destruct oi as [[ih dgram]|].
  2: { injection Hr as <-. exists σ. split; [apply Hdone; split; [|done]|by rewrite app_nil_r]. cbn [hand_on Nat.add].
    erewrite handle_recv_proto by exact Hrecv. by rewrite recv_ip4_f, Hi. }
  destruct (server_opens_ip4 db (9 + fuel) a n mac ip σ pkt ih dgram Hws Hi) as (σ1 & E1 & Ho & Hn1 & Hws1 & W1).
  apply res_bind_ok in Hr as (ou & Hu & Hr). destruct ou as [[uh bytes]|].
  2: { injection Hr as <-. exists σ1. split; [apply Hdone; split; [|by apply Hkeep]|by rewrite app_nil_r].
    cbn [hand_on Nat.add] in *. rewrite E1. erewrite handle_recv_proto by apply Ho. by rewrite recv_udp_f, Hu. }
  apply res_bind_ok in Hr as (msg & Hd & Hr). apply res_bind_ok in Hr as (reply & Hb & Hr).
  apply res_bind_ok in Hr as (o1 & H1 & Hr). apply res_bind_ok in Hr as (dgram' & ->%of_option_ok & Hr).
  apply res_bind_ok in Hr as (o2 & H2 & Hr). apply res_bind_ok in Hr as (pkt' & ->%of_option_ok & Hr).
  apply res_bind_ok in Hr as (o3 & H3 & Hr). apply res_bind_ok in Hr as (frame' & ->%of_option_ok & [= <-]).
  destruct (server_answers db fuel a n (next σ) mac (src_addr ih) ip σ1 dgram uh bytes msg reply dgram' pkt' frame')
    as (σ2 & E2 & Hws2 & W2); try done.
  exists σ2. split; [apply Hdone; split; [|by apply Hkeep]|split; [done|by rewrite W2, W1]].
  cbn [hand_on Nat.add] in *. by rewrite E1.
Qed.

Lemma server_receive_all db fuel a n mac ip frames os : ∀ σ,
  wired_server a n mac ip σ → Forall2 (λ frame o, dns_server_reply mac ip db frame = Ok o) frames os →
  ∃ σ', receive_all (dns_application db) (17 + fuel) a frames σ = Ok σ' ∧ wired_server a n mac ip σ' ∧
    wire σ' = wire σ ++ (pair a <$> omap (λ o, o) os).
Proof.
  intros σ Hws Hall. revert σ Hws. induction Hall as [|frame o frames os Ho _ IH]; intros σ Hws.
  { exists σ. by rewrite app_nil_r. }
  destruct (server_receive db fuel a n mac ip σ frame o Hws Ho) as (σ1 & E1 & Hws1 & W1). cbn [receive_all]. rewrite E1.
  cbn [mbind res_bind]. destruct (IH σ1 Hws1) as (σ2 & E2 & Hws2 & W2). exists σ2. split; [done|]. split; [done|].
  rewrite W2, W1, <- app_assoc. by destruct o.
Qed.

(** * The client on its store *)

Abbreviation client_ip4 server ip := (ip4_f (Some server) (Some ip) (Some ip_prot_udp)).
Abbreviation client_udp := (udp_f (Some DNS_SERVER_PORT) (Some dns_client_port)).
Record wired_client (a n : nat) (mac : mac_addr) (ip server : ip4_addr) (got : list (H * list Z)) (σ : store) : Prop := {
  wc_host : wired_host a n mac (Some (n + 14)%nat) σ;
  wc_ip4 : heap σ !! (n + 12)%nat = Some (SingleAccess (n + 11) (client_ip4 server ip) (Some (n + 17)%nat));
  wc_ip4_single : heap σ !! (n + 13)%nat = Some (SingleRecv (n + 12));
  wc_ip4_recv : heap σ !! (n + 14)%nat = Some (ProtoRecv (client_ip4 server ip) (n + 13));
  wc_udp : heap σ !! (n + 15)%nat = Some (SingleAccess (n + 12) client_udp (Some (n + 19)%nat));
  wc_udp_single : heap σ !! (n + 16)%nat = Some (SingleRecv (n + 15));
  wc_udp_recv : heap σ !! (n + 17)%nat = Some (ProtoRecv client_udp (n + 16));
  wc_queue : heap σ !! (n + 18)%nat = Some (HeaderSink got);
  wc_dns_recv : heap σ !! (n + 19)%nat = Some (ProtoRecv dns_f (n + 18))
}.

Lemma dns_client_main_ok fuel a mac ip server r σ :
  heap σ !! a = Some (Surface r) → fresh_next σ →
  ∃ σ', dns_client_main (2 + fuel) a server (Some mac) (Some ip) σ = Ok (next σ + 15, next σ + 18, σ')%nat ∧
    wired_client a (next σ) mac ip server [] σ' ∧ wire σ' = wire σ.
Proof.
  intros Ha Hf. set (n := next σ).
  destruct (open_ip4_surface_ok _ save_send_access (2 + fuel) a mac r σ ltac:(lia) Ha Hf) as (σ1 & E & Hw & Hn & Hwire). fold n in E, Hw, Hn.
  destruct Hw as [Hb _ Hdev Hm H1 H2 H3 H4 H5 H7 H8 H9 H10 H11].
  unfold dns_client_main. rewrite E. cbn [mbind res_bind of_option].
  unfold net_access_single, connect_recv. cbn [alloc Nat.add heap next wire]. rewrite Hn.
  erewrite set_recv_overridden by (heap_step; exact H11). erewrite set_recv_single by (heap_step; exact H7).
  cbn [mbind res_bind alloc heap next wire write].
  erewrite set_recv_single by (heap_step; reflexivity). cbn [mbind res_bind alloc heap next wire write].
  erewrite set_recv_single by (heap_step; reflexivity). cbn [mbind res_bind].
  assert (E13 : (n + 13)%nat = S (n + 12)) by lia. assert (E14 : (n + 14)%nat = S (S (n + 12))) by lia.
  assert (E15 : (n + 15)%nat = S (S (S (n + 12)))) by lia. assert (E16 : (n + 16)%nat = S (S (S (S (n + 12))))) by lia.
  assert (E17 : (n + 17)%nat = S (S (S (S (S (n + 12)))))) by lia. assert (E18 : (n + 18)%nat = S (S (S (S (S (S (n + 12))))))) by lia.
  assert (E19 : (n + 19)%nat = S (S (S (S (S (S (S (n + 12)))))))) by lia.
  eexists. split; [rewrite E15, E18; reflexivity|].
  split; [|done]. split; cbn [heap next write]; rewrite ?E13, ?E14, ?E15, ?E16, ?E17, ?E18, ?E19;
    [split; cbn [heap next]; rewrite ?E14; heap_step; (done || lia)|heap_step..]; done.
Qed.

(** The frame of a request. *)
Definition dns_client_request (mac : mac_addr) (ip server : ip4_addr) (query : dns_query) : res (list Z) :=
  bytes ← dns_send (dns_request cd ad query);
  o ← udp_single_send true (Some DNS_SERVER_PORT) dns_client_port bytes;
  dgram ← of_option NullDeref o;
  o ← ip4_single_send true server (Some ip) (Some ip_prot_udp) dgram;
  pkt ← of_option NullDeref o;
  o ← host_out mac pkt; of_option NullDeref o.

Lemma client_sends fuel a n mac ip server got σ query frame :
  wired_client a n mac ip server got σ → dns_client_request mac ip server query = Ok frame →
  ∃ σ', dns_client_send (6 + fuel) (n + 15) query σ = Ok σ' ∧ wired_client a n mac ip server got σ' ∧ wire σ' = wire σ ++ [(a, frame)].
Proof.
  intros Hwc Hr. pose proof Hwc as [Hw H12 H13 H14 H15 H16 H17 H18 H19]. unfold dns_client_request in Hr.
  apply res_bind_ok in Hr as (bytes & Hs & Hr).
  apply res_bind_ok in Hr as (o1 & H1 & Hr). apply res_bind_ok in Hr as (dgram & ->%of_option_ok & Hr).
  apply res_bind_ok in Hr as (o2 & H2 & Hr). apply res_bind_ok in Hr as (pkt & ->%of_option_ok & Hr).
  apply res_bind_ok in Hr as (o3 & H3 & ->%of_option_ok).
  destruct (host_sends fuel a n mac _ σ pkt frame Hw H3) as [_ Hs2].
  destruct (host_sends (S fuel) a n mac _ σ pkt frame Hw H3) as [Hs1 _]. cbn [Nat.add] in *.
  assert (Hsend : access_send_data (S (S (S (S (S (S fuel)))))) (n + 15) bytes σ = Ok (OK, Store (heap σ) (next σ) (wire σ ++ [(a, frame)]))).
  { unfold access_send_data. erewrite send_access_step by exact H15. cbn [mbind res_bind of_option].
  erewrite medium_send_single; [|exact H15|rewrite send_udp_f; exact H1|erewrite send_access_step by exact H12; reflexivity].
  erewrite medium_send_single; [|exact H12|rewrite send_ip4_f; exact H2|exact Hs1]. by rewrite Hs2. }
  unfold dns_client_send. rewrite (bind_Ok _ _ _ Hs), (bind_Ok _ _ _ Hsend).
  eexists. split; [reflexivity|]. split; [|done].
  split; [eapply wired_host_beyond; [exact Hw|by split]|assumption..].
Qed.

(** The client has no listener for new accesses, and answers nothing. *)
Definition dns_client_application : application (F := F) (H := H) := Application (λ _ σ, Ok σ) (λ _ _, Fault NullDeref).

Lemma client_receives fuel a n mac ip server got σ frame pkt ih dgram uh bytes msg :
  wired_client a n mac ip server got σ → host_in mac frame = Ok (Some pkt) →
  ip4_handle_recv (Some server) (Some ip) (Some ip_prot_udp) pkt = Ok (Some (ih, dgram)) →
  udp_handle_recv (Some DNS_SERVER_PORT) (Some dns_client_port) dgram = Ok (Some (uh, bytes)) → dns_handle_recv bytes = Ok msg →
  ∃ σ', receive dns_client_application (12 + fuel) a frame σ = Ok σ' ∧
    wired_client a n mac ip server (got ++ [(inr (inr msg), [])]) σ' ∧ wire σ' = wire σ.
Proof.
  intros [Hw H12 H13 H14 H15 H16 H17 H18 H19] Hin Hi Hu Hd.
  set (σ1 := write (n + 18) (HeaderSink (got ++ [(inr (inr msg), [])])) σ).
  assert (Hw1 : wired_host a n mac (Some (n + 14)%nat) σ1).
  { eapply wired_host_beyond; [exact Hw|]. split; [done|]. intros y Hy. cbn [σ1 heap write]. by heap_step. }
  exists σ1. split; [|split; [split; [done|..]; cbn [σ1 heap write]; by heap_step|done]].
  apply (host_receive dns_client_application (7 + fuel) a n mac _ σ σ1 frame (Some pkt) Hw Hin).
  split; [|exact Hw1]. cbn [hand_on Nat.add].
  erewrite handle_recv_proto by exact H14. rewrite recv_ip4_f, Hi. cbn [mbind res_bind].
  erewrite handle_header_single by done. cbn [hand_on].
  erewrite handle_recv_proto by exact H17. rewrite recv_udp_f, Hu. cbn [mbind res_bind].
  erewrite handle_header_single by done. cbn [hand_on]. erewrite handle_recv_proto by exact H19.
  cbn [proto_recv sum_protocol dns_f with_header dns_protocol]. unfold with_header. rewrite Hd. cbn [mbind res_bind].
  by erewrite handle_header_sink by exact H18.
Qed.

(** * The gateway *)

(** A gateway takes the packet out of a frame sent to it and passes it to the host [mac] in a frame of its own; it keeps the addresses,
    the protocol and the data of the packet, and may change the rest of its header (the time to live, say). *)
Definition gateway_forwards (mac : mac_addr) (frame frame' : list Z) : Prop :=
  ∃ pkt ih d src ih', host_in gateway_mac frame = Ok (Some pkt) ∧ ip4_handle_recv None None None pkt = Ok (Some (ih, d)) ∧
    mac_ok src ∧ ip4_header_ok ih' ∧ src_addr ih' = src_addr ih ∧ dest_addr ih' = dest_addr ih ∧ prot ih' = prot ih ∧
    frame' = ethernet2_bytes (Ethernet2Header src mac ethertype_ip4) ++ ip4_bytes ih' ++ d.

(** No filter at all. *)
Lemma ip4_recv_any h d : ip4_header_ok h → ip4_handle_recv None None None (ip4_bytes h ++ d) = Ok (Some (clear_flags h, d)).
Proof.
  intros Hh. pose proof (ip4_recv_ok (Ip4Filters None None None ltac:(done) ltac:(done)) h d Hh) as E.
  cbn [if_src if_dest if_prot] in E. rewrite E. unfold ip4_match. by rewrite bool_decide_true.
Qed.

(** What the gateway makes of it reaches the host that it is for, and only the header is new. *)
Lemma forwarded mac mac' from to d frame' :
  mac_ok mac → mac_ok mac' → ip4_ok from → ip4_ok to → gateway_forwards mac' (host_frame ip_prot_udp mac from to d) frame' →
  ∃ pkt ih, host_in mac' frame' = Ok (Some pkt) ∧ src_addr ih = from ∧
    ∀ src, (∀ b, src = Some b → b = from) → ip4_handle_recv src (Some to) (Some ip_prot_udp) pkt = Ok (Some (ih, d)).
Proof.
  intros Hm Hm' Hf Ht (pkt & ih & d' & src & ih' & Hin & Hp & Hsrc & Hih & E1 & E2 & E3 & ->).
  pose proof (access_header_ok ip_prot_udp from to d ltac:(done) Hf Ht) as Hh. set (h := ip4_access_header from to (Some ip_prot_udp) d) in *.
  assert (Hs : ip4_header_ok (ip4_sealed h)) by by apply ip4_checksum_verifies.
  assert (Hg : ethernet2_header_ok (ether2_single_header gateway_mac (Some mac) (Some ethertype_ip4)))
    by by split; [apply Hm|split; [apply gateway_mac_ok|]].
  assert (Hg' : ethernet2_header_ok (Ethernet2Header src mac' ethertype_ip4)) by by split; [apply Hsrc|split; [apply Hm'|]].
  unfold host_frame in Hin. fold h in Hin. rewrite (host_in_ok _ _ _ Hg eq_refl eq_refl) in Hin.
  assert (Epkt : pkt = ip4_bytes (ip4_sealed h) ++ d) by congruence. subst pkt. clear Hin.
  rewrite (ip4_recv_any _ _ Hs) in Hp. injection Hp as <- <-.
  exists (ip4_bytes ih' ++ d), (clear_flags ih'). split; [by apply host_in_ok|].
  split; [exact E1|]. intros s Hsb.
  assert (Hsok : ∀ b, s = Some b → ip4_ok b) by (intros b Hb; by rewrite (Hsb b Hb)).
  rewrite (ip4_recv_ok (Ip4Filters s (Some to) (Some ip_prot_udp) Hsok ltac:(intros ? [= <-]; done)) _ _ Hih).
  unfold ip4_match. rewrite bool_decide_true; [done|]. cbn [if_src if_dest if_prot filter_accepts].
  split; [|by rewrite E2, E3]. destruct s as [b|]; [|done]. cbn. rewrite E1. symmetry. by apply Hsb.
Qed.
Lemma forwards_some mac mac' from to d : mac_ok mac → ip4_ok from → ip4_ok to →
  ∃ frame', gateway_forwards mac' (host_frame ip_prot_udp mac from to d) frame'.
Proof.
  intros Hm Hf Ht. pose proof (access_header_ok ip_prot_udp from to d ltac:(done) Hf Ht) as Hh. set (h := ip4_access_header from to (Some ip_prot_udp) d) in *.
  assert (Hs : ip4_header_ok (ip4_sealed h)) by by apply ip4_checksum_verifies.
  assert (Hg : ethernet2_header_ok (ether2_single_header gateway_mac (Some mac) (Some ethertype_ip4)))
    by by split; [apply Hm|split; [apply gateway_mac_ok|]].
  eexists _, _, (clear_flags (ip4_sealed h)), d, gateway_mac, (ip4_sealed h). split.
  { unfold host_frame. fold h. by apply host_in_ok. }
  split; [by apply ip4_recv_any|].
  split; [apply gateway_mac_ok|]. done.
Qed.

(** Datagrams between the ports of the server and the client. *)
Lemma udp_between from to d src : u16_ok from → u16_ok to → (∀ p, src = Some p → p = from) →
  ∃ dgram uh, udp_single_send true (Some to) from d = Ok (Some dgram) ∧ src_port uh = from ∧
    udp_handle_recv src (Some to) dgram = Ok (Some (uh, d)).
Proof.
  intros Hf Ht Hsrc. set (uh := udp_sealed (UdpHeader from to 0 0) d).
  exists (udp_bytes uh ++ d), uh. split; [apply udp_send_ok|]. split; [done|].
  pose proof (udp_recv_ok (src, Some to) uh d ltac:(by apply udp_sealed_ok)) as E. cbn [fst snd] in E. rewrite E.
  unfold udp_match. rewrite bool_decide_true; [done|]. cbn. split; [|done]. destruct src as [p|]; [|done]. symmetry. by apply Hsrc.
Qed.

(** * Properties *)

(** C4: the DNS server that the program wires. Whatever frames arrive at its device, in whatever order and from whichever clients, as
    long as the handling of none of them is undefined, exactly the replies of [dns_server_reply] leave the device, in the order of the
    requests: frames, packets and datagrams for others get none, and the accesses opened for earlier packets stay out
    of the way. *)
Theorem dns_server_refines (db : dns_database) (mac : mac_addr) (ip : ip4_addr) (a : nat) (r : option nat) (σ : store) (fuel : nat)
    (frames : list (list Z)) (os : list (option (list Z))) :
  heap σ !! a = Some (Surface r) → fresh_next σ → (17 ≤ fuel)%nat →
  Forall2 (λ frame o, dns_server_reply mac ip db frame = Ok o) frames os →
  ∃ σ1 σ2, dns_server_main fuel a (Some mac) (Some ip) σ = Ok σ1 ∧ receive_all (dns_application db) fuel a frames σ1 = Ok σ2 ∧
    wire σ2 = wire σ ++ (pair a <$> omap (λ o, o) os).
Proof.
  intros Ha Hf Hfuel Hall. destruct (dns_server_main_ok (fuel - 2) a mac ip r σ Ha Hf) as (σ1 & E1 & Hws & W1).
  replace (2 + (fuel - 2))%nat with fuel in E1 by lia.
  destruct (server_receive_all db (fuel - 17) a _ mac ip frames os σ1 Hws Hall) as (σ2 & E2 & _ & W2).
  replace (17 + (fuel - 17))%nat with fuel in E2 by lia. exists σ1, σ2. split; [done|]. split; [done|]. by rewrite W2, W1.
Qed.
(** C2: a name is resolved across the network. The client's program and the server's are each wired on a host of their own; the client sends
    its request, some gateway passes it to the server, and passes the server's answer back: then the queue of the client
    holds one message, on which the loop of the client ends after one request, and whose answer is the address that the
    database has for the name. *)
Theorem dns_over_network (db : dns_database) (ma : gmap (list Z) ip4_addr) (mx : gmap (list Z) (list Z)) (ls : list (list Z))
    (addr cip sip : ip4_addr) (cmac smac : mac_addr) (a b fuel : nat) (ra rb : option nat) (σc σs : store) :
  database_maps db ma mx → map_Forall (λ _, ip4_ok) ma → dns_labels_ok ls → ascii_ok (join [46] ls) →
  ma !! join [46] ls = Some addr → bit_ok cd → bit_ok ad → mac_ok cmac → mac_ok smac → ip4_ok cip → ip4_ok sip →
  heap σc !! a = Some (Surface ra) → fresh_next σc → heap σs !! b = Some (Surface rb) → fresh_next σs → (17 ≤ fuel)%nat →
  ∃ dns_surface queue σc1 σc2 f1 σs1,
    dns_client_main fuel a sip (Some cmac) (Some cip) σc = Ok (dns_surface, queue, σc1) ∧
    dns_client_send fuel dns_surface (make_dns_query (join [46] ls) dns_type_a dns_class_in) σc1 = Ok σc2 ∧
    wire σc2 = wire σc ++ [(a, f1)] ∧
    dns_server_main fuel b (Some smac) (Some sip) σs = Ok σs1 ∧ (∃ f2, gateway_forwards smac f1 f2) ∧
    ∀ f2, gateway_forwards smac f1 f2 →
      ∃ σs2 f3, receive (dns_application db) fuel b f2 σs1 = Ok σs2 ∧ wire σs2 = wire σs ++ [(b, f3)] ∧ (∃ f4, gateway_forwards cmac f3 f4) ∧
      ∀ f4, gateway_forwards cmac f3 f4 →
        ∃ σc3 msg, receive dns_client_application fuel a f4 σc2 = Ok σc3 ∧
          heap σc3 !! queue = Some (HeaderSink [(inr (inr msg), [])]) ∧
          send_requests 1 [Some msg] = Some (1%nat, msg) ∧
          (λ x, (ans_name x, rdata x)) <$> ans msg = [(dns_name ls, ip4_octets addr)].
Proof.
  intros Hdb Hip Hls Hasc Hma Hcd Had Hcm Hsm Hci Hsi Ha Hfc Hb Hfs Hfuel.
  destruct (resolve_name db ma mx ls dns_type_a (DnsAnswer (dns_name ls) dns_type_a dns_class_in 3600 4 (ip4_octets addr)) cd ad cd ad)
    as (req & m & E1 & E2 & E3 & Hok & Hsh & Hseen & Hlen); try assumption; [done| |apply a_answer_fits; [done|by apply (Hip _ _ Hma)]|].
  { unfold answer_for. rewrite dns_query_text by apply Hls. cbn. by rewrite Hma. }
  pose proof (dns_reply_bytes_ok db m _ E3 Hok Hsh Hlen) as Hreply.
  destruct (udp_between dns_client_port DNS_SERVER_PORT req None ltac:(done) ltac:(done) ltac:(done)) as (d1 & u1 & Hu1 & Hp1 & Hv1).
  destruct (udp_between DNS_SERVER_PORT dns_client_port (message_bytes (reply_message cd ad
    (make_dns_query (join [46] ls) dns_type_a dns_class_in) (DnsAnswer (dns_name ls) dns_type_a dns_class_in 3600 4 (ip4_octets addr))))
    (Some DNS_SERVER_PORT) ltac:(done) ltac:(done) ltac:(congruence)) as (d3 & u3 & Hu3 & _ & Hv3).
  destruct (host_frame_ok ip_prot_udp cmac cip sip d1 ltac:(done) Hcm Hci Hsi) as (p1 & Hi1 & Ho1).
  destruct (host_frame_ok ip_prot_udp smac sip cip d3 ltac:(done) Hsm Hsi Hci) as (p3 & Hi3 & Ho3).
  destruct (dns_client_main_ok (fuel - 2) a cmac cip sip ra σc Ha Hfc) as (σc1 & Ec1 & Hwc & Wc1).
  destruct (client_sends (fuel - 6) a _ cmac cip sip [] σc1 (make_dns_query (join [46] ls) dns_type_a dns_class_in)
    (host_frame ip_prot_udp cmac cip sip d1) Hwc) as (σc2 & Ec2 & Hwc2 & Wc2).
  { unfold dns_client_request. rewrite (bind_Ok _ _ _ E1), (bind_Ok _ _ _ Hu1). cbn [of_option]. rewrite (bind_Ok _ _ _ eq_refl).
    rewrite (bind_Ok _ _ _ Hi1). cbn [of_option]. rewrite (bind_Ok _ _ _ eq_refl), (bind_Ok _ _ _ Ho1). done. }
  destruct (dns_server_main_ok (fuel - 2) b smac sip rb σs Hb Hfs) as (σs1 & Es1 & Hws & Ws1).
  replace (2 + (fuel - 2))%nat with fuel in Ec1, Es1 by lia. replace (6 + (fuel - 6))%nat with fuel in Ec2 by lia.
  eexists _, _, σc1, σc2, (host_frame ip_prot_udp cmac cip sip d1), σs1. split; [exact Ec1|]. split; [exact Ec2|]. split; [by rewrite Wc2, Wc1|].
  split; [exact Es1|]. split; [by apply forwards_some|]. intros f2 Hf2.
  destruct (forwarded cmac smac cip sip d1 f2 Hcm Hsm Hci Hsi Hf2) as (p2 & ih2 & Hin2 & Hsrc2 & Hp2).
  destruct (server_receive db (fuel - 17) b _ smac sip σs1 f2 (Some (host_frame ip_prot_udp smac sip cip d3)) Hws) as (σs2 & Es2 & _ & Ws2).
  { unfold dns_server_reply. rewrite (bind_Ok _ _ _ Hin2), (bind_Ok _ _ _ (Hp2 None ltac:(done))), (bind_Ok _ _ _ Hv1), (bind_Ok _ _ _ E2).
    rewrite (bind_Ok _ _ _ Hreply), Hp1, (bind_Ok _ _ _ Hu3). cbn [of_option]. rewrite (bind_Ok _ _ _ eq_refl), Hsrc2, (bind_Ok _ _ _ Hi3).
    cbn [of_option]. by rewrite (bind_Ok _ _ _ eq_refl), (bind_Ok _ _ _ Ho3). }
  replace (17 + (fuel - 17))%nat with fuel in Es2 by lia.
  exists σs2, (host_frame ip_prot_udp smac sip cip d3). split; [exact Es2|]. split; [by rewrite Ws2, Ws1|]. split; [by apply forwards_some|].
  intros f4 Hf4. destruct (forwarded smac cmac sip cip d3 f4 Hsm Hcm Hsi Hci Hf4) as (p4 & ih4 & Hin4 & _ & Hp4).
  destruct (client_receives (fuel - 12) a _ cmac cip sip [] σc2 f4 p4 ih4 d3 u3 _ _ Hwc2 Hin4
    (Hp4 (Some sip) ltac:(congruence)) Hv3 (dns_recv_ok _ Hok)) as (σc3 & Ec3 & Hwc3 & _).
  replace (12 + (fuel - 12))%nat with fuel in Ec3 by lia. rewrite Hseen in Hwc3.
  eexists σc3, _. split; [exact Ec3|]. split; [apply (wc_queue _ _ _ _ _ _ _ Hwc3)|]. done.
Qed.
End dns_programs.

#[local] Existing Instance allocation_order.

(** A host's request, passed on by the gateway unchanged, and a frame for another host. *)
Definition request_frame_witness : list Z :=
  match dns_client_request 0 0 (mac_witness 1) (ip_witness 1) (ip_witness 2) (make_dns_query (str "nasa") dns_type_a dns_class_in) with
  | Ok frame => ethernet2_bytes (Ethernet2Header gateway_mac (mac_witness 2) ethertype_ip4) ++ drop 14 frame
  | Fault _ => []
  end.
Lemma dns_server_refines_witness :
  let frames := [request_frame_witness; ethernet2_bytes (Ethernet2Header gateway_mac (mac_witness 3) ethertype_ip4); request_frame_witness] in
  let os := res_values (dns_server_reply 0 0 (mac_witness 2) (ip_witness 2) db_witness) frames in
  let σ := Store {[0%nat := Surface None]} 1 [] in
  ∃ σ1 σ2, dns_server_main save_witness 17 0 (Some (mac_witness 2)) (Some (ip_witness 2)) σ = Ok σ1 ∧
    receive_all (dns_application 0 0 db_witness) 17 0 frames σ1 = Ok σ2 ∧
    wire σ2 = (pair 0%nat <$> omap (λ o, o) os) ∧ List.length (omap (λ o, o) os) = 2%nat.
Proof.
  intros frames os σ. destruct (dns_server_refines 0 0 save_witness (λ _ _ _, eq_refl) db_witness (mac_witness 2) (ip_witness 2) 0 None σ 17
    frames os) as (σ1 & σ2 & E1 & E2 & E3).
  - done.
  - apply fresh_single.
  - lia.
  - constructor; [vm_compute; reflexivity|]. constructor; [vm_compute; reflexivity|].
    constructor; [vm_compute; reflexivity|constructor].
  - exists σ1, σ2. split; [exact E1|]. split; [exact E2|]. split; [exact E3|vm_compute; reflexivity].
Defined.

Lemma dns_over_network_witness :
  let σ := Store {[0%nat := Surface None]} 1 [] in
  ∃ dns_surface queue σc1 σc2 f1 σs1,
    dns_client_main save_witness 17 0 (ip_witness 2) (Some (mac_witness 1)) (Some (ip_witness 1)) σ = Ok (dns_surface, queue, σc1) ∧
    dns_client_send 0 0 17 dns_surface (make_dns_query (join [46] [str "nasa"]) dns_type_a dns_class_in) σc1 = Ok σc2 ∧
    wire σc2 = wire σ ++ [(0%nat, f1)] ∧
    dns_server_main save_witness 17 0 (Some (mac_witness 2)) (Some (ip_witness 2)) σ = Ok σs1 ∧ (∃ f2, gateway_forwards (mac_witness 2) f1 f2) ∧
    ∀ f2, gateway_forwards (mac_witness 2) f1 f2 →
      ∃ σs2 f3, receive (dns_application 0 0 db_witness) 17 0 f2 σs1 = Ok σs2 ∧ wire σs2 = wire σ ++ [(0%nat, f3)] ∧
      (∃ f4, gateway_forwards (mac_witness 1) f3 f4) ∧
      ∀ f4, gateway_forwards (mac_witness 1) f3 f4 →
        ∃ σc3 msg, receive dns_client_application 17 0 f4 σc2 = Ok σc3 ∧
          heap σc3 !! queue = Some (HeaderSink [(inr (inr msg), [])]) ∧
          send_requests 1 [Some msg] = Some (1%nat, msg) ∧
          (λ x, (ans_name x, rdata x)) <$> ans msg = [(dns_name [str "nasa"], ip4_octets (ip_witness 1))].
Proof.
  intros σ. apply (dns_over_network 0 0 save_witness (λ _ _ _, eq_refl) db_witness {[str "nasa" := ip_witness 1]} {[str "nasa" := str "mail"]}
    [str "nasa"] (ip_witness 1) (ip_witness 1) (ip_witness 2) (mac_witness 1) (mac_witness 2) 0 0 17 None None σ σ);
    try (by left); try apply fresh_single; try (split; [reflexivity|cbn; solve_bytes]); try reflexivity; try lia.
  - apply db_witness_maps.
  - intros n a [<- <-]%lookup_singleton_Some. split; [done|]. by repeat constructor.
  - split; [done|]. split; [|simpl; lia]. apply Forall_cons_2; [|apply Forall_nil_2]. split; [done|].
    split; [simpl; lia|]. by repeat constructor.
  - repeat constructor; lia.
Defined.
