(* ===== verification/DnsRecords.v ===== *)
(** The records that the DNS server serves: from the text of the files that [src/main/dns/dns_server.cpp] is given, through the parsers of
    [dns_database.cpp], to the database over the tries. *)

From Stdlib Require Import ZArith Lia String.
From stdpp Require Import base decidable list numbers gmap.
From S2P Require Import Prelude Text Trie Ip4 Dns DnsServer DnsMain.

(** The records in the order of the file: a later one takes the place of an earlier one with the same name. *)
Definition records_map {A} (rs : list (list Z * A)) : gmap (list Z) A := foldl (λ m r, <[r.1 := r.2]> m) ∅ rs.

(** * Lemmas *)

Definition name_ok (n : list Z) : Prop := ascii_ok n ∧ n ≠ [].
Lemma add_records_a_ok rs : Forall (λ r, name_ok r.1) rs → ∀ db ma mx, database_maps db ma mx →
  ∃ db', add_records_a rs db = Ok db' ∧ database_maps db' (foldl (λ m r, <[r.1 := r.2]> m) ma rs) mx.
Proof.
  induction 1 as [|[n addr] rs [Hn Hne] Hrs IH]; intros db ma mx Hdb; [by exists db|].
  destruct (add_record_a_ok db ma mx n addr Hdb Hn Hne) as (db1 & E & Hdb1). cbn [add_records_a foldl fst snd]. rewrite E. by apply IH.
Qed.
Lemma add_records_mx_ok rs : Forall (λ r, name_ok r.1) rs → ∀ db ma mx, database_maps db ma mx →
  ∃ db', add_records_mx rs db = Ok db' ∧ database_maps db' ma (foldl (λ m r, <[r.1 := r.2]> m) mx rs).
Proof.
  induction 1 as [|[n v] rs [Hn Hne] Hrs IH]; intros db ma mx Hdb; [by exists db|].
  destruct (add_record_mx_ok db ma mx n v Hdb Hn Hne) as (db1 & E & Hdb1). cbn [add_records_mx foldl fst snd]. rewrite E. by apply IH.
Qed.
Lemma add_records_a_app rs rs' db : add_records_a (rs ++ rs') db = (db ← add_records_a rs db; add_records_a rs' db).
Proof. revert db. induction rs as [|[n a] rs IH]; intros db; [done|]. cbn. destruct (add_record_a db n a); cbn; [apply IH|done]. Qed.
Lemma addresses_names lines os : Forall (λ l, name_ok l.1) lines → Forall (λ r, name_ok r.1) (addresses lines os).
Proof.
  intros H. revert os. induction H as [|l lines Hl Hls IH]; intros [|[a|] os]; [apply Forall_nil_2..| |by apply IH].
  apply Forall_cons_2; [done|apply IH].
Qed.

Lemma addresses_app lines os lines' os' : List.length lines = List.length os →
  addresses (lines ++ lines') (os ++ os') = addresses lines os ++ addresses lines' os'.
Proof. intros H. unfold addresses. by rewrite zip_with_app, omap_app by done. Qed.
(** The lines of a file whose names the database takes. *)
Abbreviation lines_ok := (Forall (λ l : list Z * list Z, line_ok l ∧ ascii_ok l.1)).
Lemma lines_ok_lines ls : lines_ok ls → Forall line_ok ls ∧ Forall (λ l, name_ok l.1) ls.
Proof. intros H. split; (eapply Forall_impl; [exact H|]); [by intros l []|intros l [[[Hne _] _] Ha]; by split]. Qed.

(** * Properties *)

(** C36: the records that the server is started with.  From a file of address records and one of mail records, each with a name and a value on
    each line, the program fills a database that maps each name to the value of its last line, where lines whose value is not the text of
    an address count for nothing; a search gives what the map has.  A name with a byte from 128 on, after any lines that are fine, makes
    the start undefined. *)
Theorem dns_server_loads_records (open_file : list Z → option (list Z)) (iface pa pm pb : list Z) (db_mx : option (list Z))
    (as_lines mx_lines more : list (list Z * list Z)) (os more_os : list (option ip4_addr)) (p s text : list Z) (c : Z) (addr : ip4_addr) :
  lines_ok as_lines → Forall2 (λ l o, str_to_ip4_addr l.2 = Ok o) as_lines os → lines_ok mx_lines →
  open_file pa = Some (file_of as_lines) → open_file pm = Some (file_of mx_lines) →
  ascii_ok p → 128 ≤ c < 256 → Forall line_ok ((p ++ c :: s, text) :: more) → str_to_ip4_addr text = Ok (Some addr) →
  Forall2 (λ l o, str_to_ip4_addr l.2 = Ok o) more more_os → open_file pb = Some (file_of (as_lines ++ (p ++ c :: s, text) :: more)) →
  (∃ db, dns_server_program open_file false (Some iface) (Some pa) (Some pm) = Ok (Some (iface, db)) ∧
    database_maps db (records_map (addresses as_lines os)) (records_map mx_lines) ∧
    ∀ n, ascii_ok n → search_record_a db n = Ok (records_map (addresses as_lines os) !! n) ∧
      search_record_mx db n = Ok (records_map mx_lines !! n)) ∧
  dns_server_program open_file false (Some iface) (Some pb) db_mx = Fault OutOfBounds.
Proof.
  intros Ha Hos Hm Hpa Hpm Hp Hc Hbad Htext Hmore Hpb. apply lines_ok_lines in Ha as [Ha Na]. apply lines_ok_lines in Hm as [Hm Nm].
  destruct (add_records_a_ok (addresses as_lines os) (addresses_names _ _ Na) _ _ _ new_database_maps) as (db & E & Hdb). split.
  - destruct (add_records_mx_ok mx_lines Nm _ _ _ Hdb) as (db' & E' & Hdb'). exists db'. split; [|split; [exact Hdb'|]].
    + unfold dns_server_program. rewrite Hpa, Hpm, (parse_records_a_ok _ _ Ha Hos). cbn [mbind res_bind]. rewrite E. cbn [mbind res_bind].
      rewrite (parse_records_mx_ok _ Hm). cbn [mbind res_bind]. by rewrite E'.
    + intros n Hn. by rewrite (search_a_ok _ _ _ _ Hdb' Hn), (search_mx_ok _ _ _ _ Hdb' Hn).
  - unfold dns_server_program. rewrite Hpb, (parse_records_a_ok _ (os ++ Some addr :: more_os)); cycle 1.
    { by apply Forall_app_2. } { apply Forall2_app; [done|]. by constructor. }
    cbn [mbind res_bind]. rewrite addresses_app by (by eapply Forall2_length). rewrite add_records_a_app, E. cbn [mbind res_bind].
    change (addresses ((p ++ c :: s, text) :: more) (Some addr :: more_os)) with ((p ++ c :: s, addr) :: addresses more more_os).
    cbn [add_records_a]. by rewrite (add_record_a_high db p c s addr Hp Hc).
Qed.

(** Two files, and one with a name that is not ASCII. *)
Definition a_lines_witness : list (list Z * list Z) :=
  [(str "nasa", str "10.0.0.1"); (str "na", str "nowhere"); (str "nasa", str "10.0.0.3")].
Definition mx_lines_witness : list (list Z * list Z) := [(str "org", str "mail.org")].
Definition bad_lines_witness : list (list Z * list Z) := [(str "na" ++ 200 :: [], str "10.0.0.9")].
Definition files_witness (path : list Z) : option (list Z) :=
  if decide (path = str "a") then Some (file_of a_lines_witness)
  else if decide (path = str "mx") then Some (file_of mx_lines_witness)
  else if decide (path = str "bad") then Some (file_of (a_lines_witness ++ bad_lines_witness)) else None.
Definition found_witness : list (option ip4_addr) := [Some (Ip4Addr [10; 0; 0; 1]); None; Some (Ip4Addr [10; 0; 0; 3])].
Lemma dns_server_loads_records_witness :
  (∃ db, dns_server_program files_witness false (Some (str "eth0")) (Some (str "a")) (Some (str "mx")) = Ok (Some (str "eth0", db)) ∧
    database_maps db (records_map (addresses a_lines_witness found_witness)) (records_map mx_lines_witness) ∧
    ∀ n, ascii_ok n → search_record_a db n = Ok (records_map (addresses a_lines_witness found_witness) !! n) ∧
      search_record_mx db n = Ok (records_map mx_lines_witness !! n)) ∧
  dns_server_program files_witness false (Some (str "eth0")) (Some (str "bad")) None = Fault OutOfBounds.
Proof.
  apply (dns_server_loads_records files_witness (str "eth0") (str "a") (str "mx") (str "bad") None a_lines_witness mx_lines_witness []
    found_witness [] (str "na") [] (str "10.0.0.9") 200 (Ip4Addr [10; 0; 0; 9])).
  - repeat apply Forall_cons_2; try apply Forall_nil_2; (split; [split; split; [done|by repeat constructor|done|by repeat constructor]|repeat constructor; lia]).
  - repeat constructor; by vm_compute.
  - repeat apply Forall_cons_2; try apply Forall_nil_2; (split; [split; split; [done|by repeat constructor|done|by repeat constructor]|repeat constructor; lia]).
  - reflexivity.
  - reflexivity.
  - repeat constructor; lia.
  - lia.
  - repeat apply Forall_cons_2; try apply Forall_nil_2; (split; split; [done|by repeat constructor|done|by repeat constructor]).
  - by vm_compute.
  - constructor.
  - reflexivity.
Defined.
(** The last line of a name counts, and a line without an address does not. *)
Example records_last : records_map (addresses a_lines_witness found_witness) !! str "nasa" = Some (Ip4Addr [10; 0; 0; 3]) ∧
  records_map (addresses a_lines_witness found_witness) !! str "na" = None.
Proof. by vm_compute. Qed.
