(* ===== verification/PingMain.v ===== *)
(** The ping program: [src/main/ping/ping.cpp], with the loop of [src/tools/ping/ping_tool.h] run on the accesses that it wires, over
    the host of [Hosts].

    The loop of [Icmp] works on what the calls of [front] gave; here it sends through the access, and what happens while it waits are
    events: a frame arrives at the device, or the 50 ms are over.  The two are related by a refinement: what leaves the
    device is what the loop of [Icmp] sends for the observations that the frames amount to.  The queue never holds more than one
    reply while the loop waits, so that its bound does not matter. *)

From Stdlib Require Import ZArith Lia.
From stdpp Require Import base decidable list numbers gmap.
From S2P Require Import Prelude Text Cursor Encap Routing Ether2 Ip4 Icmp NetAccess Hosts.

#[local] Existing Instance home_gateway.
(** ICMP has no accesses of its own. *)
#[export] Instance icmp_protocol : Protocol (option Z) icmp_header := {|
  proto_recv := icmp_handle_recv;
  gen_filter f _ := f;
  proto_send _ _ := Fault NullDeref; node_packet := no_node; back_filter := no_back
|}.

Section ping_program.
Context {HO : HeapOrder}.
Abbreviation F := (((option mac_addr * option mac_addr * option Z) + (option ip4_addr * option ip4_addr * option Z)) + option Z)%type.
Abbreviation H := ((ethernet2_header + ip4_header) + icmp_header)%type.
Abbreviation store := (NetAccess.store (F := F) (H := H)).
Definition icmp_f (type : option Z) : F := inr type.

Context (net_access_save_send_access : nat → nat → store → nat * store).
Context (save_send_access : ∀ base medium σ, net_access_save_send_access base medium σ =
  let '(s, σ) := net_access_send_make_static (Some medium) σ in net_access_override_send base s σ).
Abbreviation open_surface := (open_ip4_surface (R := option Z) (RH := icmp_header) net_access_save_send_access).

(** * ping.cpp, and the beginning of [ping] *)

(** [ping_main] up to the loop of [ping]: the access to the destination and the queue that listens to it. *)
Definition ping_main (fuel : nat) (surface : nat) (dest_ip : ip4_addr) (mac_of_iface : option mac_addr) (ip_of_iface : option ip4_addr)
    (σ : store) : res (nat * nat * store) :=
  '(ip4_surface, σ) ← open_surface fuel surface mac_of_iface σ;
  ip ← of_option Thrown ip_of_iface;
  '(icmp_surface, σ) ← net_access_single fuel ip4_surface (ip4_f (Some dest_ip) (Some ip) (Some ip_prot_icmp)) σ;
  let '(queue, σ) := alloc (HeaderSink []) σ in
  σ ← connect_recv fuel (Some icmp_surface) queue (icmp_f None) σ;
  Ok (icmp_surface, queue, σ).

(** * The loop on the store *)

(** The program has no listener for new accesses and answers nothing. *)
Definition ping_application : application (F := F) (H := H) := Application (λ _ σ, Ok σ) (λ _ _, Fault NullDeref).

Definition send_echo (fuel icmp_surface : nat) (echo : icmp_header) (σ : store) : res store :=
  o ← icmp_send true echo [];
  pkt ← of_option NullDeref o;
  '(_, σ) ← access_send_data fuel icmp_surface pkt σ; Ok σ.
(** [queue.clear()], and [front] with [pop_front] on what is there. *)
Definition clear_queue (queue : nat) (σ : store) : res store :=
  o ← deref queue σ;
  match o with HeaderSink _ => Ok (write queue (HeaderSink []) σ) | _ => Fault NullDeref end.
Definition take_reply (queue : nat) (σ : store) : res (option icmp_header * store) :=
  o ← deref queue σ;
  match o with
  | HeaderSink [] => Ok (None, σ)
  | HeaderSink ((inr h, _) :: got) => Ok (Some h, write queue (HeaderSink got) σ)
  | _ => Fault NullDeref
  end.

Inductive ping_event := TimedOut | Arrives (frame : list Z).
(** The inner loop after an echo has been sent, and whether it has ended: it still waits when the events are over. *)
Fixpoint ping_wait (fuel device icmp_surface queue : nat) (echo : icmp_header) (events : list ping_event) (σ : store) : res (bool * store) :=
  match events with
  | [] => Ok (false, σ)
  | TimedOut :: events => σ ← send_echo fuel icmp_surface echo σ; ping_wait fuel device icmp_surface queue echo events σ
  | Arrives frame :: events =>
      σ ← receive ping_application fuel device frame σ;
      '(reply, σ) ← take_reply queue σ;
      match reply with
      | None => ping_wait fuel device icmp_surface queue echo events σ
      | Some icmp_reply =>
          if negb (echo_id icmp_reply =? ping_id) then ping_wait fuel device icmp_surface queue echo events σ
          else if ping_failed ping_id icmp_reply then
            σ ← send_echo fuel icmp_surface echo σ; ping_wait fuel device icmp_surface queue echo events σ
          else Ok (true, σ)
      end
  end.
(** The outer loop: in each round the frames that arrive before the queue is cleared, and the events after it. *)
Fixpoint ping_rounds (fuel device icmp_surface queue : nat) (sequence : Z) (rounds : list (list (list Z) * list ping_event)) (σ : store) :
    res (bool * store) :=
  match rounds with
  | [] => Ok (true, σ)
  | (early, events) :: rounds =>
      σ ← receive_all ping_application fuel device early σ;
      σ ← clear_queue queue σ;
      σ ← send_echo fuel icmp_surface (ping_echo sequence) σ;
      '(ended, σ) ← ping_wait fuel device icmp_surface queue (ping_echo sequence) events σ;
      if ended : bool then ping_rounds fuel device icmp_surface queue (u16 (sequence + 1)) rounds σ else Ok (false, σ)
  end.

(** * The specification *)

(** The header that the queue gets of a frame: of an ICMP packet from the destination to this host. *)
Definition ping_in (mac : mac_addr) (ip dest : ip4_addr) (frame : list Z) : res (option icmp_header) :=
  o ← host_in mac frame;
  match o with
  | None => Ok None
  | Some pkt =>
      o ← ip4_handle_recv (Some dest) (Some ip) (Some ip_prot_icmp) pkt;
      match o with
      | None => Ok None
      | Some (_, d) =>
          o ← icmp_handle_recv None d;
          Ok (match o with Some (h, _) => Some h | None => None end)
      end
  end.
(** The observations of the loop. *)
Fixpoint ping_observe (mac : mac_addr) (ip dest : ip4_addr) (events : list ping_event) : res (list (option icmp_header)) :=
  match events with
  | [] => Ok []
  | TimedOut :: events => obs ← ping_observe mac ip dest events; Ok (None :: obs)
  | Arrives frame :: events =>
      o ← ping_in mac ip dest frame;
      obs ← ping_observe mac ip dest events;
      Ok (match o with None => obs | Some h => Some h :: obs end)
  end.
(** The frame of an echo. *)
Definition echo_frame (mac : mac_addr) (ip dest : ip4_addr) (echo : icmp_header) : list Z :=
  host_frame ip_prot_icmp mac ip dest (icmp_bytes (icmp_sealed echo [])).

(** * The program on its store *)

Abbreviation ping_ip4 dest ip := (ip4_f (Some dest) (Some ip) (Some ip_prot_icmp)).
Record wired_ping (a n : nat) (mac : mac_addr) (ip dest : ip4_addr) (got : list (H * list Z)) (σ : store) : Prop := {
  wp_host : wired_host a n mac (Some (n + 14)%nat) σ;
  wp_ip4 : heap σ !! (n + 12)%nat = Some (SingleAccess (n + 11) (ping_ip4 dest ip) (Some (n + 16)%nat));
  wp_ip4_single : heap σ !! (n + 13)%nat = Some (SingleRecv (n + 12));
  wp_ip4_recv : heap σ !! (n + 14)%nat = Some (ProtoRecv (ping_ip4 dest ip) (n + 13));
  wp_queue : heap σ !! (n + 15)%nat = Some (HeaderSink got);
  wp_icmp_recv : heap σ !! (n + 16)%nat = Some (ProtoRecv (icmp_f None) (n + 15))
}.

Lemma ping_main_ok fuel a mac ip dest r σ :
  heap σ !! a = Some (Surface r) → fresh_next σ →
  ∃ σ', ping_main (2 + fuel) a dest (Some mac) (Some ip) σ = Ok (next σ + 12, next σ + 15, σ')%nat ∧
    wired_ping a (next σ) mac ip dest [] σ' ∧ wire σ' = wire σ.
Proof.
  intros Ha Hf. set (n := next σ).
  destruct (open_ip4_surface_ok _ save_send_access (2 + fuel) a mac r σ ltac:(lia) Ha Hf) as (σ1 & E & Hw & Hn & Hwire). fold n in E, Hw, Hn.
  destruct Hw as [Hb _ Hdev Hm H1 H2 H3 H4 H5 H7 H8 H9 H10 H11].
  unfold ping_main. rewrite E. cbn [mbind res_bind of_option].
  unfold net_access_single, connect_recv. cbn [alloc Nat.add heap next wire]. rewrite Hn.
  erewrite set_recv_overridden by (heap_step; exact H11). erewrite set_recv_single by (heap_step; exact H7).
  cbn [mbind res_bind alloc heap next wire write].
  erewrite set_recv_single by (heap_step; reflexivity). cbn [mbind res_bind].
  assert (E13 : (n + 13)%nat = S (n + 12)) by lia. assert (E14 : (n + 14)%nat = S (S (n + 12))) by lia.
  assert (E15 : (n + 15)%nat = S (S (S (n + 12)))) by lia. assert (E16 : (n + 16)%nat = S (S (S (S (n + 12))))) by lia.
  eexists. split; [rewrite E15; reflexivity|].
  split; [|done]. split; cbn [heap next write]; rewrite ?E13, ?E14, ?E15, ?E16;
    [split; cbn [heap next]; rewrite ?E14; heap_step; (done || lia)|heap_step..]; done.
Qed.

(** What changes the queue only. *)
Lemma wired_ping_queue a n mac ip dest got got' σ :
  wired_ping a n mac ip dest got σ → wired_ping a n mac ip dest got' (write (n + 15) (HeaderSink got') σ).
Proof.
  intros [Hw H12 H13 H14 H15 H16]. split; [|cbn [heap write]; by heap_step..].
  eapply wired_host_beyond; [exact Hw|]. split; [done|]. intros y Hy. cbn [heap write]. by heap_step.
Qed.

(** A frame leaves in the queue what [ping_in] says. *)
Definition queued (o : option icmp_header) (d : list Z) : list (H * list Z) :=
  match o with Some h => [(inr h, d)] | None => [] end.
Lemma ping_receives fuel a n mac ip dest got σ frame o :
  wired_ping a n mac ip dest got σ → ping_in mac ip dest frame = Ok o →
  ∃ σ' d, receive ping_application (10 + fuel) a frame σ = Ok σ' ∧ wired_ping a n mac ip dest (got ++ queued o d) σ' ∧ wire σ' = wire σ.
Proof.
  intros Hwp Hi. pose proof Hwp as [Hw H12 H13 H14 H15 H16]. unfold ping_in in Hi. apply res_bind_ok in Hi as (op & Hin & Hi).
  assert (Hstay : ∀ x, match op with Some d => hand_on ping_application (5 + fuel) x d σ = Ok σ | None => True end → x = Some (n + 14)%nat →
    receive ping_application (10 + fuel) a frame σ = Ok σ).
  { intros x Hx ->. apply (host_receive ping_application (5 + fuel) a n mac _ σ σ frame op Hw Hin). by destruct op. }
  destruct op as [pkt|]; [|injection Hi as <-; exists σ, []; cbn [queued]; rewrite app_nil_r; split; [by eapply Hstay|done]].
  apply res_bind_ok in Hi as (oi & Hp & Hi). destruct oi as [[ih d]|].
  2: { injection Hi as <-. exists σ, []. cbn [queued]. rewrite app_nil_r. split; [|done]. eapply Hstay; [|done]. cbn [hand_on Nat.add].
    erewrite handle_recv_proto by exact H14. by rewrite recv_ip4_f, Hp. }
  apply res_bind_ok in Hi as (oc & Hc & [= <-]). destruct oc as [[h d']|].
  - exists (write (n + 15) (HeaderSink (got ++ [(inr h, d')])) σ), d'. split; [|split; [by eapply wired_ping_queue|done]].
    apply (host_receive ping_application (5 + fuel) a n mac _ σ _ frame (Some pkt) Hw Hin). cbn [hand_on Nat.add]. split.
    2: { exact (wp_host _ _ _ _ _ _ _ (wired_ping_queue _ _ _ _ _ _ _ _ Hwp)). }
    erewrite handle_recv_proto by exact H14. rewrite recv_ip4_f, Hp. cbn [mbind res_bind].
    erewrite handle_header_single by done. cbn [hand_on]. erewrite handle_recv_proto by exact H16.
    cbn [proto_recv sum_protocol icmp_f with_header icmp_protocol]. unfold with_header. rewrite Hc. cbn [mbind res_bind].
    by erewrite handle_header_sink by exact H15.
  - exists σ, []. cbn [queued]. rewrite app_nil_r. split; [|done]. eapply Hstay; [|done]. cbn [hand_on Nat.add].
    erewrite handle_recv_proto by exact H14. rewrite recv_ip4_f, Hp. cbn [mbind res_bind].
    erewrite handle_header_single by done. cbn [hand_on]. erewrite handle_recv_proto by exact H16.
    cbn [proto_recv sum_protocol icmp_f with_header icmp_protocol]. unfold with_header. by rewrite Hc.
Qed.

Lemma ping_receive_all fuel a n mac ip dest frames got σ :
  wired_ping a n mac ip dest got σ → Forall (λ frame, ∃ o, ping_in mac ip dest frame = Ok o) frames →
  ∃ σ' got', receive_all ping_application (10 + fuel) a frames σ = Ok σ' ∧ wired_ping a n mac ip dest got' σ' ∧ wire σ' = wire σ.
Proof.
  intros Hw Hall. revert got σ Hw. induction Hall as [|frame frames [o Ho] _ IH]; intros got σ Hw; [by exists σ, got|].
  destruct (ping_receives fuel _ _ _ _ _ _ _ _ _ Hw Ho) as (σ1 & d & E1 & Hw1 & W1). cbn [receive_all]. rewrite (bind_Ok _ _ _ E1).
  destruct (IH _ _ Hw1) as (σ2 & got2 & E2 & Hw2 & W2). exists σ2, got2. by rewrite W2, W1.
Qed.

(** An echo leaves as one frame. *)
Lemma ping_sends fuel a n mac ip dest got σ echo :
  wired_ping a n mac ip dest got σ → mac_ok mac → ip4_ok ip → ip4_ok dest → icmp_header_ok echo →
  ∃ σ', send_echo (6 + fuel) (n + 12) echo σ = Ok σ' ∧ wired_ping a n mac ip dest got σ' ∧
    wire σ' = wire σ ++ [(a, echo_frame mac ip dest echo)].
Proof.
  intros [Hw H12 H13 H14 H15 H16] Hm Hi Hd He.
  pose proof (host_access_sends fuel a n mac _ σ (n + 12) ip_prot_icmp ip dest _ (icmp_bytes (icmp_sealed echo [])) Hw H12 ltac:(done) Hm Hi Hd) as Hsend.
  unfold send_echo. rewrite (icmp_send_ok echo [] He), app_nil_r. cbn [mbind res_bind of_option]. rewrite Hsend. cbn [mbind res_bind].
  eexists. split; [reflexivity|]. split; [|done].
  split; [eapply wired_host_beyond; [exact Hw|by split]|assumption..].
Qed.

Section rounds.
Context (fuel a n : nat) (mac : mac_addr) (ip dest : ip4_addr) (Hm : mac_ok mac) (Hi : ip4_ok ip) (Hd : ip4_ok dest).

(** A result of the inner loop that sends what [ping_await] counts. *)
Definition awaited (echo : icmp_header) (σ : store) (sent : nat) (o : nat * option (list (option icmp_header))) (r : res (bool * store)) : Prop :=
  ∃ σ' k got, r = Ok (bool_decide (is_Some (snd o)), σ') ∧ fst o = (sent + k)%nat ∧
    wired_ping a n mac ip dest got σ' ∧ wire σ' = wire σ ++ replicate k (a, echo_frame mac ip dest echo).
Lemma awaited_wire echo σ σ' sent o r : wire σ' = wire σ → awaited echo σ' sent o r → awaited echo σ sent o r.
Proof. intros E. unfold awaited. by rewrite E. Qed.
Lemma awaited_again echo σ σ' sent o r :
  wire σ' = wire σ ++ [(a, echo_frame mac ip dest echo)] → awaited echo σ' (S sent) o r → awaited echo σ sent o r.
Proof.
  intros E (σ2 & k & got & -> & Hk & Hw & W).
  exists σ2, (S k), got. split; [done|]. split; [lia|]. split; [done|]. rewrite W, E, <- app_assoc. done.
Qed.

Lemma ping_wait_ok echo events : ∀ obs sent σ,
  icmp_header_ok echo → wired_ping a n mac ip dest [] σ → ping_observe mac ip dest events = Ok obs →
  awaited echo σ sent (ping_await ping_id sent obs) (ping_wait (10 + fuel) a (n + 12) (n + 15) echo events σ).
Proof.
  induction events as [|e events IH]; intros obs sent σ He Hw Ho.
  { injection Ho as <-. exists σ, 0%nat, []. split; [done|]. split; [cbn; lia|]. split; [done|]. by rewrite app_nil_r. }
  (* one more echo, whatever the reason *)
  assert (Hagain : ∀ obs' σ, wired_ping a n mac ip dest [] σ → ping_observe mac ip dest events = Ok obs' →
    awaited echo σ sent (ping_await ping_id (S sent) obs')
      (σ' ← send_echo (10 + fuel) (n + 12) echo σ; ping_wait (10 + fuel) a (n + 12) (n + 15) echo events σ')).
  { intros obs' σ0 Hw0 Ho'. destruct (ping_sends (4 + fuel) _ _ _ _ _ _ _ _ Hw0 Hm Hi Hd He) as (σ1 & E1 & Hw1 & W1).
    change (6 + (4 + fuel))%nat with (10 + fuel)%nat in E1. rewrite (bind_Ok _ _ _ E1).
    by eapply awaited_again; [exact W1|apply IH]. }
  destruct e as [|frame]; cbn [ping_observe] in Ho.
  { apply res_bind_ok in Ho as (obs' & Ho' & [= <-]). by apply Hagain. }
  apply res_bind_ok in Ho as (o & Hin & Ho). apply res_bind_ok in Ho as (obs' & Ho' & [= <-]).
  destruct (ping_receives fuel _ _ _ _ _ _ _ _ _ Hw Hin) as (σ1 & d & E1 & Hw1 & W1). cbn [app] in Hw1.
  apply (awaited_wire _ _ _ _ _ _ W1). cbn [ping_wait]. rewrite (bind_Ok _ _ _ E1). unfold take_reply.
  rewrite (deref_ok _ _ _ (wp_queue _ _ _ _ _ _ _ Hw1)).
  destruct o as [h|]; cbn [queued mbind res_bind]; [|by apply IH].
  apply (wired_ping_queue _ _ _ _ _ _ []) in Hw1. cbn [ping_await].
  apply (awaited_wire _ _ (write (n + 15) (HeaderSink []) σ1)); [done|].
  destruct (negb _); [by apply IH|]. destruct (ping_failed _ _); [by apply Hagain|].
  eexists _, 0%nat, []. split; [reflexivity|]. split; [cbn; lia|]. split; [done|]. by rewrite app_nil_r.
Qed.

(** One round: the frames before its echo can be parsed, and the events amount to the observations. *)
Definition round_ok (round : list (list Z) * list ping_event) (obs : list (option icmp_header)) : Prop :=
  Forall (λ frame, ∃ o, ping_in mac ip dest frame = Ok o) (fst round) ∧ ping_observe mac ip dest (snd round) = Ok obs.

Lemma ping_echo_ok sequence : u16_ok sequence → icmp_header_ok (ping_echo sequence).
Proof. intros Hs. repeat split; try done; cbn; unfold echo_content, ping_id; unfold u16_ok in Hs; lia. Qed.

Lemma ping_rounds_cons k device s q sequence early events rounds σ :
  ping_rounds k device s q sequence ((early, events) :: rounds) σ =
  (σ ← receive_all ping_application k device early σ;
   σ ← clear_queue q σ;
   σ ← send_echo k s (ping_echo sequence) σ;
   '(ended, σ) ← ping_wait k device s q (ping_echo sequence) events σ;
   if ended : bool then ping_rounds k device s q (u16 (sequence + 1)) rounds σ else Ok (false, σ)).
Proof. reflexivity. Qed.
Lemma clear_queue_ok q got σ : heap σ !! q = Some (HeaderSink got) → clear_queue q σ = Ok (write q (HeaderSink []) σ).
Proof. intros E. unfold clear_queue. by rewrite (deref_ok _ _ _ E). Qed.
Lemma ping_rounds_ok rounds obs : Forall2 round_ok rounds obs → ∀ sequence got σ,
  u16_ok sequence → wired_ping a n mac ip dest got σ →
  ∃ σ', ping_rounds (10 + fuel) a (n + 12) (n + 15) sequence rounds σ = Ok (snd (ping_loop sequence obs), σ') ∧
    wire σ' = wire σ ++ (pair a ∘ echo_frame mac ip dest <$> fst (ping_loop sequence obs)).
Proof.
  induction 1 as [|[early events] o rounds obs [He Ho] Hall IH]; intros sequence got σ Hs Hw.
  { exists σ. cbn. by rewrite app_nil_r. }
  pose proof (ping_echo_ok _ Hs) as Hecho.
  destruct (ping_receive_all fuel _ _ _ _ _ _ _ _ Hw He) as (σ1 & got1 & E1 & Hw1 & W1).
  pose proof (wired_ping_queue _ _ _ _ _ _ [] _ Hw1) as Hw2.
  destruct (ping_sends (4 + fuel) _ _ _ _ _ _ _ _ Hw2 Hm Hi Hd Hecho) as (σ3 & E3 & Hw3 & W3).
  change (6 + (4 + fuel))%nat with (10 + fuel)%nat in E3.
  rewrite ping_rounds_cons, (bind_Ok _ _ _ E1), (bind_Ok _ _ _ (clear_queue_ok _ _ _ (wp_queue _ _ _ _ _ _ _ Hw1))), (bind_Ok _ _ _ E3).
  pose proof (ping_wait_ok _ events o 1 σ3 Hecho Hw3 Ho) as Hwait.
  cbn [ping_loop]. destruct Hwait as (σ4 & k & got4 & E4 & Hk & Hw4 & W4).
  destruct (ping_await _ _ _) as [sent [rest|]]; cbn [fst snd] in *; subst sent; rewrite (bind_Ok _ _ _ E4).
  - rewrite bool_decide_true by done.
    destruct (IH (u16 (sequence + 1)) got4 σ4 ltac:(apply u16_in_range) Hw4) as (σ5 & E5 & W5).
    destruct (ping_loop _ _) as [echos ended]. cbn [fst snd] in *. exists σ5. split; [done|]. rewrite W5, W4, W3. cbn [write wire]. rewrite W1.
    by rewrite fmap_app, fmap_replicate, <- !app_assoc.
  - exists σ4. split; [done|]. rewrite W4, W3. cbn [write wire]. by rewrite W1, fmap_replicate, <- app_assoc.
Qed.
End rounds.

(** * Properties *)

(** C5: the ping program refines its loop. Wired on a host, whatever frames that can be parsed arrive at the device (the parsers read past the end of
    shorter ones, and then the program is undefined) and whenever the waiting times out, what
    leaves the device is one frame from this host to the destination for each echo of the loop of [Icmp], in its order, for the
    observations that the frames amount to (the replies of the destination to this host, and the timeouts), also when a round has not come to its end;
    and the program ends after its rounds exactly if that loop does. *)
Theorem ping_main_refines (mac : mac_addr) (ip dest : ip4_addr) (a fuel : nat) (r : option nat) (σ : store)
    (rounds : list (list (list Z) * list ping_event)) (obs : list (list (option icmp_header))) :
  mac_ok mac → ip4_ok ip → ip4_ok dest → heap σ !! a = Some (Surface r) → fresh_next σ → (10 ≤ fuel)%nat →
  Forall2 (round_ok mac ip dest) rounds obs →
  ∃ icmp_surface queue σ1 σ2, ping_main fuel a dest (Some mac) (Some ip) σ = Ok (icmp_surface, queue, σ1) ∧
    ping_rounds fuel a icmp_surface queue 10 rounds σ1 = Ok (snd (ping obs), σ2) ∧
    wire σ2 = wire σ ++ (pair a ∘ echo_frame mac ip dest <$> fst (ping obs)).
Proof.
  intros Hm Hi Hd Ha Hf Hfuel Hall. destruct (ping_main_ok (fuel - 2) a mac ip dest r σ Ha Hf) as (σ1 & E1 & Hw & W1).
  replace (2 + (fuel - 2))%nat with fuel in E1 by lia.
  destruct (ping_rounds_ok (fuel - 10) a _ mac ip dest Hm Hi Hd rounds obs Hall 10 [] σ1 ltac:(unfold u16_ok; lia) Hw) as (σ2 & E2 & W2).
  replace (10 + (fuel - 10))%nat with fuel in E2 by lia. eexists _, _, σ1, σ2. split; [exact E1|]. split; [exact E2|]. by rewrite W2, W1.
Qed.
End ping_program.

#[local] Existing Instance allocation_order.

(** A reply of the destination passed on by the gateway. *)
Definition reply_frame_witness (reply : icmp_header) : list Z :=
  ethernet2_bytes (Ethernet2Header gateway_mac (mac_witness 1) ethertype_ip4) ++
  drop 14 (host_frame ip_prot_icmp (mac_witness 2) (ip_witness 2) (ip_witness 1) (icmp_bytes (icmp_sealed reply []))).
Definition foreign_reply : icmp_header := IcmpHeader icmp_echoreply 0 0 7.
Definition good_reply : icmp_header := IcmpHeader icmp_echoreply 0 0 (echo_content ping_id 10).
(** A timeout, then a reply with a foreign identifier, then a good one; in the second round a good one comes too early, then a frame
    for another host. *)
Definition rounds_witness : list (list (list Z) * list ping_event) :=
  [([], [TimedOut; Arrives (reply_frame_witness foreign_reply); Arrives (reply_frame_witness good_reply)]);
   ([reply_frame_witness good_reply],
    [Arrives (ethernet2_bytes (Ethernet2Header gateway_mac (mac_witness 3) ethertype_ip4)); Arrives (reply_frame_witness good_reply)])].
Definition obs_witness : list (list (option icmp_header)) :=
  [[None; Some (icmp_sealed foreign_reply []); Some (icmp_sealed good_reply [])]; [Some (icmp_sealed good_reply [])]].
Lemma rounds_witness_ok : Forall2 (round_ok (mac_witness 1) (ip_witness 1) (ip_witness 2)) rounds_witness obs_witness.
Proof.
  constructor; [|constructor; [|constructor]]; (split; [|vm_compute; reflexivity]); [constructor|].
  constructor; [|constructor]. eexists. vm_compute. reflexivity.
Qed.
Lemma ping_obs_witness : ping obs_witness = (ping_echo <$> [10; 10; 11], true).
Proof. vm_compute. reflexivity. Qed.
(** A round that still waits has sent its echos. *)
Example ping_unfinished : ping [[None; None]] = (ping_echo <$> [10; 10; 10], false).
Proof. reflexivity. Qed.

Lemma ping_main_refines_witness :
  ∃ icmp_surface queue σ1 σ2, ping_main save_witness 10 0 (ip_witness 2) (Some (mac_witness 1)) (Some (ip_witness 1))
      (Store {[0%nat := Surface None]} 1 []) = Ok (icmp_surface, queue, σ1) ∧
    ping_rounds 10 0 icmp_surface queue 10 rounds_witness σ1 = Ok (true, σ2) ∧
    wire σ2 = [] ++ (pair 0%nat ∘ echo_frame (mac_witness 1) (ip_witness 1) (ip_witness 2) <$> (ping_echo <$> [10; 10; 11])).
Proof.
  destruct (ping_main_refines save_witness (λ _ _ _, eq_refl) (mac_witness 1) (ip_witness 1) (ip_witness 2) 0 10 None
    (Store {[0%nat := Surface None]} 1 []) rounds_witness obs_witness) as (s & q & σ1 & σ2 & E1 & E2 & W);
    [split; [reflexivity|cbn; solve_bytes]..|done|apply fresh_single|lia|apply rounds_witness_ok|].
  rewrite ping_obs_witness in E2, W. exists s, q, σ1, σ2. split; [exact E1|]. split; [exact E2|exact W].
Defined.
