(* ===== verification/TracerouteMain.v ===== *)
(** The traceroute program, [src/main/traceroute/traceroute.cpp]: the accesses that [traceroute_main] wires, on the host of [Hosts].

    It hands them to an overload of [traceroute_tool::traceroute] that does not exist, with two names that it does not declare; what is
    shown is what the access that it hands over sends.  The IPv4 headers are those of the access, always with the time to live 255, so that
    nothing sent through it can make a router on the way answer as the loops of [Traceroute] need. *)

From Stdlib Require Import ZArith Lia.
From stdpp Require Import base decidable list numbers gmap.
From S2P Require Import Prelude Cursor Encap Routing Ether2 Ip4 Icmp NetAccess Hosts PingMain.

#[local] Existing Instance trace_gateway.

Section traceroute_program.
Context {HO : HeapOrder}.
Abbreviation F := (((option mac_addr * option mac_addr * option Z) + (option ip4_addr * option ip4_addr * option Z)) + option Z)%type.
Abbreviation H := ((ethernet2_header + ip4_header) + icmp_header)%type.
Abbreviation store := (NetAccess.store (F := F) (H := H)).
Context (net_access_save_send_access : nat → nat → store → nat * store).
Context (save_send_access : ∀ base medium σ, net_access_save_send_access base medium σ =
  let '(s, σ) := net_access_send_make_static (Some medium) σ in net_access_override_send base s σ).

(** [traceroute_main] up to the call of the tool: the access to the destination. *)
Definition traceroute_main (fuel : nat) (surface : nat) (dest_ip : ip4_addr) (mac_of_iface : option mac_addr) (ip_of_iface : option ip4_addr)
    (σ : store) : res (nat * store) :=
  '(ip4_surface, σ) ← open_ip4_surface (R := option Z) (RH := icmp_header) net_access_save_send_access fuel surface mac_of_iface σ;
  ip ← of_option Thrown ip_of_iface;
  net_access_single fuel ip4_surface (ip4_f (Some dest_ip) (Some ip) (Some ip_prot_icmp)) σ.

(** * Lemmas *)

(** The host, and the access on its surface that the program ends with. *)
Record wired_trace (a n : nat) (mac : mac_addr) (ip dest : ip4_addr) (σ : store) : Prop := {
  wt_host : wired_host a n mac (Some (n + 14)%nat) σ;
  wt_ip4 : heap σ !! (n + 12)%nat = Some (SingleAccess (n + 11) (ip4_f (Some dest) (Some ip) (Some ip_prot_icmp)) None);
  wt_ip4_single : heap σ !! (n + 13)%nat = Some (SingleRecv (n + 12));
  wt_ip4_recv : heap σ !! (n + 14)%nat = Some (ProtoRecv (ip4_f (Some dest) (Some ip) (Some ip_prot_icmp)) (n + 13))
}.
Lemma traceroute_main_ok fuel a mac ip dest r σ :
  heap σ !! a = Some (Surface r) → fresh_next σ →
  ∃ σ', traceroute_main (2 + fuel) a dest (Some mac) (Some ip) σ = Ok (next σ + 12, σ')%nat ∧
    wired_trace a (next σ) mac ip dest σ' ∧ wire σ' = wire σ.
Proof using save_send_access.
  intros Ha Hf. set (n := next σ).
  destruct (open_ip4_surface_ok _ save_send_access (2 + fuel) a mac r σ ltac:(lia) Ha Hf) as (σ1 & E & Hw & Hn & Hwire). fold n in E, Hw, Hn.
  destruct Hw as [Hb _ Hdev Hm H1 H2 H3 H4 H5 H7 H8 H9 H10 H11].
  unfold traceroute_main. rewrite E. cbn [mbind res_bind of_option].
  unfold net_access_single, connect_recv. cbn [alloc Nat.add heap next wire]. rewrite Hn.
  erewrite set_recv_overridden by (heap_step; exact H11). erewrite set_recv_single by (heap_step; exact H7).
  cbn [mbind res_bind alloc heap next wire write].
  assert (E13 : (n + 13)%nat = S (n + 12)) by lia. assert (E14 : (n + 14)%nat = S (S (n + 12))) by lia.
  eexists. split; [reflexivity|]. split; [|done]. split; cbn [heap next write]; rewrite ?E13, ?E14;
    [split; cbn [heap next]; rewrite ?E14; heap_step; (done || lia)|heap_step..]; done.
Qed.

(** * Properties *)

(** Whatever is sent through the access that the program wires leaves the device in a frame to its gateway, in a packet from the
    interface to the destination whose time to live is 255. *)
Theorem traceroute_access_sends (mac : mac_addr) (ip dest : ip4_addr) (a fuel : nat) (r : option nat) (σ : store) (data : list Z) :
  mac_ok mac → ip4_ok ip → ip4_ok dest → heap σ !! a = Some (Surface r) → fresh_next σ → (6 ≤ fuel)%nat →
  ∃ icmp_surface σ1 σ2 h, traceroute_main fuel a dest (Some mac) (Some ip) σ = Ok (icmp_surface, σ1) ∧
    access_send_data fuel icmp_surface data σ1 = Ok (OK, σ2) ∧
    wire σ2 = wire σ ++ [(a, ethernet2_bytes (Ethernet2Header mac (MacAddr [0; 9; 15; 9; 0; 1]) ethertype_ip4) ++ ip4_bytes h ++ data)] ∧
    src_addr h = ip ∧ dest_addr h = dest ∧ prot h = ip_prot_icmp ∧ ttl h = 255.
Proof using save_send_access.
  intros Hm Hi Hd Ha Hf Hfu. replace fuel with (2 + (fuel - 2))%nat by lia.
  destruct (traceroute_main_ok (fuel - 2) a mac ip dest r σ Ha Hf) as (σ1 & E & [Hw H12 _ _] & Ew). rewrite E.
  replace (2 + (fuel - 2))%nat with (6 + (fuel - 6))%nat by lia.
  pose proof (host_access_sends (fuel - 6) a (next σ) mac _ σ1 _ ip_prot_icmp ip dest _ data Hw H12 ltac:(done) Hm Hi Hd) as Hs.
  eexists _, _, _, (ip4_sealed (ip4_access_header ip dest (Some ip_prot_icmp) data)). split; [reflexivity|]. split; [exact Hs|].
  split; [cbn [wire]; rewrite Ew; done|done].
Qed.
End traceroute_program.

#[local] Existing Instance allocation_order.
