(* ===== verification/PtpMain.v ===== *)
(** The netcat program over the path protocol: [src/main/netcat/netcat_local_ptp.cpp], on the store of [NetAccess].

    On each side a node of the path protocol takes the packets of the device; what has reached its end is handed on again with its
    header, to a single access at the client, and at the server to the generator, which opens an access back along the
    path, lets the program set a receiver that prints and answers, and is then the only owner of the access. *)

From Stdlib Require Import ZArith Lia String.
From stdpp Require Import base decidable list numbers gmap sorting.
From S2P Require Import Prelude Text Encap Ptp NetAccess Netcat.

(** What the accesses and receivers of the path protocol are made with: the actions of a single access (its receiver takes what has
    reached the end of its path), or the address of a node. *)
Inductive ptp_filter := PathTo (actions : list ptp_action) | NodeOf (my_addr : list Z).

#[export] Instance ptp_protocol : Protocol ptp_filter ptp_header := {|
  proto_recv f d :=
    match f with
    | PathTo _ => ptp_handle_recv ptp_is_endpoint_end d
    | NodeOf _ => o ← ptp_handle_recv_with_original (λ _, Ok true) d; Ok (match o with Some (_, h, d) => Some (h, d) | None => None end)
    end;
  gen_filter f _ := f;
  proto_send f d := match f with PathTo l => ptp_single_send true l d | NodeOf _ => Fault NullDeref end;
  node_packet f set h d := match f with NodeOf a => ptp_node_packet (Node a set) h d | PathTo _ => Fault NullDeref end;
  back_filter h := l ← create_reverse_actions (actions h); Ok (PathTo l)
|}.

#[local] Abbreviation store := (NetAccess.store (F := ptp_filter) (H := ptp_header)).

Section ptp_program.
Context {HO : HeapOrder}.

(** * ptp_protocol.h, ptp_protocol.cpp *)

(** The constructor of [node], its field [my_addr], and [get_recv_endpoint_end]. *)
Definition new_node (fuel recv : nat) (σ : store) : res (nat * store) :=
  let '(node, σ) := alloc (NodeAccess recv (NodeOf []) None) σ in
  let '(r, σ) := alloc (NodeRecv node) σ in
  σ ← connect_recv fuel (Some recv) r (NodeOf []) σ; Ok (node, σ).
Definition set_my_addr (node : nat) (addr : list Z) (σ : store) : res store :=
  o ← deref node σ;
  match o with NodeAccess recv _ e => Ok (write node (NodeAccess recv (NodeOf addr) e) σ) | _ => Fault NullDeref end.
Definition get_recv_endpoint_end (node : nat) (σ : store) : nat * store := alloc (NodeEnd node) σ.

(** [connect_net_access_generator_listener]. *)
Definition connect_path_generator (fuel recv send : nat) (listener : bool) (σ : store) : res store :=
  '(splits, σ) ← multi_net_access_recv_split fuel recv 2 σ;
  match splits with
  | [base_recv; generate_recv] =>
      let '(g, σ) := alloc (PathGeneratorRecv generate_recv send listener) σ in
      connect_recv fuel (Some base_recv) g (PathTo []) σ
  | _ => Fault OutOfBounds
  end.

(** * netcat_local_ptp.cpp *)

Definition ptp_response : list Z := str "hello back from the server" ++ [0].
(** [handle_new_net_access]: a receiver that prints and answers. *)
Definition netcat_ptp_application : application (F := ptp_filter) (H := ptp_header) :=
  Application (λ a σ, let '(r, σ) := alloc (Replier a ptp_response []) σ in set_recv_access 1 a (Some r) σ) (λ _ _, Fault NullDeref).

(** The node of either side, at the address of the program. *)
Definition open_node (fuel multi surface : nat) (addr : list Z) (σ : store) : res (nat * store) :=
  let '(g, σ) := generate_net_access multi surface σ in
  '(node, σ) ← new_node fuel g σ;
  my_addr ← str_to_ptp_addr addr;
  my_addr ← of_option Thrown my_addr;
  σ ← set_my_addr node my_addr σ; Ok (node, σ).
(** [netcat_server_main] up to its loop, which reads lines and does nothing with them. *)
Definition netcat_ptp_server_main (fuel surface : nat) (σ : store) : res store :=
  '(multi, σ) ← multi_net_access fuel surface σ;
  '(node, σ) ← open_node fuel multi surface (str "33.44.55") σ;
  let '(recv_endpoint, σ) := get_recv_endpoint_end node σ in
  let '(send, σ) := generate_net_access multi surface σ in
  connect_path_generator fuel recv_endpoint send true σ.
(** [netcat_client_main] up to its loop, which is [netcat_client_loop]: the access and the receiver. *)
Definition netcat_ptp_client_main (fuel surface : nat) (action_list : list ptp_action) (σ : store) : res (nat * nat * store) :=
  '(multi, σ) ← multi_net_access fuel surface σ;
  '(node, σ) ← open_node fuel multi surface (str "11.22") σ;
  let '(ptp_recv_endpoint, σ) := get_recv_endpoint_end node σ in
  let '(send, σ) := generate_net_access multi surface σ in
  let '(tmp, σ) := net_access_make_from_send_recv send ptp_recv_endpoint σ in
  '(data_surface, σ) ← net_access_single fuel tmp (PathTo action_list) σ;
  let '(client, σ) := alloc (Sink []) σ in
  σ ← set_recv_access fuel data_surface (Some client) σ; Ok (data_surface, client, σ).

(** What [main] does; the parser of network ids may not end, whatever the [fuel]. *)
Definition netcat_ptp_main (fuel : nat) (vm : options) : res (run (A := list ptp_action)) :=
  if opt_help vm then Ok Usage
  else
    match opt_iface vm with
    | None => Ok Usage
    | Some iface =>
        if opt_server vm then Ok (RunServer iface)
        else if opt_client vm then
          match opt_dest vm with
          | None => Ok Usage
          | Some dest =>
              tmp ← str_to_ptp_action_list fuel dest;
              match tmp with Some action_list => Ok (RunClient iface action_list) | None => Ok InvalidDest end
          end
        else Ok Usage
    end.

(** * The specification *)

Definition server_addr : list Z := [0x33; 0x44; 0x55].
Definition client_addr : list Z := [0x11; 0x22].
Lemma server_addr_text : str_to_ptp_addr (str "33.44.55") = Ok (Some server_addr).
Proof. vm_compute. reflexivity. Qed.
Lemma client_addr_text : str_to_ptp_addr (str "11.22") = Ok (Some client_addr).
Proof. vm_compute. reflexivity. Qed.

(** What the server prints and answers for a packet that arrives. *)
Definition ptp_server_reply (pkt : list Z) : res (option (ptp_header * list Z * list Z)) :=
  o ← node_handle_recv (Node server_addr true) pkt;
  match o with
  | None => Ok None
  | Some buff =>
      o ← ptp_handle_recv ptp_is_endpoint_end buff;
      match o with
      | None => Ok None
      | Some (h, d) =>
          l ← create_reverse_actions (actions h);
          o ← ptp_single_send true l ptp_response;
          reply ← of_option NullDeref o; Ok (Some (h, d, reply))
      end
  end.

(** * A node on its store *)

(** The objects of a node made at [n] over the device [a]; [x] receives what has reached its end. *)
Record wired_node (a n : nat) (addr : list Z) (x : option nat) (σ : store) : Prop := {
  wn_before : (a < n)%nat;
  wn_next : (n + 5 ≤ next σ)%nat;
  wn_device : heap σ !! a = Some (Surface (Some n));
  wn_multi : heap σ !! n = Some (MultiRecv [n + 4]%nat);
  wn_part : heap σ !! (n + 1)%nat = Some (GeneratedAccess n a (Some (n + 4)%nat));
  wn_node : heap σ !! (n + 2)%nat = Some (NodeAccess (n + 1) (NodeOf addr) x);
  wn_recv : heap σ !! (n + 3)%nat = Some (NodeRecv (n + 2));
  wn_proto : heap σ !! (n + 4)%nat = Some (ProtoRecv (NodeOf []) (n + 3))
}.
Lemma wired_node_beyond a n addr x σ σ' : wired_node a n addr x σ → (next σ ≤ next σ')%nat →
  (∀ y, (y < n + 5)%nat → heap σ' !! y = heap σ !! y) → wired_node a n addr x σ'.
Proof. intros [] Hn Hh. split; rewrite ?Hh by lia; (done || lia). Qed.

(** Writing [n + i] as the allocations do. *)
Lemma add_S (n i : nat) : (n + S i)%nat = S (n + i).
Proof. lia. Qed.
Ltac plain n := rewrite ?(add_S n), ?(Nat.add_0_r n).

Lemma open_node_ok fuel a addr text r σ :
  str_to_ptp_addr text = Ok (Some addr) → heap σ !! a = Some (Surface r) → fresh_next σ →
  ∃ σ1 σ2, multi_net_access (S fuel) a σ = Ok (next σ, σ1) ∧ open_node (S fuel) (next σ) a text σ1 = Ok (next σ + 2, σ2)%nat ∧
    wired_node a (next σ) addr None σ2 ∧ next σ2 = (next σ + 5)%nat ∧ wire σ2 = wire σ.
Proof.
  intros Ht Ha Hf. assert (Hlt : (a < next σ)%nat) by (apply Hf; by rewrite Ha). set (n := next σ) in *.
  unfold multi_net_access. cbn [alloc set_recv_access]. fold n. unfold deref. heap_step. rewrite Ha. heap_step.
  eexists _, _. split; [reflexivity|]. split.
  { unfold open_node, generate_net_access, new_node, connect_recv. cbn [alloc heap next wire set_recv_access]. unfold deref. heap_step.
    rewrite bool_decide_false by naive_solver. cbn [mbind res_bind add_recv_listener]. unfold deref. heap_step. rewrite Ht. heap_step.
    unfold set_my_addr, deref. heap_step. replace (n + 2)%nat with (S (S n)) by lia. reflexivity. }
  split; [|split; [cbn [next write]; lia|done]]. split; cbn [heap next write]; plain n; heap_step; done || lia.
Qed.

(** A packet is handed to the node alone. *)
Lemma node_call prog fuel a n addr x σ pkt o :
  wired_node a n addr x σ → node_handle_recv (Node addr (bool_decide (x ≠ None))) pkt = Ok o →
  handle_recv prog (2 + fuel) (n + 4) pkt σ = match o with Some buff => hand_on prog fuel x buff σ | None => Ok σ end.
Proof.
  intros [] Hn. unfold node_handle_recv in Hn. apply res_bind_ok in Hn as (oh & Hp & Hn). cbn [Nat.add].
  erewrite handle_recv_proto by done. cbn [proto_recv ptp_protocol]. rewrite Hp. cbn [mbind res_bind].
  destruct oh as [[[d0 h] d]|]; [|by injection Hn as <-]. by erewrite handle_header_node by done.
Qed.
Lemma node_receives prog fuel a n addr x σ pkt :
  wired_node a n addr x σ →
  match handle_recv prog (2 + fuel) (n + 4) pkt σ with
  | Ok σ' => heap σ' !! n = heap σ !! n → receive prog (4 + fuel) a pkt σ = Ok σ'
  | Fault f => receive prog (4 + fuel) a pkt σ = Fault f
  end.
Proof.
  intros []. unfold receive. rewrite (deref_ok _ _ _ wn_device0). cbn [mbind res_bind Nat.add]. rewrite (handle_recv_multi _ _ _ _ _ _ wn_multi0). cbn [head].
  destruct (handle_recv _ _ _ _ _) as [σ'|f] eqn:E.
  - intros Hn. rewrite wn_multi0 in Hn. erewrite multi_loop_some by done.
    pose proof (iterator_next_ok [] (n + 4) [] ltac:(by repeat constructor)) as Hi. cbn [app head] in Hi. by rewrite Hi.
  - by apply multi_loop_fault.
Qed.

(** * The server on its store *)

Record wired_ptp_server (a n : nat) (σ : store) : Prop := {
  ps_node : wired_node a n server_addr (Some (n + 7)%nat) σ;
  ps_next : next σ = (n + 12)%nat;
  ps_send : heap σ !! (n + 6)%nat = Some (GeneratedAccess n a None);
  ps_splits : heap σ !! (n + 7)%nat = Some (MultiRecv [n + 11]%nat);
  ps_generate : heap σ !! (n + 9)%nat = Some (SplitRecv (n + 7) None);
  ps_generator : heap σ !! (n + 10)%nat = Some (PathGeneratorRecv (n + 9) (n + 6) true);
  ps_recv : heap σ !! (n + 11)%nat = Some (ProtoRecv (PathTo []) (n + 10))
}.

Lemma netcat_ptp_server_main_ok fuel a r σ :
  heap σ !! a = Some (Surface r) → fresh_next σ →
  ∃ σ', netcat_ptp_server_main (S fuel) a σ = Ok σ' ∧ wired_ptp_server a (next σ) σ' ∧ wire σ' = wire σ.
Proof.
  intros Ha Hf. set (n := next σ).
  destruct (open_node_ok fuel a server_addr (str "33.44.55") r σ server_addr_text Ha Hf) as (σ1 & σ2 & E1 & E2 & Hw & Hn & W).
  fold n in E1, E2, Hw, Hn.
  unfold netcat_ptp_server_main. rewrite E1. cbn [mbind res_bind]. rewrite E2. cbn [mbind res_bind].
  destruct Hw as [H1 H2 H3 H4 H5 H6 H7 H8].
  unfold get_recv_endpoint_end, generate_net_access, connect_path_generator, multi_net_access_recv_split. cbn [alloc heap next wire].
  rewrite Hn. plain n. erewrite set_recv_node_end by (heap_step; (reflexivity || rewrite <- H6; plain n; done)).
  cbn [mbind res_bind split_loop alloc heap next wire write app]. unfold connect_recv. cbn [alloc heap next wire].
  erewrite set_recv_split by (heap_step; reflexivity).
  eexists. split; [reflexivity|]. split; [|done]. revert H3 H4 H5 H6 H7 H8. plain n. intros H3 H4 H5 H6 H7 H8.
  split; cbn [heap next write]; plain n; [split; cbn [heap next write]; plain n; heap_step; done || lia|heap_step; done..].
Qed.

(** The generator's listener opens the access, hands it the data, and it answers; then it is gone, but its receiver
    still listens. *)
Record answered (a n : nat) (h : ptp_header) (l : list ptp_action) (d reply : list Z) (σ σ' : store) : Prop := {
  an_wire : wire σ' = wire σ ++ [(a, reply)];
  an_printed : heap σ' !! (n + 17)%nat = Some (Replier (n + 14) ptp_response [d]);
  an_gone : heap σ' !! (n + 14)%nat = None;
  an_node : wired_node a n server_addr (Some (n + 7)%nat) σ';
  an_splits : heap σ' !! (n + 7)%nat = Some (MultiRecv (set_insert (n + 16) [n + 11]%nat));
  an_recv : heap σ' !! (n + 16)%nat = Some (ProtoRecv (PathTo l) (n + 15));
  an_single : heap σ' !! (n + 15)%nat = Some (SingleRecv (n + 14))
}.

Lemma server_generates fuel a n h l d reply σ :
  wired_ptp_server a n σ → create_reverse_actions (actions h) = Ok l → ptp_single_send true l ptp_response = Ok (Some reply) →
  ∃ σ', handle_header netcat_ptp_application (5 + fuel) (n + 10) h d σ = Ok σ' ∧ answered a n h l d reply σ σ'.
Proof.
  intros [Hw Hn H6 H7 H9 H10 H11] Hl Hr. pose proof Hw as [Hb _ Hdev _ _ _ _ _].
  eexists. split.
  { cbn [Nat.add]. eapply handle_header_path_generator.
    - exact H10.
    - erewrite send_access_step by exact H6. cbn match. erewrite send_access_step by exact Hdev. reflexivity.
    - cbn [back_filter ptp_protocol]. rewrite Hl. reflexivity.
    - unfold net_access_send_make_static, net_access_make_from_send_recv, net_access_single, connect_recv. cbn [alloc snd next heap wire].
      erewrite set_recv_composed by by heap_step. erewrite set_recv_split; [reflexivity|heap_step; exact H9|heap_step; exact H7].
    - cbn [netcat_ptp_application handle_new_net_access alloc next heap wire write]. erewrite set_recv_single by by heap_step. reflexivity.
    - cbn [heap write]. heap_step. reflexivity.
    - erewrite handle_recv_replier; [reflexivity|cbn [heap write]; heap_step; reflexivity|].
      unfold access_send_data. erewrite send_access_step by (cbn [heap write]; heap_step; reflexivity). cbn [mbind res_bind of_option].
      erewrite medium_send_single; [|cbn [heap write]; heap_step; reflexivity|exact Hr|].
      2: { erewrite send_access_step by (cbn [heap write]; heap_step; reflexivity). cbn match.
           erewrite send_access_step by (cbn [heap write]; heap_step; reflexivity). cbn match. reflexivity. }
      erewrite medium_send_surface by (cbn [heap write]; heap_step; exact Hdev). reflexivity. }
  rewrite Hn. split; cbn [heap wire write destroy]; [plain n|plain n|plain n|idtac|plain n|plain n|plain n].
  - done.
  - rewrite lookup_delete_ne by lia. by heap_step.
  - by rewrite lookup_delete_eq.
  - eapply wired_node_beyond; [exact Hw|rewrite Hn; cbn [next write destroy]; lia|]. intros y Hy. cbn [heap write destroy]. rewrite lookup_delete_ne by lia. by heap_step.
  - rewrite lookup_delete_ne by lia. by heap_step.
  - rewrite lookup_delete_ne by lia. by heap_step.
  - rewrite lookup_delete_ne by lia. by heap_step.
Qed.

(** The receiver of the access that is gone. *)
Lemma answered_dangles fuel a n h l d reply σ σ' buff h' d' : answered a n h l d reply σ σ' →
  ptp_handle_recv ptp_is_endpoint_end buff = Ok (Some (h', d')) →
  handle_recv netcat_ptp_application (S (S fuel)) (n + 16) buff σ' = Fault NullDeref.
Proof.
  intros [_ _ Hgone _ _ Hp Hsg] Hend. erewrite handle_recv_proto by exact Hp. cbn [proto_recv ptp_protocol]. rewrite Hend.
  cbn [mbind res_bind handle_header]. rewrite (deref_ok _ _ _ Hsg). cbn [mbind res_bind]. unfold deref. by rewrite Hgone.
Qed.

(** A packet that the server answers: the generator's listener does so; the loop over the receivers of the node's end then
    comes to the receiver of the access that is gone, if that is behind the listener in the order of the addresses. *)
Lemma ptp_server_receive fuel a n pkt o σ :
  wired_ptp_server a n σ → ptp_server_reply pkt = Ok o →
  match o with
  | None => receive netcat_ptp_application (12 + fuel) a pkt σ = Ok σ
  | Some (h, d, reply) =>
      ∃ l σ', handle_header netcat_ptp_application (5 + fuel) (n + 10) h d σ = Ok σ' ∧ answered a n h l d reply σ σ' ∧
        receive netcat_ptp_application (12 + fuel) a pkt σ = if decide (ptr_lt (n + 16) (n + 11)) then Ok σ' else Fault NullDeref
  end.
Proof.
  intros Hs Ho. pose proof Hs as [Hw Hn H6 H7 H9 H10 H11]. unfold ptp_server_reply in Ho.
  apply res_bind_ok in Ho as (ob & Hnode & Ho).
  pose proof (node_call netcat_ptp_application (8 + fuel) a n server_addr (Some (n + 7)%nat) σ pkt ob Hw Hnode) as Hc.
  pose proof (node_receives netcat_ptp_application (8 + fuel) a n server_addr _ σ pkt Hw) as Hrec. rewrite Hc in Hrec. clear Hc.
  change (4 + (8 + fuel))%nat with (12 + fuel)%nat in Hrec.
  destruct ob as [buff|]; [|injection Ho as <-; by apply Hrec]. cbn [hand_on Nat.add] in Hrec.
  erewrite handle_recv_multi in Hrec by exact H7. cbn [head] in Hrec.
  apply res_bind_ok in Ho as (oh & Hend & Ho).
  assert (Hfirst : handle_recv netcat_ptp_application (S (5 + fuel)) (n + 11) buff σ =
    match oh with Some (h, d) => handle_header netcat_ptp_application (5 + fuel) (n + 10) h d σ | None => Ok σ end).
  { erewrite handle_recv_proto by exact H11. cbn [proto_recv ptp_protocol]. rewrite Hend. by destruct oh as [[]|]. }
  cbn [Nat.add] in Hfirst, Hrec. destruct oh as [[h d]|].
  - apply res_bind_ok in Ho as (l & Hl & Ho). apply res_bind_ok in Ho as (orp & Hr & Ho).
    apply res_bind_ok in Ho as (reply & ->%of_option_ok & [= <-]).
    destruct (server_generates fuel a n h l d reply σ Hs Hl Hr) as (σ' & E & Ha). exists l, σ'. split; [exact E|]. split; [exact Ha|].
    cbn [Nat.add] in E. rewrite E in Hfirst.
    pose proof (set_insert_sorted (n + 16) [n + 11]%nat ltac:(by repeat constructor)) as Hsort. pose proof (an_splits _ _ _ _ _ _ _ _ Ha) as Hsp.
    revert Hsort Hsp. rewrite set_insert_two by lia. destruct (decide (ptr_lt (n + 16) (n + 11))); intros Hsort Hsp.
    + pose proof (iterator_next_ok [n + 16]%nat (n + 11) [] Hsort) as Hi. cbn [app head] in Hi.
      rewrite (multi_loop_some _ _ _ _ _ _ _ _ Hfirst Hsp), Hi in Hrec. cbn [mbind res_bind multi_loop] in Hrec. apply Hrec.
      by rewrite (wn_multi _ _ _ _ _ (an_node _ _ _ _ _ _ _ _ Ha)), (wn_multi _ _ _ _ _ Hw).
    + pose proof (iterator_next_ok [] (n + 11) [n + 16]%nat Hsort) as Hi. cbn [app head] in Hi.
      rewrite (multi_loop_some _ _ _ _ _ _ _ _ Hfirst Hsp), Hi in Hrec. cbn [mbind res_bind] in Hrec.
      by rewrite (multi_loop_fault _ _ _ _ _ _ _ (answered_dangles (3 + fuel) _ _ _ _ _ _ _ _ _ _ _ Ha Hend)) in Hrec.
  - injection Ho as <-. pose proof (iterator_next_ok [] (n + 11) [] ltac:(by repeat constructor)) as Hi. cbn [app head] in Hi.
    rewrite (multi_loop_some _ _ _ _ _ _ _ _ Hfirst H7), Hi in Hrec. cbn [mbind res_bind multi_loop] in Hrec. by apply Hrec.
Qed.
(** If it is in front of the listener, the next packet for the server's end comes to it. *)
Lemma ptp_server_next fuel a n h l d reply σ σ' pkt buff h' d' : answered a n h l d reply σ σ' → ptr_lt (n + 16) (n + 11) →
  node_handle_recv (Node server_addr true) pkt = Ok (Some buff) → ptp_handle_recv ptp_is_endpoint_end buff = Ok (Some (h', d')) →
  receive netcat_ptp_application (12 + fuel) a pkt σ' = Fault NullDeref.
Proof.
  intros Ha Hlt Hnode Hend. pose proof (an_node _ _ _ _ _ _ _ _ Ha) as Hw. pose proof (an_splits _ _ _ _ _ _ _ _ Ha) as Hsp.
  rewrite set_insert_two, decide_True in Hsp by (done || lia).
  pose proof (node_call netcat_ptp_application (8 + fuel) a n server_addr (Some (n + 7)%nat) σ' pkt _ Hw Hnode) as Hc.
  pose proof (node_receives netcat_ptp_application (8 + fuel) a n server_addr _ σ' pkt Hw) as Hrec. rewrite Hc in Hrec. clear Hc.
  cbn [hand_on Nat.add] in Hrec. erewrite handle_recv_multi in Hrec by exact Hsp. cbn [head] in Hrec.
  by rewrite (multi_loop_fault _ _ _ _ _ _ _ (answered_dangles (4 + fuel) _ _ _ _ _ _ _ _ _ _ _ Ha Hend)) in Hrec.
Qed.

(** * The client on its store *)

Record wired_ptp_client (a n : nat) (l : list ptp_action) (got : list (list Z)) (σ : store) : Prop := {
  pc_node : wired_node a n client_addr (Some (n + 10)%nat) σ;
  pc_end : heap σ !! (n + 5)%nat = Some (NodeEnd (n + 2));
  pc_send : heap σ !! (n + 6)%nat = Some (GeneratedAccess n a None);
  pc_composed : heap σ !! (n + 7)%nat = Some (ComposedAccess (n + 6) (n + 5));
  pc_access : heap σ !! (n + 8)%nat = Some (SingleAccess (n + 7) (PathTo l) (Some (n + 11)%nat));
  pc_single : heap σ !! (n + 9)%nat = Some (SingleRecv (n + 8));
  pc_recv : heap σ !! (n + 10)%nat = Some (ProtoRecv (PathTo l) (n + 9));
  pc_client : heap σ !! (n + 11)%nat = Some (Sink got)
}.

Lemma netcat_ptp_client_main_ok fuel a l r σ :
  heap σ !! a = Some (Surface r) → fresh_next σ →
  ∃ σ', netcat_ptp_client_main (2 + fuel) a l σ = Ok (next σ + 8, next σ + 11, σ')%nat ∧ wired_ptp_client a (next σ) l [] σ' ∧ wire σ' = wire σ.
Proof.
  intros Ha Hf. set (n := next σ).
  destruct (open_node_ok (S fuel) a client_addr (str "11.22") r σ client_addr_text Ha Hf) as (σ1 & σ2 & E1 & E2 & Hw & Hn & W).
  fold n in E1, E2, Hw, Hn. unfold netcat_ptp_client_main. cbn [Nat.add]. rewrite E1. cbn [mbind res_bind]. rewrite E2. cbn [mbind res_bind].
  destruct Hw as [H1 H2 H3 H4 H5 H6 H7 H8]. revert H3 H4 H5 H6 H7 H8. plain n. intros H3 H4 H5 H6 H7 H8.
  unfold get_recv_endpoint_end, generate_net_access, net_access_make_from_send_recv, net_access_single, connect_recv. cbn [alloc heap next wire].
  rewrite Hn. plain n. erewrite set_recv_composed by by heap_step. erewrite set_recv_node_end by (heap_step; done).
  cbn [mbind res_bind alloc heap next wire write]. erewrite set_recv_single by by heap_step. cbn [mbind res_bind].
  eexists. split; [reflexivity|]. split; [|done].
  split; cbn [heap next write]; plain n; [split; cbn [heap next write]; plain n; heap_step; done || lia|heap_step; done..].
Qed.

Lemma ptp_client_sends fuel a n l got σ data pkt :
  wired_ptp_client a n l got σ → ptp_single_send true l data = Ok (Some pkt) →
  ∃ σ', access_send_data (5 + fuel) (n + 8) data σ = Ok (OK, σ') ∧ wired_ptp_client a n l got σ' ∧ wire σ' = wire σ ++ [(a, pkt)].
Proof.
  intros Hc Hp. pose proof Hc as [[_ _ Hdev _ _ _ _ _] H5 H6 H7 H8 _ _ _]. cbn [Nat.add]. unfold access_send_data.
  erewrite send_access_step by exact H8. cbn [mbind res_bind of_option].
  erewrite medium_send_single; [|exact H8|exact Hp|].
  2: { erewrite send_access_step by exact H7. cbn match. erewrite send_access_step by exact H6. cbn match. erewrite send_access_step by exact Hdev. reflexivity. }
  erewrite medium_send_surface by exact Hdev. eexists. split; [reflexivity|]. split; [|done].
  destruct Hc as [Hw ? ? ? ? ? ? ?]. split; [|done..]. eapply wired_node_beyond; [exact Hw|done|done].
Qed.

Lemma ptp_client_receives prog fuel a n l got σ pkt buff h d :
  wired_ptp_client a n l got σ → node_handle_recv (Node client_addr true) pkt = Ok (Some buff) →
  ptp_handle_recv ptp_is_endpoint_end buff = Ok (Some (h, d)) →
  ∃ σ', receive prog (7 + fuel) a pkt σ = Ok σ' ∧ wired_ptp_client a n l (got ++ [d]) σ' ∧ wire σ' = wire σ.
Proof.
  intros Hc Hnode Hend. pose proof Hc as [Hw H5 H6 H7 H8 H9 H10 H11].
  pose proof (node_call prog (3 + fuel) a n client_addr (Some (n + 10)%nat) σ pkt _ Hw Hnode) as Hcall.
  pose proof (node_receives prog (3 + fuel) a n client_addr _ σ pkt Hw) as Hrec. rewrite Hcall in Hrec. clear Hcall.
  cbn [hand_on Nat.add] in Hrec. erewrite handle_recv_proto in Hrec by exact H10. cbn [proto_recv ptp_protocol] in Hrec. rewrite Hend in Hrec.
  cbn [mbind res_bind] in Hrec. erewrite handle_header_single in Hrec by done. cbn [hand_on] in Hrec. erewrite handle_recv_sink in Hrec by exact H11.
  eexists. split; [apply Hrec; cbn [heap write]; by heap_step|]. split; [|done].
  split; cbn [heap write]; [|by heap_step..]. eapply wired_node_beyond; [exact Hw|done|]. intros y Hy. cbn [heap write]. by heap_step.
Qed.

(** * Properties *)

(** C8: one exchange over the path protocol, from the wiring of both sides to what they print.  The client's program, started for the
    direct path to the server, sends what is typed, if it fits a packet; the server's program is handed that packet, whose header and line its node takes out,
    opens an access back along the path, is handed the line and sends its answer; handed that, the client's receiver gets the
    answer.  But the access at the server ends with the call that made it, while its receiver stays among those of the node's end,
    behind or in front of the generator's listener as the allocator has placed the two: behind it, the same packet reaches it
    next, and the server uses an object that is gone; in front of it, the packet is done with, and the client's next line makes the
    server use that object. *)
Theorem netcat_ptp_exchange (line : list Z) (a b fuel : nat) (ra rb : option nat) (σc σs : store) :
  let path := direct_path client_addr server_addr in
  ptp_fits (PtpHeader path 1 1) (line ++ [0]) →
  heap σc !! a = Some (Surface ra) → fresh_next σc → heap σs !! b = Some (Surface rb) → fresh_next σs → (12 ≤ fuel)%nat →
  ∃ surface client σc1 σc2 request σs1 σs2 answer gen listener left,
    netcat_ptp_client_main fuel a path σc = Ok (surface, client, σc1) ∧
    netcat_client_loop fuel 1 [line] surface σc1 = Ok σc2 ∧ wire σc2 = wire σc ++ [(a, request)] ∧
    netcat_ptp_server_main fuel b σs = Ok σs1 ∧
    (∃ buff h recv send, node_handle_recv (Node server_addr true) request = Ok (Some buff) ∧
       ptp_handle_recv ptp_is_endpoint_end buff = Ok (Some (h, line ++ [0])) ∧
       heap σs1 !! gen = Some (PathGeneratorRecv recv send true) ∧
       handle_header netcat_ptp_application (fuel - 7) gen h (line ++ [0]) σs1 = Ok σs2) ∧
    (∃ r acc single l splits, heap σs2 !! r = Some (Replier acc ptp_response [line ++ [0]]) ∧ heap σs2 !! acc = None ∧
       heap σs2 !! left = Some (ProtoRecv (PathTo l) single) ∧ heap σs2 !! single = Some (SingleRecv acc) ∧
       heap σs1 !! splits = Some (MultiRecv [listener]) ∧ heap σs1 !! listener = Some (ProtoRecv (PathTo []) gen) ∧
       heap σs2 !! splits = Some (MultiRecv (set_insert left [listener]))) ∧
    netcat_server_print (line ++ [0]) = Ok (str "a client sent: " ++ until_nul line) ∧ wire σs2 = wire σs ++ [(b, answer)] ∧
    receive netcat_ptp_application fuel b request σs1 = (if decide (ptr_lt left listener) then Ok σs2 else Fault NullDeref) ∧
    (ptr_lt left listener → ∀ line' request', ptp_fits (PtpHeader path 1 1) (line' ++ [0]) →
       ptp_single_send true path (line' ++ [0]) = Ok (Some request') →
       receive netcat_ptp_application fuel b request' σs2 = Fault NullDeref) ∧
    ∀ prog, ∃ σc3, receive prog fuel a answer σc2 = Ok σc3 ∧ heap σc3 !! client = Some (Sink [ptp_response]) ∧
      netcat_client_print ptp_response = Ok (str "the server sent: hello back from the server").
Proof.
  intros path Hfits Ha Hfa Hb Hfb Hfuel.
  assert (Hcl : bytes_ok client_addr) by (by repeat constructor). assert (Hsv : bytes_ok server_addr) by (by repeat constructor).
  destruct (direct_path_travels client_addr server_addr _ Hcl Hsv Hfits) as (Hsend & Hnode & Hend).
  assert (Hfits' : ptp_fits (PtpHeader (direct_path server_addr client_addr) 1 1) ptp_response)
    by (apply (bool_decide_eq_true_1 _); vm_compute; reflexivity).
  destruct (direct_path_travels server_addr client_addr _ Hsv Hcl Hfits') as (Hsend' & Hnode' & Hend').
  destruct (netcat_ptp_client_main_ok (fuel - 2) a path ra σc Ha Hfa) as (σc1 & Ec1 & Hc1 & Wc1).
  destruct (ptp_client_sends (fuel - 5) a _ path [] σc1 _ _ Hc1 Hsend) as (σc2 & Ec2 & Hc2 & Wc2).
  destruct (netcat_ptp_server_main_ok (fuel - 1) b rb σs Hb Hfb) as (σs1 & Es1 & Hs1 & Ws1).
  pose proof (ptp_server_receive (fuel - 12) b _ (ptp_bytes (PtpHeader path 1 1) ++ line ++ [0])
    (Some (PtpHeader path 2 2, line ++ [0], ptp_bytes (PtpHeader (direct_path server_addr client_addr) 1 1) ++ ptp_response)) σs1 Hs1) as Hr.
  destruct Hr as (l & σs2 & Es2 & Hs2 & Hfault).
  { unfold ptp_server_reply. rewrite (bind_Ok _ _ _ Hnode), (bind_Ok _ _ _ Hend).
    rewrite (bind_Ok _ _ (direct_path server_addr client_addr) eq_refl), (bind_Ok _ _ _ Hsend'). reflexivity. }
  replace (2 + (fuel - 2))%nat with fuel in Ec1 by lia. replace (5 + (fuel - 5))%nat with fuel in Ec2 by lia.
  replace (S (fuel - 1)) with fuel in Es1 by lia. replace (5 + (fuel - 12))%nat with (fuel - 7)%nat in Es2 by lia.
  replace (12 + (fuel - 12))%nat with fuel in Hfault by lia.
  eexists _, _, σc1, σc2, _, σs1, σs2, _, _, _, _. split; [exact Ec1|].
  split; [cbn [netcat_client_loop head from_option]; rewrite (bind_Ok _ _ _ Ec2); reflexivity|].
  split; [by rewrite Wc2, Wc1|]. split; [exact Es1|]. split; [|split; [|split; [|split; [|split; [exact Hfault|split]]]]].
  - eexists _, _, _, _. split; [exact Hnode|]. split; [exact Hend|]. split; [exact (ps_generator _ _ _ Hs1)|exact Es2].
  - destruct Hs2 as [_ H1 H2 _ H3 H4 H5]. eexists _, _, _, _, _. split; [exact H1|]. split; [exact H2|]. split; [exact H4|].
    split; [exact H5|]. split; [exact (ps_splits _ _ _ Hs1)|]. split; [exact (ps_recv _ _ _ Hs1)|exact H3].
  - unfold netcat_server_print. by rewrite c_string_until.
  - by rewrite (an_wire _ _ _ _ _ _ _ _ Hs2), Ws1.
  - intros Hlt line' request' Hf' Hreq. destruct (direct_path_travels client_addr server_addr _ Hcl Hsv Hf') as (Hsend2 & Hnode2 & Hend2).
    pose proof (eq_trans (eq_sym Hreq) Hsend2) as [= ->]. replace fuel with (12 + (fuel - 12))%nat by lia.
    exact (ptp_server_next _ _ _ _ _ _ _ _ _ _ _ _ _ Hs2 Hlt Hnode2 Hend2).
  - intros prog. destruct (ptp_client_receives prog (fuel - 7) a _ path [] σc2 _ _ _ _ Hc2 Hnode' Hend') as (σc3 & Ec3 & Hc3 & _).
    replace (7 + (fuel - 7))%nat with fuel in Ec3 by lia. exists σc3. split; [exact Ec3|]. split; [exact (pc_client _ _ _ _ _ Hc3)|]. done.
Qed.
End ptp_program.

(** With the receivers in the order in which they are made, and the other way round. *)
Definition reverse_order : HeapOrder.
Proof. refine {| addr x := - Z.of_nat x |}. lia. Defined.
Lemma netcat_ptp_exchange_witness :
  let path := direct_path client_addr server_addr in
  let σ := Store {[0%nat := Surface None]} 1 [] in
  (let HO := allocation_order in
   ∃ σs1 σs2 request listener left, netcat_ptp_server_main 12 0 σ = Ok σs1 ∧
     receive netcat_ptp_application 12 0 request σs1 = (if decide (ptr_lt left listener) then Ok σs2 else Fault NullDeref)) ∧
  (let HO := reverse_order in
   ∃ σs1 σs2 request listener left, netcat_ptp_server_main 12 0 σ = Ok σs1 ∧
     receive netcat_ptp_application 12 0 request σs1 = (if decide (ptr_lt left listener) then Ok σs2 else Fault NullDeref)).
Proof.
  intros path σ.
  assert (Hf : ptp_fits (PtpHeader path 1 1) (str "hello" ++ [0])) by (apply (bool_decide_eq_true_1 _); vm_compute; reflexivity).
  split; intros HO;
    destruct (netcat_ptp_exchange (HO := HO) (str "hello") 0 0 12 None None σ σ Hf eq_refl (fresh_single _) eq_refl (fresh_single _) ltac:(lia))
      as (surface & client & σc1 & σc2 & request & σs1 & σs2 & answer & gen & listener & left & _ & _ & _ & Hmain & _ & _ & _ & _ & Hrec & _);
    exists σs1, σs2, request, listener, left; (split; [exact Hmain|exact Hrec]).
Defined.
(** The server's two packets under either order: at which of them it faults. *)
Definition faulting_packets (HO : HeapOrder) : res (list bool) :=
  σ ← netcat_ptp_server_main 12 0 (Store {[0%nat := Surface None]} 1 []);
  o ← ptp_single_send true (direct_path client_addr server_addr) (str "hello" ++ [0]);
  request ← of_option NullDeref o;
  Ok (match receive netcat_ptp_application 12 0 request σ with
      | Fault _ => [true]
      | Ok σ => [false; match receive netcat_ptp_application 12 0 request σ with Fault _ => true | Ok _ => false end]
      end).
Example faults_in_order : faulting_packets allocation_order = Ok [true].
Proof. vm_compute. reflexivity. Qed.
Example faults_in_reverse_order : faulting_packets reverse_order = Ok [false; true].
Proof. vm_compute. reflexivity. Qed.
