(* ===== verification/Hexdump.v ===== *)
(** The hex dump of [src/lib/hexdump.cpp].

    Sizes are natural numbers: no sum in the code is larger than the size of the data and a row.  The number of digits of the
    addresses is computed in floating point: [floor_log num base] is what [floor(log(num) / log(base))] comes out as, and the theorem
    holds for any such function. *)

From Stdlib Require Import ZArith Lia String.
From stdpp Require Import base decidable list numbers.
From S2P Require Import Prelude Text.

Section hexdump.
Context (floor_log : nat → nat → nat).

Definition cnt_digits_base (num base : nat) : nat := if (num =? 0)%nat then 1%nat else S (floor_log num base).
(** [std::hex] with a width and the fill '0', of a [size_t]. *)
Definition padded_hex_num (num no_digits : nat) : list Z :=
  let ss := print_num 16 16 (Z.of_nat num) [] in replicate (no_digits - List.length ss) 48 ++ ss.

(** The cells of a row from column [i] on, with [todo] columns left. *)
Fixpoint hex_cells (todo i : nat) (data : list Z) (row_sz row : nat) : list Z :=
  match todo with
  | O => []
  | S todo =>
      (if (0 <? i)%nat then [32] else []) ++
      (match data !! (row_sz * row + i)%nat with None => [32; 32] | Some b => hex2 b end) ++
      hex_cells todo (S i) data row_sz row
  end.
(** [std::isprint] in the C locale. *)
Definition isprint (c : Z) : bool := (32 <=? c) && (c <=? 126).
Fixpoint ascii_cells (todo i : nat) (data : list Z) (row_sz row : nat) : list Z :=
  match todo with
  | O => []
  | S todo =>
      (match data !! (row_sz * row + i)%nat with None => 32 | Some b => if isprint b then b else 46 end) ::
      ascii_cells todo (S i) data row_sz row
  end.
Definition hex_row (data : list Z) (row_sz row no_digits : nat) (show_ascii : bool) : list Z :=
  str "0x" ++ padded_hex_num (row_sz * row) no_digits ++ str ": " ++ hex_cells row_sz 0 data row_sz row ++
  (if show_ascii then str " " ++ str "|" ++ ascii_cells row_sz 0 data row_sz row ++ str "|" else []).
(** The rows from [row] on. *)
Fixpoint hex_rows (todo row no_rows : nat) (data : list Z) (row_sz no_digits : nat) (show_ascii : bool) : list Z :=
  match todo with
  | O => []
  | S todo =>
      hex_row data row_sz row no_digits show_ascii ++ (if (row + 1 <? no_rows)%nat then [10] else []) ++
      hex_rows todo (S row) no_rows data row_sz no_digits show_ascii
  end.
(** A row size of 0 is divided by. *)
Definition produce_hexdump (data : list Z) (row_sz : nat) (show_ascii : bool) : res (list Z) :=
  if (row_sz =? 0)%nat then Fault DivByZero
  else
    let cnt := List.length data in
    let no_rows := (cnt `div` row_sz + (if (cnt `mod` row_sz =? 0)%nat then 0 else 1))%nat in
    let no_digits := cnt_digits_base (cnt `div` row_sz * row_sz) 16 in
    Ok (hex_rows no_rows 0 no_rows data row_sz no_digits show_ascii).

(** * Reading a dump back: the specification *)

(** The cells after the address; a blank one is past the end. *)
Fixpoint read_cells (todo : nat) (s : list Z) : list Z :=
  match todo, s with
  | S todo, a :: b :: s =>
      (if a =? 32 then [] else match stoul16 [a; b] with Ok v => [v] | Fault _ => [] end) ++ read_cells todo (drop 1 s)
  | _, _ => []
  end.
Definition read_row (row_sz : nat) (line : list Z) : list Z :=
  match find_char 58 line with Some k => read_cells row_sz (drop (k + 2) line) | None => [] end.
Definition read_dump (row_sz : nat) (text : list Z) : res (list Z) :=
  lines ← split_str text [10]; Ok (concat (read_row row_sz <$> lines)).

(** * Lemmas *)

Lemma read_hex_cells data row_sz row tail : bytes_ok data → ∀ todo i,
  read_cells todo (drop (if (0 <? i)%nat then 1 else 0) (hex_cells todo i data row_sz row ++ tail)) = take todo (drop (row_sz * row + i) data).
Proof.
  intros Hd. induction todo as [|todo IH]; intros i; [done|]. cbn [hex_cells].
  assert (Hstep : ∀ rest, drop (if (0 <? i)%nat then 1 else 0) (((if (0 <? i)%nat then [32] else []) ++ rest) ++ tail) = rest ++ tail)
    by (intros rest; by destruct (0 <? i)%nat).
  rewrite Hstep. specialize (IH (S i)). change (if (0 <? S i)%nat then 1%nat else 0%nat) with 1%nat in IH.
  rewrite Nat.add_succ_r in IH. destruct (data !! (row_sz * row + i)%nat) as [b|] eqn:Eb.
  - rewrite (drop_S data b) by done. cbn [take].
    destruct (hex2_spec b) as (c & d & -> & Hc & _ & Hv & _ & _ & Hs & _); [by eapply Forall_lookup_1|].
    cbn [app read_cells]. rewrite Hv. assert (c =? 32 = false) as -> by (apply Z.eqb_neq; by intros ->). cbn [app]. f_equal.
    replace (S (row_sz * row + i)) with (S (row_sz * row + i))%nat by lia. exact IH.
  - rewrite (drop_ge data) in IH |- * by (apply lookup_ge_None in Eb; lia). cbn [app read_cells]. rewrite IH. by rewrite !take_nil.
Qed.

Lemma hex_chars fuel n acc : 0 ≤ n → Forall (λ c, 48 ≤ c ≤ 122 ∧ c ≠ 58) acc → Forall (λ c, 48 ≤ c ≤ 122 ∧ c ≠ 58) (print_num fuel 16 n acc).
Proof.
  revert n acc. induction fuel as [|fuel IH]; intros n acc Hn Ha; cbn [print_num]; [done|].
  assert (Hm : 0 ≤ n `mod` 16 < 16) by (apply Z.mod_pos_bound; lia).
  assert (Hc : Forall (λ c, 48 ≤ c ≤ 122 ∧ c ≠ 58) (digit_char (n `mod` 16) :: acc)).
  { apply Forall_cons_2; [|done]. unfold digit_char. destruct (Z.ltb_spec (n `mod` 16) 10); lia. }
  destruct (_ =? 0); [done|]. apply IH; [by apply Z.div_pos; lia|done].
Qed.
Lemma padded_chars num no_digits : Forall (λ c, 48 ≤ c ≤ 122 ∧ c ≠ 58) (padded_hex_num num no_digits).
Proof. unfold padded_hex_num. apply Forall_app_2; [apply Forall_replicate; lia|]. apply hex_chars; [lia|done]. Qed.

Lemma read_hex_row data row_sz row no_digits show_ascii : bytes_ok data →
  read_row row_sz (hex_row data row_sz row no_digits show_ascii) = take row_sz (drop (row_sz * row) data).
Proof.
  intros Hd. unfold read_row, hex_row. set (addr := padded_hex_num _ _). set (tail := if show_ascii then _ else _).
  change (str ": ") with [58; 32]. rewrite app_assoc. cbn [app].
  rewrite find_char_skip.
  2:{ intros Hin. apply list_elem_of_In, in_app_or in Hin. destruct Hin as [Hin|Hin].
      - change (str "0x") with [48; 120] in Hin. destruct Hin as [?|[?|[]]]; done.
      - pose proof (padded_chars (row_sz * row) no_digits) as Hp. rewrite List.Forall_forall in Hp. by destruct (Hp 58 Hin). }
  rewrite drop_app_ge by lia. replace (_ + 2 - _)%nat with 2%nat by lia. cbn [drop].
  pose proof (read_hex_cells data row_sz row tail Hd row_sz 0) as E. cbn [Nat.ltb Nat.leb drop] in E. by rewrite E, Nat.add_0_r.
Qed.

Definition no_newline (l : list Z) : Prop := Forall (λ c, c ≠ 10) l.
Lemma hex_cells_line data row_sz row : bytes_ok data → ∀ todo i, no_newline (hex_cells todo i data row_sz row).
Proof.
  intros Hd. induction todo as [|todo IH]; intros i; [apply Forall_nil_2|]. cbn [hex_cells]. apply Forall_app_2; [by destruct (0 <? i)%nat; repeat constructor|].
  apply Forall_app_2; [|apply IH]. destruct (data !! _) as [b|] eqn:Eb; [|by repeat constructor].
  destruct (hex2_spec b) as (c & d & -> & Hc & Hd' & _ & _ & _ & Hs & Hs'); [by eapply Forall_lookup_1|].
  apply Forall_cons_2; [by intros ->|]. apply Forall_singleton. by intros ->.
Qed.
Lemma ascii_cells_line data row_sz row : ∀ todo i, no_newline (ascii_cells todo i data row_sz row).
Proof.
  induction todo as [|todo IH]; intros i; [apply Forall_nil_2|]. cbn [ascii_cells]. apply Forall_cons_2; [|apply IH].
  destruct (data !! _) as [b|]; [|done]. destruct (isprint b) eqn:E; [|done]. unfold isprint in E. lia.
Qed.
Lemma hex_row_line data row_sz row no_digits show_ascii : bytes_ok data → no_newline (hex_row data row_sz row no_digits show_ascii).
Proof.
  intros Hd. unfold hex_row. apply Forall_app_2; [by repeat constructor|]. apply Forall_app_2.
  { eapply List.Forall_impl; [|apply padded_chars]. cbn. lia. }
  apply Forall_app_2; [by repeat constructor|]. apply Forall_app_2; [by apply hex_cells_line|].
  destruct show_ascii; [|apply Forall_nil_2]. apply Forall_app_2; [by repeat constructor|]. apply Forall_app_2; [by repeat constructor|].
  apply Forall_app_2; [apply ascii_cells_line|by repeat constructor].
Qed.

Lemma hex_rows_join data row_sz no_digits show_ascii todo : ∀ row,
  hex_rows todo row (row + todo) data row_sz no_digits show_ascii =
  join [10] ((λ r, hex_row data row_sz r no_digits show_ascii) <$> seq row todo).
Proof.
  induction todo as [|todo IH]; intros row; [done|]. cbn [hex_rows seq fmap list_fmap]. specialize (IH (S row)).
  replace (S row + todo)%nat with (row + S todo)%nat in IH by lia. rewrite IH. destruct todo as [|todo].
  - rewrite (proj2 (Nat.ltb_ge _ _)) by lia. cbn. by rewrite app_nil_r.
  - rewrite (proj2 (Nat.ltb_lt _ _)) by lia. done.
Qed.

(** The rows cover the data. *)
Lemma rows_cover (data : list Z) k n : (List.length data ≤ k * n)%nat → concat ((λ r, take k (drop (k * r) data)) <$> seq 0 n) = data.
Proof.
  intros Hl. assert (H : ∀ m r, (List.length data ≤ k * (r + m))%nat → concat ((λ r, take k (drop (k * r) data)) <$> seq r m) = drop (k * r) data).
  { induction m as [|m IH]; intros r Hr.
    - cbn. by rewrite drop_ge by (rewrite Nat.add_0_r in Hr; lia).
    - cbn [seq]. rewrite fmap_cons. cbn [concat]. rewrite IH by lia.
      replace (k * S r)%nat with (k * r + k)%nat by lia. rewrite <- drop_drop. apply take_drop. }
  specialize (H n 0%nat Hl). by rewrite Nat.mul_0_r, drop_0 in H.
Qed.

(** The text that [produce_hexdump] makes is read back. *)
Lemma dump_read_back (data : list Z) (row_sz : nat) (show_ascii : bool) :
  bytes_ok data → data ≠ [] → (0 < row_sz)%nat → (produce_hexdump data row_sz show_ascii ≫= read_dump row_sz) = Ok data.
Proof.
  intros Hd Hne Hr. unfold produce_hexdump. rewrite (proj2 (Nat.eqb_neq _ _)) by lia. cbn [mbind res_bind]. unfold read_dump.
  set (n := (_ `div` _ + _)%nat). set (w := cnt_digits_base _ _).
  pose proof (Nat.div_mod_eq (List.length data) row_sz) as Hdm. pose proof (Nat.mod_upper_bound (List.length data) row_sz ltac:(lia)) as Hmod.
  assert (Hn : (List.length data ≤ row_sz * n)%nat).
  { unfold n. destruct (Nat.eqb_spec (List.length data `mod` row_sz) 0); nia. }
  assert (Hn0 : n ≠ 0%nat) by (intros E; rewrite E, Nat.mul_0_r in Hn; destruct data; [done|cbn in Hn; lia]).
  pose proof (hex_rows_join data row_sz w show_ascii n 0) as Ej. cbn [Nat.add] in Ej. rewrite Ej.
  rewrite split_str_join; [|done|by destruct n|].
  2:{ apply Forall_fmap, Forall_forall. intros r _. apply clean_first. intros Hin. pose proof (hex_row_line data row_sz r w show_ascii Hd) as Hl.
      unfold no_newline in Hl. rewrite Forall_forall in Hl. by apply (Hl 10 (proj1 (list_elem_of_In _ _) Hin)). }
  cbn [mbind res_bind]. f_equal. etrans; [|exact (rows_cover data row_sz n Hn)]. f_equal. rewrite <- list_fmap_compose.
  apply list_fmap_ext. intros r x _. apply (read_hex_row data row_sz x w show_ascii Hd).
Qed.

(** * Properties *)

(** A dump can be read back. For data that is not empty and rows of at least one byte, the text splits at its line ends into rows, and the cells
    after their addresses are the data, with the column of characters or without, and whatever the floating-point logarithm gives. *)
Theorem hexdump_reads_back (data : list Z) (row_sz : nat) (show_ascii : bool) :
  bytes_ok data → data ≠ [] → (0 < row_sz)%nat → (produce_hexdump data row_sz show_ascii ≫= read_dump row_sz) = Ok data.
Proof. apply dump_read_back. Qed.
End hexdump.

Lemma hexdump_reads_back_witness : (produce_hexdump (λ _ _, 0%nat) [0; 65; 255] 2 true ≫= read_dump 2) = Ok [0; 65; 255].
Proof. apply hexdump_reads_back; [by solve_bytes|done|lia]. Defined.
