(* ===== verification/Commands.v ===== *)
(** The command-line programs: the decisions of [main] in [src/main/ping/ping.cpp], [arp_scanner/arp_scanner.cpp],
    [arp_spoofer/arp_spoofer.cpp], [traceroute/traceroute.cpp] and [net_analyzer/net_analyzer.cpp], and the ARP programs over Ethernet.

    What Boost makes of the command line is a map from the names of the options that are given to values of the types that the
    program declares for them; reading a value as another type, or one that is not there, throws.  What the programs do with
    an interface is modelled on frames: the frames that arrive while they wait, and the frames that they send. *)

From Stdlib Require Import ZArith Lia String.
From stdpp Require Import base decidable list numbers gmap.
From S2P Require Import Prelude Text Cursor Encap Ether2 Ip4 Arp ArpTool.

(** * The options *)

Inductive opt_kind := KFlag | KString | KInt | KSize | KStrings.
#[export] Instance opt_kind_eq_dec : EqDecision opt_kind.
Proof. solve_decision. Defined.
Inductive opt_value := OptFlag | OptString (s : list Z) | OptInt (z : Z) | OptSize (z : Z) | OptStrings (l : list (list Z)).
Abbreviation variables_map := (gmap (list Z) opt_value).
Definition count (vm : variables_map) (name : list Z) : bool := bool_decide (is_Some (vm !! name)).
(** [vm[name].as<T>()]. *)
Definition as_string (vm : variables_map) (name : list Z) : res (list Z) :=
  match vm !! name with Some (OptString s) => Ok s | _ => Fault Thrown end.
Definition as_int (vm : variables_map) (name : list Z) : res Z :=
  match vm !! name with Some (OptInt z) => Ok z | _ => Fault Thrown end.
Definition as_size (vm : variables_map) (name : list Z) : res Z :=
  match vm !! name with Some (OptSize z) => Ok z | _ => Fault Thrown end.
Definition as_strings (vm : variables_map) (name : list Z) : res (list (list Z)) :=
  match vm !! name with Some (OptStrings l) => Ok l | _ => Fault Thrown end.

Definition kind_of (v : opt_value) : opt_kind :=
  match v with OptFlag => KFlag | OptString _ => KString | OptInt _ => KInt | OptSize _ => KSize | OptStrings _ => KStrings end.
(** What Boost promises: every value is of a declared option, and of its type. *)
Definition declared (opts : list (list Z * opt_kind)) (vm : variables_map) : Prop :=
  map_Forall (λ name v, (name, kind_of v) ∈ opts) vm.

(** [main] prints the options, prints a message, or goes on; the first two return 1. *)
Inductive decision (A : Type) := PrintOptions | PrintError (message : list Z) | Proceed (a : A).
Arguments PrintOptions {_}.
Arguments PrintError {_} _.
Arguments Proceed {_} _.

(** * The decisions *)

Definition ping_options : list (list Z * opt_kind) :=
  [(str "help", KFlag); (str "iface", KString); (str "dest", KString); (str "interval", KSize); (str "count", KSize)].
(** The interface, the address, the number of pings and the interval in milliseconds. *)
Definition ping_cli (vm : variables_map) : res (decision (list Z * ip4_addr * option Z * Z)) :=
  if count vm (str "help") then Ok PrintOptions
  else if negb (count vm (str "iface")) then Ok PrintOptions
  else
    interface ← as_string vm (str "iface");
    if negb (count vm (str "dest")) then Ok PrintOptions
    else
      dest ← as_string vm (str "dest");
      tmp ← str_to_ip4_addr dest;
      match tmp with
      | None => Ok (PrintError (str "invalid dest ip"))
      | Some dest =>
          cnt ← (if count vm (str "count") then c ← as_size vm (str "count"); Ok (Some c) else Ok None);
          interval ← (if negb (count vm (str "interval")) then Ok 1000 else as_int vm (str "interval"));
          Ok (Proceed (interface, dest, cnt, interval))
      end.

Definition traceroute_cli (vm : variables_map) : res (decision (list Z * ip4_addr)) :=
  if count vm (str "help") then Ok PrintOptions
  else if negb (count vm (str "iface")) then Ok PrintOptions
  else
    interface ← as_string vm (str "iface");
    if negb (count vm (str "dest")) then Ok PrintOptions
    else
      dest ← as_string vm (str "dest");
      tmp ← str_to_ip4_addr dest;
      Ok (match tmp with None => PrintError (str "invalid dest ip") | Some dest => Proceed (interface, dest) end).

Definition net_analyzer_cli (vm : variables_map) : res (decision (list Z)) :=
  if count vm (str "help") then Ok PrintOptions
  else if negb (count vm (str "iface")) then Ok PrintOptions
  else iface ← as_string vm (str "iface"); Ok (Proceed iface).

Definition arp_scanner_options : list (list Z * opt_kind) :=
  [(str "help", KFlag); (str "iface", KString); (str "ip", KString); (str "subnet", KString); (str "delay", KInt)].
Inductive scan := ScanSingle (iface : list Z) (addr : ip4_addr) | ScanSubnet (iface : list Z) (subnet : ip4_subnet_mask) (delay : Z).
Definition arp_scanner_cli (vm : variables_map) : res (decision scan) :=
  if count vm (str "help") then Ok PrintOptions
  else if negb (count vm (str "iface")) then Ok PrintOptions
  else
    iface ← as_string vm (str "iface");
    if count vm (str "ip") then
      ip ← as_string vm (str "ip");
      tmp ← str_to_ip4_addr ip;
      Ok (match tmp with None => PrintError (str "invalid ip") | Some addr => Proceed (ScanSingle iface addr) end)
    else if count vm (str "subnet") then
      delay ← (if negb (count vm (str "delay")) then Ok 5 else as_int vm (str "ip"));
      subnet ← as_string vm (str "subnet");
      tmp ← str_to_ip4_subnet_mask subnet;
      Ok (match tmp with None => PrintError (str "invalid subnet") | Some subnet => Proceed (ScanSubnet iface subnet delay) end)
    else Ok PrintOptions.

Definition arp_spoofer_options : list (list Z * opt_kind) :=
  [(str "help", KFlag); (str "iface", KString); (str "victims", KStrings); (str "dest", KString); (str "block", KFlag)].
(** The loop over the victims; [None] when one is not an address. *)
Fixpoint parse_victims (l : list (list Z)) (victims : list ip4_addr) : res (option (list ip4_addr)) :=
  match l with
  | [] => Ok (Some victims)
  | ip_addr :: l =>
      tmp ← str_to_ip4_addr ip_addr;
      match tmp with None => Ok None | Some a => parse_victims l (victims ++ [a]) end
  end.
Definition arp_spoofer_cli (vm : variables_map) : res (decision (list Z * list ip4_addr * ip4_addr * bool)) :=
  if count vm (str "help") then Ok PrintOptions
  else if negb (count vm (str "iface")) then Ok PrintOptions
  else
    iface ← as_string vm (str "iface");
    if negb (count vm (str "dest")) then Ok PrintOptions
    else
      dest ← as_string vm (str "dest");
      tmp ← str_to_ip4_addr dest;
      match tmp with
      | None => Ok (PrintError (str "invalid dest ip"))
      | Some dest =>
          let block := count vm (str "block") in
          victims ← (if count vm (str "victims") then l ← as_strings vm (str "victims"); parse_victims l [] else Ok (Some []));
          Ok (match victims with
              | None => PrintError (str "invalid victim ip")
              | Some victims => Proceed (iface, victims, dest, block)
              end)
      end.

(** * ARP over Ethernet *)

(** What the queue that listens to replies gets of a frame: the broadcast surface hands on what is addressed to the interface. *)
Definition arp_surface_recv (mac : mac_addr) (frame : list Z) : res (option arp_header) :=
  o ← ether2_handle_recv None (Some mac) (Some ethertype_arp) frame;
  match o with None => Ok None | Some (_, d) => arp_handle_recv (Some arp_op_reply) d end.
(** The observations of the loops, from what happens while they wait: a frame arrives, or ([None]) [front] times out. *)
Fixpoint arp_observe (mac : mac_addr) (events : list (option (list Z))) : res (list (option arp_header)) :=
  match events with
  | [] => Ok []
  | None :: events => obs ← arp_observe mac events; Ok (None :: obs)
  | Some frame :: events =>
      o ← arp_surface_recv mac frame;
      obs ← arp_observe mac events;
      Ok (match o with None => obs | Some h => Some h :: obs end)
  end.
Fixpoint send_all (send : list Z → res (option (list Z))) (pkts : list (list Z)) : res (list (list Z)) :=
  match pkts with
  | [] => Ok []
  | pkt :: pkts => o ← send pkt; frames ← send_all send pkts; Ok (option_list o ++ frames)
  end.
Definition arp_broadcast (mac : mac_addr) (pkts : list (list Z)) : res (list (list Z)) :=
  send_all (ether2_broadcast_send true (Some mac) (Some ethertype_arp)) pkts.

(** [arp_scan_single_main]: the frames sent and the address found; [None] while it still waits. *)
Definition arp_scan_single_main (mac_of_iface : option mac_addr) (ip_of_iface : option ip4_addr) (ip_addr : ip4_addr)
    (events : list (option (list Z))) : res (option (list (list Z) * mac_addr)) :=
  mac ← of_option Thrown mac_of_iface;
  ip ← of_option Thrown ip_of_iface;
  obs ← arp_observe mac events;
  o ← search_for_mac_addr ip_addr mac ip obs;
  match o with
  | None => Ok None
  | Some (pkts, m) => frames ← arp_broadcast mac pkts; Ok (Some (frames, m))
  end.
(** [arp_scan_subnet_main], with the frames that arrive before the replies are collected; its delay is not used. *)
Definition arp_scan_subnet_main (fuel : nat) (mac_of_iface : option mac_addr) (ip_of_iface : option ip4_addr) (subnet : ip4_subnet_mask)
    (delay : Z) (arrived : list (list Z)) : res (list (list Z) * gmap ip4_addr mac_addr) :=
  mac ← of_option Thrown mac_of_iface;
  ip ← of_option Thrown ip_of_iface;
  obs ← arp_observe mac (Some <$> arrived);
  '(pkts, _, entries) ← scan_entire_subnet fuel subnet {[ip]} mac ip (omap (λ o, o) obs);
  frames ← arp_broadcast mac pkts; Ok (frames, entries).

(** [arp_spoof]: the victims are looked up one after the other, each with the events while it waits; the targets are the
    accesses by their addresses ([None] is the broadcast access). *)
Fixpoint resolve_victims (mac : mac_addr) (ip : ip4_addr) (victims : list (ip4_addr * list (option (list Z)))) :
    res (option (list (list Z) * list (option mac_addr * mac_addr * ip4_addr))) :=
  match victims with
  | [] => Ok (Some ([], []))
  | (victim_ip_addr, events) :: victims =>
      o ← arp_scan_single_main (Some mac) (Some ip) victim_ip_addr events;
      match o with
      | None => Ok None
      | Some (frames, victim_mac_addr) =>
          o ← resolve_victims mac ip victims;
          Ok (match o with
              | None => None
              | Some (frames', targets) => Some (frames ++ frames', (Some victim_mac_addr, victim_mac_addr, victim_ip_addr) :: targets)
              end)
      end
  end.
(** One round of the attack over the accesses. *)
Fixpoint spoof_frames (mac : mac_addr) (sent : list (option mac_addr * list Z)) : res (list (list Z)) :=
  match sent with
  | [] => Ok []
  | (access, pkt) :: sent =>
      o ← match access with
          | Some m => ether2_single_send true m (Some mac) (Some ethertype_arp) pkt
          | None => ether2_broadcast_send true (Some mac) (Some ethertype_arp) pkt
          end;
      frames ← spoof_frames mac sent; Ok (option_list o ++ frames)
  end.
(** The frames of the look-ups, and those of each round of the attack. *)
Definition arp_spoof (mac_of_iface : option mac_addr) (ip_of_iface : option ip4_addr) (victims : list (ip4_addr * list (option (list Z))))
    (dest : ip4_addr) : res (option (list (list Z) * list (list Z))) :=
  mac ← of_option Thrown mac_of_iface;
  ip ← of_option Thrown ip_of_iface;
  o ← (match victims with
       | [] => Ok (Some ([], [(None, mac_addr_empty, ip4_addr_empty)]))
       | _ => resolve_victims mac ip victims
       end);
  match o with
  | None => Ok None
  | Some (frames, targets) =>
      sent ← spoofing_round targets dest mac;
      round ← spoof_frames mac sent; Ok (Some (frames, round))
  end.

(** * Lemmas *)


(** A reply of the tool, in a frame, at the surface of a host. *)
Lemma surface_recv_ok host h op sm sip tm tip :
  mac_ok host → ethernet2_header_ok h → eth_prot h = ethertype_arp → u16_ok op → mac_ok sm → ip4_ok sip → mac_ok tm → ip4_ok tip →
  arp_surface_recv host (ethernet2_bytes h ++ tool_packet (arp_tool_header op sm sip tm tip)) =
  Ok (if decide (eth_dest_addr h = host ∧ op = arp_op_reply) then Some (arp_tool_header op sm sip tm tip) else None).
Proof.
  intros Hho Hh Hp Hop Hsm Hsip Htm Htip. unfold arp_surface_recv.
  pose proof (ether2_recv_ok (Ether2Filters None (Some host) (Some ethertype_arp) ltac:(done) ltac:(intros ? [= <-]; done)) h
    (tool_packet (arp_tool_header op sm sip tm tip)) Hh) as E.
  cbn [ef_src ef_dest ef_type] in E. rewrite E. unfold ef_match, ether2_match. cbn [fst snd ef_src ef_dest ef_type filter_accepts].
  destruct (arp_tool_sent op sm sip tm tip Hop Hsm Hsip Htm Htip) as [_ Hr].
  case_bool_decide as Hm; cbn [mbind res_bind]; [rewrite Hr; cbn [filter_accepts]|]; repeat case_decide; naive_solver.
Qed.

Lemma arp_observe_app mac pre post opre opost :
  arp_observe mac pre = Ok opre → arp_observe mac post = Ok opost → arp_observe mac (pre ++ post) = Ok (opre ++ opost).
Proof.
  revert opre. induction pre as [|[frame|] pre IH]; intros opre Hpre Hpost; cbn [arp_observe app] in *.
  - by injection Hpre as <-.
  - apply res_bind_ok in Hpre as (o & -> & Hpre). apply res_bind_ok in Hpre as (obs & E & [= <-]).
    cbn [mbind res_bind]. rewrite (IH _ E Hpost). by destruct o.
  - apply res_bind_ok in Hpre as (obs & E & [= <-]). by rewrite (IH _ E Hpost).
Qed.

Lemma send_all_ok send (f : list Z → list Z) pkts :
  (∀ pkt, send pkt = Ok (Some (f pkt))) → send_all send pkts = Ok (f <$> pkts).
Proof. intros Hs. induction pkts as [|pkt pkts IH]; [done|]. cbn [send_all]. rewrite Hs. cbn [mbind res_bind]. by rewrite IH. Qed.

Lemma broadcast_header_ok mac prot : mac_ok mac → u16_ok prot → ethernet2_header_ok (ether2_broadcast_header (Some mac) (Some prot)).
Proof. intros Hm Hp. split; [apply Hm|split; [apply mac_broadcast_ok|done]]. Qed.

(** The frame of a look-up. *)
Definition request_frame (mac : mac_addr) (ip searched : ip4_addr) : list Z :=
  ethernet2_bytes (ether2_broadcast_header (Some mac) (Some ethertype_arp)) ++ tool_packet (arp_request mac ip searched).
(** The reply of a host with the address [ip']. *)
Definition reply_frame (mac mac' : mac_addr) (ip ip' : ip4_addr) : list Z :=
  ethernet2_bytes (Ethernet2Header mac' mac ethertype_arp) ++ tool_packet (arp_tool_header arp_op_reply mac' ip' mac ip).

(** While the program waits for [ip'], other things happen, observed as [po], none of them an answer (a timeout, or an ARP reply for
    another address, which has the four bytes of one); then the host [mac'] replies; then anything.  All frames can be parsed. *)
Definition answered (mac : mac_addr) (ip ip' : ip4_addr) (mac' : mac_addr) (po : list (option arp_header)) (events : list (option (list Z))) : Prop :=
  mac_ok mac' ∧ ip4_ok ip' ∧ Forall (misses ip') po ∧
  ∃ pre post opost, events = pre ++ Some (reply_frame mac mac' ip ip') :: post ∧
    arp_observe mac pre = Ok po ∧ arp_observe mac post = Ok opost.

Lemma scan_single_ok mac ip ip' mac' po events :
  mac_ok mac → ip4_ok ip → answered mac ip ip' mac' po events →
  arp_scan_single_main (Some mac) (Some ip) ip' events = Ok (Some (replicate (S (List.length po)) (request_frame mac ip ip'), mac')).
Proof.
  intros Hm Hi (Hm' & Hi' & Hmiss & pre & post & opost & -> & Hpre & Hpost).
  set (r := arp_tool_header arp_op_reply mac' ip' mac ip).
  assert (Hobs : arp_observe mac (pre ++ Some (reply_frame mac mac' ip ip') :: post) = Ok (po ++ Some r :: opost)).
  { apply arp_observe_app; [done|]. cbn [arp_observe]. unfold reply_frame. rewrite surface_recv_ok; try done.
    cbn [eth_dest_addr]. rewrite decide_True by done. cbn [mbind res_bind]. by rewrite (bind_Ok _ _ _ Hpost). }
  assert (Hans : answers ip' r).
  { destruct Hm' as [Hml Hmb], Hi' as [Hil Hib], ip' as [o']. unfold answers, reply_ok, paired_ip. cbn in *.
    rewrite Hil, Hml, take_ge by lia. repeat split; (lia || done). }
  assert (Hpm : paired_mac r = mac').
  { destruct Hm' as [Hml Hmb], mac' as [o']. unfold paired_mac. cbn in *. by rewrite take_ge by lia. }
  unfold arp_scan_single_main. cbn [of_option mbind res_bind]. rewrite (bind_Ok _ _ _ Hobs).
  unfold search_for_mac_addr.
  destruct (arp_tool_sent arp_op_request mac ip mac_addr_empty ip' ltac:(done) Hm Hi mac_empty_ok Hi') as [E _].
  change (arp_tool_header arp_op_request mac ip mac_addr_empty ip') with (arp_request mac ip ip') in E.
  rewrite (bind_Ok _ _ _ E), (bind_Ok _ _ _ (search_loop_spec ip' 1 po r opost Hi' Hmiss Hans)). cbn [mbind res_bind option_bind].
  unfold arp_broadcast. erewrite send_all_ok.
  2: { intros pkt. apply ether2_send_ok. by apply broadcast_header_ok. }
  cbn [mbind res_bind]. rewrite fmap_replicate. by rewrite Hpm.
Qed.

(** The victims, the hosts that answer for them and what is observed before. *)
Abbreviation victim := (ip4_addr * mac_addr * list (option arp_header) * list (option (list Z)))%type.
Definition victim_ip (v : victim) : ip4_addr := fst (fst (fst v)).
Definition victim_mac (v : victim) : mac_addr := snd (fst (fst v)).
Definition victim_seen (v : victim) : list (option arp_header) := snd (fst v).
Definition victim_answered (mac : mac_addr) (ip : ip4_addr) (v : victim) : Prop :=
  answered mac ip (victim_ip v) (victim_mac v) (victim_seen v) (snd v).
Definition lookups (mac : mac_addr) (ip : ip4_addr) (vs : list victim) : list (list Z) :=
  concat ((λ v, replicate (S (List.length (victim_seen v))) (request_frame mac ip (victim_ip v))) <$> vs).

Lemma resolve_ok mac ip vs : mac_ok mac → ip4_ok ip → Forall (victim_answered mac ip) vs →
  resolve_victims mac ip ((λ v, (victim_ip v, snd v)) <$> vs) =
  Ok (Some (lookups mac ip vs, (λ v, (Some (victim_mac v), victim_mac v, victim_ip v)) <$> vs)).
Proof.
  intros Hm Hi Hvs. induction Hvs as [|v vs Hv _ IH]; [done|]. rewrite !fmap_cons. cbn [resolve_victims].
  rewrite (bind_Ok _ _ _ (scan_single_ok mac ip _ _ _ _ Hm Hi Hv)), (bind_Ok _ _ _ IH). done.
Qed.

(** A reply with a short address, while the program waits. *)
Lemma scan_single_short mac ip ip' events po r opost : mac_ok mac → ip4_ok ip → ip4_ok ip' → Forall (misses ip') po →
  (List.length (sender_prot_addr r) < 4)%nat → arp_observe mac events = Ok (po ++ Some r :: opost) →
  arp_scan_single_main (Some mac) (Some ip) ip' events = Fault OutOfBounds.
Proof.
  intros Hm Hi Hi' Hmiss Hshort Hobs. unfold arp_scan_single_main. cbn [of_option mbind res_bind]. rewrite (bind_Ok _ _ _ Hobs).
  unfold search_for_mac_addr.
  destruct (arp_tool_sent arp_op_request mac ip mac_addr_empty ip' ltac:(done) Hm Hi mac_empty_ok Hi') as [E _].
  change (arp_tool_header arp_op_request mac ip mac_addr_empty ip') with (arp_request mac ip ip') in E.
  rewrite (bind_Ok _ _ _ E). by rewrite search_loop_short.
Qed.
Lemma resolve_short mac ip vs ip' events po r opost victims : mac_ok mac → ip4_ok ip → Forall (victim_answered mac ip) vs → ip4_ok ip' →
  Forall (misses ip') po → (List.length (sender_prot_addr r) < 4)%nat → arp_observe mac events = Ok (po ++ Some r :: opost) →
  resolve_victims mac ip (((λ v, (victim_ip v, snd v)) <$> vs) ++ (ip', events) :: victims) = Fault OutOfBounds.
Proof.
  intros Hm Hi Hvs Hi' Hmiss Hshort Hobs. induction Hvs as [|v vs Hv _ IH].
  - cbn [fmap list_fmap app resolve_victims]. by rewrite (scan_single_short mac ip ip' events po r opost).
  - cbn [fmap list_fmap app resolve_victims]. rewrite (bind_Ok _ _ _ (scan_single_ok mac ip _ _ _ _ Hm Hi Hv)). by rewrite IH.
Qed.

(** The frame of one round of the attack for one victim. *)
Definition spoof_frame (mac mac' : mac_addr) (ip' dest : ip4_addr) : list Z :=
  ethernet2_bytes (ether2_single_header mac' (Some mac) (Some ethertype_arp)) ++
  tool_packet (arp_tool_header arp_op_reply mac dest mac' ip').

Lemma spoof_round_ok mac ip dest vs : mac_ok mac → ip4_ok dest → Forall (victim_answered mac ip) vs →
  ∃ sent, spoofing_round ((λ v, (Some (victim_mac v), victim_mac v, victim_ip v)) <$> vs) dest mac = Ok sent ∧
    spoof_frames mac sent = Ok ((λ v, spoof_frame mac (victim_mac v) (victim_ip v) dest) <$> vs).
Proof.
  intros Hm Hd Hvs. induction Hvs as [|v vs (Hm' & Hi' & _) _ (sent & E1 & E2)]; [by exists []|].
  rewrite !fmap_cons. cbn [spoofing_round].
  destruct (arp_tool_sent arp_op_reply mac dest (victim_mac v) (victim_ip v) ltac:(done) Hm Hd Hm' Hi') as [E _].
  rewrite (bind_Ok _ _ _ E), (bind_Ok _ _ _ E1). eexists. split; [done|]. cbn [spoof_frames].
  rewrite (bind_Ok _ _ (Some (spoof_frame mac (victim_mac v) (victim_ip v) dest))); [by rewrite (bind_Ok _ _ _ E2)|].
  apply ether2_send_ok. by split; [apply Hm|split; [apply Hm'|]].
Qed.

(** An option of the wrong type is not declared. *)
Ltac not_declared E := exfalso; revert E; eapply (bool_decide_eq_false_1 _); vm_compute; reflexivity.

(** * Properties *)

(** C28: the spoofing program, where every frame that arrives can be parsed. When every victim that is looked up is answered for by some
    host, after any timeouts and any ARP replies with other addresses of at least four bytes, the
    look-ups are one broadcast request per victim and per thing observed in between, and every round of the attack is one frame
    per victim, in order: at the host that answered, and at no other, it is an ARP reply that pairs the intercepted address with
    the hardware address of the attacker.  Without victims each round is one broadcast frame, which no surface of
    a host with another address hands on.  But an ARP reply with a shorter address, while a victim is looked up, is read past its end. *)
Theorem arp_spoof_redirects (mac : mac_addr) (ip dest : ip4_addr) (vs : list victim) (host : mac_addr) :
  mac_ok mac → ip4_ok ip → ip4_ok dest → Forall (victim_answered mac ip) vs → mac_ok host → host ≠ mac_addr_broadcast →
  (vs ≠ [] → arp_spoof (Some mac) (Some ip) ((λ v, (victim_ip v, snd v)) <$> vs) dest
     = Ok (Some (lookups mac ip vs, (λ v, spoof_frame mac (victim_mac v) (victim_ip v) dest) <$> vs))) ∧
  Forall (λ v, ∃ r, arp_surface_recv host (spoof_frame mac (victim_mac v) (victim_ip v) dest)
                    = Ok (if decide (host = victim_mac v) then Some r else None) ∧ paired_ip r = dest ∧ paired_mac r = mac) vs ∧
  (∃ frame, arp_spoof (Some mac) (Some ip) [] dest = Ok (Some ([], [frame])) ∧ arp_surface_recv host frame = Ok None ∧
    ∃ r, arp_surface_recv mac_addr_broadcast frame = Ok (Some r) ∧ paired_ip r = dest ∧ paired_mac r = mac) ∧
  ∀ ip' events po r opost victims, ip4_ok ip' → Forall (misses ip') po → (List.length (sender_prot_addr r) < 4)%nat →
    arp_observe mac events = Ok (po ++ Some r :: opost) →
    arp_spoof (Some mac) (Some ip) (((λ v, (victim_ip v, snd v)) <$> vs) ++ (ip', events) :: victims) dest = Fault OutOfBounds.
Proof.
  intros Hm Hi Hd Hvs Hho Hnb.
  assert (Hpair : ∀ tm tip, paired_ip (arp_tool_header arp_op_reply mac dest tm tip) = dest ∧
    paired_mac (arp_tool_header arp_op_reply mac dest tm tip) = mac).
  { intros tm tip. destruct Hm as [Hml _], Hd as [Hdl _], mac as [om], dest as [od]. unfold paired_ip, paired_mac. cbn in *.
    by rewrite !take_ge by lia. }
  split; [|split; [|split]].
  - intros Hne. unfold arp_spoof. cbn [of_option mbind res_bind].
    destruct (spoof_round_ok mac ip dest vs Hm Hd Hvs) as (sent & E1 & E2).
    assert (Hr := resolve_ok mac ip vs Hm Hi Hvs). destruct vs as [|v vs]; [done|]. rewrite fmap_cons in *. rewrite Hr. cbn [mbind res_bind].
    by rewrite (bind_Ok _ _ _ E1), (bind_Ok _ _ _ E2).
  - eapply Forall_impl; [exact Hvs|]. intros v (Hm' & Hi' & _). eexists. split; [|apply Hpair]. unfold spoof_frame.
    rewrite surface_recv_ok; try done. cbn [ether2_single_header eth_dest_addr].
    repeat case_decide; naive_solver.
  - set (h := ether2_broadcast_header (Some mac) (Some ethertype_arp)).
    exists (ethernet2_bytes h ++ tool_packet (arp_tool_header arp_op_reply mac dest mac_addr_empty ip4_addr_empty)).
    assert (Hh : ethernet2_header_ok h) by by apply broadcast_header_ok. split; [|split].
    + destruct (arp_tool_sent arp_op_reply mac dest mac_addr_empty ip4_addr_empty ltac:(done) Hm Hd mac_empty_ok ip4_empty_ok) as [E _].
      unfold arp_spoof. cbn [of_option mbind res_bind spoofing_round]. rewrite E. cbn [mbind res_bind spoof_frames].
      unfold ether2_broadcast_send. by rewrite (bind_Ok _ _ _ (ether2_send_ok _ _ Hh)).
    + rewrite surface_recv_ok; try done; [|apply mac_empty_ok|apply ip4_empty_ok]. rewrite decide_False; [done|]. intros [Hx _]. by apply Hnb.
    + eexists. split; [|apply Hpair]. rewrite surface_recv_ok; try done;
        [apply mac_broadcast_ok|apply mac_empty_ok|apply ip4_empty_ok].
  - intros ip' events po r opost victims Hi' Hmiss Hshort Hobs.
    pose proof (resolve_short mac ip vs ip' events po r opost victims Hm Hi Hvs Hi' Hmiss Hshort Hobs) as E. unfold arp_spoof. cbn [of_option mbind res_bind].
    set (l := ((λ v, (victim_ip v, snd v)) <$> vs) ++ (ip', events) :: victims) in *.
    assert (Hl : l ≠ []) by (unfold l; intros [_ ?]%app_eq_nil; done). destruct l; [done|]. by rewrite E.
Qed.

(** One victim that answers at the second request, among other traffic. *)
Lemma arp_spoof_redirects_witness :
  let mac := MacAddr [2; 0; 0; 0; 0; 1] in let ip := Ip4Addr [10; 0; 0; 1] in let dest := Ip4Addr [10; 0; 0; 254] in
  let m' := MacAddr [2; 0; 0; 0; 0; 9] in let ip' := Ip4Addr [10; 0; 0; 9] in
  let v : victim := (ip', m', [None], [None; Some (reply_frame mac m' ip ip')]) in
  arp_spoof (Some mac) (Some ip) [(ip', snd v)] dest = Ok (Some (replicate 2 (request_frame mac ip ip'), [spoof_frame mac m' ip' dest])) ∧
  (∃ r, arp_surface_recv m' (spoof_frame mac m' ip' dest) = Ok (Some r) ∧ paired_ip r = dest ∧ paired_mac r = mac) ∧
  ∃ frame, arp_spoof (Some mac) (Some ip) [] dest = Ok (Some ([], [frame])) ∧ arp_surface_recv m' frame = Ok None ∧
    ∃ r, arp_surface_recv mac_addr_broadcast frame = Ok (Some r) ∧ paired_ip r = dest ∧ paired_mac r = mac.
Proof.
  intros mac ip dest m' ip' v.
  destruct (arp_spoof_redirects mac ip dest [v] m') as (H1 & H2 & H3 & _).
  1-3, 5: by split; [reflexivity|cbn; solve_bytes]. 2: done.
  - apply Forall_cons_2; [|apply Forall_nil_2]. split; [split; [reflexivity|cbn; solve_bytes]|].
    split; [split; [reflexivity|cbn; solve_bytes]|]. split; [by apply Forall_cons_2; [|apply Forall_nil_2]|].
    by exists [None], [], [].
  - split; [exact (H1 ltac:(done))|]. split; [|exact H3]. by apply Forall_cons_1 in H2 as [H2 _].
Defined.

(** C32: which options throw. With the options that Boost lets through, a valid interface and a valid destination, ping runs with the
    number of times that is given and the default interval; but it reads the interval as another type than the
    declared one, so that giving one always throws.  The scanner of a subnet reads its delay from the option of the single
    address, so that giving a delay always throws; without one it runs with 5 ms. *)
Theorem options_that_throw (vmp vms : variables_map) (i : list Z) (d : ip4_addr) (m : ip4_subnet_mask) :
  declared ping_options vmp → vmp !! str "help" = None → vmp !! str "iface" = Some (OptString i) →
  vmp !! str "dest" = Some (OptString (ip4_addr_to_str d)) → ip4_ok d →
  declared arp_scanner_options vms → vms !! str "help" = None → vms !! str "iface" = Some (OptString i) → vms !! str "ip" = None →
  vms !! str "subnet" = Some (OptString (ip4_subnet_mask_to_str m)) → subnet_ok m →
  ping_cli vmp = (if decide (vmp !! str "interval" = None)
    then Ok (Proceed (i, d, match vmp !! str "count" with Some (OptSize c) => Some c | _ => None end, 1000)) else Fault Thrown) ∧
  arp_scanner_cli vms = (if decide (vms !! str "delay" = None) then Ok (Proceed (ScanSubnet i m 5)) else Fault Thrown).
Proof.
  intros Hp Hph Hpi Hpd Hd Hs Hsh Hsi Hsip Hss Hm. split.
  - unfold ping_cli, count, as_string, as_int, as_size. rewrite Hph, Hpi, Hpd.
    rewrite (bool_decide_false (is_Some None)), !(bool_decide_true (is_Some (Some _))) by (done || by intros []). cbn [negb mbind res_bind].
    rewrite str_to_ip4_to_str by done. cbn [mbind res_bind].
    assert (Hc : (if bool_decide (is_Some (vmp !! str "count")) then c ← match vmp !! str "count" with Some (OptSize z) => Ok z | _ => Fault Thrown end; Ok (Some c) else Ok None)
      = Ok (match vmp !! str "count" with Some (OptSize c) => Some c | _ => None end)).
    { destruct (vmp !! str "count") as [v|] eqn:E; [|by rewrite bool_decide_false by by intros []].
      apply Hp in E. rewrite bool_decide_true by done. destruct v; try done; not_declared E. }
    rewrite (bind_Ok _ _ _ Hc). destruct (vmp !! str "interval") as [v|] eqn:E.
    + apply Hp in E. rewrite bool_decide_true, decide_False by done. cbn [negb]. destruct v; try done; not_declared E.
    + rewrite bool_decide_false, decide_True by (done || by intros []). done.
  - unfold arp_scanner_cli, count, as_string, as_int. rewrite Hsh, Hsi, Hsip, Hss.
    rewrite !(bool_decide_false (is_Some None)), !(bool_decide_true (is_Some (Some _))) by (done || by intros []). cbn [negb mbind res_bind].
    destruct (vms !! str "delay") as [v|] eqn:E.
    + by rewrite bool_decide_true, decide_False by done.
    + rewrite bool_decide_false, decide_True by (done || by intros []). cbn [negb mbind res_bind]. by rewrite str_to_subnet_to_str.
Qed.
Lemma options_that_throw_witness :
  let vmp : variables_map := <[str "interval" := OptSize 200]> (<[str "count" := OptSize 4]> (<[str "iface" := OptString (str "v0")]>
    {[str "dest" := OptString (ip4_addr_to_str (Ip4Addr [10; 0; 0; 9]))]})) in
  let vms : variables_map := <[str "iface" := OptString (str "v0")]>
    {[str "subnet" := OptString (ip4_subnet_mask_to_str (Ip4SubnetMask (Ip4Addr [10; 0; 0; 0]) 24))]} in
  ping_cli vmp = Fault Thrown ∧
  arp_scanner_cli vms = Ok (Proceed (ScanSubnet (str "v0") (Ip4SubnetMask (Ip4Addr [10; 0; 0; 0]) 24) 5)).
Proof.
  intros vmp vms.
  destruct (options_that_throw vmp vms (str "v0") (Ip4Addr [10; 0; 0; 9]) (Ip4SubnetMask (Ip4Addr [10; 0; 0; 0]) 24)) as [H1 H2].
  1, 6: apply (bool_decide_unpack _); vm_compute; reflexivity.
  1-3, 5-8: vm_compute; reflexivity.
  - split; [reflexivity|cbn; solve_bytes].
  - split; [split; [reflexivity|cbn; solve_bytes]|]. split; vm_compute; congruence.
  - split; [rewrite H1|rewrite H2]; vm_compute; reflexivity.
Defined.
