(* ===== verification/OnionMain.v ===== *)
(** The programs of the onion network: [src/main/onion_network/onion_network_client_main.cpp] and [onion_network_node_main.cpp].

    The client's program makes the chain of nodes that its options name and opens a virtual interface over it; with [--test] it then
    queries names and pings hosts through it and ends, else it goes on for ever.  The address of an interface and the reading of an
    address have interfaces of an earlier time, and are variables; what the program does after its wiring is a list of actions. *)

From Stdlib Require Import ZArith Lia String.
From stdpp Require Import base decidable list numbers gmap.
From S2P Require Import Prelude Text Ip4 Dns Proxy Onion Commands.

Inductive onion_action :=
  | OpenVirtual (name : list Z) | PrintText (text : list Z)
  | QueryName (type : Z) (name : list Z) | PingHost (dest : ip4_addr) (count interval : Z) | SleepFor (ms : Z).

Section programs.
Context `{UdpStack} (get_ip_addr_of_iface : list Z → res ip4_addr) (str_to_addr : list Z → res ip4_addr).

Definition test_names : list (list Z) :=
  [str "wiki.osdev.org"; str "www.wix.com"; str "docs.google.com"; str "www.scs.stanford.edu"; str "yahoo.com"; str "google.com";
   str "youtube.com"; str "tradingview.com"; str "nasa.com"; str "medium.com"; str "www.scs.stanford.edu"; str "docs.google.com";
   str "slides.google.com"; str "sheets.google.com"; str "podcasts.google.com"; str "gmail.google.com"; str "account.google.com"].
Definition test_hosts : list (list Z) :=
  [str "8.8.8.8"; str "142.251.142.206"; str "34.149.87.45"; str "13.226.2.85"; str "13.226.2.79"; str "172.217.22.14";
   str "185.53.177.52"; str "162.159.153.4"; str "142.251.142.206"; str "162.159.152.4"; str "171.66.3.9"; str "172.217.22.46";
   str "142.251.142.206"].
(** The two loops of the test. *)
Definition query_names (names : list (list Z)) : list onion_action :=
  names ≫= λ name, [QueryName dns_type_a name; PrintText [10]; SleepFor 100].
Fixpoint ping_hosts (hosts : list (list Z)) : res (list onion_action) :=
  match hosts with
  | [] => Ok []
  | host :: hosts =>
      dest ← str_to_addr host;
      actions ← ping_hosts hosts;
      Ok ([PingHost dest 5 10; PrintText [10]; SleepFor 100] ++ actions)
  end.

Definition VIRTUAL_IFACE_NAME : list Z := str "virt0".
(** The chain, what is done, and whether the program then ends. *)
Definition onion_network_node_start_main (iface : list Z) (path : list ip4_addr) (perform_test_comm : bool) :
    res (list udp_client * list onion_action * bool) :=
  ip ← get_ip_addr_of_iface iface;
  proxy ← onion_network_client path ip;
  let opened := [OpenVirtual VIRTUAL_IFACE_NAME; PrintText (str "the new virtual interface " ++ [34] ++ VIRTUAL_IFACE_NAME ++ [34] ++
      str " is open. send your ip traffic through it, and receive ip traffic back" ++ [10; 10])] in
  if perform_test_comm then
    _ ← get_ip_addr_of_iface iface;
    server ← str_to_addr (str "8.8.8.8");
    _ ← get_ip_addr_of_iface iface;
    pings ← ping_hosts test_hosts;
    Ok (proxy, opened ++ [PrintText (str "testing dns queries" ++ [10])] ++ query_names test_names ++
               [PrintText (str "testing pinging" ++ [10])] ++ pings, true)
  else Ok (proxy, opened, false).

Definition onion_client_options : list (list Z * opt_kind) :=
  [(str "help", KFlag); (str "iface", KString); (str "path", KStrings); (str "test", KFlag)].
Fixpoint ip_path (path : list (list Z)) : res (list ip4_addr) :=
  match path with
  | [] => Ok []
  | node :: path => a ← str_to_addr node; rest ← ip_path path; Ok (a :: rest)
  end.
Definition onion_client_cli (vm : variables_map) : res (decision (list Z * list ip4_addr * bool)) :=
  if count vm (str "help") then Ok PrintOptions
  else if negb (count vm (str "iface")) then Ok PrintOptions
  else
    iface ← as_string vm (str "iface");
    if negb (count vm (str "path")) then Ok PrintOptions
    else
      path ← as_strings vm (str "path");
      addrs ← ip_path path;
      let test := count vm (str "test") in
      Ok (Proceed (iface, addrs, test)).
Definition onion_client_program (vm : variables_map) : res (option (list udp_client * list onion_action * bool)) :=
  d ← onion_client_cli vm;
  match d with
  | Proceed (iface, path, test) => Some <$> onion_network_node_start_main iface path test
  | _ => Ok None
  end.

(** The node: it never ends. *)
Definition onion_node_options : list (list Z * opt_kind) := [(str "help", KFlag); (str "net-layer-iface", KString)].
Definition onion_node_cli (vm : variables_map) : res (decision (list Z)) :=
  if count vm (str "help") then Ok PrintOptions
  else if negb (count vm (str "net-layer-iface")) then Ok PrintOptions
  else net_layer_iface ← as_string vm (str "net-layer-iface"); Ok (Proceed net_layer_iface).
Definition onion_network_node_main (net_layer_iface : list Z) : res (onion_network_node * list onion_action) :=
  ip ← get_ip_addr_of_iface net_layer_iface;
  Ok (new_onion_network_node ip, [PrintText (str "onion network node started" ++ [10])]).
Definition onion_node_program (vm : variables_map) : res (option (onion_network_node * list onion_action)) :=
  d ← onion_node_cli vm;
  match d with Proceed iface => Some <$> onion_network_node_main iface | _ => Ok None end.
End programs.

(** * Lemmas *)

Section lemmas.
Context `{UdpStack} {get_ip_addr_of_iface : list Z → res ip4_addr} {str_to_addr : list Z → res ip4_addr}.
Context (reads_back : ∀ a, ip4_ok a → str_to_addr (ip4_addr_to_str a) = Ok a).

Lemma ip_path_texts chain : Forall ip4_ok chain → ip_path str_to_addr (ip4_addr_to_str <$> chain) = Ok chain.
Proof.
  induction 1 as [|a chain Ha _ IH]; [done|]. rewrite fmap_cons. cbn [ip_path].
  by rewrite (bind_Ok _ _ _ (reads_back a Ha)), (bind_Ok _ _ _ IH).
Qed.
End lemmas.

(** The hosts of the test are addresses. *)
Definition test_addrs : list ip4_addr :=
  Ip4Addr <$> [[8; 8; 8; 8]; [142; 251; 142; 206]; [34; 149; 87; 45]; [13; 226; 2; 85]; [13; 226; 2; 79]; [172; 217; 22; 14];
    [185; 53; 177; 52]; [162; 159; 153; 4]; [142; 251; 142; 206]; [162; 159; 152; 4]; [171; 66; 3; 9]; [172; 217; 22; 46]; [142; 251; 142; 206]].
Lemma test_addrs_ok : Forall ip4_ok test_addrs.
Proof. unfold test_addrs. cbn [fmap list_fmap]. repeat (apply Forall_cons_2; [split; [done|cbn; solve_bytes]|]). apply Forall_nil_2. Qed.
Lemma test_hosts_text : test_hosts = ip4_addr_to_str <$> test_addrs.
Proof. vm_compute. reflexivity. Qed.
Lemma ping_hosts_ok (str_to_addr : list Z → res ip4_addr) addrs :
  (∀ a, ip4_ok a → str_to_addr (ip4_addr_to_str a) = Ok a) → Forall ip4_ok addrs →
  ping_hosts str_to_addr (ip4_addr_to_str <$> addrs) = Ok (addrs ≫= λ a, [PingHost a 5 10; PrintText [10]; SleepFor 100]).
Proof.
  intros Hr. induction 1 as [|a addrs Ha _ IH]; [done|]. rewrite fmap_cons. cbn [ping_hosts].
  by rewrite (bind_Ok _ _ _ (Hr a Ha)), (bind_Ok _ _ _ IH).
Qed.

(** What the test does after the virtual interface is open: every name is queried once, every host is pinged five times, and the program
    has slept for three seconds between them. *)
Definition queried (l : list onion_action) : list (list Z) := omap (λ a, match a with QueryName _ n => Some n | _ => None end) l.
Definition pinged (l : list onion_action) : list (ip4_addr * Z * Z) := omap (λ a, match a with PingHost d c i => Some (d, c, i) | _ => None end) l.
Definition slept_for (l : list onion_action) : Z := foldr (λ a t, match a with SleepFor ms => ms + t | _ => t end) 0 l.
Lemma start_main_ok `{UdpStack} get_ip_addr_of_iface str_to_addr iface ip chain test :
  (∀ a, ip4_ok a → str_to_addr (ip4_addr_to_str a) = Ok a) → get_ip_addr_of_iface iface = Ok ip → chain ≠ [] →
  ∃ actions, onion_network_node_start_main get_ip_addr_of_iface str_to_addr iface chain test =
    Ok (chain_node ip <$> chain, OpenVirtual VIRTUAL_IFACE_NAME :: actions, test) ∧
    if test : bool
    then queried actions = test_names ∧ ip4_addr_to_str <$> (fst ∘ fst <$> pinged actions) = test_hosts ∧
         Forall (λ x, snd (fst x) = 5 ∧ snd x = 10) (pinged actions) ∧ slept_for actions = 3000
    else queried actions = [] ∧ pinged actions = [] ∧ slept_for actions = 0.
Proof.
  intros Hr Hi Hc. unfold onion_network_node_start_main. rewrite Hi. cbn [mbind res_bind]. unfold onion_network_client.
  destruct chain as [|c chain]; [done|]. cbn [mbind res_bind]. destruct test; [|by eexists].
  replace (str "8.8.8.8") with (ip4_addr_to_str (Ip4Addr [8; 8; 8; 8])) by done.
  rewrite (Hr (Ip4Addr [8; 8; 8; 8])) by (split; [done|cbn; solve_bytes]). cbn [mbind res_bind].
  pose proof (ping_hosts_ok _ _ Hr test_addrs_ok) as Ep. rewrite <- test_hosts_text in Ep. rewrite Ep. cbn [mbind res_bind].
  eexists. split; [reflexivity|]. split; [vm_compute; reflexivity|]. split; [vm_compute; reflexivity|].
  split; [|vm_compute; reflexivity]. by apply (bool_decide_unpack _).
Qed.

(** * Properties *)

(** The program of the client, from its options to the network.  Given an interface that has an address and a path written as addresses,
    the virtual interface is opened over the chain of exactly those nodes, and the program ends if and only if it was asked for the
    test, having queried each name and pinged each host five times; and a packet that is put into the interface is carried by its destinations
    through the nodes of the path, which are different, whatever they have done before, and leaves the last of them in its name. *)
Theorem onion_program_path `{UdpStack} `{SendBuffer} (get_ip_addr_of_iface str_to_addr : list Z → res ip4_addr) (vm : variables_map)
    (iface : list Z) (ip : ip4_addr) (path : list ip4_addr) :
  (∀ a, ip4_ok a → str_to_addr (ip4_addr_to_str a) = Ok a) → get_ip_addr_of_iface iface = Ok ip → ip4_ok ip →
  vm !! str "help" = None → vm !! str "iface" = Some (OptString iface) →
  vm !! str "path" = Some (OptStrings (ip4_addr_to_str <$> path)) → path ≠ [] → NoDup path → Forall ip4_ok path →
  ∃ actions, onion_client_program get_ip_addr_of_iface str_to_addr vm =
      Ok (Some (chain_node ip <$> path, OpenVirtual VIRTUAL_IFACE_NAME :: actions, count vm (str "test"))) ∧
    (if count vm (str "test")
     then queried actions = test_names ∧ ip4_addr_to_str <$> (fst ∘ fst <$> pinged actions) = test_hosts ∧
          Forall (λ x, snd (fst x) = 5 ∧ snd x = 10) (pinged actions) ∧ slept_for actions = 3000
     else queried actions = [] ∧ pinged actions = [] ∧ slept_for actions = 0) ∧
    ∀ network_first net h data, nodes_in path net → ip4_header_ok h → net !! dest_addr h = None → fits_layers (length path) data →
      ∃ pkt net' exit, last path = Some exit ∧ onion_send_data (chain_node ip <$> path) (ip4_bytes h ++ data) = Ok pkt ∧
        travel network_first true (S (length path)) net pkt = Ok (net', Some (ip4_bytes (outgoing exit h) ++ data)).
Proof.
  intros Hr Hi Hip Hh Hif Hp Hne Hnd Hok.
  destruct (start_main_ok get_ip_addr_of_iface str_to_addr iface ip path (count vm (str "test")) Hr Hi Hne) as (actions & E & Hact).
  exists actions. split; [|split; [exact Hact|]].
  - unfold onion_client_program, onion_client_cli, count at 1 2 3, as_string, as_strings. rewrite Hh, Hif, Hp.
    rewrite bool_decide_false by (intros [? Hx]; discriminate Hx). rewrite !bool_decide_true by (by eexists). cbn [negb mbind res_bind].
    rewrite (ip_path_texts Hr path Hok). cbn [mbind res_bind]. by rewrite E.
  - intros b net h data Hin Hhok Hd Hfit. destruct (travel_ok b ip h data path) as (hc & y & Hsend & Hhc & _ & _ & _ & _ & Ht); [done..|].
    destruct (Ht net hc Hin Hhc eq_refl eq_refl) as (net' & Et & _ & Hrest).
    destruct (last path) as [exit|] eqn:Hl; [|by apply last_None in Hl].
    assert (Hexit : ip4_ok exit) by (apply (proj1 (Forall_forall _ _) Hok), last_Some_elem_of, Hl).
    exists (ip4_bytes hc ++ y), net', exit. split; [done|]. split; [exact Hsend|].
    replace (S (length path)) with (length path + 1)%nat by lia. rewrite Et. unfold last_header. rewrite Hl.
    apply travel_leaves; [by apply outgoing_ok|]. rewrite Hrest; [done|]. intros Hin'.
    destruct (proj1 (Forall_forall _ _) Hin _ Hin') as (n & Hn & _). cbn in *. congruence.
Qed.
(** The conversion of now, with an exception for what is not an address. *)
Definition current_str_to_addr (s : list Z) : res ip4_addr := o ← str_to_ip4_addr s; of_option Thrown o.
Lemma current_reads_back a : ip4_ok a → current_str_to_addr (ip4_addr_to_str a) = Ok a.
Proof. intros Ha. unfold current_str_to_addr. by rewrite str_to_ip4_to_str. Qed.
Lemma onion_program_path_witness :
  let B := example_buffer in
  let ip := Ip4Addr [192; 168; 1; 7] in
  let path := [Ip4Addr [10; 0; 0; 1]; Ip4Addr [10; 0; 0; 2]] in
  let vm : variables_map := {[ str "iface" := OptString (str "eth0");
    str "path" := OptStrings (ip4_addr_to_str <$> path); str "test" := OptFlag ]} in
  ∃ actions, onion_client_program (λ _, Ok ip) current_str_to_addr vm =
      Ok (Some (chain_node ip <$> path, OpenVirtual VIRTUAL_IFACE_NAME :: actions, count vm (str "test"))) ∧
    (if count vm (str "test")
     then queried actions = test_names ∧ ip4_addr_to_str <$> (fst ∘ fst <$> pinged actions) = test_hosts ∧
          Forall (λ x, snd (fst x) = 5 ∧ snd x = 10) (pinged actions) ∧ slept_for actions = 3000
     else queried actions = [] ∧ pinged actions = [] ∧ slept_for actions = 0) ∧
    ∀ network_first net h data, nodes_in path net → ip4_header_ok h → net !! dest_addr h = None → fits_layers (length path) data →
      ∃ pkt net' exit, last path = Some exit ∧ onion_send_data (chain_node ip <$> path) (ip4_bytes h ++ data) = Ok pkt ∧
        travel network_first true (S (length path)) net pkt = Ok (net', Some (ip4_bytes (outgoing exit h) ++ data)).
Proof.
  intros B ip path vm. apply (onion_program_path (H0 := B) (λ _, Ok ip) current_str_to_addr vm (str "eth0") ip path).
  - exact current_reads_back.
  - reflexivity.
  - split; [done|cbn; solve_bytes].
  - vm_compute. reflexivity.
  - vm_compute. reflexivity.
  - vm_compute. reflexivity.
  - done.
  - apply (bool_decide_unpack _). vm_compute. exact I.
  - repeat apply Forall_cons_2; try apply Forall_nil_2; (split; [done|cbn; solve_bytes]).
Defined.
