(* ===== verification/DirectConns.v ===== *)
(** The direct connections over ICMP and EMP: [src/direct_connections/icmp/*], [src/direct_connections/emp/*], with
    [src/protocol_stacks/icmp_stack.h] and [emp_stack.h].  (Those over UDP are with the onion network, those over TCP with the TCP sessions.)

    Both put a protocol with two labels on top of IPv4: the type and the code of a message for ICMP, the source and the destination point for EMP.
    The objects of the stack have the interface of an earlier time; what the connections rely on is the class [DirectStack]: a
    message that is sent with two addresses and two labels is read back with them.  Today's protocols are instances. *)

From Stdlib Require Import ZArith Lia.
From stdpp Require Import base decidable list numbers gmap sets.
From S2P Require Import Prelude Encap Ip4 Icmp VarAddr Overlay.

(** [icmp_packet_stack] and [emp_packet_stack]. *)
Record packet_stack (L : Type) := PacketStack {
  ps_source_addr : ip4_addr; ps_dest_addr : ip4_addr; ps_first : L; ps_second : L; ps_plain_data : list Z
}.
Arguments PacketStack {_} _ _ _ _ _.
Arguments ps_source_addr {_} _.
Arguments ps_dest_addr {_} _.
Arguments ps_first {_} _.
Arguments ps_second {_} _.
Arguments ps_plain_data {_} _.

Class DirectStack (L : Type) := {
  ds_send : ip4_addr → ip4_addr → L → L → list Z → res (list Z);
  ds_recv : list Z → res (option (packet_stack L));
  ds_ok : L → L → list Z → Prop;
  ds_carries src dst a b data : ip4_ok src → ip4_ok dst → ds_ok a b data →
    ∃ pkt, ds_send src dst a b data = Ok pkt ∧ ds_recv pkt = Ok (Some (PacketStack src dst a b data))
}.

(** * icmp_client.cpp, icmp_server.cpp *)

Definition ICMP_CONN_CLIENT_TYPE : Z := 80.
Definition ICMP_CONN_CLIENT_CODE : Z := 0.
Definition ICMP_CONN_SERVER_TYPE : Z := 81.
Definition ICMP_CONN_SERVER_CODE : Z := 0.

Section icmp.
Context {IS : DirectStack Z}.

(** The choices of the protocols, and the requirements on what comes in: a type and a code, and no address. *)
Record icmp_conn := IcmpConn {
  icmp_next_dest_addr : ip4_addr; icmp_next_source_addr : ip4_addr; icmp_next_type : Z; icmp_next_code : Z;
  icmp_listen_type : Z; icmp_listen_code : Z
}.
Definition icmp_client (dest_ip src_ip : ip4_addr) : icmp_conn :=
  IcmpConn dest_ip src_ip ICMP_CONN_CLIENT_TYPE ICMP_CONN_CLIENT_CODE ICMP_CONN_SERVER_TYPE ICMP_CONN_SERVER_CODE.
Definition icmp_server (dest_ip src_ip : ip4_addr) : icmp_conn :=
  IcmpConn dest_ip src_ip ICMP_CONN_SERVER_TYPE ICMP_CONN_SERVER_CODE ICMP_CONN_CLIENT_TYPE ICMP_CONN_CLIENT_CODE.

Definition icmp_client_send_data (c : icmp_conn) (data : list Z) : res (list Z) :=
  ds_send (icmp_next_source_addr c) (icmp_next_dest_addr c) (icmp_next_type c) (icmp_next_code c) data.
(** The listeners of the protocols, and [handle_callback]: the stack that the stack's listeners get. *)
Definition icmp_arrives (c : icmp_conn) (pkt : list Z) : res (option (packet_stack Z)) :=
  o ← ds_recv pkt;
  Ok (match o with
      | Some st => if (ps_first st =? icmp_listen_type c) && (ps_second st =? icmp_listen_code c) then Some st else None
      | None => None
      end).
(** The client's listeners get the data too. *)
Definition icmp_client_handle_callback (c : icmp_conn) (pkt : list Z) : res (option (packet_stack Z * list Z)) :=
  o ← icmp_arrives c pkt; Ok (match o with Some st => Some (st, ps_plain_data st) | None => None end).
Definition icmp_server_handle_callback (s : icmp_conn) (pkt : list Z) : res (option (packet_stack Z)) := icmp_arrives s pkt.
Definition icmp_send_data_to_client (s : icmp_conn) (dest_addr : ip4_addr) (type : Z) (msg : list Z) : res (icmp_conn * list Z) :=
  let s := IcmpConn dest_addr (icmp_next_source_addr s) type (icmp_next_code s) (icmp_listen_type s) (icmp_listen_code s) in
  pkt ← icmp_client_send_data s msg; Ok (s, pkt).

(** A server after any replies. *)
Inductive icmp_server_at (ip : ip4_addr) : icmp_conn → Prop :=
  | icmp_server_new dest : icmp_server_at ip (icmp_server dest ip)
  | icmp_server_replied s dest type msg s' pkt :
      icmp_server_at ip s → icmp_send_data_to_client s dest type msg = Ok (s', pkt) → icmp_server_at ip s'.

Lemma icmp_server_keeps ip s : icmp_server_at ip s →
  icmp_next_source_addr s = ip ∧ icmp_next_code s = ICMP_CONN_SERVER_CODE ∧
  icmp_listen_type s = ICMP_CONN_CLIENT_TYPE ∧ icmp_listen_code s = ICMP_CONN_CLIENT_CODE.
Proof.
  induction 1 as [dest|s dest type msg s' pkt _ IH E]; [done|].
  unfold icmp_send_data_to_client in E. apply res_bind_ok in E as (p & _ & [= <- _]). exact IH.
Qed.
End icmp.

(** * emp_client.cpp, emp_server.cpp *)

Section emp.
Context {ES : DirectStack (list Z)}.

(** [emp_requires_dest]: the requirement on the destination address.  What comes in for the word [emp_word] in the trie of points comes to the
    connection. *)
Record emp_conn := EmpConn {
  emp_next_dest : option (ip4_addr * list Z); emp_next_source_addr : ip4_addr; emp_next_source_point : list Z;
  emp_requires_dest : option ip4_addr; emp_word : list Z
}.
Definition emp_client (dest_ip : ip4_addr) (dest_endpoint src_endpoint : list Z) (src_ip : ip4_addr) : emp_conn :=
  EmpConn (Some (dest_ip, dest_endpoint)) src_ip src_endpoint (Some src_ip) src_endpoint.
Definition emp_server (endpoint : list Z) (src_ip : ip4_addr) : emp_conn := EmpConn None src_ip endpoint None endpoint.

(** Before a server has sent anything, its choices of the other end are not set. *)
Definition emp_client_send_data (c : emp_conn) (data : list Z) : res (list Z) :=
  '(dest_addr, dest_point) ← of_option NullDeref (emp_next_dest c);
  ds_send (emp_next_source_addr c) dest_addr (emp_next_source_point c) dest_point data.
Definition emp_arrives (c : emp_conn) (pkt : list Z) : res (option (packet_stack (list Z))) :=
  o ← ds_recv pkt;
  Ok (match o with
      | Some st =>
          if negb (filter_rejects ip4_eqb (emp_requires_dest c) (ps_dest_addr st)) && emp_port_eqb (ps_second st) (emp_word c)
          then Some st else None
      | None => None
      end).
Definition emp_client_handle_callback (c : emp_conn) (pkt : list Z) : res (option (packet_stack (list Z) * list Z)) :=
  o ← emp_arrives c pkt; Ok (match o with Some st => Some (st, ps_plain_data st) | None => None end).
Definition emp_server_handle_callback (s : emp_conn) (pkt : list Z) : res (option (packet_stack (list Z))) := emp_arrives s pkt.
Definition emp_send_data_to_client (s : emp_conn) (client_addr : ip4_addr) (dest_endpoint : list Z) (msg : list Z) : res (emp_conn * list Z) :=
  let s := EmpConn (Some (client_addr, dest_endpoint)) (emp_next_source_addr s) (emp_next_source_point s) (emp_requires_dest s) (emp_word s) in
  pkt ← emp_client_send_data s msg; Ok (s, pkt).

Inductive emp_server_at (ip : ip4_addr) (point : list Z) : emp_conn → Prop :=
  | emp_server_new : emp_server_at ip point (emp_server point ip)
  | emp_server_replied s dest p msg s' pkt :
      emp_server_at ip point s → emp_send_data_to_client s dest p msg = Ok (s', pkt) → emp_server_at ip point s'.

Lemma emp_server_keeps ip point s : emp_server_at ip point s →
  emp_next_source_addr s = ip ∧ emp_next_source_point s = point ∧ emp_requires_dest s = None ∧ emp_word s = point.
Proof.
  induction 1 as [|s dest p msg s' pkt _ IH E]; [done|].
  unfold emp_send_data_to_client in E. apply res_bind_ok in E as (x & _ & [= <- _]). exact IH.
Qed.
End emp.

(** * The connections of a gateway

    A connection registers its IPv4 protocol with the gateway that it is given when it is made, and takes it back when it is destroyed.
    The header of the gateway is not in the tree: what is relied on is a set of listeners.  A listener that is still registered
    when its connection is gone would be called through a dangling pointer. *)

Class GatewayListeners (W : Type) := {
  gw_listeners : W → gset nat;
  gw_add_listener : nat → W → W;
  gw_remove_listener : nat → W → W;
  gw_add_law i w : gw_listeners (gw_add_listener i w) = {[i]} ∪ gw_listeners w;
  gw_remove_law i w : gw_listeners (gw_remove_listener i w) = gw_listeners w ∖ {[i]}
}.
(** A gateway with nothing but its listeners. *)
#[export] Instance set_gateway : GatewayListeners (gset nat) := {|
  gw_listeners w := w; gw_add_listener i w := {[i]} ∪ w; gw_remove_listener i w := w ∖ {[i]};
  gw_add_law _ _ := eq_refl; gw_remove_law _ _ := eq_refl
|}.

Section gateway.
Context {W C O : Type} {GL : GatewayListeners W} (handle_callback : C → list Z → res O).
Implicit Types s : W * gmap nat C.

Definition open_conn (i : nat) (c : C) s : W * gmap nat C := (gw_add_listener i s.1, <[i := c]> s.2).
Definition close_conn (i : nat) s : W * gmap nat C := (gw_remove_listener i s.1, delete i s.2).
(** A packet of the gateway goes to its listeners. *)
Fixpoint deliver (listeners : list nat) (conns : gmap nat C) (pkt : list Z) : res (list (nat * O)) :=
  match listeners with
  | [] => Ok []
  | i :: listeners =>
      c ← of_option NullDeref (conns !! i);
      o ← handle_callback c pkt;
      outs ← deliver listeners conns pkt; Ok ((i, o) :: outs)
  end.
Definition gateway_recv (pkt : list Z) s : res (list (nat * O)) := deliver (elements (gw_listeners s.1)) s.2 pkt.

(** Connections that come and go; each is an object of its own. *)
Inductive gateway_at : W * gmap nat C → Prop :=
  | gateway_new w : gw_listeners w = ∅ → gateway_at (w, ∅)
  | gateway_opened i c s : gateway_at s → s.2 !! i = None → gateway_at (open_conn i c s)
  | gateway_closed i s : gateway_at s → is_Some (s.2 !! i) → gateway_at (close_conn i s).
Lemma gateway_listeners_live s : gateway_at s → gw_listeners s.1 = dom s.2.
Proof.
  induction 1 as [w Hw|i c s _ IH Hi|i s _ IH Hi]; cbn.
  - by rewrite Hw, dom_empty_L.
  - by rewrite gw_add_law, dom_insert_L, IH.
  - by rewrite gw_remove_law, dom_delete_L, IH.
Qed.
Lemma deliver_ok ls conns pkt : Forall (λ i, is_Some (conns !! i)) ls →
  (∀ i c, conns !! i = Some c → ∃ o, handle_callback c pkt = Ok o) →
  ∃ outs, deliver ls conns pkt = Ok outs ∧ outs.*1 = ls ∧
    ∀ i o, (i, o) ∈ outs → ∃ c, conns !! i = Some c ∧ handle_callback c pkt = Ok o.
Proof.
  intros Hls Hok. induction Hls as [|i ls [c Hc] Hls IH]; [exists []; split_and!; [done..|]; intros i o Hin; by apply elem_of_nil in Hin|].
  destruct IH as (outs & E & Ei & Hall). destruct (Hok i c Hc) as [o Ho]. exists ((i, o) :: outs). cbn [deliver]. rewrite Hc.
  cbn [of_option mbind res_bind]. rewrite Ho. cbn [mbind res_bind]. rewrite E. cbn [mbind res_bind fmap list_fmap fst]. split_and!; [done|by rewrite <- Ei|].
  intros j x [[= -> ->]|Hin]%elem_of_cons; [by exists c|by apply Hall].
Qed.
(** A packet that can be parsed is handed to every connection that lives, once, and to none that is gone. *)
Theorem gateway_delivers pkt s : gateway_at s → (∀ i c, s.2 !! i = Some c → ∃ o, handle_callback c pkt = Ok o) →
  ∃ outs, gateway_recv pkt s = Ok outs ∧ NoDup outs.*1 ∧ (∀ i, i ∈ outs.*1 ↔ is_Some (s.2 !! i)) ∧
    ∀ i o, (i, o) ∈ outs → ∃ c, s.2 !! i = Some c ∧ handle_callback c pkt = Ok o.
Proof.
  intros Hs Hok. pose proof (gateway_listeners_live s Hs) as Hl. unfold gateway_recv.
  destruct (deliver_ok (elements (gw_listeners s.1)) s.2 pkt) as (outs & E & Ei & Hall); [|done|].
  - apply Forall_forall. intros i Hi. apply elem_of_elements in Hi. rewrite Hl in Hi. by apply elem_of_dom.
  - exists outs. rewrite Ei. split_and!; [done|apply NoDup_elements| |done]. intros i. by rewrite elem_of_elements, Hl, elem_of_dom.
Qed.
End gateway.

(** The destructors. *)
Definition destroy_icmp_client {W} `{GatewayListeners W} : nat → W * gmap nat icmp_conn → W * gmap nat icmp_conn := close_conn.
Definition destroy_icmp_server {W} `{GatewayListeners W} : nat → W * gmap nat icmp_conn → W * gmap nat icmp_conn := close_conn.
Definition destroy_emp_client {W} `{GatewayListeners W} : nat → W * gmap nat emp_conn → W * gmap nat emp_conn := close_conn.
Definition destroy_emp_server {W} `{GatewayListeners W} : nat → W * gmap nat emp_conn → W * gmap nat emp_conn := close_conn.

(** * Today's protocols as the stacks *)

Definition ip4_conn_header (pr : Z) (src dst : ip4_addr) (inner : list Z) : ip4_header :=
  Ip4Header 4 5 0 (u16 (20 + Z.of_nat (length inner))) 1234 0 0 255 pr 0 src dst.
Lemma ip4_conn_ok pr src dst inner : byte_ok pr → ip4_ok src → ip4_ok dst → ip4_header_ok (ip4_conn_header pr src dst inner).
Proof. intros. unfold ip4_header_ok, ip4_conn_header. cbn. split_and!; try done; try apply u16_in_range; solve_bytes. Qed.
Definition over_ip4 (pr : Z) (src dst : ip4_addr) (inner : res (option (list Z))) : res (list Z) :=
  o ← inner; inner ← of_option NullDeref o;
  o ← ip4_send true (ip4_conn_header pr src dst inner) inner; of_option NullDeref o.
Lemma over_ip4_carries pr src dst inner : byte_ok pr → ip4_ok src → ip4_ok dst →
  ∃ h pkt, over_ip4 pr src dst (Ok (Some inner)) = Ok pkt ∧ ip4_handle_recv None None (Some pr) pkt = Ok (Some (h, inner)) ∧
    src_addr h = src ∧ dest_addr h = dst.
Proof.
  intros Hp Hs Hd. pose proof (ip4_conn_ok pr src dst inner Hp Hs Hd) as Hok. set (h := ip4_conn_header pr src dst inner) in *.
  exists (clear_flags (ip4_sealed h)), (ip4_bytes (ip4_sealed h) ++ inner). split.
  { unfold over_ip4. cbn [mbind res_bind of_option]. fold h. by rewrite ip4_send_ok. }
  split; [|done].
  pose proof (ip4_recv_ok (Ip4Filters None None (Some pr) ltac:(done) ltac:(done)) (ip4_sealed h) inner (proj1 (ip4_checksum_verifies h Hok))) as E.
  cbn [if_src if_dest if_prot] in E. rewrite E. unfold ip4_match. by rewrite bool_decide_true.
Qed.

Definition icmp_stack_send (src dst : ip4_addr) (type code : Z) (data : list Z) : res (list Z) :=
  over_ip4 ip_prot_icmp src dst (icmp_send true (IcmpHeader type code 0 0) data).
(** The receiver of ICMP gets the header with the data. *)
Definition icmp_stack_recv (pkt : list Z) : res (option (packet_stack Z)) :=
  o ← ip4_handle_recv None None (Some ip_prot_icmp) pkt;
  match o with
  | None => Ok None
  | Some (ih, d) =>
      o ← icmp_handle_recv None d;
      Ok (match o with
          | None => None
          | Some (h, d) => Some (PacketStack (src_addr ih) (dest_addr ih) (icmp_type h) (icmp_code h) (drop sizeof_icmp_header d))
          end)
  end.
Lemma icmp_stack_carries src dst type code (data : list Z) : ip4_ok src → ip4_ok dst → byte_ok type ∧ byte_ok code →
  ∃ pkt, icmp_stack_send src dst type code data = Ok pkt ∧ icmp_stack_recv pkt = Ok (Some (PacketStack src dst type code data)).
Proof.
  intros Hs Hd [Ht Hc]. set (h := IcmpHeader type code 0 0).
  assert (Hh : icmp_header_ok h) by (repeat split; done || (cbn; lia) || apply Ht || apply Hc).
  destruct (over_ip4_carries ip_prot_icmp src dst (icmp_bytes (icmp_sealed h data) ++ data)) as (ih & pkt & E & R & Es & Ed); [by vm_compute|done|done|].
  exists pkt. split; [unfold icmp_stack_send; by rewrite icmp_send_ok|]. unfold icmp_stack_recv. rewrite R. cbn [mbind res_bind].
  rewrite (icmp_recv_ok None (icmp_sealed h data)) by (apply icmp_set_cksum_ok; [done|apply fold_sum_ok]).
  cbn [filter_accepts mbind res_bind]. rewrite decide_True by done. by rewrite Es, Ed.
Qed.
#[export] Instance ip4_icmp_stack : DirectStack Z := {|
  ds_send := icmp_stack_send; ds_recv := icmp_stack_recv; ds_ok type code _ := byte_ok type ∧ byte_ok code;
  ds_carries := icmp_stack_carries
|}.

Definition EMP_IP_PROT : Z := 0xa0.
Definition emp_stack_send (src dst : ip4_addr) (source_point dest_point data : list Z) : res (list Z) :=
  over_ip4 EMP_IP_PROT src dst (emp_send true (EmpHeader source_point dest_point) data).
Definition emp_stack_recv (pkt : list Z) : res (option (packet_stack (list Z))) :=
  o ← ip4_handle_recv None None (Some EMP_IP_PROT) pkt;
  match o with
  | None => Ok None
  | Some (ih, d) =>
      o ← emp_handle_recv None None d;
      Ok (match o with
          | None => None
          | Some (h, d) => Some (PacketStack (src_addr ih) (dest_addr ih) (emp_src_port h) (emp_dest_port h) d)
          end)
  end.
Definition emp_stack_ok (source_point dest_point data : list Z) : Prop :=
  bytes_ok source_point ∧ bytes_ok dest_point ∧ fits (emp_bytes (EmpHeader source_point dest_point)) data.
Lemma emp_stack_carries src dst sp dp data : ip4_ok src → ip4_ok dst → emp_stack_ok sp dp data →
  ∃ pkt, emp_stack_send src dst sp dp data = Ok pkt ∧ emp_stack_recv pkt = Ok (Some (PacketStack src dst sp dp data)).
Proof.
  intros Hs Hd (H1 & H2 & H3). set (h := EmpHeader sp dp).
  destruct (over_ip4_carries EMP_IP_PROT src dst (emp_bytes h ++ data)) as (ih & pkt & E & R & Es & Ed); [by vm_compute|done|done|].
  exists pkt. split; [unfold emp_stack_send; by rewrite emp_send_spec, decide_True|]. unfold emp_stack_recv. rewrite R. cbn [mbind res_bind].
  pose proof (emp_recv_ok (None, None) h data) as Er. cbn [fst snd] in Er. rewrite Er. unfold emp_match. rewrite bool_decide_true by done. cbn [mbind res_bind]. by rewrite Es, Ed.
Qed.
#[export] Instance ip4_emp_stack : DirectStack (list Z) := {|
  ds_send := emp_stack_send; ds_recv := emp_stack_recv; ds_ok := emp_stack_ok; ds_carries := emp_stack_carries
|}.

(** * Properties *)

(** A conversation over ICMP, with a server that has sent whatever replies before: the server gets what a client sends, with the client's address,
    and no client does; and its reply with a type [type] is handed on by every client that it arrives at, whoever it was meant for, if the type is
    that of servers, and by none if not. *)
Theorem icmp_conversation {IS : DirectStack Z} (server_ip client_ip : ip4_addr) (s : icmp_conn) (type : Z) (data reply : list Z) :
  ip4_ok server_ip → ip4_ok client_ip → icmp_server_at server_ip s →
  ds_ok ICMP_CONN_CLIENT_TYPE ICMP_CONN_CLIENT_CODE data → ds_ok type ICMP_CONN_SERVER_CODE reply →
  ∃ pkt s' back, icmp_client_send_data (icmp_client server_ip client_ip) data = Ok pkt ∧
    icmp_server_handle_callback s pkt = Ok (Some (PacketStack client_ip server_ip ICMP_CONN_CLIENT_TYPE ICMP_CONN_CLIENT_CODE data)) ∧
    (∀ dest me, icmp_client_handle_callback (icmp_client dest me) pkt = Ok None) ∧
    icmp_send_data_to_client s client_ip type reply = Ok (s', back) ∧ icmp_server_at server_ip s' ∧
    ∀ dest me, icmp_client_handle_callback (icmp_client dest me) back =
      Ok (if type =? ICMP_CONN_SERVER_TYPE then Some (PacketStack server_ip client_ip type ICMP_CONN_SERVER_CODE reply, reply) else None).
Proof.
  intros Hs Hc Hat Hd Hr. destruct (icmp_server_keeps _ _ Hat) as (K1 & K2 & K3 & K4).
  destruct (ds_carries client_ip server_ip ICMP_CONN_CLIENT_TYPE ICMP_CONN_CLIENT_CODE data Hc Hs Hd) as (pkt & E1 & R1).
  destruct (ds_carries server_ip client_ip type ICMP_CONN_SERVER_CODE reply Hs Hc Hr) as (back & E2 & R2).
  assert (E3 : icmp_send_data_to_client s client_ip type reply =
    Ok (IcmpConn client_ip (icmp_next_source_addr s) type (icmp_next_code s) (icmp_listen_type s) (icmp_listen_code s), back)).
  { unfold icmp_send_data_to_client, icmp_client_send_data. cbn. by rewrite K1, K2, E2. }
  exists pkt. eexists. exists back. split; [exact E1|]. split.
  { unfold icmp_server_handle_callback, icmp_arrives. by rewrite R1, K3, K4. }
  split; [intros dest me; unfold icmp_client_handle_callback, icmp_arrives; by rewrite R1|]. split; [exact E3|].
  split; [eapply icmp_server_replied; [exact Hat|exact E3]|].
  intros dest me. unfold icmp_client_handle_callback, icmp_arrives. rewrite R2. cbn. by destruct (type =? ICMP_CONN_SERVER_TYPE).
Qed.
Lemma icmp_conversation_witness :
  let server_ip := Ip4Addr [10; 0; 0; 1] in let client_ip := Ip4Addr [10; 0; 0; 2] in
  let s := icmp_server (Ip4Addr [10; 0; 0; 9]) server_ip in
  ∃ pkt s' back, icmp_client_send_data (icmp_client server_ip client_ip) [1; 2] = Ok pkt ∧
    icmp_server_handle_callback s pkt = Ok (Some (PacketStack client_ip server_ip ICMP_CONN_CLIENT_TYPE ICMP_CONN_CLIENT_CODE [1; 2])) ∧
    (∀ dest me, icmp_client_handle_callback (icmp_client dest me) pkt = Ok None) ∧
    icmp_send_data_to_client s client_ip 81 [3] = Ok (s', back) ∧ icmp_server_at server_ip s' ∧
    ∀ dest me, icmp_client_handle_callback (icmp_client dest me) back =
      Ok (if 81 =? ICMP_CONN_SERVER_TYPE then Some (PacketStack server_ip client_ip 81 ICMP_CONN_SERVER_CODE [3], [3]) else None).
Proof.
  intros server_ip client_ip s.
  apply (icmp_conversation server_ip client_ip s 81 [1; 2] [3]).
  - split; [done|cbn; solve_bytes].
  - split; [done|cbn; solve_bytes].
  - apply icmp_server_new.
  - by vm_compute.
  - by vm_compute.
Defined.

(** A conversation over EMP: the server of a point gets what a client sends to it, with the client's address and point; its reply is
    handed on by the client with that address and that point, and by no other. *)
Theorem emp_conversation {ES : DirectStack (list Z)} (server_ip client_ip : ip4_addr) (point my_point : list Z) (s : emp_conn)
    (data reply : list Z) :
  ip4_ok server_ip → ip4_ok client_ip → emp_server_at server_ip point s → ds_ok my_point point data → ds_ok point my_point reply →
  ∃ pkt s' back, emp_client_send_data (emp_client server_ip point my_point client_ip) data = Ok pkt ∧
    emp_server_handle_callback s pkt = Ok (Some (PacketStack client_ip server_ip my_point point data)) ∧
    emp_send_data_to_client s client_ip my_point reply = Ok (s', back) ∧ emp_server_at server_ip point s' ∧
    ∀ dest dest_point me me_point, ip4_ok me →
      emp_client_handle_callback (emp_client dest dest_point me_point me) back =
      Ok (if decide (me = client_ip ∧ me_point = my_point) then Some (PacketStack server_ip client_ip point my_point reply, reply) else None).
Proof.
  intros Hs Hc Hat Hd Hr. destruct (emp_server_keeps _ _ _ Hat) as (K1 & K2 & K3 & K4).
  destruct (ds_carries client_ip server_ip my_point point data Hc Hs Hd) as (pkt & E1 & R1).
  destruct (ds_carries server_ip client_ip point my_point reply Hs Hc Hr) as (back & E2 & R2).
  assert (E3 : emp_send_data_to_client s client_ip my_point reply =
    Ok (EmpConn (Some (client_ip, my_point)) (emp_next_source_addr s) (emp_next_source_point s) (emp_requires_dest s) (emp_word s), back)).
  { unfold emp_send_data_to_client, emp_client_send_data. cbn. by rewrite K1, K2, E2. }
  exists pkt. eexists. exists back. split; [exact E1|]. split.
  { unfold emp_server_handle_callback, emp_arrives. rewrite R1, K3, K4. cbn. unfold emp_port_eqb. rewrite vec_eqb_spec. by rewrite bool_decide_true. }
  split; [exact E3|]. split; [eapply emp_server_replied; [exact Hat|exact E3]|].
  intros dest dp me mp Hme. unfold emp_client_handle_callback, emp_arrives. rewrite R2. cbn [mbind res_bind emp_client emp_requires_dest emp_word
    ps_dest_addr ps_second ps_plain_data].
  rewrite ip4_filter_rejects by (done || by intros ? [= <-]). unfold emp_port_eqb. rewrite vec_eqb_spec. cbn [filter_accepts].
  repeat case_bool_decide; case_decide; cbn; naive_solver.
Qed.
Lemma emp_conversation_witness :
  let server_ip := Ip4Addr [10; 0; 0; 1] in let client_ip := Ip4Addr [10; 0; 0; 2] in
  let s := emp_server [7] server_ip in
  ∃ pkt s' back, emp_client_send_data (emp_client server_ip [7] [9; 1] client_ip) [1; 2] = Ok pkt ∧
    emp_server_handle_callback s pkt = Ok (Some (PacketStack client_ip server_ip [9; 1] [7] [1; 2])) ∧
    emp_send_data_to_client s client_ip [9; 1] [3] = Ok (s', back) ∧ emp_server_at server_ip [7] s' ∧
    ∀ dest dest_point me me_point, ip4_ok me →
      emp_client_handle_callback (emp_client dest dest_point me_point me) back =
      Ok (if decide (me = client_ip ∧ me_point = [9; 1]) then Some (PacketStack server_ip client_ip [7] [9; 1] [3], [3]) else None).
Proof.
  intros server_ip client_ip s. apply (emp_conversation server_ip client_ip [7] [9; 1] s [1; 2] [3]).
  - split; [done|cbn; solve_bytes].
  - split; [done|cbn; solve_bytes].
  - apply emp_server_new.
  - split; [cbn; solve_bytes|split; [cbn; solve_bytes|]]. unfold fits, big_buff_size. vm_compute. lia.
  - split; [cbn; solve_bytes|split; [cbn; solve_bytes|]]. unfold fits, big_buff_size. vm_compute. lia.
Defined.
