(* ===== verification/Bandwidth.v ===== *)
(** The bandwidth indicator: [src/tools/bandwidth/bandwidth.cpp] (with [bandwidth.h]) and [src/main/bandwidth/bandwidth.cpp].

    Two handlers of a sniffer add up the sizes of the data that goes out of an interface and comes into it; the program reads the two counters
    at an interval, prints them and sets them to zero.  The reading and the setting are five statements, and traffic goes on between
    them: the program is a transition system whose events are the traffic and the statements of its loop, in any order.  (In C++ the
    counters are shared without a lock; here each access to a counter is one step.)

    The sniffer is the one of [Filters], over a device; the interface of the time had the same lists of handlers under other names. *)

From Stdlib Require Import ZArith Lia String.
From stdpp Require Import base decidable list numbers gmap.
From S2P Require Import Prelude Text Filters Commands.

(** * bandwidth.cpp *)

Record bandwidth := Bandwidth { bytes_out_cnt : Z; bytes_in_cnt : Z }.
Definition new_bandwidth : bandwidth := Bandwidth 0 0.

(** Where the loop of [bandwidth_main] is, with the local variables it has read. *)
Inductive loop_at := Sleeps | HasOut (out : Z) | HasBoth (out inn : Z) | HasPrinted | HasResetIn.
Record monitor := Monitor { wire : world (list Z); indicator : bandwidth; main_at : loop_at; screen : list (list Z) }.

Definition set_indicator (b : bandwidth) (m : monitor) : monitor := Monitor (wire m) b (main_at m) (screen m).
Definition set_wire (w : world (list Z)) (m : monitor) : monitor := Monitor w (indicator m) (main_at m) (screen m).

(** [handle_callback] of the two handlers: the counters are [uint64_t]. *)
Definition outgoing_sniff (data : list Z) (m : monitor) : res monitor :=
  let b := indicator m in
  Ok (set_indicator (Bandwidth (u64 (bytes_out_cnt b + Z.of_nat (List.length data))) (bytes_in_cnt b)) m).
Definition incoming_sniff (data : list Z) (m : monitor) : res monitor :=
  let b := indicator m in
  Ok (set_indicator (Bandwidth (bytes_out_cnt b) (u64 (bytes_in_cnt b + Z.of_nat (List.length data)))) m).

(** The device and the application that uses it, in the state of the program. *)
Definition on_wire {A} (f : world (list Z) → res (A * world (list Z))) (m : monitor) : res (A * monitor) :=
  '(a, w) ← f (wire m); Ok (a, set_wire w m).
Definition line_access : @access (list Z) monitor := Access
  (λ _, Some (λ d, on_wire (send_data device d)))
  pass_on.
Definition line_application (d : list Z) (m : monitor) : res monitor :=
  w ← application d (wire m); Ok (set_wire w m).
(** The constructor adds each handler to the list of its direction. *)
Definition watched : @access (list Z) monitor := sniffer_access (SnifferNetAccess line_access [outgoing_sniff] [incoming_sniff]).

(** * bandwidth_main *)

(** A [uint64_t] in decimal, and [%-10lu]. *)
Definition to_string64 (n : Z) : list Z := print_num 20 10 n [].
Definition pad_right (width : nat) (s : list Z) : list Z := s ++ replicate (width - List.length s) 32.
Definition report_line (out inn : Z) : list Z :=
  str "bytes out: " ++ pad_right 10 (to_string64 out) ++ str "   bytes in: " ++ pad_right 10 (to_string64 inn) ++ [10].

(** The next statement of the loop; the sleep is over when the first is reached. *)
Definition main_statement (interval : Z) (m : monitor) : monitor :=
  let b := indicator m in
  match main_at m with
  | Sleeps => Monitor (sleep_world interval (wire m)) b (HasOut (bytes_out_cnt b)) (screen m)
  | HasOut out => Monitor (wire m) b (HasBoth out (bytes_in_cnt b)) (screen m)
  | HasBoth out inn => Monitor (wire m) b HasPrinted (screen m ++ [report_line out inn])
  | HasPrinted => Monitor (wire m) (Bandwidth (bytes_out_cnt b) 0) HasResetIn (screen m)
  | HasResetIn => Monitor (wire m) (Bandwidth 0 (bytes_in_cnt b)) Sleeps (screen m)
  end.

Inductive monitor_event := Traffic (e : io (list Z)) | Main.
Definition monitor_step (interval : Z) (e : monitor_event) (m : monitor) : res monitor :=
  match e with
  | Traffic (Send d) => snd <$> send_data watched d m
  | Traffic (Arrive d) => arrive watched (Some line_application) d m
  | Main => Ok (main_statement interval m)
  end.
Fixpoint monitor_run (interval : Z) (es : list monitor_event) (m : monitor) : res monitor :=
  match es with
  | [] => Ok m
  | e :: es => m ← monitor_step interval e m; monitor_run interval es m
  end.
Definition start_monitor : monitor := Monitor (World [] [] [] 0) new_bandwidth Sleeps [].

(** [main]: the interface, and the interval in milliseconds. *)
Definition bandwidth_options : list (list Z * opt_kind) := [(str "help", KFlag); (str "iface", KString); (str "interval", KInt)].
Definition bandwidth_cli (vm : variables_map) : res (decision (list Z * Z)) :=
  if count vm (str "help") then Ok PrintOptions
  else if negb (count vm (str "iface")) then Ok PrintOptions
  else
    iface ← as_string vm (str "iface");
    interval ← (if negb (count vm (str "interval")) then Ok 1000 else as_int vm (str "interval"));
    Ok (Proceed (iface, interval)).

(** * What is reported *)

(** One turn of the loop: the traffic before each of its five statements. *)
Record turn := Turn { asleep : list (io (list Z)); before_in : list (io (list Z)); before_print : list (io (list Z));
  before_reset_in : list (io (list Z)); before_reset_out : list (io (list Z)) }.
Definition turn_events (t : turn) : list monitor_event :=
  (Traffic <$> asleep t) ++ [Main] ++ (Traffic <$> before_in t) ++ [Main] ++ (Traffic <$> before_print t) ++ [Main] ++
  (Traffic <$> before_reset_in t) ++ [Main] ++ (Traffic <$> before_reset_out t) ++ [Main].
Definition turn_traffic (t : turn) : list (io (list Z)) :=
  asleep t ++ before_in t ++ before_print t ++ before_reset_in t ++ before_reset_out t.

Definition total (l : list (list Z)) : Z := foldr (λ d n, Z.of_nat (List.length d) + n) 0 l.
Definition bytes_out (es : list (io (list Z))) : Z := total (sends es).
Definition bytes_in (es : list (io (list Z))) : Z := total (arrivals es).

(** What turns print, when [carried] bytes have come in since the incoming counter was last set to zero; and what is carried on. *)
Fixpoint reports (carried : Z) (ts : list turn) : list (Z * Z) :=
  match ts with
  | [] => []
  | t :: ts => (bytes_out (asleep t), carried + bytes_in (asleep t ++ before_in t)) :: reports (bytes_in (before_reset_out t)) ts
  end.
Definition carried_on (carried : Z) (ts : list turn) : Z :=
  match last ts with Some t => bytes_in (before_reset_out t) | None => carried end.
(** The bytes that are never reported. *)
Definition missed_out (t : turn) : Z := bytes_out (before_in t ++ before_print t ++ before_reset_in t ++ before_reset_out t).
Definition missed_in (t : turn) : Z := bytes_in (before_print t ++ before_reset_in t).

(** * Lemmas *)

Lemma total_app a b : total (a ++ b) = total a + total b.
Proof. unfold total. induction a as [|d a IH]; cbn [app foldr]; lia. Qed.
Lemma sends_app {T} (a b : list (io T)) : sends (a ++ b) = sends a ++ sends b.
Proof. apply omap_app. Qed.
Lemma arrivals_app {T} (a b : list (io T)) : arrivals (a ++ b) = arrivals a ++ arrivals b.
Proof. apply omap_app. Qed.
Lemma bytes_out_app a b : bytes_out (a ++ b) = bytes_out a + bytes_out b.
Proof. unfold bytes_out. by rewrite sends_app, total_app. Qed.
Lemma bytes_in_app a b : bytes_in (a ++ b) = bytes_in a + bytes_in b.
Proof. unfold bytes_in. by rewrite arrivals_app, total_app. Qed.
Lemma u64_u64 a b : u64 (u64 a + b) = u64 (a + b).
Proof. unfold u64. apply Zplus_mod_idemp_l. Qed.

Lemma monitor_run_app interval a b m : monitor_run interval (a ++ b) m = m ← monitor_run interval a m; monitor_run interval b m.
Proof.
  revert m. induction a as [|e a IH]; intros m; [done|]. cbn [app monitor_run].
  destruct (monitor_step interval e m) as [m'|f]; [apply IH|done].
Qed.

(** The device and the application after traffic. *)
Definition passed (es : list (io (list Z))) (w : world (list Z)) : world (list Z) :=
  World (sent w ++ sends es) (got w ++ arrivals es) (seen w) (slept w).
Lemma traffic_run interval es : ∀ w o i l s,
  monitor_run interval (Traffic <$> es) (Monitor w (Bandwidth (u64 o) (u64 i)) l s) =
  Ok (Monitor (passed es w) (Bandwidth (u64 (o + bytes_out es)) (u64 (i + bytes_in es))) l s).
Proof.
  induction es as [|[d|d] es IH]; intros w o i l s; cbn [fmap list_fmap monitor_run].
  - unfold passed, bytes_out, bytes_in. cbn. rewrite !app_nil_r, !Z.add_0_r. by destruct w.
  - rewrite (bind_Ok _ _ (Monitor (World (sent w ++ [d]) (got w) (seen w) (slept w))
      (Bandwidth (u64 (o + Z.of_nat (List.length d))) (u64 i)) l s)); [|cbn; unfold set_wire, set_indicator; cbn; by rewrite u64_u64].
    fold (fmap Traffic es). rewrite IH. unfold passed, bytes_out, bytes_in, sends, arrivals. cbn. by rewrite <- app_assoc, Z.add_assoc.
  - rewrite (bind_Ok _ _ (Monitor (World (sent w) (got w ++ [d]) (seen w) (slept w))
      (Bandwidth (u64 o) (u64 (i + Z.of_nat (List.length d)))) l s)); [|cbn; unfold set_wire, set_indicator; cbn; by rewrite u64_u64].
    fold (fmap Traffic es). rewrite IH. unfold passed, bytes_out, bytes_in, sends, arrivals. cbn. by rewrite <- app_assoc, Z.add_assoc.
Qed.

Definition slept_turn (interval : Z) (w : world (list Z)) : world (list Z) := World (sent w) (got w) (seen w) (slept w + interval).
Lemma passed_passed a b w : passed b (passed a w) = passed (a ++ b) w.
Proof. unfold passed. cbn. by rewrite sends_app, arrivals_app, !app_assoc. Qed.
Lemma passed_slept a interval w : passed a (slept_turn interval w) = slept_turn interval (passed a w).
Proof. done. Qed.

Lemma main_run interval es m : monitor_run interval (Main :: es) m = monitor_run interval es (main_statement interval m).
Proof. done. Qed.
Lemma turn_run interval t w c s es :
  monitor_run interval (turn_events t ++ es) (Monitor w (Bandwidth 0 (u64 c)) Sleeps s) =
  monitor_run interval es (Monitor (slept_turn interval (passed (turn_traffic t) w)) (Bandwidth 0 (u64 (bytes_in (before_reset_out t)))) Sleeps
    (s ++ [report_line (u64 (bytes_out (asleep t))) (u64 (c + bytes_in (asleep t ++ before_in t)))])).
Proof.
  unfold turn_events. rewrite <- !app_assoc. change 0 with (u64 0) at 1.
  repeat (rewrite monitor_run_app, traffic_run; cbn [mbind res_bind]; cbn [app]; rewrite main_run; unfold main_statement at 1;
    cbn [main_at indicator wire screen bytes_out_cnt bytes_in_cnt]; try change (Bandwidth ?o 0) with (Bandwidth o (u64 0))).
  fold (slept_turn interval (passed (asleep t) w)).
  rewrite !passed_slept, !passed_passed. unfold turn_traffic. rewrite <- ?app_assoc, bytes_in_app, Z.add_assoc. done.
Qed.

Lemma turns_run interval ts : ∀ w c s,
  monitor_run interval (concat (turn_events <$> ts)) (Monitor w (Bandwidth 0 (u64 c)) Sleeps s) =
  Ok (Monitor (World (sent w ++ sends (concat (turn_traffic <$> ts))) (got w ++ arrivals (concat (turn_traffic <$> ts))) (seen w)
        (slept w + interval * Z.of_nat (List.length ts)))
      (Bandwidth 0 (u64 (carried_on c ts))) Sleeps
      (s ++ ((λ r, report_line (u64 (fst r)) (u64 (snd r))) <$> reports c ts))).
Proof.
  induction ts as [|t ts IH]; intros w c s.
  - cbn. rewrite !app_nil_r, Z.mul_0_r, Z.add_0_r. by destruct w.
  - rewrite !fmap_cons. cbn [concat]. rewrite turn_run, IH. unfold slept_turn, passed. cbn [sent got seen slept reports fmap list_fmap fst snd].
    rewrite sends_app, arrivals_app, <- !app_assoc. cbn [app]. f_equal. f_equal.
    + f_equal. cbn [List.length]. lia.
    + f_equal. unfold carried_on. rewrite last_cons. by destruct (last ts).
Qed.

(** Every sequence of events is turns, and then less than a turn. *)
Lemma leading_traffic es : ∃ tr, es = Traffic <$> tr ∨ ∃ es', es = (Traffic <$> tr) ++ Main :: es'.
Proof.
  induction es as [|[e|] es (tr & [->|(es' & ->)])].
  - exists []. by left.
  - exists (e :: tr). by left.
  - exists (e :: tr). right. by exists es'.
  - exists []. right. by eexists.
  - exists []. right. by eexists.
Qed.
Fixpoint statements (es : list monitor_event) : nat :=
  match es with [] => 0 | Main :: es => S (statements es) | Traffic _ :: es => statements es end.
Lemma statements_traffic tr es : statements ((Traffic <$> tr) ++ es) = statements es.
Proof. by induction tr. Qed.
Lemma turn_complete es : (statements es < 5)%nat ∨ ∃ t es', es = turn_events t ++ es'.
Proof.
  assert (Hnext : ∀ es : list monitor_event, statements es = 0%nat ∨ ∃ tr es', es = (Traffic <$> tr) ++ Main :: es' ∧ statements es = S (statements es')).
  { clear es. intros es. destruct (leading_traffic es) as (tr & [->|(es' & ->)]).
    - left. by rewrite <- (app_nil_r (Traffic <$> tr)), statements_traffic.
    - right. exists tr, es'. split; [done|]. by rewrite statements_traffic. }
  destruct (Hnext es) as [?|(t1 & e1 & E1 & S1)]; [left; lia|]. destruct (Hnext e1) as [?|(t2 & e2 & E2 & S2)]; [left; lia|].
  destruct (Hnext e2) as [?|(t3 & e3 & E3 & S3)]; [left; lia|]. destruct (Hnext e3) as [?|(t4 & e4 & E4 & S4)]; [left; lia|].
  destruct (Hnext e4) as [?|(t5 & e5 & E5 & S5)]; [left; lia|]. right. exists (Turn t1 t2 t3 t4 t5), e5.
  rewrite E1, E2, E3, E4, E5. unfold turn_events. by rewrite <- !app_assoc.
Qed.
Lemma turns_complete es : ∃ ts rest, es = concat (turn_events <$> ts) ++ rest ∧ (statements rest < 5)%nat.
Proof.
  revert es. apply (well_founded_induction (Wf_nat.well_founded_ltof _ (@List.length monitor_event))). intros es IH.
  destruct (turn_complete es) as [?|(t & es' & ->)]; [by exists [], es|].
  destruct (IH es') as (ts & rest & -> & Hr).
  - unfold Wf_nat.ltof, turn_events. rewrite !length_app. cbn. lia.
  - exists (t :: ts), rest. split; [|done]. by rewrite fmap_cons; cbn [concat]; rewrite app_assoc.
Qed.

Definition sum (l : list Z) : Z := foldr Z.add 0 l.
Lemma account_out ts : ∀ c, sum (fst <$> reports c ts) + sum (missed_out <$> ts) = bytes_out (concat (turn_traffic <$> ts)).
Proof.
  induction ts as [|t ts IH]; intros c; [done|]. rewrite !fmap_cons. cbn [reports concat]. rewrite bytes_out_app, <- (IH (bytes_in (before_reset_out t))).
  unfold sum, turn_traffic, missed_out. cbn [fmap list_fmap foldr fst]. rewrite !bytes_out_app. lia.
Qed.
Lemma account_in ts : ∀ c,
  sum (snd <$> reports c ts) + sum (missed_in <$> ts) + carried_on c ts = c + bytes_in (concat (turn_traffic <$> ts)).
Proof.
  induction ts as [|t ts IH]; intros c; [unfold sum, carried_on, bytes_in; cbn; lia|].
  rewrite !fmap_cons. cbn [reports concat]. specialize (IH (bytes_in (before_reset_out t))).
  assert (Hc : carried_on c (t :: ts) = carried_on (bytes_in (before_reset_out t)) ts) by (unfold carried_on; rewrite last_cons; by destruct (last ts)).
  rewrite Hc, bytes_in_app. unfold sum, turn_traffic, missed_in in *. cbn [fmap list_fmap foldr snd]. rewrite !bytes_in_app. lia.
Qed.

(** * Properties *)

(** C30: what the indicator shows, whatever the traffic does between the statements of the loop.  After whole turns of the loop the traffic has gone
    through as though nobody watched it, one line has been printed per turn, and the numbers in the lines (modulo 2^64) and the bytes
    missed add up to the traffic: every outgoing byte between the reading of the counters and the end of the turn is missed, and every incoming
    byte between the reading and the setting of its counter.  Every run of the program is whole turns, and then less than one. *)
Theorem bandwidth_reports (interval : Z) (ts : list turn) :
  monitor_run interval (concat (turn_events <$> ts)) start_monitor =
  Ok (Monitor (World (sends (concat (turn_traffic <$> ts))) (arrivals (concat (turn_traffic <$> ts))) [] (interval * Z.of_nat (List.length ts)))
      (Bandwidth 0 (u64 (carried_on 0 ts))) Sleeps
      ((λ r, report_line (u64 (fst r)) (u64 (snd r))) <$> reports 0 ts)) ∧
  sum (fst <$> reports 0 ts) + sum (missed_out <$> ts) = bytes_out (concat (turn_traffic <$> ts)) ∧
  sum (snd <$> reports 0 ts) + sum (missed_in <$> ts) + carried_on 0 ts = bytes_in (concat (turn_traffic <$> ts)) ∧
  ∀ es, ∃ ts' rest, es = concat (turn_events <$> ts') ++ rest ∧ (statements rest < 5)%nat.
Proof.
  split; [|split; [apply account_out|split; [apply account_in|apply turns_complete]]].
  unfold start_monitor, new_bandwidth. change (Bandwidth 0 0) with (Bandwidth 0 (u64 0)). by rewrite turns_run.
Qed.

Example report_line_text : report_line 1500 18446744073709551615 =
  str "bytes out: 1500         bytes in: 18446744073709551615" ++ [10].
Proof. vm_compute. reflexivity. Qed.
