(* ===== verification/Vpn.v ===== *)
(** The VPN: [src/tools/vpn/*], and [src/main/vpn/vpn_client_main.cpp], [vpn_daemon_main.cpp].

    The client sends the frames of a virtual interface over one TCP connection, framed by the separator; the daemon listens for such
    connections, and gives them with the gateway of its own interface to an aggregator.  A firewall keeps the daemon's own
    connections out of what it forwards.

    The chain of protocols that a filter shows its packets to has the interface of an earlier time, and so have the conversions of addresses: they
    are variables here, and [current_chain] is the chain in the protocols of now.  The aggregator is commented out in the tree: what is
    kept of it is the connections that it is given. *)

From Stdlib Require Import ZArith Lia String.
From stdpp Require Import base decidable list numbers gmap.
From S2P Require Import Prelude Text Posix Encap Ether2 Ip4 MsgBoundary Tcp Filters Packets Commands.

(** common.h *)
Definition VPN_DAEMON_PORT : Z := 10301.
Definition VPN_CLIENT_PORT : Z := 10300.

(** * The filters *)

Section filters.
(** [ether_prot], with [ip_prot] behind it: what reaches the examiner of a frame; [ip_prot], with [udp_prot] behind it: what of a packet reaches
    the counter, for a port. *)
Context (ether_prot : list Z → res (option (list Z))) (ip_prot : Z → list Z → res (option (list Z))).

Record block_incoming_tcp := BlockIncomingTcp { blocked_port : Z; blocked_flag : bool }.
Definition new_block_incoming_tcp (port : Z) : block_incoming_tcp := BlockIncomingTcp port false.
(** [examiner::handle_callback]: [dest] is the second half of the first word of a [tcphdr]; nothing checks that it is there. *)
Definition tcp_examine (buff : list Z) (b : block_incoming_tcp) : res block_incoming_tcp :=
  d0 ← of_option OutOfBounds (buff !! 2%nat);
  d1 ← of_option OutOfBounds (buff !! 3%nat);
  let dest_port := ntohs (of_le16 d0 d1) in
  Ok (if dest_port =? blocked_port b then BlockIncomingTcp (blocked_port b) true else b).
Definition tcp_calc_policy (msg : list Z) (b : block_incoming_tcp) : res (firewall_policy * block_incoming_tcp) :=
  o ← ether_prot msg;
  b ← match o with Some buff => tcp_examine buff b | None => Ok b end;
  Ok (if blocked_flag b then (BLOCK, BlockIncomingTcp (blocked_port b) false) else (ALLOW, b)).

(** [block_incoming_udp]: its state is the port and the counter. *)
Definition udp_calc_policy (msg : list Z) (b : Z * Z) : res (firewall_policy * (Z * Z)) :=
  o ← ip_prot (fst b) msg;
  cnt ← match o with Some _ => counter_callback (snd b) | None => Ok (snd b) end;
  Ok (if cnt =? 1 then BLOCK else ALLOW, (fst b, counter_reset cnt)).

(** The gateway behind the daemon's firewall: the filter is asked about what arrives.  The daemon names the class [firewall], which the
    header now has in comments; its loop over the filters is that of today's [firewall_net_access], which stands for it here. *)
Abbreviation gateway_world := (block_incoming_tcp * world (list Z))%type.
Definition gateway_sleep (ms : Z) (w : gateway_world) : gateway_world := (fst w, sleep_world ms (snd w)).
Definition gateway_device : @access (list Z) gateway_world := Access
  (λ _, Some (λ d w, '(e, v) ← send_data device d (snd w); Ok (e, (fst w, v))))
  pass_on.
Definition block_filter (msg : list Z) (w : gateway_world) : res (firewall_policy * gateway_world) :=
  '(p, b) ← tcp_calc_policy msg (fst w); Ok (p, (b, snd w)).
Definition gateway_firewall : @access (list Z) gateway_world :=
  firewall_access gateway_sleep (FirewallNetAccess gateway_device [] (add_filter (Some block_filter) [])).
(** What the aggregator is handed. *)
Definition to_aggregator (d : list Z) (w : gateway_world) : res gateway_world :=
  v ← application d (snd w); Ok (fst w, v).
Fixpoint gateway_receives (frames : list (list Z)) (w : gateway_world) : res gateway_world :=
  match frames with
  | [] => Ok w
  | f :: frames => w ← arrive gateway_firewall (Some to_aggregator) f w; gateway_receives frames w
  end.
End filters.

(** The chain, as the protocols of now have it: IPv4 in Ethernet, and TCP in IPv4. *)
Definition current_chain (frame : list Z) : res (option (list Z)) :=
  o ← ether2_handle_recv None None (Some ethertype_ip4) frame;
  match o with
  | None => Ok None
  | Some (_, packet) =>
      o ← ip4_handle_recv None None (Some ip_prot_tcp) packet;
      Ok (match o with Some (_, segment) => Some segment | None => None end)
  end.

(** * vpn_daemon *)

Section daemon.
Context {FW : RecvForwarder} {PL : TcpPlatform}.

Inductive agg_conn := OfGateway | OfSession (p : Z).
(** [members]: how many of the members (in the order of their declarations), and then of the statements of the constructor, are done.  A
    vector is [None] before it is constructed.  A session stands at an address [p]; a separator is the address of its connection. *)
Record vpn_daemon := VpnDaemon {
  members : nat; generator_listener : bool; tcpSession : option (list (Z * session)); daemon_separators : option (list Z);
  aggregator : option (list agg_conn); incoming_filters : nat
}.
Definition new_vpn_daemon : vpn_daemon := VpnDaemon 0 false None None None 0.
Definition made (n : nat) (d : vpn_daemon) : vpn_daemon :=
  VpnDaemon n (generator_listener d) (tcpSession d) (daemon_separators d) (aggregator d) (incoming_filters d).
(** [aggregator.add_connection]. *)
Definition add_connection (c : agg_conn) (d : vpn_daemon) : res vpn_daemon :=
  l ← of_option NullDeref (aggregator d);
  Ok (VpnDaemon (members d) (generator_listener d) (tcpSession d) (daemon_separators d) (Some (l ++ [c])) (incoming_filters d)).

(** The next step of the constructor: [tcpServer], [handler] (which makes itself the listener of the server), [data_link_layer_gw],
    [block_filter], [gateway_firewall], [tcpSession], [sessions], [aggregator]; the filter; the gateway. *)
Definition construct (d : vpn_daemon) : res vpn_daemon :=
  match members d with
  | 1%nat => Ok (VpnDaemon 2 true (tcpSession d) (daemon_separators d) (aggregator d) (incoming_filters d))
  | 5%nat => Ok (VpnDaemon 6 (generator_listener d) (Some []) (daemon_separators d) (aggregator d) (incoming_filters d))
  | 6%nat => Ok (VpnDaemon 7 (generator_listener d) (tcpSession d) (Some []) (aggregator d) (incoming_filters d))
  | 7%nat => Ok (VpnDaemon 8 (generator_listener d) (tcpSession d) (daemon_separators d) (Some []) (incoming_filters d))
  | 8%nat => Ok (VpnDaemon 9 (generator_listener d) (tcpSession d) (daemon_separators d) (aggregator d) (S (incoming_filters d)))
  | 9%nat => made 10 <$> add_connection OfGateway d
  | (0 | 2 | 3 | 4)%nat => Ok (made (S (members d)) d)
  | _ => Ok d
  end.
(** [sessions_handler::handle_callback], on the thread that accepts. *)
Definition daemon_callback (p : Z) (s : session) (d : vpn_daemon) : res vpn_daemon :=
  l ← of_option NullDeref (tcpSession d);
  let d := VpnDaemon (members d) (generator_listener d) (Some (l ++ [(p, separator_listens s)])) (daemon_separators d) (aggregator d) (incoming_filters d) in
  l ← of_option NullDeref (daemon_separators d);
  let d := VpnDaemon (members d) (generator_listener d) (tcpSession d) (Some (l ++ [p])) (aggregator d) (incoming_filters d) in
  add_connection (OfSession p) d.

(** The main thread goes on with the constructor, or a connection is accepted: before the server is there, none can be. *)
Inductive daemon_event := Construct | Accepted (p : Z) (data : tcp_session_data) (fd : Z).
Definition daemon_step (e : daemon_event) (d : vpn_daemon) : res vpn_daemon :=
  match e with
  | Construct => construct d
  | Accepted p data fd =>
      match members d with
      | O => Ok d
      | _ =>
          match tcp_server_callback VPN_DAEMON_PORT (generator_listener d) (new_tcp_session data fd) with
          | None => Ok d
          | Some s => daemon_callback p s d
          end
      end
  end.
Fixpoint daemon_run (es : list daemon_event) (d : vpn_daemon) : res vpn_daemon :=
  match es with [] => Ok d | e :: es => d ← daemon_step e d; daemon_run es d end.

(** ** What is accepted, and when *)

Definition for_daemon (e : daemon_event) : Prop := match e with Accepted _ data _ => sess_dest_port data = VPN_DAEMON_PORT | Construct => False end.
#[export] Instance for_daemon_dec e : Decision (for_daemon e).
Proof. destruct e; cbn; apply _. Defined.
Definition advance_to (n : nat) (e : daemon_event) : nat := match e with Construct => Nat.min 10 (S n) | _ => n end.
(** A connection is accepted after the handler listens and before the aggregator is there, when [n] steps are done before [es]. *)
Fixpoint too_early (n : nat) (es : list daemon_event) : bool :=
  match es with
  | [] => false
  | e :: es => bool_decide (for_daemon e ∧ (2 ≤ n < 8)%nat) || too_early (advance_to n e) es
  end.
(** The sessions that are kept. *)
Fixpoint kept (n : nat) (es : list daemon_event) : list (Z * session) :=
  match es with
  | [] => []
  | e :: es =>
      match e with
      | Accepted p data fd => if decide (for_daemon e ∧ (8 ≤ n)%nat) then [(p, separator_listens (new_tcp_session data fd))] else []
      | Construct => []
      end ++ kept (advance_to n e) es
  end.
(** What the aggregator is given. *)
Fixpoint given (n : nat) (es : list daemon_event) : list agg_conn :=
  match es with
  | [] => []
  | e :: es =>
      match e with
      | Accepted p _ _ => if decide (for_daemon e ∧ (8 ≤ n)%nat) then [OfSession p] else []
      | Construct => if decide (n = 9)%nat then [OfGateway] else []
      end ++ given (advance_to n e) es
  end.
Definition constructed (es : list daemon_event) (n : nat) : nat := foldl advance_to n es.

(** The state after [n] steps, with sessions [l] and connections [g]. *)
Definition daemon_at (n : nat) (l : list (Z * session)) (g : list agg_conn) : vpn_daemon :=
  VpnDaemon n (bool_decide (2 ≤ n)%nat) (if decide (6 ≤ n)%nat then Some l else None)
    (if decide (7 ≤ n)%nat then Some (fst <$> l) else None) (if decide (8 ≤ n)%nat then Some g else None)
    (if decide (9 ≤ n)%nat then 1 else 0)%nat.
Definition fresh_below (n : nat) (l : list (Z * session)) (g : list agg_conn) : Prop := (n < 8)%nat → l = [] ∧ g = [].

Lemma construct_at n l g : (n ≤ 10)%nat → fresh_below n l g →
  construct (daemon_at n l g) = Ok (daemon_at (Nat.min 10 (S n)) l (g ++ if decide (n = 9)%nat then [OfGateway] else [])).
Proof.
  intros Hn Hf. unfold fresh_below in Hf. do 11 (destruct n as [|n]; [try (destruct Hf as [-> ->]; [lia|]); cbn; rewrite ?app_nil_r; reflexivity|]). lia.
Qed.
Lemma accepted_at n l g p data fd : (n ≤ 10)%nat → fresh_below n l g →
  daemon_step (Accepted p data fd) (daemon_at n l g) =
  if bool_decide (for_daemon (Accepted p data fd) ∧ (2 ≤ n < 8)%nat) then Fault NullDeref
  else if decide (for_daemon (Accepted p data fd) ∧ (8 ≤ n)%nat)
  then Ok (daemon_at n (l ++ [(p, separator_listens (new_tcp_session data fd))]) (g ++ [OfSession p]))
  else Ok (daemon_at n l g).
Proof.
  intros Hn Hf. unfold fresh_below, for_daemon in *. unfold daemon_step, tcp_server_callback. cbn [sess_data new_tcp_session].
  destruct (Z.eqb_spec (sess_dest_port data) VPN_DAEMON_PORT) as [E|E].
  - destruct (decide (n < 2)%nat); [|destruct (decide (n < 8)%nat)].
    + rewrite bool_decide_false, decide_False by lia. by do 2 (destruct n as [|n]; [done|]); lia.
    + rewrite bool_decide_true by lia. destruct Hf as [-> ->]; [lia|]. do 8 (destruct n as [|n]; [lia || done|]). lia.
    + rewrite bool_decide_false, decide_True by lia. unfold daemon_at. rewrite fmap_app.
      do 11 (destruct n as [|n]; [lia || done|]). lia.
  - rewrite bool_decide_false, decide_False by tauto. by destruct n.
Qed.

Lemma fresh_nil n : fresh_below n [] [].
Proof. by split. Qed.
Lemma daemon_run_at es : ∀ n l g, (n ≤ 10)%nat → fresh_below n l g →
  daemon_run es (daemon_at n l g) =
  if too_early n es then Fault NullDeref else Ok (daemon_at (constructed es n) (l ++ kept n es) (g ++ given n es)).
Proof.
  induction es as [|e es IH]; intros n l g Hn Hf; cbn [daemon_run too_early kept given]; [by rewrite !app_nil_r|].
  unfold constructed. cbn [foldl]. fold (constructed es (advance_to n e)). destruct e as [|p data fd].
  - rewrite bool_decide_false by (intros [[] _]). cbn [orb daemon_step]. rewrite construct_at by done. cbn [mbind res_bind].
    rewrite IH; [cbn [app]; by rewrite <- app_assoc|lia|].
    unfold fresh_below in *. intros Hlt. destruct Hf as [-> ->]; [lia|]. by rewrite decide_False by lia.
  - rewrite accepted_at by done. cbn [advance_to]. case_bool_decide as Hw; [done|]. cbn [orb]. case_decide as Hk; cbn [mbind res_bind].
    + rewrite IH; [by rewrite <- !app_assoc|done|]. unfold fresh_below. lia.
    + by apply IH.
Qed.

(** ** The tunnel *)

(** [vpn_client]: the client and the daemon's ports, with the separator over the client and itself behind it. *)
Definition make_vpn_client (os : sys_call → Z) (daemon_ip : ip4_addr) (iface : list Z) : res tcp_boundary_client * list sys_call :=
  let '(c, calls) := make_client os daemon_ip VPN_DAEMON_PORT VPN_CLIENT_PORT iface in
  (c ← c; Ok (client_listens (client_listens (client_listens c))), calls).
(** [send_data], of a message of the virtual interface. *)
Definition vpn_send_data (os : outcome) (c : tcp_boundary_client) (data : list Z) : res (Z * tcp_boundary_client * list Z) :=
  '(r, s, sent) ← boundary_send_data os (cl_session c) data;
  Ok (r, set_cl_session s (cl_worker c) c, sent).
Fixpoint vpn_send_all (os : nat → outcome) (i : nat) (c : tcp_boundary_client) (msgs : list (list Z)) : res (tcp_boundary_client * list Z) :=
  match msgs with
  | [] => Ok (c, [])
  | m :: msgs =>
      '(_, c, sent) ← vpn_send_data (os i) c m;
      '(c, sent') ← vpn_send_all os (S i) c msgs;
      Ok (c, sent ++ sent')
  end.
(** A session of the daemon hands the separator what its worker reads: the messages that the aggregator's listener gets. *)
Fixpoint session_reads (pieces : list (list Z)) (s : session) : res (session * list (list Z)) :=
  match pieces with
  | [] => Ok (s, [])
  | data :: pieces =>
      '(sep, ms) ← call_each (listeners (raw_listeners s)) (λ sep, handle_callback sep data) (client s);
      '(s, ms') ← session_reads pieces (set_client sep s);
      Ok (s, ms ++ ms')
  end.

Lemma session_reads_stream pieces : ∀ s sep out out', listeners (raw_listeners s) = 1%nat →
  handle_stream (client s) pieces out = Ok (sep, out') →
  ∃ ms, session_reads pieces s = Ok (set_client sep s, ms) ∧ out' = out ++ ms.
Proof.
  induction pieces as [|data pieces IH]; intros s sep out out' Hs; cbn [handle_stream session_reads].
  - intros [= <- <-]. exists []. rewrite app_nil_r. by destruct s.
  - rewrite Hs, call_each_once. destruct (handle_callback (client s) data) as [[sep1 ms]|f]; [|done]. cbn [mbind res_bind]. intros E.
    destruct (IH (set_client sep1 s) sep (out ++ ms) out' Hs E) as (ms' & -> & ->). exists (ms ++ ms'). by rewrite app_assoc.
Qed.
Lemma vpn_send_all_ok os : ∀ msgs i c, Forall line_ok msgs → (∀ j m, msgs !! j = Some m → takes_all m (os (i + j)%nat)) →
  alive (conn (cl_session c)) = true → vpn_send_all os i c msgs = Ok (c, concat (separator_send <$> msgs)).
Proof.
  induction msgs as [|m msgs IH]; intros i c Hok Ht Ha; [done|]. apply Forall_cons_1 in Hok as [Hm Hok]. cbn [vpn_send_all]. unfold vpn_send_data.
  rewrite (boundary_send_all (os i) _ m Hm) by (done || (by rewrite <- (Nat.add_0_r i); apply Ht)). cbn [mbind res_bind].
  replace (set_cl_session (cl_session c) (cl_worker c) c) with c by by destruct c.
  rewrite IH; [done|done| |done]. intros j m' Hj. rewrite Nat.add_succ_comm. by apply (Ht (S j)).
Qed.
Lemma make_vpn_client_ok os ip iface :
  let p := set_next_choices ip VPN_DAEMON_PORT VPN_CLIENT_PORT (new_tcp_protocol false VPN_DAEMON_PORT iface None false) in
  os SysSocket ≠ SOCKET_ERROR → Forall (succeeds_in os) (connect_calls p (os SysSocket)) →
  ∃ c, make_vpn_client os ip iface = (Ok c, SysSocket :: (fst <$> connect_calls p (os SysSocket))) ∧ alive (conn (cl_session c)) = true ∧
    left c = 1%nat.
Proof.
  intros p Hs Hc. unfold make_vpn_client, make_client, start_session. cbn [make_tcp_protocol negb]. fold p.
  rewrite (proj2 (Z.eqb_neq _ _) Hs). rewrite (calls_until_ok _ _ Hc). cbn [mbind res_bind]. eexists. split; [reflexivity|]. by split.
Qed.

End daemon.

(** * The mains *)

Section mains.
(** The conversions of addresses and masks to text and back. *)
Context (addr_to_str : ip4_addr → list Z) (mask_to_str : ip4_subnet_mask → list Z).
Context (str_to_addr : list Z → res ip4_addr) (str_to_mask : list Z → res ip4_subnet_mask).

(** The commands that [vpn_client_main] gives to [system], in order. *)
Definition vpn_client_commands (virt_iface_name : list Z) (new_ip : ip4_addr) (subnet : ip4_subnet_mask) : list (list Z) :=
  [str "sudo ip addr add " ++ addr_to_str new_ip ++ str "/32 dev " ++ virt_iface_name;
   str "sudo ip link set dev " ++ virt_iface_name ++ str " up";
   str "sudo ip route add " ++ mask_to_str subnet ++ str " via " ++ addr_to_str new_ip ++ str " dev " ++ virt_iface_name].

Definition vpn_client_options : list (list Z * opt_kind) :=
  [(str "help", KFlag); (str "iface", KString); (str "daemon-ip", KString); (str "new-ip", KString); (str "subnet", KString)].
(** The interface, the name of the virtual one, the address of the daemon, the own one and the remote network. *)
Definition vpn_client_cli (vm : variables_map) : res (decision (list Z * list Z * ip4_addr * ip4_addr * ip4_subnet_mask)) :=
  if count vm (str "help") then Ok PrintOptions
  else if negb (count vm (str "iface")) then Ok PrintOptions
  else
    iface ← as_string vm (str "iface");
    if negb (count vm (str "daemon-ip")) then Ok PrintOptions
    else
      daemon_ip ← as_string vm (str "daemon-ip");
      if negb (count vm (str "new-ip")) then Ok PrintOptions
      else
        new_ip ← as_string vm (str "new-ip");
        if negb (count vm (str "subnet")) then Ok PrintOptions
        else
          subnet ← as_string vm (str "subnet");
          daemon ← str_to_addr daemon_ip;
          own ← str_to_addr new_ip;
          mask ← str_to_mask subnet;
          Ok (Proceed (iface, str "virt0", daemon, own, mask)).

Definition vpn_daemon_options : list (list Z * opt_kind) := [(str "help", KFlag); (str "local-iface", KString)].
Definition vpn_daemon_cli (vm : variables_map) : res (decision (list Z)) :=
  if count vm (str "help") then Ok PrintOptions
  else if negb (count vm (str "local-iface")) then Ok PrintOptions
  else local_iface ← as_string vm (str "local-iface"); Ok (Proceed local_iface).

(** What the shell is given when the program goes on with the options [vm]. *)
Definition vpn_client_shell (vm : variables_map) : res (option (list (list Z))) :=
  d ← vpn_client_cli vm;
  Ok (match d with
      | Proceed (_, virt, _, new_ip, subnet) => Some (vpn_client_commands virt new_ip subnet)
      | _ => None
      end).
End mains.

(** * Lemmas: what the filter sees of a frame *)

(** A frame that the protocols send: a segment in IPv4 in Ethernet. *)
Record framed := Framed { fr_eth : ethernet2_header; fr_ip : ip4_header; fr_segment : list Z; fr_bytes : list Z }.
Definition carries_tcp (f : framed) : bool := bool_decide (eth_prot (fr_eth f) = ethertype_ip4 ∧ prot (fr_ip f) = ip_prot_tcp).
(** The headers fit, the bytes are what is sent, and a TCP segment has the ports at least. *)
Definition framed_ok (f : framed) : Prop :=
  ethernet2_header_ok (fr_eth f) ∧ ip4_header_ok (fr_ip f) ∧ bytes_ok (fr_segment f) ∧
  encap_send (fr_eth f, fr_ip f) (fr_segment f) = Ok (fr_bytes f) ∧
  (carries_tcp f = true → (4 <= List.length (fr_segment f))%nat).
(** The destination port of a segment. *)
Definition segment_port (s : list Z) : Z := match s with _ :: _ :: a :: b :: _ => 256 * a + b | _ => -1 end.
Definition to_port (port : Z) (f : framed) : Prop := carries_tcp f = true ∧ segment_port (fr_segment f) = port.
#[export] Instance to_port_dec port f : Decision (to_port port f).
Proof. unfold to_port. apply _. Defined.

Lemma chain_sent f : framed_ok f → current_chain (fr_bytes f) = Ok (if carries_tcp f then Some (fr_segment f) else None).
Proof.
  intros (He & Hi & Hb & Hs & _).
  set (ef := Ether2Filters None None (Some ethertype_ip4) ltac:(done) ltac:(done)).
  set (jf := Ip4Filters None None (Some ip_prot_tcp) ltac:(done) ltac:(done)).
  cbn [encap_send stack_encap fst snd] in Hs. apply res_bind_ok in Hs as (inner & H2 & H1).
  assert (O2 : encap_ok (F := ip4_filters) (fr_ip f) (fr_segment f)) by done.
  assert (O1 : encap_ok (F := ether2_filters) (fr_eth f) inner) by (split; [done|]; by apply (encap_bytes _ _ _ O2)).
  pose proof (encap_delivers (fr_eth f) inner ef (fr_bytes f) O1 H1) as R1.
  pose proof (encap_delivers (fr_ip f) (fr_segment f) jf inner O2 H2) as R2.
  cbn [encap_recv encap_seen encap_match ether2_encap ip4_encap] in R1, R2. unfold current_chain.
  cbn [ef jf ef_src ef_dest ef_type if_src if_dest if_prot] in R1, R2. rewrite R1. cbn [mbind res_bind].
  unfold carries_tcp, ef_match, ip4_match, ether2_match in *. cbn [ef jf ef_src ef_dest ef_type if_src if_dest if_prot fst snd filter_accepts] in *.
  assert (Hp : prot (clear_flags (ip4_sealed (fr_ip f))) = prot (fr_ip f)) by done. rewrite Hp in R2.
  repeat case_bool_decide; cbn [mbind res_bind]; try tauto; rewrite ?R2; cbn [mbind res_bind]; done || tauto.
Qed.

Lemma ntohs_bytes a b : byte_ok a → byte_ok b → ntohs (of_le16 a b) = 256 * a + b.
Proof.
  unfold byte_ok, ntohs, htons, of_le16. intros Ha Hb.
  rewrite (Z.mul_comm 256 b), Z.mod_add, (Z.mod_small a 256), Z.div_add, (Z.div_small a 256), Z.add_0_l, Z.mod_small by lia. lia.
Qed.
Lemma policy_sent port f : framed_ok f →
  tcp_calc_policy current_chain (fr_bytes f) (new_block_incoming_tcp port) =
  Ok (if decide (to_port port f) then BLOCK else ALLOW, new_block_incoming_tcp port).
Proof.
  intros Hf. pose proof Hf as (_ & _ & Hb & _ & Hl). unfold tcp_calc_policy. rewrite chain_sent by done. cbn [mbind res_bind].
  destruct (carries_tcp f) eqn:Hc; [|rewrite decide_False by (intros [E _]; congruence); done].
  specialize (Hl eq_refl). assert (Hto : to_port port f ↔ segment_port (fr_segment f) = port) by (unfold to_port; naive_solver).
  destruct (decide (to_port port f)) as [Ht|Ht]; rewrite Hto in Ht; clear Hto.
  all: destruct (fr_segment f) as [|x0 [|x1 [|a [|b l]]]]; cbn in Hl; try lia.
  all: apply Forall_cons_1 in Hb as [_ Hb]; apply Forall_cons_1 in Hb as [_ Hb];
    apply Forall_cons_1 in Hb as [Ha Hb]; apply Forall_cons_1 in Hb as [Hb _].
  all: unfold tcp_examine; cbn [lookup list_lookup of_option mbind res_bind new_block_incoming_tcp blocked_port segment_port] in *.
  all: rewrite ntohs_bytes by done.
  - by rewrite (proj2 (Z.eqb_eq _ _) Ht).
  - by rewrite (proj2 (Z.eqb_neq _ _) Ht).
Qed.

Lemma gateway_sent port fs : ∀ v, Forall framed_ok fs →
  gateway_receives current_chain (fr_bytes <$> fs) (new_block_incoming_tcp port, v) =
  Ok (new_block_incoming_tcp port,
      World (sent v) (got v ++ (fr_bytes <$> filter (λ f, ¬ to_port port f) fs)) (seen v) (slept v)).
Proof.
  induction fs as [|f fs IH]; intros v Hfs.
  - cbn. rewrite app_nil_r. by destruct v.
  - apply Forall_cons_1 in Hfs as [Hf Hfs]. cbn [fmap list_fmap gateway_receives].
    change (arrive (gateway_firewall current_chain) (Some to_aggregator) (fr_bytes f) ?w) with
      (pass_on (Some (firewall_my_recv gateway_sleep (FirewallNetAccess gateway_device [] [block_filter current_chain]) (Some to_aggregator)))
        (fr_bytes f) w).
    rewrite firewall_recv_eq. cbn [pass_filters]. unfold block_filter at 1. cbn [fst snd]. rewrite policy_sent by done. cbn [mbind res_bind].
    rewrite filter_cons. destruct (decide (to_port port f)) as [Ht|Ht]; cbn [mbind res_bind].
    + rewrite decide_False by tauto. by apply IH.
    + rewrite decide_True by done. cbn [pass_on to_aggregator application mbind res_bind fst snd]. rewrite IH by done.
      cbn. by rewrite <- app_assoc.
Qed.

(** ** Text that a shell takes for itself *)

(** A lower-case letter, a digit, a space, a dot, a slash or a dash: none of them means anything to a shell but the space. *)
Definition plain_char (c : Z) : bool := bool_decide (97 ≤ c ≤ 122 ∨ 48 ≤ c ≤ 57 ∨ c ∈ [32; 45; 46; 47]).
Definition plain (s : list Z) : Prop := Forall (λ c, plain_char c = true) s.
(** The characters of an address or a mask. *)
Definition addr_text (s : list Z) : Prop := Forall (λ c, 48 ≤ c ≤ 57 ∨ c ∈ [46; 47]) s.

Lemma addr_text_plain s : addr_text s → plain s.
Proof.
  intros Hs. eapply List.Forall_impl; [|exact Hs]. intros c Hc. unfold plain_char. apply bool_decide_eq_true.
  destruct Hc as [Hc|Hc]; [tauto|]. right. right. set_solver.
Qed.
Lemma decimal_addr_text n : 0 ≤ n < 2 ^ 32 → addr_text (to_string n).
Proof.
  intros Hn. destruct (to_string_digits n Hn) as (_ & Hd & _). eapply List.Forall_impl; [|exact Hd].
  intros c [d Hc]. left. unfold digit_val in Hc.
  destruct (Z.leb_spec 48 c), (Z.leb_spec c 57), (Z.leb_spec 97 c), (Z.leb_spec c 122),
    (Z.leb_spec 65 c), (Z.leb_spec c 90); cbn in Hc; try lia.
  all: destruct (Z.ltb_spec (c - 87) 10), (Z.ltb_spec (c - 55) 10); try lia; done.
Qed.
Lemma ip4_addr_text a : Forall byte_ok (ip4_octets a) → addr_text (ip4_addr_to_str a).
Proof.
  intros Ha. apply join_forall; [apply Forall_cons_2; [right; by left|apply Forall_nil_2]|].
  apply Forall_fmap. eapply List.Forall_impl; [|exact Ha]. intros b Hb. apply decimal_addr_text. unfold byte_ok in Hb. lia.
Qed.
Lemma parsed_octets s a : str_to_ip4_addr s = Ok (Some a) → Forall byte_ok (ip4_octets a).
Proof.
  intros ([vs|] & _ & [= <-])%res_bind_ok. cbn. apply Forall_fmap, Forall_true. intros v. apply u8_ok.
Qed.
Lemma parsed_mask_text s m : str_to_ip4_subnet_mask s = Ok (Some m) → addr_text (ip4_subnet_mask_to_str m).
Proof.
  unfold str_to_ip4_subnet_mask. destruct (find_char 47 s) as [slash|]; [|done].
  intros (pre & _ & (ip & Hip & H)%res_bind_ok)%res_bind_ok. destruct ip as [a|]; [|done].
  destruct (substr s (slash + 1) (length s) ≫= stoi) as [n|f]; [|done].
  destruct ((0 <=? n) && (n <=? 32)) eqn:Hn; cbn in H; [|done]. injection H as <-. apply andb_prop in Hn as [H0%Z.leb_le H1%Z.leb_le].
  unfold ip4_subnet_mask_to_str. cbn [base_addr no_mask_bits]. apply Forall_app_2; [by eapply ip4_addr_text, parsed_octets|].
  apply Forall_app_2; [apply Forall_cons_2; [right; right; by left|apply Forall_nil_2]|]. apply decimal_addr_text. lia.
Qed.

(** What the shell is given, once the options are accepted. *)
Lemma commands_plain addr_to_str mask_to_str virt ip mask : plain virt → addr_text (addr_to_str ip) → addr_text (mask_to_str mask) →
  Forall plain (vpn_client_commands addr_to_str mask_to_str virt ip mask).
Proof.
  intros Hv Ha%addr_text_plain Hm%addr_text_plain.
  repeat apply Forall_cons_2; try apply Forall_nil_2.
  all: repeat (apply Forall_app_2; [done || by apply (bool_decide_unpack _)|]); try done.
  all: by apply (bool_decide_unpack _).
Qed.

(** * Properties *)

(** The daemon's own constructor, against the thread that accepts.  Whatever connections are accepted between its steps, the run ends in
    the use of an object that is not there exactly when a connection for the daemon's port is accepted after the handler has
    made itself the listener of the server and before the aggregator is constructed; else every connection accepted
    earlier, or for another port, is dropped, and every later one is kept in order, with a separator over it that the aggregator is given. *)
Theorem vpn_daemon_starts {FW : RecvForwarder} (es : list daemon_event) :
  daemon_run es new_vpn_daemon =
  if too_early 0 es then Fault NullDeref else Ok (daemon_at (constructed es 0) (kept 0 es) (given 0 es)).
Proof. change new_vpn_daemon with (daemon_at 0 [] []). rewrite daemon_run_at; [done|lia|apply fresh_nil]. Qed.

(** C34: the gateway of the daemon: of the frames that arrive, each an IPv4 packet in Ethernet as the protocols of the repository send it, the
    aggregator is handed exactly those that are not TCP segments to the port of the daemon, in order and unchanged; and the
    filter is left as it was. *)
Theorem vpn_gateway_passes (frames : list framed) (v : world (list Z)) :
  Forall framed_ok frames →
  gateway_receives current_chain (fr_bytes <$> frames) (new_block_incoming_tcp VPN_DAEMON_PORT, v) =
  Ok (new_block_incoming_tcp VPN_DAEMON_PORT,
      World (sent v) (got v ++ (fr_bytes <$> filter (λ f, ¬ to_port VPN_DAEMON_PORT f) frames)) (seen v) (slept v)).
Proof. apply gateway_sent. Qed.
Definition framed_witness (port : Z) : framed :=
  let seg := be16 10300 ++ be16 port ++ [0; 0; 0; 1] in
  let ih := Ip4Header 4 5 0 28 1234 2 0 255 ip_prot_tcp 0 (Ip4Addr [10; 0; 0; 1]) (Ip4Addr [10; 0; 0; 2]) in
  let eh := Ethernet2Header (MacAddr [2; 0; 0; 0; 0; 1]) (MacAddr [2; 0; 0; 0; 0; 2]) ethertype_ip4 in
  Framed eh ih seg (match encap_send (eh, ih) seg with Ok b => b | Fault _ => [] end).
Lemma framed_witness_ok port : u16_ok port → framed_ok (framed_witness port).
Proof.
  intros Hp. set (f := framed_witness port).
  assert (He : ethernet2_header_ok (fr_eth f)) by (repeat split; repeat constructor; done).
  assert (Hi : ip4_header_ok (fr_ip f)) by (repeat split; try done; by repeat constructor).
  assert (Hb : bytes_ok (fr_segment f)).
  { unfold f, framed_witness. cbn [fr_segment]. repeat apply Forall_app_2; repeat (apply Forall_cons_2; [apply mod256_ok || done|]); apply Forall_nil_2. }
  split; [done|]. split; [done|]. split; [done|]. split; [|intros _; unfold f; cbn; lia].
  assert (O : encap_ok (F := ether2_filters * ip4_filters) (fr_eth f, fr_ip f) (fr_segment f)).
  { assert (O2 : encap_ok (F := ip4_filters) (fr_ip f) (fr_segment f)) by done.
    split; [done|]. intros inner Hin. split; [done|]. by apply (encap_bytes _ _ _ O2). }
  destruct (encap_total _ _ O) as [b E]. unfold f at 3, framed_witness. cbn [fr_bytes]. unfold f, framed_witness in E. cbn [fr_eth fr_ip fr_segment] in E.
  unfold f, framed_witness. cbn [fr_eth fr_ip fr_segment]. by rewrite E.
Qed.
Lemma vpn_gateway_passes_witness :
  let frames := [framed_witness 80; framed_witness 10301; framed_witness 10300] in
  gateway_receives current_chain (fr_bytes <$> frames) (new_block_incoming_tcp VPN_DAEMON_PORT, World [] [] [] 0) =
  Ok (new_block_incoming_tcp VPN_DAEMON_PORT,
      World [] ([] ++ (fr_bytes <$> filter (λ f, ¬ to_port VPN_DAEMON_PORT f) frames)) [] 0).
Proof.
  intros frames. apply (vpn_gateway_passes frames (World [] [] [] 0)).
  repeat (apply Forall_cons_2; [by apply framed_witness_ok|]). apply Forall_nil_2.
Defined.
Example framed_witness_ports : ¬ to_port VPN_DAEMON_PORT (framed_witness 80) ∧ to_port VPN_DAEMON_PORT (framed_witness 10301).
Proof. split; [intros [_ H]; vm_compute in H; done|split; vm_compute; reflexivity]. Qed.

(** The tunnel.  When the client's calls succeed it is connected to the port of the daemon; the messages that it then sends, when the socket takes
    them whole, come out of the separator of the session that the daemon has made for it, as they were and in order, however the stream is cut into
    pieces, as long as none ends between the two bytes of a size. *)
Theorem vpn_tunnel {FW : RecvForwarder} {PL : TcpPlatform} (os : sys_call → Z) (ip : ip4_addr) (iface : list Z)
    (outs : nat → outcome) (msgs pieces : list (list Z)) (data : tcp_session_data) (fd : Z) :
  let p := set_next_choices ip VPN_DAEMON_PORT VPN_CLIENT_PORT (new_tcp_protocol false VPN_DAEMON_PORT iface None false) in
  os SysSocket ≠ SOCKET_ERROR → Forall (succeeds_in os) (connect_calls p (os SysSocket)) →
  Forall line_ok msgs → (∀ j m, msgs !! j = Some m → takes_all m (outs j)) →
  concat pieces = concat (separator_send <$> msgs) → pieces_ok [] pieces →
  ∃ c s, make_vpn_client os ip iface = (Ok c, SysSocket :: (fst <$> connect_calls p (os SysSocket))) ∧
    vpn_send_all outs 0 c msgs = Ok (c, concat pieces) ∧
    session_reads pieces (separator_listens (new_tcp_session data fd)) = Ok (s, msgs) ∧ mid_packet (client s) = false.
Proof.
  intros p Hs Hc Hm Ht Hp Hok. destruct (make_vpn_client_ok os ip iface Hs Hc) as (c & Hmake & Ha & _). exists c.
  assert (Hf : Forall frame_ok msgs) by (eapply List.Forall_impl; [|exact Hm]; by intros m [? _]).
  destruct (handle_stream_spec pieces [] new_separator [] ltac:(constructor) Hok) as (sep & E & Hsep).
  cbn [app] in E, Hsep. rewrite Hp, deframe_sent in E, Hsep by done.
  destruct (session_reads_stream pieces (separator_listens (new_tcp_session data fd)) sep [] msgs) as (ms & Er & ->); [|exact E|].
  { cbn. by rewrite add_listener_law, new_forwarder_law. }
  eexists. split; [exact Hmake|]. split; [rewrite Hp; by apply vpn_send_all_ok|]. split; [exact Er|]. by inversion Hsep.
Qed.
Lemma vpn_tunnel_witness :
  let os := λ c : sys_call, match c with SysSocket => 5 | _ => 0 end in
  let ip := Ip4Addr [192; 168; 1; 9] in
  let p := set_next_choices ip VPN_DAEMON_PORT VPN_CLIENT_PORT (new_tcp_protocol false VPN_DAEMON_PORT (str "eth0") None false) in
  let pieces := [[2; 0; 7]; [8; 0; 0]] in
  ∃ c s, make_vpn_client os ip (str "eth0") = (Ok c, SysSocket :: (fst <$> connect_calls p 5)) ∧
    vpn_send_all (λ j, Outcome 0 0 (if (j =? 0)%nat then 4 else 2)) 0 c [[7; 8]; []] = Ok (c, concat pieces) ∧
    session_reads pieces (separator_listens (new_tcp_session (TcpSessionData ip VPN_CLIENT_PORT VPN_DAEMON_PORT) 6)) = Ok (s, [[7; 8]; []]) ∧
    mid_packet (client s) = false.
Proof.
  intros os ip p pieces.
  apply (vpn_tunnel os ip (str "eth0") (λ j, Outcome 0 0 (if (j =? 0)%nat then 4 else 2)) [[7; 8]; []] pieces).
  - done.
  - repeat (apply Forall_cons_2; [done|]). apply Forall_nil_2.
  - repeat (apply Forall_cons_2; [split; [split; [by repeat constructor|done]|vm_compute; lia]|]). apply Forall_nil_2.
  - intros j m Hj. destruct j as [|[|j]]; [injection Hj as <-|injection Hj as <-|discriminate Hj]; by repeat split.
  - reflexivity.
  - split_and!; (exact I || (vm_compute; done) || by repeat constructor).
Defined.

(** Nothing of the options reaches the shell but addresses.  As long as the text of an address that was parsed has only digits, dots and
    slashes, and that of a mask, the client, whatever its options are, stops before it uses the shell, or gives it three commands of letters,
    digits, spaces, dots, slashes and dashes alone. *)
Theorem vpn_shell_plain (addr_to_str : ip4_addr → list Z) (mask_to_str : ip4_subnet_mask → list Z)
    (str_to_addr : list Z → res ip4_addr) (str_to_mask : list Z → res ip4_subnet_mask) (vm : variables_map) :
  (∀ s a, str_to_addr s = Ok a → addr_text (addr_to_str a)) → (∀ s m, str_to_mask s = Ok m → addr_text (mask_to_str m)) →
  match vpn_client_shell addr_to_str mask_to_str str_to_addr str_to_mask vm with
  | Ok (Some commands) => List.length commands = 3%nat ∧ Forall plain commands
  | Ok None => vm !! str "help" ≠ None ∨ vm !! str "iface" = None ∨ vm !! str "daemon-ip" = None ∨ vm !! str "new-ip" = None ∨ vm !! str "subnet" = None
  | Fault _ => vm !! str "help" = None
  end.
Proof.
  intros Ha Hm. unfold vpn_client_shell, vpn_client_cli, count.
  case_bool_decide as Hh; [left; by destruct Hh as [? ->]|]. rewrite <- eq_None_not_Some in Hh.
  repeat (case_bool_decide as Hx; cbn [negb mbind res_bind]; [clear Hx|rewrite <- eq_None_not_Some in Hx; tauto];
    match goal with |- context [as_string vm ?k] => destruct (as_string vm k) as [?s|?f]; cbn [mbind res_bind]; [|done] end).
  destruct (str_to_addr s0) as [daemon|f]; cbn [mbind res_bind]; [|done].
  destruct (str_to_addr s1) as [own|f] eqn:Ho; cbn [mbind res_bind]; [|done].
  destruct (str_to_mask s2) as [mask|f] eqn:Hmk; cbn [mbind res_bind]; [|done].
  split; [done|]. apply commands_plain; [by apply (bool_decide_unpack _)|by eapply Ha|by eapply Hm].
Qed.
Lemma vpn_shell_plain_witness :
  let to_addr := λ s, o ← str_to_ip4_addr s; of_option Thrown o in
  let to_mask := λ s, o ← str_to_ip4_subnet_mask s; of_option Thrown o in
  let vm : variables_map := {[ str "iface" := OptString (str "eth0; rm"); str "daemon-ip" := OptString (str "10.0.0.1");
    str "new-ip" := OptString (str "10.1.0.7; rm"); str "subnet" := OptString (str "10.1.0.0/16") ]} in
  match vpn_client_shell ip4_addr_to_str ip4_subnet_mask_to_str to_addr to_mask vm with
  | Ok (Some commands) => List.length commands = 3%nat ∧ Forall plain commands
  | Ok None => vm !! str "help" ≠ None ∨ vm !! str "iface" = None ∨ vm !! str "daemon-ip" = None ∨ vm !! str "new-ip" = None ∨ vm !! str "subnet" = None
  | Fault _ => vm !! str "help" = None
  end.
Proof.
  intros to_addr to_mask vm. apply (vpn_shell_plain ip4_addr_to_str ip4_subnet_mask_to_str to_addr to_mask vm).
  - intros s a ([a'|] & E & H)%res_bind_ok; [|discriminate H]. injection H as <-. eapply ip4_addr_text, parsed_octets, E.
  - intros s m ([m'|] & E & H)%res_bind_ok; [|discriminate H]. injection H as <-. eapply parsed_mask_text, E.
Defined.
Example vpn_shell_runs :
  vpn_client_shell ip4_addr_to_str ip4_subnet_mask_to_str (λ s, o ← str_to_ip4_addr s; of_option Thrown o)
    (λ s, o ← str_to_ip4_subnet_mask s; of_option Thrown o)
    {[ str "iface" := OptString (str "eth0"); str "daemon-ip" := OptString (str "10.0.0.1");
       str "new-ip" := OptString (str "10.1.0.7; rm"); str "subnet" := OptString (str "10.1.0.0/16") ]} =
  Ok (Some [str "sudo ip addr add 10.1.0.7/32 dev virt0"; str "sudo ip link set dev virt0 up";
            str "sudo ip route add 10.1.0.0/16 via 10.1.0.7 dev virt0"]).
Proof. vm_compute. reflexivity. Qed.

(** A segment that is too short for its ports is read past its end: the first packet of this kind stops the gateway. *)
Example short_segment_faults :
  gateway_receives current_chain
    [match encap_send (F := ether2_filters * ip4_filters) (fr_eth (framed_witness 80), fr_ip (framed_witness 80)) [40; 60; 0] with Ok b => b | Fault _ => [] end]
    (new_block_incoming_tcp VPN_DAEMON_PORT, World [] [] [] 0) = Fault OutOfBounds.
Proof. vm_compute. reflexivity. Qed.
(** A connection that arrives while the constructor is at work. *)
Example vpn_daemon_early :
  daemon_run (replicate 3 Construct ++ [Accepted 100 (TcpSessionData ip4_addr_empty 10300 10301) 7]) new_vpn_daemon = Fault NullDeref.
Proof. reflexivity. Qed.
