(* ===== verification/VirtualNet.v ===== *)
(** The virtual network: [src/lib/linux/virtual_net.h], [virtual_net.cpp].  (The copy under [src/lib/macos] differs in what it does when it
    cannot bind or lock and in [disconnect], see [macos].)

    A node of a network is a datagram socket bound to a file of the network's directory; sending goes to every other file there, under a lock.
    The operating system enters through a class: the sockets with their queues, the files that they are bound to, and
    what the calls do to them.  Datagrams are neither lost nor reordered between local sockets (a full queue makes [sendto] wait, here it is
    unbounded), one that is longer than the buffer is cut, and a file whose socket is closed refuses.  The thread that receives is a
    loop of steps, each process has one node, and the class has an instance made of two maps. *)

From Stdlib Require Import ZArith Lia String.
From stdpp Require Import base decidable list numbers gmap.
From S2P Require Import Prelude Text.

(** * The operating system *)

(** [p / name] of [std::filesystem]: an absolute name replaces the path, and a path that ends in a separator gets no second one. *)
Definition with_slash (p : list Z) : list Z :=
  match last p with None => p | Some c => if c =? 47 then p else p ++ [47] end.
Definition path_join (p name : list Z) : list Z :=
  match name with c :: _ => if c =? 47 then name else with_slash p ++ name | [] => with_slash p end.

(** Names are lists of characters, 47 is the separator.  [bound]: which open socket listens at a path; [queues]: what waits at each open socket;
    [fits]: what a datagram may hold. *)
Class DatagramSockets (K : Type) := {
  bound : K → gmap (list Z) Z;
  queues : K → gmap Z (list (list Z));
  fits : list Z → Prop;
  k_create_directories : list Z → K → K;
  k_entries : list Z → K → list (list Z);
  k_unlink : list Z → K → K;
  k_socket : K → option Z * K;
  k_bind : Z → list Z → K → bool * K;
  k_close : Z → K → K;
  k_sendto : Z → list Z → list Z → K → bool * K;
  k_recv : Z → nat → K → option (list Z) * K;
  k_lock : list Z → K → option Z * K;
  k_unlock : Z → K → K;
  bound_open k p fd : bound k !! p = Some fd → is_Some (queues k !! fd);
  bound_once k p p' fd : bound k !! p = Some fd → bound k !! p' = Some fd → p = p';
  entries_nodup dir k : NoDup (k_entries dir k);
  entries_inside dir k p : p ∈ k_entries dir k → ∃ name, 47 ∉ name ∧ p = path_join dir name;
  entries_all dir k name : 47 ∉ name → is_Some (bound k !! path_join dir name) → path_join dir name ∈ k_entries dir k;
  directories_law p k : bound (k_create_directories p k) = bound k ∧ queues (k_create_directories p k) = queues k;
  unlink_law p k : bound (k_unlink p k) = delete p (bound k) ∧ queues (k_unlink p k) = queues k;
  socket_law k : bound (snd (k_socket k)) = bound k ∧
    match fst (k_socket k) with
    | Some fd => queues k !! fd = None ∧ queues (snd (k_socket k)) = <[fd := []]> (queues k)
    | None => queues (snd (k_socket k)) = queues k
    end;
  bind_law fd p k : is_Some (queues k !! fd) → queues (snd (k_bind fd p k)) = queues k ∧
    bound (snd (k_bind fd p k)) = if fst (k_bind fd p k) then <[p := fd]> (bound k) else bound k;
  close_law fd k : queues (k_close fd k) = delete fd (queues k) ∧ bound (k_close fd k) = filter (λ x, snd x ≠ fd) (bound k);
  sendto_law fd p d k : is_Some (queues k !! fd) → fits d →
    bound (snd (k_sendto fd p d k)) = bound k ∧ fst (k_sendto fd p d k) = bool_decide (is_Some (bound k !! p)) ∧
    queues (snd (k_sendto fd p d k)) =
      match bound k !! p with Some fd' => alter (λ q, q ++ [d]) fd' (queues k) | None => queues k end;
  recv_law fd n k : bound (snd (k_recv fd n k)) = bound k ∧
    match queues k !! fd with
    | Some (d :: q) => fst (k_recv fd n k) = Some (take n d) ∧ queues (snd (k_recv fd n k)) = <[fd := q]> (queues k)
    | _ => fst (k_recv fd n k) = None ∧ queues (snd (k_recv fd n k)) = queues k
    end;
  lock_law p k : bound (snd (k_lock p k)) = bound k ∧ queues (snd (k_lock p k)) = queues k;
  unlock_law fd k : bound (k_unlock fd k) = bound k ∧ queues (k_unlock fd k) = queues k
}.

Section virtual_net.
Context {K : Type} `{!DatagramSockets K}.

Definition VIRTUAL_NET_MSG_MAX_SZ : nat := Z.to_nat 0x1000.

(** [strncpy] into the 108 bytes of a socket address. *)
Definition sun_path (p : list Z) : list Z := take 107 p.

(** * virtual_net.h

    [send_access] tells whether there is one; the receiver is a number. *)
Record virtual_net := VirtualNet {
  net_dir : list Z; net_lockfile : list Z; my_file : list Z;
  sock_fd : option Z; recv_thrd_flag : bool; send_access : bool; recv_access : option nat; connected : bool
}.
Definition new_virtual_net : virtual_net := VirtualNet [] [] [] None false false None false.
Definition set_vnet_recv_access (recv : option nat) (n : virtual_net) : virtual_net :=
  VirtualNet (net_dir n) (net_lockfile n) (my_file n) (sock_fd n) (recv_thrd_flag n) (send_access n) recv (connected n).

(** [connect], in the process [pid]; [macos] tells the copy. *)
Definition connect (macos : bool) (pid : Z) (net_name : list Z) (n : virtual_net) (k : K) : virtual_net * K :=
  let dir := path_join (str "/tmp/virtual_net") net_name in
  let k := k_create_directories dir k in
  let lockfile := path_join dir (str "lock.file") in
  let file := path_join dir (to_string pid ++ str ".file") in
  let k := k_unlink file k in
  let '(fd, k) := k_socket k in
  match fd with
  | None => (VirtualNet dir lockfile file None (recv_thrd_flag n) (send_access n) (recv_access n) (connected n), k)
  | Some fd =>
      let '(ok, k) := k_bind fd (sun_path file) k in
      if negb ok then
        (VirtualNet dir lockfile file (if macos then None else Some fd) (recv_thrd_flag n) (send_access n) (recv_access n) (connected n),
         k_close fd k)
      else (VirtualNet dir lockfile file (Some fd) true true (recv_access n) true, k)
  end.

(** One turn of the loop of the thread: what it hands to the receiver, if anything has come; a closed socket gives nothing, and
    an empty [sock_fd] throws. *)
Definition recv_turn (n : virtual_net) (k : K) : res (option (list Z) * K) :=
  if negb (recv_thrd_flag n) then Ok (None, k)
  else
    fd ← of_option Thrown (sock_fd n);
    let '(data, k) := k_recv fd VIRTUAL_NET_MSG_MAX_SZ k in
    Ok (match data with
        | Some (b :: data) => (match recv_access n with Some _ => Some (b :: data) | None => None end, k)
        | _ => (None, k)
        end).

(** The loop of [send_data] over the entries of the directory: errors are passed over. *)
Fixpoint send_entries (n : virtual_net) (fd : Z) (data : list Z) (entries : list (list Z)) (k : K) : K :=
  match entries with
  | [] => k
  | path :: entries =>
      if decide (path = net_lockfile n) then send_entries n fd data entries k
      else if decide (path = my_file n) then send_entries n fd data entries k
      else let '(_, k) := k_sendto fd (sun_path path) data k in send_entries n fd data entries k
  end.
(** [send_data] of the send access; null when there is none, and an empty [sock_fd] throws. *)
Definition vnet_send_data (n : virtual_net) (data : list Z) (k : K) : res (err_t * K) :=
  if negb (send_access n) then Fault NullDeref
  else
    let '(tmp, k) := k_lock (net_lockfile n) k in
    match tmp with
    | None => Ok (ERR, k)
    | Some lock_fd =>
        fd ← of_option Thrown (sock_fd n);
        Ok (OK, k_unlock lock_fd (send_entries n fd data (k_entries (net_dir n) k) k))
    end.

Definition disconnect (macos : bool) (n : virtual_net) (k : K) : virtual_net * K :=
  if macos && negb (connected n) then (n, k)
  else
    let k := match sock_fd n with Some fd => k_close fd k | None => k end in
    (VirtualNet (net_dir n) (net_lockfile n) (my_file n) (if macos then None else sock_fd n) false false (recv_access n) false,
     k_unlink (my_file n) k).

(** The two operations in the copy for macOS. *)
Definition macos_connect : Z → list Z → virtual_net → K → virtual_net * K := connect true.
Definition macos_disconnect : virtual_net → K → virtual_net * K := disconnect true.

(** * The nodes of one network *)

Context (macos : bool) (net_name : list Z).

(** The processes that take part; each has one node, with which it joins again when it has left.  Every call is one step: the lock
    orders only the senders, and joining and leaving take none. *)
Inductive net_op := Join (pid : Z) | Send (pid : Z) (data : list Z) | Take (pid : Z) | Leave (pid : Z).
Inductive net_out := Joined (b : bool) | SendResult (e : err_t) | Received (data : option (list Z)) | Left.
Definition net_step (o : net_op) (s : gmap Z virtual_net * K) : res (net_out * (gmap Z virtual_net * K)) :=
  let '(nodes, k) := s in
  match o with
  | Join pid =>
      let n := default (set_vnet_recv_access (Some 0%nat) new_virtual_net) (nodes !! pid) in
      let '(n, k) := connect macos pid net_name n k in
      Ok (Joined (connected n), (<[pid := n]> nodes, k))
  | Send pid data =>
      n ← of_option NullDeref (nodes !! pid);
      '(e, k) ← vnet_send_data n data k; Ok (SendResult e, (nodes, k))
  | Take pid =>
      n ← of_option NullDeref (nodes !! pid);
      '(data, k) ← recv_turn n k; Ok (Received data, (nodes, k))
  | Leave pid =>
      n ← of_option NullDeref (nodes !! pid);
      let '(n, k) := disconnect macos n k in Ok (Left, (<[pid := n]> nodes, k))
  end.
Fixpoint net_run (ops : list net_op) (s : gmap Z virtual_net * K) : res (list net_out * (gmap Z virtual_net * K)) :=
  match ops with
  | [] => Ok ([], s)
  | o :: ops => '(out, s) ← net_step o s; '(outs, s) ← net_run ops s; Ok (out :: outs, s)
  end.

(** * The specification: a medium that all others hear

    The state maps the processes on the network to what has been sent and not yet received. *)
Definition hear (from : Z) (data : list Z) (s : gmap Z (list (list Z))) : gmap Z (list (list Z)) :=
  map_imap (λ pid q, Some (if decide (pid = from) then q else q ++ [data])) s.
(** What the receiver is handed of a message. *)
Definition heard (data : list Z) : option (list Z) := match data with [] => None | _ => Some (take VIRTUAL_NET_MSG_MAX_SZ data) end.
(** The flag tells whether the system refuses the operation. *)
Inductive medium_step : bool → net_op → gmap Z (list (list Z)) → net_out → gmap Z (list (list Z)) → Prop :=
  | medium_join pid s : s !! pid = None → medium_step false (Join pid) s (Joined true) (<[pid := []]> s)
  | medium_join_fails pid s : s !! pid = None → medium_step true (Join pid) s (Joined false) s
  | medium_send pid data s : is_Some (s !! pid) → fits data → medium_step false (Send pid data) s (SendResult OK) (hear pid data s)
  | medium_send_fails pid data s : is_Some (s !! pid) → fits data → medium_step true (Send pid data) s (SendResult ERR) s
  | medium_take pid data q s : s !! pid = Some (data :: q) → medium_step false (Take pid) s (Received (heard data)) (<[pid := q]> s)
  | medium_wait pid s : s !! pid = Some [] → medium_step false (Take pid) s (Received None) s
  | medium_leave pid s : is_Some (s !! pid) → medium_step false (Leave pid) s Left (delete pid s).

(** * A network implements the medium *)

Definition network_dir : list Z := path_join (str "/tmp/virtual_net") net_name.
Definition node_file (pid : Z) : list Z := path_join network_dir (to_string pid ++ str ".file").
Definition joined_node (pid fd : Z) : virtual_net :=
  VirtualNet network_dir (path_join network_dir (str "lock.file")) (node_file pid) (Some fd) true true (Some 0%nat) true.
Definition network_lock : list Z := path_join network_dir (str "lock.file").
(** What the system refuses: a socket, or its file, to who joins, and the lock to who sends. *)
Definition refused (o : net_op) (k : K) : bool :=
  match o with
  | Join pid =>
      let '(fd, k) := k_socket (k_unlink (node_file pid) (k_create_directories network_dir k)) in
      match fd with None => true | Some fd => negb (fst (k_bind fd (node_file pid) k)) end
  | Send _ _ => match fst (k_lock network_lock k) with None => true | Some _ => false end
  | Take _ | Leave _ => false
  end.
Definition pid_ok (pid : Z) : Prop := 0 ≤ pid < 2 ^ 31.
(** Each process on the medium has its node, whose socket holds what the medium has for it; those away have left with theirs, or have none;
    nobody else listens in the directory. *)
Record implements (st : gmap Z virtual_net * K) (s : gmap Z (list (list Z))) : Prop := {
  impl_nodes pid q : s !! pid = Some q → pid_ok pid ∧ ∃ fd,
    fst st !! pid = Some (joined_node pid fd) ∧ bound (snd st) !! node_file pid = Some fd ∧ queues (snd st) !! fd = Some q;
  impl_away pid n : s !! pid = None → fst st !! pid = Some n → connected n = false ∧ recv_access n = Some 0%nat;
  impl_bound name : 47 ∉ name → is_Some (bound (snd st) !! path_join network_dir name) →
    ∃ pid, pid_ok pid ∧ path_join network_dir name = node_file pid ∧ is_Some (s !! pid)
}.
(** What the processes may do: join when away, send what fits and receive and leave when there. *)
Definition allowed (o : net_op) (s : gmap Z (list (list Z))) : Prop :=
  match o with
  | Join pid => pid_ok pid ∧ s !! pid = None
  | Send pid data => is_Some (s !! pid) ∧ fits data
  | Take pid | Leave pid => is_Some (s !! pid)
  end.

Lemma path_join_plain dir name : 47 ∉ name → path_join dir name = with_slash dir ++ name.
Proof.
  intros H. destruct name as [|c name]; [by rewrite app_nil_r|]. unfold path_join.
  destruct (Z.eqb_spec c 47) as [->|]; [|done]. set_solver.
Qed.
Lemma file_name_plain pid : pid_ok pid → 47 ∉ to_string pid ++ str ".file".
Proof.
  intros Hp [H|H]%elem_of_app.
  - pose proof (to_string_chars pid ltac:(unfold pid_ok in Hp; lia)) as Hc.
    rewrite Forall_forall in Hc. specialize (Hc _ H). lia.
  - revert H. apply (bool_decide_eq_false_1 _). vm_compute. reflexivity.
Qed.
Lemma node_file_eq pid : pid_ok pid → node_file pid = with_slash network_dir ++ to_string pid ++ str ".file".
Proof. intros H. by apply path_join_plain, file_name_plain. Qed.
Lemma node_file_inj p p' : pid_ok p → pid_ok p' → node_file p = node_file p' → p = p'.
Proof.
  intros H H'. rewrite !node_file_eq by done. intros E%app_inv_head.
  pose proof (scan_u_to_string p (str ".file") ltac:(unfold pid_ok in *; lia) eq_refl) as E1.
  pose proof (scan_u_to_string p' (str ".file") ltac:(unfold pid_ok in *; lia) eq_refl) as E2. congruence.
Qed.
Lemma node_file_not_lock p : pid_ok p → node_file p ≠ path_join network_dir (str "lock.file").
Proof.
  intros H. rewrite node_file_eq, path_join_plain by (done || apply (bool_decide_eq_false_1 _); vm_compute; reflexivity).
  intros E%app_inv_head.
  pose proof (scan_u_to_string p (str ".file") ltac:(unfold pid_ok in *; lia) eq_refl) as E1. by rewrite E in E1.
Qed.
Lemma print_num_length fuel base n acc : (List.length (print_num fuel base n acc) ≤ fuel + List.length acc)%nat.
Proof.
  revert n acc. induction fuel as [|fuel IH]; intros n acc; cbn [print_num]; [lia|].
  destruct (_ =? 0); [simpl; lia|]. etransitivity; [apply IH|]. simpl. lia.
Qed.

Section short.
Context (Hshort : (List.length net_name ≤ 73)%nat).

Lemma network_dir_length : (List.length (with_slash network_dir) ≤ 91)%nat.
Proof.
  assert (H : ∀ p, (List.length (with_slash p) ≤ S (List.length p))%nat).
  { intros p. unfold with_slash. destruct (last p) as [c|]; [|lia]. destruct (c =? 47); [lia|]. rewrite length_app. simpl. lia. }
  rewrite H. unfold network_dir, path_join.
  destruct net_name as [|c name]; [simpl; lia|]. destruct (c =? 47); [lia|].
  rewrite length_app. change (List.length (with_slash (str "/tmp/virtual_net"))) with 17%nat. lia.
Qed.
Lemma node_file_length pid : pid_ok pid → (List.length (node_file pid) ≤ 106)%nat.
Proof.
  intros H. rewrite node_file_eq, !length_app by done. pose proof network_dir_length.
  pose proof (print_num_length 10 10 pid []) as Hp. unfold to_string. simpl in *. lia.
Qed.
Lemma sun_path_file pid : pid_ok pid → sun_path (node_file pid) = node_file pid.
Proof. intros H. apply take_ge. pose proof (node_file_length pid H). lia. Qed.
(** A name that is too long is cut, and then nobody listens there. *)
Lemma sun_path_bound st s p : implements st s → (∃ name, 47 ∉ name ∧ p = path_join network_dir name) →
  is_Some (bound (snd st) !! sun_path p) → sun_path p = p.
Proof.
  intros Hi (name & Hn & ->) Hb. rewrite path_join_plain in * by done. unfold sun_path in *.
  destruct (decide (List.length (with_slash network_dir ++ name) ≤ 107)%nat) as [H|H]; [by apply take_ge|].
  pose proof network_dir_length as Hl. rewrite take_app_ge in Hb |- * by lia.
  set (name' := take _ name) in *.
  assert (H47 : 47 ∉ name') by (intros Hin; apply Hn; eapply elem_of_take in Hin as (i & Hi' & _); by eapply list_elem_of_lookup_2).
  rewrite <- path_join_plain in Hb by done. destruct (impl_bound _ _ Hi name' H47 Hb) as (pid & Hp & E & _).
  apply (f_equal List.length) in E. rewrite path_join_plain in E by done.
  pose proof (node_file_length pid Hp). rewrite length_app in *. unfold name' in E. rewrite length_take in E. lia.
Qed.

(** The loop of [send_data]: one more datagram for each socket whose file is in the directory, the sender's own excepted. *)
Lemma send_entries_spec n fd data entries k :
  NoDup entries → is_Some (queues k !! fd) → fits data →
  (∀ p, p ∈ entries → is_Some (bound k !! sun_path p) → sun_path p = p) →
  bound (send_entries n fd data entries k) = bound k ∧
  ∀ p x, bound k !! p = Some x → sun_path p = p →
    queues (send_entries n fd data entries k) !! x =
    (λ q, if decide (p ∈ entries ∧ p ≠ net_lockfile n ∧ p ≠ my_file n) then q ++ [data] else q) <$> queues k !! x.
Proof.
  intros Hnd. revert k. induction Hnd as [|p0 entries Hp0 Hnd IH]; intros k Hfd Hfit Hsun; cbn [send_entries].
  { split; [done|]. intros p x Hp _. destruct (queues k !! x); cbn; [|done]. by rewrite decide_False by set_solver. }
  assert (Hskip : p0 = net_lockfile n ∨ p0 = my_file n → ∀ p (q : list (list Z)),
    (if decide (p ∈ entries ∧ p ≠ net_lockfile n ∧ p ≠ my_file n) then q ++ [data] else q) =
    (if decide (p ∈ p0 :: entries ∧ p ≠ net_lockfile n ∧ p ≠ my_file n) then q ++ [data] else q)).
  { intros Hor p q. apply decide_ext. set_solver. }
  destruct (decide (p0 = net_lockfile n)) as [E|E]; [|destruct (decide (p0 = my_file n)) as [E'|E']].
  1-2: destruct (IH k) as [IHb IHq]; [done|done|intros; apply Hsun; set_solver|]; split; [done|]; intros p x Hp Hs;
    rewrite (IHq p x Hp Hs); apply option_fmap_ext; intros q; apply Hskip; tauto.
  destruct (sendto_law fd (sun_path p0) data k Hfd Hfit) as (Hb & _ & Hq).
  destruct (k_sendto fd (sun_path p0) data k) as [ok k1]. cbn [fst snd] in *.
  assert (Hfd1 : is_Some (queues k1 !! fd)).
  { rewrite Hq. destruct (bound k !! sun_path p0); [|done]. by apply lookup_alter_is_Some. }
  destruct (IH k1) as [IHb IHq]; [done|done|intros p Hp; rewrite Hb; apply Hsun; set_solver|].
  split; [by rewrite IHb|]. intros p x Hp Hs. rewrite (IHq p x) by (done || by rewrite Hb). rewrite Hq.
  destruct (bound k !! sun_path p0) as [fd'|] eqn:E0.
  - assert (E1 : sun_path p0 = p0) by (apply Hsun; [set_solver|eauto]). rewrite E1 in E0.
    destruct (decide (p = p0)) as [->|Hne].
    + simplify_eq. rewrite lookup_alter_eq. destruct (queues k !! fd') as [q|]; cbn; [|done].
      by rewrite decide_False, decide_True by set_solver.
    + rewrite lookup_alter_ne by (intros <-; apply Hne; by eapply bound_once).
      apply option_fmap_ext. intros q. apply decide_ext. set_solver.
  - apply option_fmap_ext. intros q. apply decide_ext.
    assert (p ≠ p0) by (intros ->; rewrite Hs in E0; congruence). set_solver.
Qed.

(** ** One operation *)

Lemma implements_same st st' s : implements st s → (∀ pid, is_Some (s !! pid) → fst st' !! pid = fst st !! pid) →
  (∀ pid n, s !! pid = None → fst st' !! pid = Some n → connected n = false ∧ recv_access n = Some 0%nat) →
  bound (snd st') = bound (snd st) → queues (snd st') = queues (snd st) → implements st' s.
Proof.
  intros Hi Hn Ha Hb Hq. split; [|exact Ha|].
  - intros pid q H. rewrite Hb, Hq, Hn by eauto. by apply (impl_nodes _ _ Hi).
  - intros name. rewrite Hb. apply (impl_bound _ _ Hi).
Qed.
Lemma implements_kernel nodes k k' s : implements (nodes, k) s → bound k' = bound k → queues k' = queues k → implements (nodes, k') s.
Proof. intros Hi Hb Hq. apply (implements_same _ _ _ Hi); [done|apply (impl_away _ _ Hi)|done..]. Qed.
(** The node that a process away joins with. *)
Lemma away_node st s pid : implements st s → s !! pid = None →
  let n := default (set_vnet_recv_access (Some 0%nat) new_virtual_net) (fst st !! pid) in connected n = false ∧ recv_access n = Some 0%nat.
Proof. intros Hi Hs. destruct (fst st !! pid) as [n|] eqn:E; [by apply (impl_away _ _ Hi pid)|done]. Qed.
Lemma file_unbound st s pid : implements st s → pid_ok pid → s !! pid = None → bound (snd st) !! node_file pid = None.
Proof.
  intros Hi Hp Hs. apply eq_None_not_Some. intros H. unfold node_file in H.
  destruct (impl_bound _ _ Hi _ (file_name_plain pid Hp) H) as (pid' & Hp' & E & H').
  fold (node_file pid) in E. apply node_file_inj in E as ->; [|done..]. rewrite Hs in H'. by destruct H'.
Qed.
Lemma files_differ st s pid pid' fd fd' : implements st s → pid_ok pid → pid_ok pid' → pid ≠ pid' →
  bound (snd st) !! node_file pid = Some fd → bound (snd st) !! node_file pid' = Some fd' → fd ≠ fd'.
Proof. intros _ Hp Hp' Hne H H' ->. apply Hne, node_file_inj; [done..|]. by eapply bound_once. Qed.

Definition simulated (o : net_op) (st : gmap Z virtual_net * K) (s : gmap Z (list (list Z))) : Prop :=
  ∃ out st' s', net_step o st = Ok (out, st') ∧ medium_step (refused o (snd st)) o s out s' ∧ implements st' s'.

Lemma join_simulated pid st s : implements st s → pid_ok pid → s !! pid = None → simulated (Join pid) st s.
Proof.
  intros Hi Hp Hs. pose proof (file_unbound _ _ _ Hi Hp Hs) as Hfree. destruct st as [nodes k]. unfold simulated.
  destruct (away_node _ _ _ Hi Hs) as [Hc Hra]. cbn [net_step fst snd refused] in *. set (n := default _ (nodes !! pid)) in *. clearbody n.
  unfold connect. fold network_dir. fold (node_file pid).
  destruct (directories_law network_dir k) as [Hb1 Hq1]. set (k1 := k_create_directories network_dir k) in *.
  destruct (unlink_law (node_file pid) k1) as [Hb2 Hq2]. set (k2 := k_unlink (node_file pid) k1) in *.
  rewrite Hb1, delete_id in Hb2 by done. rewrite Hq1 in Hq2.
  pose proof (socket_law k2) as [Hb3 Hq3]. destruct (k_socket k2) as [[fd|] k3]; cbn [fst snd] in *.
  2:{ cbn. rewrite Hc. eexists _, _, s. split; [done|]. split; [by apply medium_join_fails|].
      apply (implements_same _ _ _ Hi); cbn; [| |congruence..].
      - intros pid' [q Hq']. by rewrite lookup_insert_ne by congruence.
      - intros pid' n' Hs' [[_ <-]|[_ H]]%lookup_insert_Some; [done|by apply (impl_away _ _ Hi pid')]. }
  destruct Hq3 as [Hfresh Hq3]. rewrite Hq2 in *. rewrite Hb2 in *. rewrite sun_path_file by done.
  assert (Hfd3 : is_Some (queues k3 !! fd)) by (rewrite Hq3, lookup_insert_eq; eauto).
  destruct (bind_law fd (node_file pid) k3 Hfd3) as [Hq4 Hb4].
  destruct (k_bind fd (node_file pid) k3) as [[] k4]; cbn [fst snd negb] in *.
  - eexists _, _, (<[pid := []]> s). split; [done|]. split; [by apply medium_join|].
    cbn. rewrite Hra. split; cbn.
    + intros pid' q. rewrite Hq4, Hq3, Hb4, Hb3.
      destruct (decide (pid' = pid)) as [->|Hne].
      * rewrite !lookup_insert_eq. intros [= <-]. split; [done|]. exists fd. by rewrite !lookup_insert_eq.
      * rewrite !lookup_insert_ne by done. intros H. destruct (impl_nodes _ _ Hi _ _ H) as (Hp' & fd' & Hn & Hb & Hq).
        split; [done|]. exists fd'. cbn in *. rewrite !lookup_insert_ne; [done| |]; [|intros E; apply Hne; by apply node_file_inj].
        intros ->. congruence.
    + intros pid' n' [Hs' Hne]%lookup_insert_None. rewrite lookup_insert_ne by done. by apply (impl_away _ _ Hi).
    + intros name Hname. rewrite Hb4, Hb3. destruct (decide (path_join network_dir name = node_file pid)) as [E|E].
      * intros _. exists pid. rewrite lookup_insert_eq. eauto.
      * rewrite lookup_insert_ne by done. intros H. destruct (impl_bound _ _ Hi _ Hname H) as (pid' & ? & ? & ?).
        exists pid'. split; [done|]. split; [done|]. by apply lookup_insert_is_Some'; right.
  - destruct (close_law fd k4) as [Hq5 Hb5]. cbn [connected]. rewrite Hc. eexists _, _, s. split; [done|]. split; [by apply medium_join_fails|].
    apply (implements_same _ _ _ Hi); cbn.
    + intros pid' [q Hq']. by rewrite lookup_insert_ne by congruence.
    + intros pid' n' Hs' [[_ <-]|[_ H]]%lookup_insert_Some; [done|by apply (impl_away _ _ Hi pid')].
    + rewrite Hb5, Hb4, Hb3. apply map_filter_id. intros p x Hx. cbn. intros ->.
      apply bound_open in Hx as [? Hx]. congruence.
    + by rewrite Hq5, Hq4, Hq3, delete_insert_id.
Qed.

Lemma send_simulated pid data st s : implements st s → is_Some (s !! pid) → fits data → simulated (Send pid data) st s.
Proof.
  intros Hi [q0 Hs] Hfit. destruct st as [nodes k]. destruct (impl_nodes _ _ Hi _ _ Hs) as (Hp & fd & Hn & Hb & Hq).
  unfold simulated. cbn [fst snd net_step refused] in *. rewrite Hn. unfold vnet_send_data, network_lock.
  cbn [of_option mbind res_bind joined_node send_access negb net_lockfile net_dir sock_fd].
  remember (path_join network_dir (str "lock.file")) as lockfile eqn:Elock.
  destruct (lock_law lockfile k) as [Hb1 Hq1]. destruct (k_lock lockfile k) as [[lock_fd|] k1]; cbn [fst snd] in *.
  2:{ eexists _, _, s. split; [done|]. split; [apply medium_send_fails; eauto|]. by apply (implements_kernel _ _ _ _ Hi). }
  assert (Hi1 : implements (nodes, k1) s) by by apply (implements_kernel _ _ _ _ Hi).
  destruct (send_entries_spec (joined_node pid fd) fd data (k_entries network_dir k1) k1) as [Hb2 Hq2].
  { apply entries_nodup. } { rewrite Hq1. eauto. } { done. }
  { intros p Hin%entries_inside. by apply (sun_path_bound _ _ _ Hi1). }
  set (k2 := send_entries _ _ _ _ _) in *. destruct (unlock_law lock_fd k2) as [Hb3 Hq3].
  eexists _, _, (hear pid data s). split; [done|]. split; [apply medium_send; eauto|]. split; cbn [fst snd].
  - intros pid' q'. unfold hear. rewrite map_lookup_imap. intros (q & Hs' & [= <-])%bind_Some.
    destruct (impl_nodes _ _ Hi1 _ _ Hs') as (Hp' & fd' & Hn' & Hb' & Hq'). split; [done|]. exists fd'.
    cbn [fst snd] in *. rewrite Hb3, Hb2, Hq3, (Hq2 (node_file pid')), Hq' by (done || by apply sun_path_file).
    split; [done|]. split; [done|]. cbn. f_equal. destruct (decide (pid' = pid)) as [->|Hne].
    + rewrite decide_False by tauto. done.
    + rewrite decide_True; [done|]. split; [|split].
      * apply entries_all; [by apply file_name_plain|]. fold (node_file pid'). eauto.
      * cbn. by apply node_file_not_lock.
      * intros E. apply Hne. by apply node_file_inj.
  - intros pid' n' Hs'. unfold hear in Hs'. rewrite map_lookup_imap in Hs'. apply (impl_away _ _ Hi1). by destruct (s !! pid').
  - intros name Hname. rewrite Hb3, Hb2. intros H. destruct (impl_bound _ _ Hi1 _ Hname H) as (pid' & ? & ? & [q ?]).
    exists pid'. split; [done|]. split; [done|]. unfold hear. rewrite map_lookup_imap. simplify_option_eq; eauto.
Qed.

Lemma take_simulated pid st s : implements st s → is_Some (s !! pid) → simulated (Take pid) st s.
Proof.
  intros Hi [q Hs]. destruct st as [nodes k]. destruct (impl_nodes _ _ Hi _ _ Hs) as (Hp & fd & Hn & Hb & Hq).
  unfold simulated. cbn [fst snd net_step] in *. rewrite Hn. unfold recv_turn. cbn [of_option mbind res_bind joined_node recv_thrd_flag negb sock_fd recv_access].
  destruct (recv_law fd VIRTUAL_NET_MSG_MAX_SZ k) as [Hb1 Hq1]. rewrite Hq in Hq1.
  destruct (k_recv fd VIRTUAL_NET_MSG_MAX_SZ k) as [o k1]. cbn [fst snd] in *.
  destruct q as [|d q]; destruct Hq1 as [-> Hq1].
  { eexists _, _, s. split; [done|]. split; [by apply medium_wait|]. by apply (implements_kernel _ _ _ _ Hi). }
  exists (Received (heard d)), (nodes, k1), (<[pid := q]> s). split; [by destruct d|]. split; [by apply medium_take|].
  split; cbn [fst snd].
  - intros pid' q'. rewrite Hb1, Hq1. destruct (decide (pid' = pid)) as [->|Hne].
    + rewrite lookup_insert_eq. intros [= <-]. split; [done|]. exists fd. by rewrite lookup_insert_eq.
    + rewrite lookup_insert_ne by done. intros H. destruct (impl_nodes _ _ Hi _ _ H) as (Hp' & fd' & Hn' & Hb' & Hq').
      split; [done|]. exists fd'. rewrite lookup_insert_ne; [done|]. eapply (files_differ _ _ pid pid' _ _ Hi); eauto.
  - intros pid' n' [Hs' _]%lookup_insert_None. by apply (impl_away _ _ Hi).
  - intros name Hname. rewrite Hb1. intros H. destruct (impl_bound _ _ Hi _ Hname H) as (pid' & ? & ? & ?).
    exists pid'. split; [done|]. split; [done|]. by apply lookup_insert_is_Some'; right.
Qed.

Lemma leave_simulated pid st s : implements st s → is_Some (s !! pid) → simulated (Leave pid) st s.
Proof.
  intros Hi [q Hs]. destruct st as [nodes k]. destruct (impl_nodes _ _ Hi _ _ Hs) as (Hp & fd & Hn & Hb & Hq).
  unfold simulated. cbn [fst snd net_step] in *. rewrite Hn. unfold disconnect. cbn [of_option mbind res_bind joined_node connected negb sock_fd my_file].
  rewrite andb_false_r. destruct (close_law fd k) as [Hq1 Hb1]. destruct (unlink_law (node_file pid) (k_close fd k)) as [Hb2 Hq2].
  eexists _, _, (delete pid s). split; [done|]. split; [apply medium_leave; eauto|].
  assert (Hsub : ∀ p x, bound (k_unlink (node_file pid) (k_close fd k)) !! p = Some x → p ≠ node_file pid ∧ bound k !! p = Some x).
  { intros p x. rewrite Hb2, Hb1. intros [Hne H]%lookup_delete_Some. apply map_lookup_filter_Some in H as [H _]. done. }
  split; cbn [fst snd].
  - intros pid' q' [Hne H]%lookup_delete_Some. destruct (impl_nodes _ _ Hi _ _ H) as (Hp' & fd' & Hn' & Hb' & Hq').
    assert (Hfd : fd ≠ fd') by (eapply (files_differ _ _ pid pid' _ _ Hi); eauto).
    split; [done|]. exists fd'. rewrite lookup_insert_ne by done. split; [done|].
    rewrite Hq2, Hq1, lookup_delete_ne by done. split; [|done]. rewrite Hb2, Hb1, lookup_delete_ne.
    + apply map_lookup_filter_Some. done.
    + intros E. apply Hne. by apply node_file_inj.
  - intros pid' n' Hs' [[_ <-]|[Hne H]]%lookup_insert_Some; [done|]. rewrite lookup_delete_ne in Hs' by done. by apply (impl_away _ _ Hi pid').
  - intros name Hname [x [Hne H]%Hsub]. destruct (impl_bound _ _ Hi _ Hname (mk_is_Some _ _ H)) as (pid' & ? & E & ?).
    exists pid'. split; [done|]. split; [done|]. rewrite lookup_delete_ne by congruence. done.
Qed.

End short.

(** C3: a virtual network with a name of at most 73 characters refines a medium on which each process hears all the others, in order; of a name that makes
    the directory's path longer than a socket's address (107 bytes), the processes all bind and address the same cut path.  From a directory in which nobody
    listens, whatever the processes do next (join when away, with a new node or the one they left with; send what fits a datagram, receive and leave when there),
    each call taken as one step, every node's [connect], [send_data], turn of the receiving thread or [disconnect] returns what the
    medium's step returns and leaves the sockets and files in a state that implements the medium's next one: a datagram reaches every other process
    once, cut to the buffer's length, an empty one reaches no receiver; a process fails to join exactly when the system refuses it the socket or
    its file, a send fails exactly when the lock is refused, and then nothing else is lost. *)
Theorem virtual_net_refines k0 :
  ((List.length net_name ≤ 73)%nat → (∀ name, 47 ∉ name → bound k0 !! path_join network_dir name = None) →
   implements (∅, k0) ∅ ∧
   ∀ o st s, implements st s → allowed o s →
     ∃ out st' s', net_step o st = Ok (out, st') ∧ medium_step (refused o (snd st)) o s out s' ∧ implements st' s') ∧
  ((107 ≤ List.length (with_slash network_dir))%nat → ∀ p p', pid_ok p → pid_ok p' → sun_path (node_file p) = sun_path (node_file p')).
Proof.
  split.
  - intros Hshort H0. split.
    { split; [intros pid q H; by rewrite lookup_empty in H|intros pid n _ H; cbn in H; by rewrite lookup_empty in H|].
      intros name Hname [x H]. cbn in H. rewrite H0 in H by done. done. }
    intros [pid|pid data|pid|pid] st s Hi; cbn [allowed].
    + intros []. by apply join_simulated.
    + intros []. by apply send_simulated.
    + by apply take_simulated.
    + by apply leave_simulated.
  - intros Hl p p' Hp Hp'. unfold sun_path. rewrite !node_file_eq by done. by rewrite !take_app_le by lia.
Qed.
End virtual_net.

(** * Sockets as two maps: an instance of the class *)

Definition local_ok (b : gmap (list Z) Z) (q : gmap Z (list (list Z))) : Prop :=
  (∀ p fd, b !! p = Some fd → is_Some (q !! fd)) ∧ (∀ p p' fd, b !! p = Some fd → b !! p' = Some fd → p = p').
Record local := Local {
  local_bound : gmap (list Z) Z; local_queues : gmap Z (list (list Z)); local_inv : local_ok local_bound local_queues
}.

Lemma local_delete b q p : local_ok b q → local_ok (delete p b) q.
Proof.
  intros [H1 H2]. split.
  - intros p' fd [_ H]%lookup_delete_Some. eauto.
  - intros p1 p2 fd [_ Ha]%lookup_delete_Some [_ Hb]%lookup_delete_Some. eauto.
Qed.
Lemma local_grow b q fd d : local_ok b q → local_ok b (<[fd := d]> q).
Proof. intros [H1 H2]. split; [|done]. intros p fd' H. apply lookup_insert_is_Some'. right. eauto. Qed.
Lemma local_alter b q fd f : local_ok b q → local_ok b (alter f fd q).
Proof. intros [H1 H2]. split; [|done]. intros p fd' H. apply lookup_alter_is_Some. eauto. Qed.
Lemma local_bind b q p fd : local_ok b q → is_Some (q !! fd) → map_Forall (λ _ x, x ≠ fd) b → local_ok (<[p := fd]> b) q.
Proof.
  intros [H1 H2] Hq Hnew. split.
  - intros p' fd' [[-> ->]|[_ H]]%lookup_insert_Some; eauto.
  - intros p1 p2 fd' [[-> <-]|[Hn1 Ha]]%lookup_insert_Some [[-> E]|[Hn2 Hb]]%lookup_insert_Some; subst; eauto;
      exfalso; by eapply Hnew.
Qed.
Lemma local_close b q fd : local_ok b q → local_ok (filter (λ x, snd x ≠ fd) b) (delete fd q).
Proof.
  intros [H1 H2]. split.
  - intros p x [H Hx]%map_lookup_filter_Some. cbn in Hx. rewrite lookup_delete_ne by done. eauto.
  - intros p1 p2 x [Ha _]%map_lookup_filter_Some [Hb _]%map_lookup_filter_Some. eauto.
Qed.

Definition local_socket (k : local) : option Z * local :=
  let fd := fresh (dom (local_queues k)) in
  (Some fd, Local (local_bound k) (<[fd := []]> (local_queues k)) (local_grow _ _ fd [] (local_inv k))).
Definition local_bind_to (fd : Z) (p : list Z) (k : local) : bool * local :=
  match decide (is_Some (local_queues k !! fd)), decide (map_Forall (λ _ x, x ≠ fd) (local_bound k)) with
  | left Hq, left Hn => (true, Local (<[p := fd]> (local_bound k)) (local_queues k) (local_bind _ _ p fd (local_inv k) Hq Hn))
  | _, _ => (false, k)
  end.
Definition local_sendto (p d : list Z) (k : local) : bool * local :=
  match local_bound k !! p with
  | Some fd => (true, Local (local_bound k) (alter (λ q, q ++ [d]) fd (local_queues k)) (local_alter _ _ fd _ (local_inv k)))
  | None => (false, k)
  end.
Definition local_recv (fd : Z) (n : nat) (k : local) : option (list Z) * local :=
  match local_queues k !! fd with
  | Some (d :: q) => (Some (take n d), Local (local_bound k) (<[fd := q]> (local_queues k)) (local_grow _ _ fd q (local_inv k)))
  | _ => (None, k)
  end.
(** The bound files of the directory. *)
Definition local_entries (dir : list Z) (k : local) : list (list Z) :=
  filter (λ p, p = with_slash dir ++ drop (List.length (with_slash dir)) p ∧ 47 ∉ drop (List.length (with_slash dir)) p)
    (elements (dom (local_bound k))).

#[export, refine] Instance local_sockets : DatagramSockets local := {|
  bound := local_bound; queues := local_queues; fits := λ d, (List.length d ≤ 65536)%nat;
  k_create_directories := λ _ k, k; k_entries := local_entries;
  k_unlink := λ p k, Local (delete p (local_bound k)) (local_queues k) (local_delete _ _ p (local_inv k));
  k_socket := local_socket; k_bind := local_bind_to;
  k_close := λ fd k, Local (filter (λ x, snd x ≠ fd) (local_bound k)) (delete fd (local_queues k)) (local_close _ _ fd (local_inv k));
  k_sendto := λ _, local_sendto; k_recv := local_recv;
  k_lock := λ _ k, (Some 0, k); k_unlock := λ _ k, k
|}.
Proof.
  - intros k p fd. apply (local_inv k).
  - intros k p p' fd. apply (local_inv k).
  - intros dir k. apply NoDup_filter, NoDup_elements.
  - intros dir k p [[H1 H2] _]%list_elem_of_filter. eexists. split; [exact H2|]. by rewrite path_join_plain.
  - intros dir k name Hname Hb. rewrite path_join_plain in * by done. apply list_elem_of_filter.
    rewrite drop_app_length. split; [done|]. by apply elem_of_elements, elem_of_dom.
  - done.
  - done.
  - intros k. split; [done|]. cbn. split; [|done]. apply not_elem_of_dom, is_fresh.
  - intros fd p k Hq. unfold local_bind_to. repeat case_decide; done.
  - done.
  - intros fd p d k _ _. unfold local_sendto. by destruct (local_bound k !! p).
  - intros fd n k. unfold local_recv. destruct (local_queues k !! fd) as [[|]|] eqn:E; done.
  - done.
  - done.
Defined.

Definition no_sockets : local := Local ∅ ∅ ltac:(split; intros *; rewrite lookup_empty; done).

(** Two processes join; one sends, the other is handed the data; a process that has left hears nothing. *)
Example two_nodes :
  (fst <$> net_run false (str "lan")
     [Join 1; Join 2; Send 1 [7; 8]; Take 2; Take 2; Take 1; Leave 2; Send 1 [9]; Join 2; Take 2; Send 2 [5]; Take 1] (∅, no_sockets)) =
  Ok [Joined true; Joined true; SendResult OK; Received (Some [7; 8]); Received None; Received None; Left; SendResult OK; Joined true;
      Received None; SendResult OK; Received (Some [5])].
Proof. vm_compute. reflexivity. Qed.

Lemma virtual_net_refines_witness : implements (str "lan") (∅, no_sockets) ∅ ∧
  ∃ out st' s', net_step false (str "lan") (Join 1) (∅, no_sockets) = Ok (out, st') ∧
    medium_step (refused (str "lan") (Join 1) no_sockets) (Join 1) ∅ out s' ∧ implements (str "lan") st' s'.
Proof.
  destruct (virtual_net_refines false (str "lan") no_sockets) as [Hr _].
  destruct (Hr ltac:(cbn; lia)) as [Hi Hs]; [intros name _; apply lookup_empty|].
  split; [exact Hi|]. apply (Hs (Join 1) (∅, no_sockets)); [exact Hi|]. split; [unfold pid_ok; lia|apply lookup_empty].
Defined.
