(* ===== verification/Interfaces.v ===== *)
(** The interfaces of the machine: [src/lib/linux/linux_iface.*], [src/lib/macos/macos_iface.*] and [bpf.cpp], and [src/lib/linux/tun_tap.cpp].

    The two interfaces are the same class over other calls: a thread of libpcap hands each captured frame to [my_handler], which puts it into
    the asynchronous receiver of the interface and gives it to the sniffer; sending is one system call.  The handler, the worker of the receiver
    and the callers that set receivers and sniffers are the steps of a transition system over that of [Async].  What the system calls return is
    a parameter. *)

From Stdlib Require Import ZArith Lia String.
From stdpp Require Import base decidable list relations numbers.
From S2P Require Import Prelude Cursor Text CircularQueue Posix Packets Async VirtualNet.

(** * Opening

    [PcapOpen] gives 0 for a null pointer. *)
Inductive if_call :=
  | PcapOpen (name : list Z) | PacketSocket (protocol : Z) | IfIndex (fd : Z) (name : list Z) | BindIf (fd index : Z)
  | OpenFile (path : list Z) | BpfSetIf (fd : Z) (name : list Z) | BpfHeaderComplete (fd : Z) | TunSetIff (fd flags : Z) (name : list Z)
  | CloseFd (fd : Z).
Definition ETH_P_ALL : Z := 3.
Definition IFF_TAP : Z := 2.
Definition IFF_NO_PI : Z := 0x1000.

(** The constructor of [linux_iface]: the socket to send on.  When the index of the interface cannot be had it is 0.  A [throw] with no
    exception terminates. *)
Definition make_linux_iface (os : if_call → Z) (if_index : Z) (iface : list Z) : res Z * list if_call :=
  if os (PcapOpen (until_nul iface)) =? 0 then (Fault Aborted, [PcapOpen (until_nul iface)])
  else
    let fd := os (PacketSocket (htons ETH_P_ALL)) in
    let calls := [PcapOpen (until_nul iface); PacketSocket (htons ETH_P_ALL)] in
    if fd =? OPEN_ERROR then (Fault Aborted, calls)
    else
      let index := if os (IfIndex fd (ifr_name iface)) =? IOCTL_ERROR then 0 else if_index in
      let calls := calls ++ [IfIndex fd (ifr_name iface); BindIf fd index] in
      if os (BindIf fd index) =? BIND_ERROR then (Fault Aborted, calls) else (Ok fd, calls).

(** [open_free_bpf]: the loop from [i] on, with [todo] numbers left. *)
Definition bpf_path (i : nat) : list Z := path_join (str "/dev") (str "bpf" ++ to_string (Z.of_nat i)).
Fixpoint open_free_loop (todo i : nat) (os : if_call → Z) : option Z * list if_call :=
  match todo with
  | O => (None, [])
  | S todo =>
      let fd := os (OpenFile (bpf_path i)) in
      if negb (fd =? OPEN_ERROR) then (Some fd, [OpenFile (bpf_path i)])
      else let '(r, calls) := open_free_loop todo (S i) os in (r, OpenFile (bpf_path i) :: calls)
  end.
Definition open_free_bpf (os : if_call → Z) : option Z * list if_call := open_free_loop 100 0 os.
Definition open_bpf_iface (os : if_call → Z) (iface_name : list Z) : option Z * list if_call :=
  let '(fd, calls) := open_free_bpf os in
  match fd with
  | None => (None, calls)
  | Some fd =>
      if os (BpfSetIf fd (ifr_name iface_name)) =? IOCTL_ERROR then (None, calls ++ [BpfSetIf fd (ifr_name iface_name); CloseFd fd])
      else
        let calls := calls ++ [BpfSetIf fd (ifr_name iface_name); BpfHeaderComplete fd] in
        if os (BpfHeaderComplete fd) =? IOCTL_ERROR then (None, calls ++ [CloseFd fd]) else (Some fd, calls)
  end.
Definition make_macos_iface (os : if_call → Z) (iface : list Z) : res Z * list if_call :=
  if os (PcapOpen (until_nul iface)) =? 0 then (Fault Aborted, [PcapOpen (until_nul iface)])
  else
    let '(fd, calls) := open_bpf_iface os iface in
    (of_option Aborted fd, PcapOpen (until_nul iface) :: calls).

(** [open_tun_tap]; [written]: the bytes of the name after the call.  The name that is passed has no end when it takes all 16 bytes, nor has
    the result when the call leaves none. *)
Definition tun_name (iface_name : list Z) : list Z := take 16 (until_nul iface_name).
Definition open_tun_tap (os : if_call → Z) (written : list Z) (iface_name : list Z) (flags : Z) : res (Z * list Z) * list if_call :=
  let fd := os (OpenFile (str "/dev/net/tun")) in
  if fd =? OPEN_ERROR then (Fault Aborted, [OpenFile (str "/dev/net/tun")])
  else
    let calls := [OpenFile (str "/dev/net/tun"); TunSetIff fd flags (tun_name iface_name)] in
    if os (TunSetIff fd flags (tun_name iface_name)) =? IOCTL_ERROR then (Fault Aborted, calls ++ [CloseFd fd])
    else (name ← c_string written; Ok (fd, name), calls).
Definition open_raw_tap (os : if_call → Z) (written : list Z) (iface_name : list Z) : res (Z * list Z) * list if_call :=
  open_tun_tap os written iface_name (Z.lor IFF_TAP IFF_NO_PI).
(** The commands that are run. *)
Definition set_up_tun_tap (iface_name : list Z) : list Z := str "sudo ip link set dev " ++ until_nul iface_name ++ str " up".
Definition set_down_tun_tap (iface_name : list Z) : list Z := str "sudo ip link set dev " ++ until_nul iface_name ++ str " down".

(** * Frames *)

(** [send_data] of the interface, on what the call returned. *)
Definition iface_send_data (res : Z) : err_t := if (res =? SEND_ERROR) || (res =? 0) then ERR else OK.

(** The start of [my_handler]: the bytes of the frame, from the header of libpcap and its buffer. *)
Definition frame_of (caplen : Z) (bytes : list Z) : res (option (list Z)) :=
  let data_sz := to_int caplen in
  if data_sz <=? 0 then Ok None else data ← subvector bytes 0 (Z.to_nat data_sz); Ok (Some data).

(** The copies for macOS, where the call is [write]. *)
Definition macos_iface_send_data : Z → err_t := iface_send_data.
Definition macos_frame_of : Z → list Z → res (option (list Z)) := frame_of.

Section iface.
Context {Q L N : Type} `{!BoundedQueue Q (list Z)}.

(** Where the thread of libpcap is: outside of the handler, about to forward a frame, about to give it to the sniffer. *)
Inductive pcap_pc := Capturing | Forward (data : list Z) | Sniff (data : list Z).
Record iface := Iface { async_recv : async_recv_listener Q (list Z) L; iface_sniff : option N; pcap : pcap_pc }.
Definition new_iface (q : Q) : iface := Iface (new_async q) None Capturing.
Definition incoming_set_recv (recv : option L) (d : iface) : iface := Iface (set_recv_listener recv (async_recv d)) (iface_sniff d) (pcap d).
Definition set_sniff (s : option N) (d : iface) : iface := Iface (async_recv d) s (pcap d).

(** [Shown s data]: the frame has come to the sniffer, which is [s]. *)
Inductive iface_event := Captured (data : list Z) | OfAsync (e : event (list Z) L) | Shown (s : option N) (data : list Z) | Set_.

(** The rest of [my_handler], and the other threads. *)
Inductive iface_step : iface → iface_event → iface → Prop :=
  | step_captured d caplen bytes data : pcap d = Capturing → frame_of caplen bytes = Ok (Some data) →
      iface_step d (Captured data) (Iface (async_recv d) (iface_sniff d) (Forward data))
  | step_forward d data e a : pcap d = Forward data → handle_recv_async data (async_recv d) = Some (e, a) →
      iface_step d (OfAsync e) (Iface a (iface_sniff d) (Sniff data))
  | step_shown d data : pcap d = Sniff data →
      iface_step d (Shown (iface_sniff d) data) (Iface (async_recv d) (iface_sniff d) Capturing)
  | step_async_worker d e a : worker (async_recv d) = Some (e, a) → iface_step d (OfAsync e) (Iface a (iface_sniff d) (pcap d))
  | step_async_spurious d : pc (async_recv d) = Sleeping →
      iface_step d (OfAsync Tau) (Iface (go (async_recv d) Pred) (iface_sniff d) (pcap d))
  | step_set_recv d recv : iface_step d (OfAsync (set_event recv)) (incoming_set_recv recv d)
  | step_set_sniff d s : iface_step d Set_ (set_sniff s d).

Inductive iface_run : iface → list iface_event → iface → Prop :=
  | irun_nil d : iface_run d [] d
  | irun_snoc d tr d1 e d2 : iface_run d tr d1 → iface_step d1 e d2 → iface_run d (tr ++ [e]) d2.

(** What was captured, what the receiver did, what came to the sniffer. *)
Definition captured (tr : list iface_event) : list (list Z) := omap (λ e, match e with Captured data => Some data | _ => None end) tr.
Definition of_async (tr : list iface_event) : list (event (list Z) L) := omap (λ e, match e with OfAsync e => Some e | _ => None end) tr.
Definition shown (tr : list iface_event) : list (list Z) := omap (λ e, match e with Shown _ data => Some data | _ => None end) tr.
(** What was offered to the queue: stored or refused. *)
Definition offered (tr : list (event (list Z) L)) : list (list Z) :=
  omap (λ e, match e with Accept data | Refuse data => Some data | _ => None end) tr.
Definition to_forward (p : pcap_pc) : list (list Z) := match p with Forward data => [data] | _ => [] end.
Definition to_show (p : pcap_pc) : list (list Z) := match p with Forward data | Sniff data => [data] | Capturing => [] end.

Lemma captured_app a b : captured (a ++ b) = captured a ++ captured b.
Proof. apply omap_app. Qed.
Lemma of_async_app a b : of_async (a ++ b) = of_async a ++ of_async b.
Proof. apply omap_app. Qed.
Lemma shown_app a b : shown (a ++ b) = shown a ++ shown b.
Proof. apply omap_app. Qed.
Lemma offered_app a b : offered (a ++ b) = offered a ++ offered b.
Proof. apply omap_app. Qed.
Lemma worker_offers_nothing (a a' : async_recv_listener Q (list Z) L) e : worker a = Some (e, a') → offered [e] = [].
Proof. unfold worker. intros H. destruct (pc a); simplify_eq; try done; repeat case_match; simplify_eq; done. Qed.
Lemma handle_offers (a a' : async_recv_listener Q (list Z) L) e data : handle_recv_async data a = Some (e, a') → offered [e] = [data].
Proof. unfold handle_recv_async. intros H. repeat case_match; simplify_eq; done. Qed.

Lemma iface_run_inv q tr d : iface_run (new_iface q) tr d →
  async_run (new_async q) (of_async tr) (async_recv d) ∧
  captured tr = offered (of_async tr) ++ to_forward (pcap d) ∧ captured tr = shown tr ++ to_show (pcap d).
Proof.
  intros Hr. remember (new_iface q) as d0 eqn:E0. induction Hr as [d|d tr d1 e d2 Hr IH Hs]; subst; [by split; [constructor|]|].
  destruct (IH eq_refl) as (Ha & Hf & Hsh). rewrite captured_app, of_async_app, shown_app, offered_app.
  destruct Hs as [d caplen bytes data Hp Hfr|d data e a Hp Hh|d data Hp|d e a Hw|d Hp|d recv|d s];
    cbn [async_recv iface_sniff pcap incoming_set_recv set_sniff] in *; try rewrite Hp in *; cbn [to_forward to_show] in *.
  - rewrite ?app_nil_r in *. change (captured [Captured data]) with [data]. rewrite Hf at 1. rewrite Hsh. change (of_async [Captured data]) with (@nil (event (list Z) L)).
    change (shown [Captured data]) with (@nil (list Z)). rewrite ?app_nil_r. split_and!; [done|congruence|congruence].
  - change (captured [OfAsync e]) with (@nil (list Z)). change (shown [OfAsync e]) with (@nil (list Z)). change (of_async [OfAsync e]) with [e].
    rewrite (handle_offers _ _ _ _ Hh), ?app_nil_r. split_and!; [|done|done]. eapply run_snoc; [exact Ha|]. by eapply step_producer.
  - change (captured [Shown (iface_sniff d) data]) with (@nil (list Z)). change (shown [Shown (iface_sniff d) data]) with [data].
    change (of_async [Shown (iface_sniff d) data]) with (@nil (event (list Z) L)). rewrite ?app_nil_r in *. done.
  - change (captured [OfAsync e]) with (@nil (list Z)). change (shown [OfAsync e]) with (@nil (list Z)). change (of_async [OfAsync e]) with [e].
    rewrite (worker_offers_nothing _ _ _ Hw), ?app_nil_r. split_and!; [|done|done]. eapply run_snoc; [exact Ha|]. by apply step_worker.
  - change (captured [OfAsync Tau]) with (@nil (list Z)). change (shown [OfAsync Tau]) with (@nil (list Z)). rewrite ?app_nil_r.
    split_and!; [|done|done]. eapply run_snoc; [exact Ha|]. by apply step_spurious.
  - assert (Ho : offered [set_event (T := list Z) recv] = []) by (by destruct recv). change (captured [OfAsync (set_event recv)]) with (@nil (list Z)).
    change (shown [OfAsync (set_event recv)]) with (@nil (list Z)). change (of_async [OfAsync (set_event recv)]) with [set_event (T := list Z) recv].
    rewrite Ho, ?app_nil_r. split_and!; [|done|done]. eapply run_snoc; [exact Ha|]. apply step_set_listener.
  - change (captured [Set_]) with (@nil (list Z)). change (shown [Set_]) with (@nil (list Z)). change (of_async [Set_]) with (@nil (event (list Z) L)).
    rewrite ?app_nil_r. done.
Qed.

(** * Properties *)


End iface.
Arguments iface : clear implicits.
Arguments iface_event : clear implicits.

(** The first device that opens, of those up to 99; each before it is tried once. *)
Lemma open_free_loop_spec os todo : ∀ i,
  open_free_loop todo i os =
  match List.find (λ j, negb (os (OpenFile (bpf_path j)) =? OPEN_ERROR)) (seq i todo) with
  | Some j => (Some (os (OpenFile (bpf_path j))), (λ j, OpenFile (bpf_path j)) <$> seq i (S (j - i)))
  | None => (None, (λ j, OpenFile (bpf_path j)) <$> seq i todo)
  end.
Proof.
  induction todo as [|todo IH]; intros i; [done|]. cbn [open_free_loop seq List.find].
  destruct (negb _) eqn:E; [by rewrite Nat.sub_diag|]. rewrite IH. destruct (List.find _ (seq (S i) todo)) as [j|] eqn:Ej; [|done].
  apply List.find_some in Ej as [Hj _]. apply in_seq in Hj. by replace (j - i)%nat with (S (j - S i)) by lia.
Qed.

(** ** Witnesses *)

#[local] Notation Queue := (circular_queue (list Z)).
Definition idle_iface : iface Queue nat nat := new_iface (new_queue (replicate (Z.to_nat 2000) [])).
Lemma idle_iface_repr : q_repr (T := list Z) (new_queue (replicate (Z.to_nat 2000) [])) [].
Proof. by apply (repr_new 2000); [lia|rewrite length_replicate; lia]. Qed.
Definition iface_trace : list (iface_event nat nat) := (([] ++ [Captured [1; 2]]) ++ [OfAsync (Accept [1; 2])]) ++ [Shown None [1; 2]].
