(* ===== verification/AnalyzerMain.v ===== *)
(** The network analyzer as a program: [src/tools/net_analyzer/net_analyzer.h] and [sniffed_packet.h], the printing of
    [parsed_packet.cpp], and [src/main/net_analyzer/net_analyzer.cpp].

    The program attaches the sniffer with the analyzer's handler to an interface ([Interfaces]), which shows it every captured
    frame; the handler takes the frame apart ([Analyzer]) and prints it, with a dump ([Hexdump]).  The clock is a function from how many
    frames were shown before; [ctime] gives the text of a time. *)

From Stdlib Require Import ZArith Lia String.
From stdpp Require Import base decidable list numbers.
From S2P Require Import Prelude Text Ether2 Analyzer Hexdump CircularQueue Async Filters Interfaces.

Record net_analyzer_sniffed_packet := SniffedPacket { sniffed_time : Z; sniffed_data : list Z }.
Record net_analyzer_parsed_packet := ParsedPacket {
  sniffed_packet : net_analyzer_sniffed_packet; packet_prots : list net_analyzer_parsed_prot; packet_desc : list Z
}.
Definition parse_sniffed_packet (p : net_analyzer_sniffed_packet) : res net_analyzer_parsed_packet :=
  prots ← parse_prots (sniffed_data p);
  Ok (ParsedPacket p prots (str "some packet")).

Section printing.
Context (floor_log : nat → nat → nat) (ctime : Z → list Z).

Definition border : list Z := replicate 40 35.
Definition status_char (s : net_analyzer_parsed_status) : Z :=
  match s with status_valid => 118 | status_corrupted => 120 | status_untested => 45 | status_unknown => 63 end.
(** A line of the stack of protocols. *)
Definition print_prot (e : net_analyzer_parsed_prot) : list Z :=
  str "(" ++ [status_char (parsed_status e)] ++ str ")" ++ str " " ++
  match parsed_prot e with Some prot => net_analyzer_prot_to_str prot | None => str "prot_unknown" end ++
  str " " ++ parsed_desc e ++ [10].
Definition print_parsed_packet (packet : net_analyzer_parsed_packet) : res (list Z) :=
  dump ← produce_hexdump floor_log (sniffed_data (sniffed_packet packet)) 16 true;
  Ok (border ++ [10] ++ ctime (sniffed_time (sniffed_packet packet)) ++ packet_desc packet ++ [10] ++
      concat (print_prot <$> packet_prots packet) ++ dump ++ [10] ++ border ++ [10]).

(** * net_analyzer.h *)

(** What has been printed, and for how many frames. *)
Record analyzer_world := AnalyzerWorld { shown_count : nat; analyzer_screen : list Z }.
Context (now : nat → Z).
Definition handle_sniff (val : list Z) (w : analyzer_world) : res analyzer_world :=
  let packet := SniffedPacket (now (shown_count w)) val in
  parsed ← parse_sniffed_packet packet;
  text ← print_parsed_packet parsed;
  Ok (AnalyzerWorld (S (shown_count w)) (analyzer_screen w ++ text)).
(** The sniffer that the constructor adds its handler to. *)
Definition analyzer_sniffer : list (list Z → analyzer_world → res analyzer_world) := add_filter (Some handle_sniff) [].
(** The frames that the sniffer is shown, one after the other. *)
Fixpoint analyzer_run (frames : list (list Z)) (w : analyzer_world) : res analyzer_world :=
  match frames with
  | [] => Ok w
  | f :: frames => w ← sniffer_handle_recv analyzer_sniffer f w; analyzer_run frames w
  end.

(** * Lemmas *)

(** The block of text of a frame. *)
Definition block (n : nat) (frame : list Z) : res (list Z) :=
  parsed ← parse_sniffed_packet (SniffedPacket (now n) frame); print_parsed_packet parsed.
Fixpoint blocks (n : nat) (frames : list (list Z)) : res (list Z) :=
  match frames with [] => Ok [] | f :: frames => b ← block n f; bs ← blocks (S n) frames; Ok (b ++ bs) end.

Lemma handle_block f w : sniffer_handle_recv analyzer_sniffer f w =
  b ← block (shown_count w) f; Ok (AnalyzerWorld (S (shown_count w)) (analyzer_screen w ++ b)).
Proof.
  change (sniffer_handle_recv analyzer_sniffer f w) with (w ← handle_sniff f w; Ok w). unfold handle_sniff, block.
  destruct (parse_sniffed_packet _) as [p|e]; [|done]. cbn [mbind res_bind]. by destruct (print_parsed_packet p).
Qed.
Lemma analyzer_run_blocks frames : ∀ w,
  analyzer_run frames w =
  bs ← blocks (shown_count w) frames; Ok (AnalyzerWorld (shown_count w + List.length frames) (analyzer_screen w ++ bs)).
Proof.
  induction frames as [|f frames IH]; intros w; cbn [analyzer_run blocks].
  - cbn. rewrite app_nil_r, Nat.add_0_r. by destruct w.
  - rewrite handle_block. destruct (block (shown_count w) f) as [b|e]; [|done]. cbn [mbind res_bind]. rewrite IH. cbn [shown_count analyzer_screen].
    destruct (blocks (S (shown_count w)) frames) as [bs|e]; [|done]. cbn [mbind res_bind List.length]. by rewrite <- app_assoc, Nat.add_succ_r.
Qed.
Lemma block_spec n frame prots : parse_prots frame = Ok prots → bytes_ok frame → frame ≠ [] →
  ∃ dump, block n frame = Ok (border ++ [10] ++ ctime (now n) ++ str "some packet" ++ [10] ++ concat (print_prot <$> prots) ++ dump ++ [10] ++ border ++ [10]) ∧
    read_dump 16 dump = Ok frame.
Proof.
  intros Hp Hb Hne. pose proof (dump_read_back floor_log frame 16 true Hb Hne ltac:(lia)) as Hd.
  destruct (produce_hexdump floor_log frame 16 true) as [dump|e] eqn:E; [|done]. exists dump. split; [|exact Hd].
  unfold block, parse_sniffed_packet. cbn [sniffed_data]. rewrite Hp. cbn [mbind res_bind].
  unfold print_parsed_packet. cbn [sniffed_packet sniffed_data packet_prots packet_desc sniffed_time]. by rewrite E.
Qed.
End printing.

(** ** The sniffer of the interface *)

Section attached.
Context {Q L N : Type} `{!BoundedQueue Q (list Z)}.

(** The frames shown to a sniffer that was there. *)
Definition sniffed (tr : list (iface_event L N)) : list (list Z) :=
  omap (λ e, match e with Shown (Some _) data => Some data | _ => None end) tr.
Definition keeps_sniffer (e : iface_event L N) : Prop := match e with Set_ => False | _ => True end.

Lemma sniff_stays (d0 : iface Q L N) tr d : iface_run d0 tr d → Forall keeps_sniffer tr → iface_sniff d = iface_sniff d0 ∧
  (is_Some (iface_sniff d0) → sniffed tr = shown tr).
Proof.
  induction 1 as [d|d0 tr d1 e d2 _ IH Hs]; intros Hk; [done|]. apply Forall_app in Hk as [Hk He]. apply Forall_cons_1 in He as [He _].
  destruct (IH Hk) as [E1 E2]. unfold sniffed, shown in *. rewrite !omap_app.
  destruct Hs; cbn [iface_sniff keeps_sniffer incoming_set_recv] in *; try done; (split; [done|]); intros Hsome; rewrite (E2 Hsome); f_equal.
  destruct Hsome as [s Hs0]. by rewrite E1, Hs0.
Qed.
End attached.
Arguments sniffed {_ _} _.

Lemma run_cons {Q L N : Type} `{!BoundedQueue Q (list Z)} (d0 d1 d : iface Q L N) e tr :
  iface_step d0 e d1 → iface_run d1 tr d → iface_run d0 (e :: tr) d.
Proof.
  intros Hs Hr. induction Hr as [d1|d1 tr d2 e' d3 _ IH Hs'].
  - apply (irun_snoc d0 [] d0 e d1); [constructor|done].
  - rewrite app_comm_cons. eapply irun_snoc; [by apply IH|done].
Qed.

Section blocks.
Context (floor_log : nat → nat → nat) (ctime : Z → list Z) (now : nat → Z).

Lemma short_parse f : (List.length f < 14)%nat → parse_prots f = Fault OutOfBounds.
Proof. intros Hf. unfold parse_prots. by rewrite ether2_recv_short. Qed.
Lemma parsed_nonempty f prots : parse_prots f = Ok prots → f ≠ [].
Proof. by intros H ->. Qed.

(** The block for the layers and the dump of the frame number [n]. *)
Definition block_text (n : nat) (e : list net_analyzer_parsed_prot * list Z) : list Z :=
  border ++ [10] ++ ctime (now n) ++ str "some packet" ++ [10] ++ concat (print_prot <$> fst e) ++ snd e ++ [10] ++ border ++ [10].
Lemma blocks_text frames : ∀ n layers, mapM parse_prots frames = Ok layers → Forall bytes_ok frames →
  ∃ dumps, mapM (read_dump 16) dumps = Ok frames ∧
    blocks floor_log ctime now n frames = Ok (concat (imap (λ i, block_text (n + i)) (zip layers dumps))).
Proof.
  induction frames as [|f frames IH]; intros n layers Hm Hb; [exists []; by injection Hm as <-|].
  cbn [mapM] in Hm. apply res_bind_ok in Hm as (prots & Hp & Hm). apply res_bind_ok in Hm as (rest & Hm & [= <-]).
  apply Forall_cons_1 in Hb as [Hf Hb]. destruct (IH (S n) rest Hm Hb) as (dumps & Hd & E).
  destruct (block_spec floor_log ctime now n f prots Hp Hf (parsed_nonempty _ _ Hp)) as (dump & Eb & Er).
  exists (dump :: dumps). split; [cbn [mapM]; by rewrite (bind_Ok _ _ _ Er), (bind_Ok _ _ _ Hd)|].
  cbn [blocks]. rewrite (bind_Ok _ _ _ Eb), (bind_Ok _ _ _ E). cbn [zip zip_with imap concat]. rewrite Nat.add_0_r.
  change (border ++ [10] ++ ctime (now n) ++ str "some packet" ++ [10] ++ concat (print_prot <$> prots) ++ dump ++ [10] ++ border ++ [10])
    with (block_text n (prots, dump)).
  f_equal. f_equal. f_equal. apply imap_ext. intros i x _. cbn [compose]. by rewrite Nat.add_succ_r.
Qed.
Lemma blocks_bad pre bad post f : ∀ n layers, mapM parse_prots pre = Ok layers → Forall bytes_ok pre → parse_prots bad = Fault f →
  blocks floor_log ctime now n (pre ++ bad :: post) = Fault f.
Proof.
  induction pre as [|x pre IH]; intros n layers Hm Hb Hs.
  - cbn [app blocks]. unfold block, parse_sniffed_packet. cbn [sniffed_data]. by rewrite Hs.
  - cbn [mapM] in Hm. apply res_bind_ok in Hm as (prots & Hp & Hm). apply res_bind_ok in Hm as (rest & Hm & _).
    apply Forall_cons_1 in Hb as [Hf Hb]. destruct (block_spec floor_log ctime now n x prots Hp Hf (parsed_nonempty _ _ Hp)) as (dump & Eb & _).
    cbn [app blocks]. rewrite (bind_Ok _ _ _ Eb). by rewrite (IH (S n) rest Hm Hb Hs).
Qed.
End blocks.

(** * Properties *)

(** C16: what the analyzer prints.  While its sniffer stays attached to an interface, whatever the threads of the interface do and whatever becomes of the
    frames in its queue, each frame that was captured (but for one that may still be in the handler) has come to it once, in the order of the
    capture.  If all of these frames can be taken apart, each is printed as a block with a line for each of its layers and a dump from which the
    frame can be read back.  If not, the program is undefined at the first of them that cannot: a frame shorter than an Ethernet header is one
    (others are an IPv4 header that is cut and an ARP message with short addresses, [Analyzer.parse_prots_short]). *)
Theorem analyzer_prints {Q L N : Type} `{!BoundedQueue Q (list Z)} (floor_log : nat → nat → nat) (ctime : Z → list Z) (now : nat → Z)
    (q : Q) (s : N) (tr : list (iface_event L N)) (d : iface Q L N) (screen : list Z) :
  iface_run (set_sniff (Some s) (new_iface q)) tr d → Forall keeps_sniffer tr → Forall bytes_ok (captured tr) →
  captured tr = sniffed tr ++ to_show (pcap d) ∧
  (∀ layers, mapM parse_prots (sniffed tr) = Ok layers →
    ∃ dumps, mapM (read_dump 16) dumps = Ok (sniffed tr) ∧
      analyzer_run floor_log ctime now (sniffed tr) (AnalyzerWorld 0 screen) =
      Ok (AnalyzerWorld (List.length (sniffed tr)) (screen ++ concat (imap (block_text ctime now) (zip layers dumps))))) ∧
  (∀ pre bad post layers f, sniffed tr = pre ++ bad :: post → mapM parse_prots pre = Ok layers → parse_prots bad = Fault f →
    analyzer_run floor_log ctime now (sniffed tr) (AnalyzerWorld 0 screen) = Fault f) ∧
  ∀ short, (List.length short < 14)%nat → parse_prots short = Fault OutOfBounds.
Proof.
  intros Hr Hk Hb. destruct (sniff_stays _ _ _ Hr Hk) as [_ Hs]. specialize (Hs ltac:(by eexists)).
  assert (Hc : captured tr = sniffed tr ++ to_show (pcap d)).
  { destruct (iface_run_inv q (Set_ :: tr) d) as (_ & _ & E); [eapply run_cons; [apply step_set_sniff|exact Hr]|].
    rewrite Hs. exact E. }
  split; [exact Hc|]. assert (Hsn : Forall bytes_ok (sniffed tr)) by (rewrite Hc in Hb; by apply Forall_app in Hb as [? _]).
  rewrite analyzer_run_blocks. cbn [shown_count analyzer_screen]. split_and!; [| |exact short_parse].
  - intros layers Hm. destruct (blocks_text floor_log ctime now (sniffed tr) 0 layers Hm Hsn) as (dumps & Hd & E).
    exists dumps. split; [exact Hd|]. by rewrite E.
  - intros pre bad post layers f E Hm Hl. rewrite E in *. apply Forall_app in Hsn as [Hpre _].
    by rewrite (blocks_bad floor_log ctime now pre bad post f 0 layers Hm Hpre Hl).
Qed.
#[local] Notation Queue := (circular_queue (list Z)).
Definition unknown_frame : list Z := ethernet2_bytes (Ethernet2Header mac_addr_broadcast mac_addr_broadcast 0x1234) ++ [72; 105].
Definition watched_iface : iface Queue nat nat := set_sniff (Some 7%nat) (new_iface (new_queue (replicate (Z.to_nat 2000) []))).
Definition watched_run : list (iface_event nat nat) :=
  (([] ++ [Captured unknown_frame]) ++ [OfAsync (Accept unknown_frame)]) ++ [Shown (Some 7%nat) unknown_frame].
Lemma watched_run_ok : ∃ d, iface_run watched_iface watched_run d ∧ pcap d = Capturing.
Proof.
  set (a := snd (q_push_back unknown_frame (queue (async_recv watched_iface)))).
  exists (Iface (AsyncRecvListener None a false Top) (Some 7%nat) Capturing). split; [|done].
  eapply irun_snoc; [eapply irun_snoc; [eapply irun_snoc; [constructor|by apply (step_captured _ 16 unknown_frame)]|]|].
  - by apply (step_forward _ unknown_frame).
  - by apply (step_shown (Iface (AsyncRecvListener None a false Top) (Some 7%nat) (Sniff unknown_frame))).
Qed.
Lemma analyzer_prints_witness : ∃ d : iface Queue nat nat,
  captured watched_run = sniffed watched_run ++ to_show (pcap d) ∧
  (∀ layers, mapM parse_prots (sniffed watched_run) = Ok layers →
    ∃ dumps, mapM (read_dump 16) dumps = Ok (sniffed watched_run) ∧
      analyzer_run (λ _ _, 1%nat) (λ _, str "now" ++ [10]) (λ _, 0) (sniffed watched_run) (AnalyzerWorld 0 []) =
      Ok (AnalyzerWorld (List.length (sniffed watched_run))
        ([] ++ concat (imap (block_text (λ _, str "now" ++ [10]) (λ _, 0)) (zip layers dumps))))) ∧
  (∀ pre bad post layers f, sniffed watched_run = pre ++ bad :: post → mapM parse_prots pre = Ok layers → parse_prots bad = Fault f →
    analyzer_run (λ _ _, 1%nat) (λ _, str "now" ++ [10]) (λ _, 0) (sniffed watched_run) (AnalyzerWorld 0 []) = Fault f) ∧
  ∀ short, (List.length short < 14)%nat → parse_prots short = Fault OutOfBounds.
Proof.
  destruct watched_run_ok as (d & Hr & Hp). exists d.
  apply (analyzer_prints (λ _ _, 1%nat) (λ _, str "now" ++ [10]) (λ _, 0) (new_queue (replicate (Z.to_nat 2000) [])) 7%nat watched_run d []).
  - exact Hr.
  - unfold watched_run. cbn [app]. repeat (apply Forall_cons_2; [exact I|]). apply Forall_nil_2.
  - replace (captured watched_run) with [unknown_frame] by done. apply Forall_cons_2; [by apply (bool_decide_unpack _)|apply Forall_nil_2].
Defined.
Example analyzer_block : block (λ _ _, 1%nat) (λ _, str "now" ++ [10]) (λ _, 0) 0 unknown_frame =
  Ok (border ++ [10] ++ str "now" ++ [10] ++ str "some packet" ++ [10] ++
      str "(v) ethernet2 src: ff:ff:ff:ff:ff:ff, dest: ff:ff:ff:ff:ff:ff, ethertype: <unsupported>" ++ [10] ++
      str "0x00: ff ff ff ff ff ff ff ff ff ff ff ff 12 34 48 69 |.............4Hi|" ++ [10] ++ border ++ [10]).
Proof. vm_compute. reflexivity. Qed.
