(* ===== verification/Hardware.v ===== *)
(** The addresses of the machine's interfaces: [src/lib/linux/hardware.cpp] and [src/lib/macos/hardware.cpp].

    What the system answers is a parameter: the results of [ioctl], the list of [getifaddrs], the text of /proc/net/route and the
    buffer of the routing table that [sysctl] fills.  The two parsers of the routing tables are modelled on the text and on the bytes: the first
    reads lines with [fgets] and [sscanf]; the second walks messages and socket addresses by offsets into a buffer, and reading
    past its end is a fault.  The layout of a message is a class ([RouteLayout]). *)

From Stdlib Require Import ZArith Lia String.
From stdpp Require Import base decidable list numbers.
From S2P Require Import Prelude Text Posix Ether2 Ip4.

(** * Linux: the addresses

    The calls made, and what they give: a socket, and the bytes that an [ioctl] writes or nothing on an error. *)
Inductive hw_call := HwSocket | HwGetMac (fd : Z) (name : list Z) | HwSetMac (fd : Z) (name mac : list Z) | HwGetIp (fd : Z) (name : list Z) | HwClose (fd : Z).
#[export] Instance hw_call_eq_dec : EqDecision hw_call.
Proof. solve_decision. Defined.
Record hw_os := HwOs {
  hw_socket : Z;
  hw_get_mac : Z → list Z → option (list Z);          (** [sa_data] *)
  hw_get_ip : Z → list Z → option (list Z)            (** [sin_addr] *)
}.

Definition linux_get_mac_addr_of_iface (os : hw_os) (iface : list Z) : option mac_addr * list hw_call :=
  let fd := hw_socket os in
  let calls := [HwSocket; HwGetMac fd (ifr_name iface)] in
  match hw_get_mac os fd (ifr_name iface) with
  | None => (None, calls)
  | Some sa_data => (Some (MacAddr (take 6 sa_data)), calls ++ [HwClose fd])
  end.
Definition linux_set_mac_addr_for_iface (os : hw_os) (iface : list Z) (new_addr : mac_addr) : list hw_call :=
  let fd := hw_socket os in [HwSocket; HwSetMac fd (ifr_name iface) (mac_octets new_addr); HwClose fd].
Definition linux_get_ip4_addr_of_iface (os : hw_os) (iface : list Z) : option ip4_addr * list hw_call :=
  let fd := hw_socket os in
  let calls := [HwSocket; HwGetIp fd (ifr_name iface)] in
  match hw_get_ip os fd (ifr_name iface) with
  | None => (None, calls)
  | Some sin_addr => (Some (Ip4Addr sin_addr), calls ++ [HwClose fd])
  end.

(** The descriptors that the calls leave open. *)
Definition left_open (os : hw_os) (calls : list hw_call) : list Z :=
  if bool_decide (HwSocket ∈ calls) && negb (bool_decide (HwClose (hw_socket os) ∈ calls)) then [hw_socket os] else [].

(** * Linux: the default gateway *)

(** At most [n] characters, to the end of the line. *)
Fixpoint take_line (n : nat) (s : list Z) : list Z * list Z :=
  match n, s with
  | S n, c :: s => if c =? 10 then ([c], s) else let '(l, r) := take_line n s in (c :: l, r)
  | _, _ => ([], s)
  end.
Definition fgets (sz : nat) (s : list Z) : option (list Z * list Z) := match s with [] => None | _ => Some (take_line (pred sz) s) end.
(** The scanf conversion [%x]: [None] when it does not match. *)
Definition scan_x (s : list Z) : option (res Z * list Z) :=
  let '(neg, s) := scan_sign (skip_spaces s) in
  let s := skip_0x s in
  if starts_digit 16 s then
    let '(v, r) := scan_num 16 s 0 in
    Some (if 2 ^ 32 <=? v then Fault BadConversion else Ok (u32 (if neg then - v else v)), r)
  else None.
(** [sscanf(buffer, "%s %x %x", ...)]: the three values, if it gives 3.  The word goes to an array of 16 bytes. *)
Definition scan_route (buffer : list Z) : res (option (list Z * Z * Z)) :=
  let s := skip_spaces (until_nul buffer) in
  let w := word_prefix s in
  if (List.length w =? 0)%nat then Ok None
  else if (15 <? List.length w)%nat then Fault OutOfBounds
  else
    match scan_x (drop (List.length w) s) with
    | None => Ok None
    | Some (dest, r) =>
        dest ← dest;
        match scan_x r with
        | None => Ok None
        | Some (gw, _) => gw ← gw; Ok (Some (w, dest, gw))
        end
    end.
Fixpoint route_loop (fuel : nat) (iface fp : list Z) : res (option ip4_addr) :=
  match fuel with
  | O => Fault OutOfFuel
  | S fuel =>
      match fgets 2000 fp with
      | None => Ok None
      | Some (buffer, fp) =>
          found ← scan_route buffer;
          match found with
          | None => route_loop fuel iface fp
          | Some (curr_iface, dest, gw) =>
              if bool_decide (curr_iface ≠ until_nul iface) || negb (dest =? 0) then route_loop fuel iface fp
              else Ok (Some (Ip4Addr (le32 gw)))
          end
      end
  end.
(** [file]: the text of /proc/net/route, if it opens.  Every line takes a character at least. *)
Definition linux_get_default_gateway_of_iface (file : option (list Z)) (iface : list Z) : res (option ip4_addr) :=
  match file with
  | None => Ok None
  | Some fp =>
      match fgets 2000 fp with
      | None => Ok None
      | Some (_, fp) => route_loop (S (List.length fp)) iface fp
      end
  end.

(** ** Routes as the kernel writes them *)

Record route := Route { rt_iface : list Z; rt_dest : Z; rt_gateway : Z; rt_dest_text : list Z; rt_gateway_text : list Z; rt_rest : list Z }.
Definition route_line (r : route) : list Z := rt_iface r ++ 9 :: rt_dest_text r ++ 9 :: rt_gateway_text r ++ 9 :: rt_rest r ++ [10].
Record route_ok (r : route) : Prop := {
  rk_iface : rt_iface r ≠ [] ∧ (List.length (rt_iface r) ≤ 15)%nat ∧ Forall (λ c, is_space c = false ∧ c ≠ 0) (rt_iface r);
  rk_dest : digits_of 16 (rt_dest r) (rt_dest_text r) ∧ 0 ≤ rt_dest r < 2 ^ 32;
  rk_gateway : digits_of 16 (rt_gateway r) (rt_gateway_text r) ∧ 0 ≤ rt_gateway r < 2 ^ 32;
  rk_rest : Forall (λ c, c ≠ 10 ∧ c ≠ 0) (rt_rest r);
  rk_length : (List.length (route_line r) ≤ 1999)%nat
}.
Definition is_default (iface : list Z) (r : route) : bool := bool_decide (rt_iface r = until_nul iface) && (rt_dest r =? 0).

Lemma take_line_here n l s : Forall (λ c, c ≠ 10) l → (List.length l < n)%nat → take_line n (l ++ 10 :: s) = (l ++ [10], s).
Proof.
  revert n. induction l as [|c l IH]; intros n Hl Hn; destruct n as [|n]; cbn [List.length] in Hn; try lia; cbn [app take_line].
  - done.
  - apply Forall_cons_1 in Hl as [Hc Hl]. rewrite (proj2 (Z.eqb_neq c 10)) by done. rewrite IH by (done || lia). done.
Qed.
Lemma digits_of_scan base ds : ds ≠ [] → Forall (λ c, is_Some (digit_val base c)) ds → digits_of base (fst (scan_num base ds 0)) ds.
Proof.
  intros Hn Hd. assert (Hs : ∀ a, fst (scan_num base ds a) = a * base ^ Z.of_nat (List.length ds) + fst (scan_num base ds 0) ∧
    ∀ rest, scan_num base (ds ++ rest) a = scan_num base rest (fst (scan_num base ds a))).
  { clear Hn. induction Hd as [|c ds [v Hv] Hd IH]; intros a; [split; [cbn; lia|done]|]. cbn [scan_num app List.length]. rewrite Hv. split; [|apply IH].
    rewrite (proj1 (IH (a * base + v))), (proj1 (IH (0 * base + v))), Nat2Z.inj_succ, Z.pow_succ_r by lia. lia. }
  split; [done|]. split; [done|]. intros a rest. by rewrite (proj2 (Hs a)), (proj1 (Hs a)).
Qed.
Lemma skip_0x_digits n ds c rest : digits_of 16 n ds → digit_val 16 c = None → c ≠ 120 → c ≠ 88 → skip_0x (ds ++ c :: rest) = ds ++ c :: rest.
Proof.
  intros (Hn & Hd & _) Hc H1 H2. destruct ds as [|z [|x ds]]; [done| |].
  - cbn [app skip_0x]. destruct rest as [|d rest]; [done|]. rewrite (proj2 (Z.eqb_neq c 120)), (proj2 (Z.eqb_neq c 88)) by done.
    by rewrite andb_false_r.
  - apply Forall_cons_1 in Hd as [_ Hd]. apply Forall_cons_1 in Hd as [[v Hv] _]. cbn [app skip_0x].
    assert (x ≠ 120 ∧ x ≠ 88) as [Hx1 Hx2] by (split; intros ->; discriminate).
    destruct (ds ++ c :: rest) as [|d r]; [done|]. rewrite (proj2 (Z.eqb_neq x 120)), (proj2 (Z.eqb_neq x 88)) by done. by rewrite andb_false_r.
Qed.
Lemma scan_x_digits n ds rest : digits_of 16 n ds → 0 ≤ n < 2 ^ 32 → scan_x (9 :: ds ++ 9 :: rest) = Some (Ok n, 9 :: rest).
Proof.
  intros Hd Hn. unfold scan_x. change (skip_spaces (9 :: ds ++ 9 :: rest)) with (skip_spaces (ds ++ 9 :: rest)).
  destruct (digits_prefix 16 n ds (9 :: rest) Hd) as [-> Hs]. rewrite (skip_0x_digits n), Hs by done.
  rewrite (scan_digits_of 16 n ds (9 :: rest)) by done. destruct (Z.leb_spec (2 ^ 32) n); [lia|]. rewrite u32_small by done. done.
Qed.
Lemma word_prefix_here w c s : Forall (λ c, is_space c = false ∧ c ≠ 0) w → is_space c = true → word_prefix (w ++ c :: s) = w.
Proof.
  induction 1 as [|d w [Hd _] _ IH]; intros Hc; cbn [app word_prefix]; [by rewrite Hc|]. by rewrite Hd, IH.
Qed.
Lemma until_nul_id s : Forall (λ c, c ≠ 0) s → until_nul s = s.
Proof. induction 1 as [|c s Hc _ IH]; [done|]. cbn. by rewrite (proj2 (Z.eqb_neq c 0)), IH. Qed.

Lemma digit_plain c : is_Some (digit_val 16 c) → c ≠ 10 ∧ c ≠ 0.
Proof. intros H. apply digit_val_range in H. lia. Qed.
Lemma route_line_plain r : route_ok r → ∃ l, route_line r = l ++ [10] ∧ Forall (λ c, c ≠ 10) l ∧ Forall (λ c, c ≠ 0) l.
Proof.
  intros [(_ & _ & Hi) [(_ & Hd & _) _] [(_ & Hg & _) _] Hr _].
  exists (rt_iface r ++ 9 :: rt_dest_text r ++ 9 :: rt_gateway_text r ++ 9 :: rt_rest r).
  split; [unfold route_line; by rewrite <- ?app_assoc, <- ?app_comm_cons, <- ?app_assoc, <- ?app_comm_cons, <- ?app_assoc|].
  assert (Hall : Forall (λ c, c ≠ 10 ∧ c ≠ 0) (rt_iface r ++ 9 :: rt_dest_text r ++ 9 :: rt_gateway_text r ++ 9 :: rt_rest r)).
  { apply Forall_app_2; [eapply List.Forall_impl; [|exact Hi]; intros c [Hc H0]; split; [by intros ->|done]|].
    apply Forall_cons_2; [done|]. apply Forall_app_2; [eapply List.Forall_impl; [|exact Hd]; apply digit_plain|].
    apply Forall_cons_2; [done|]. apply Forall_app_2; [eapply List.Forall_impl; [|exact Hg]; apply digit_plain|].
    by apply Forall_cons_2. }
  split; (eapply List.Forall_impl; [|exact Hall]); naive_solver.
Qed.
Lemma scan_route_line r : route_ok r → scan_route (route_line r) = Ok (Some (rt_iface r, rt_dest r, rt_gateway r)).
Proof.
  intros Hok. destruct (route_line_plain r Hok) as (l & El & _ & Hnul). destruct Hok as [(Hne & Hlen & Hi) [Hd Hdr] [Hg Hgr] Hr _].
  unfold scan_route. rewrite until_nul_id.
  2:{ rewrite El. apply Forall_app_2; [done|]. by apply Forall_cons_2. }
  assert (Es : skip_spaces (route_line r) = route_line r).
  { unfold route_line. destruct (rt_iface r) as [|c w]; [done|]. apply Forall_cons_1 in Hi as [[Hc _] _]. cbn. by rewrite Hc. }
  rewrite Es. assert (Ew : word_prefix (route_line r) = rt_iface r) by (unfold route_line; by apply word_prefix_here).
  rewrite Ew. rewrite (proj2 (Nat.eqb_neq _ _)) by (by destruct (rt_iface r)). rewrite (proj2 (Nat.ltb_ge _ _)) by done.
  unfold route_line. rewrite drop_app_length, (scan_x_digits (rt_dest r)) by done. cbn [mbind res_bind].
  rewrite (scan_x_digits (rt_gateway r)) by done. done.
Qed.
Lemma route_loop_lines rs iface : Forall route_ok rs → ∀ fuel, (List.length (concat (route_line <$> rs)) < fuel)%nat →
  route_loop fuel iface (concat (route_line <$> rs)) = Ok ((λ r, Ip4Addr (le32 (rt_gateway r))) <$> List.find (is_default iface) rs).
Proof.
  induction 1 as [|r rs Hr Hrs IH]; intros fuel Hf; (destruct fuel as [|fuel]; [cbn in Hf; lia|]); [done|].
  cbn [fmap list_fmap concat] in *. destruct (route_line_plain r Hr) as (l & El & Hl & _). pose proof (rk_length r Hr) as Hlen.
  cbn [route_loop]. assert (Eg : fgets 2000 (route_line r ++ concat (route_line <$> rs)) = Some (route_line r, concat (route_line <$> rs))).
  { rewrite El, <- app_assoc. cbn [app]. unfold fgets. destruct l as [|c l]; [done|]. cbn [app]. f_equal.
    apply (take_line_here 1999 (c :: l)); [done|]. rewrite El, length_app in Hlen. cbn [List.length] in *. lia. }
  rewrite Eg, scan_route_line by done. cbn [mbind res_bind List.find]. unfold is_default at 1.
  rewrite length_app in Hf. assert (0 < List.length (route_line r))%nat by (rewrite El, length_app; cbn; lia).
  destruct (decide (rt_iface r = until_nul iface)) as [E|E].
  - rewrite (bool_decide_true (rt_iface r = _)), (bool_decide_false (_ ≠ _)) by (done || by intros []).
    destruct (rt_dest r =? 0); [done|]. apply IH. lia.
  - rewrite (bool_decide_false (rt_iface r = _)), (bool_decide_true (_ ≠ _)) by done. apply IH. lia.
Qed.

(** * macOS: the addresses

    An entry of [getifaddrs]: its name, and its address, which may be null; of a link address the octets that [LLADDR] points to, of
    an internet address [sin_addr]. *)
Inductive sock_address := LinkAddr (sdl_alen : Z) (octets : list Z) | InetAddr (sin_addr : list Z) | OtherAddr (family : Z).
Record ifaddrs := IfAddrs { ifa_name : list Z; ifa_addr : option sock_address }.

(** The loop of [get_mac_addr_of_iface]; it reads the family of each address. *)
Fixpoint macos_mac_loop (ifap : list ifaddrs) (iface : list Z) : res (option mac_addr) :=
  match ifap with
  | [] => Ok None
  | ifa :: ifap =>
      addr ← of_option NullDeref (ifa_addr ifa);
      match addr with
      | LinkAddr sdl_alen octets =>
          if bool_decide (ifa_name ifa = until_nul iface) && (sdl_alen =? 6) then Ok (Some (MacAddr (take 6 octets)))
          else macos_mac_loop ifap iface
      | _ => macos_mac_loop ifap iface
      end
  end.
Definition macos_get_mac_addr_of_iface (ifap : option (list ifaddrs)) (iface : list Z) : res (option mac_addr) :=
  match ifap with None => Ok None | Some ifap => macos_mac_loop ifap iface end.
Fixpoint macos_ip_loop (ifap : list ifaddrs) (iface : list Z) : res (option ip4_addr) :=
  match ifap with
  | [] => Ok None
  | ifa :: ifap =>
      addr ← of_option NullDeref (ifa_addr ifa);
      match addr with
      | InetAddr sin_addr =>
          if bool_decide (ifa_name ifa = until_nul iface) then Ok (Some (Ip4Addr sin_addr)) else macos_ip_loop ifap iface
      | _ => macos_ip_loop ifap iface
      end
  end.
Definition macos_get_ip4_addr_of_iface (ifap : option (list ifaddrs)) (iface : list Z) : res (option ip4_addr) :=
  match ifap with None => Ok None | Some ifap => macos_ip_loop ifap iface end.
(** [set_mac_addr_for_iface]: the command that is run. *)
Definition macos_set_mac_command (iface : list Z) (new_addr : mac_addr) : list Z :=
  str "ifconfig " ++ iface ++ str " ether " ++ mac_addr_to_str new_addr.

(** * macOS: the routing table

    Where the fields of a message are: its length is in the first two bytes, [rtm_addrs] is an [int] at [off_rtm_addrs]. *)
Class RouteLayout := {
  sizeof_rt_msghdr : nat; off_rtm_addrs : nat;
  route_layout_law : (2 ≤ off_rtm_addrs ∧ off_rtm_addrs + 4 ≤ sizeof_rt_msghdr)%nat
}.
#[export, refine] Instance darwin_layout : RouteLayout := { sizeof_rt_msghdr := 92%nat; off_rtm_addrs := 12%nat }.
Proof. lia. Defined.

Definition RTAX_DST : nat := 0.
Definition RTAX_GATEWAY : nat := 1.
Definition RTAX_MAX : nat := 8.
Definition RTA_GATEWAY : Z := 2.
Definition AF_INET : Z := 2.

Definition byte_at (buf : list Z) (i : nat) : res Z := of_option OutOfBounds (buf !! i).
(** [n] bytes at [i]. *)
Definition bytes_at (buf : list Z) (i n : nat) : res (list Z) :=
  if decide (i + n ≤ List.length buf)%nat then Ok (take n (drop i buf)) else Fault OutOfBounds.
Definition of_le (bs : list Z) : Z := foldr (λ b v, b + 256 * v) 0 bs.
(** [ROUNDUP] with a [long] of 8 bytes; the argument is a byte. *)
Definition roundup (a : Z) : nat := if 0 <? a then Z.to_nat (1 + Z.lor (a - 1) 7) else 8.

(** The loop over the addresses of a message: [todo] indices are left from [i] on, [sa] is where the next address is. *)
Fixpoint addrs_loop (todo i : nat) (addrs : Z) (buf : list Z) (sa : nat) (dest gateway : option nat) : res (option nat * option nat) :=
  match todo with
  | O => Ok (dest, gateway)
  | S todo =>
      if Z.testbit addrs (Z.of_nat i) then
        let dest := if decide (i = RTAX_DST) then Some sa else dest in
        let gateway := if decide (i = RTAX_GATEWAY) then Some sa else gateway in
        sa_len ← byte_at buf sa;
        addrs_loop todo (S i) addrs buf (sa + roundup sa_len)%nat dest gateway
      else addrs_loop todo (S i) addrs buf sa dest gateway
  end.
(** What is done with the destination and the gateway of a message. *)
Definition default_route (buf : list Z) (dest gateway : nat) : res (option ip4_addr) :=
  family ← byte_at buf (dest + 1);
  if negb (family =? AF_INET) then Ok None
  else
    len ← byte_at buf dest;
    if negb (0 <? len) then Ok None
    else
      addr ← bytes_at buf (dest + 4) 4;
      if negb (of_le addr =? 0) then Ok None else gw ← bytes_at buf (gateway + 4) 4; Ok (Some (Ip4Addr gw)).

Section macos_routes.
Context {RL : RouteLayout}.

(** The message at [next]: the gateway that it gives, if it is the default route. *)
Definition route_message (buf : list Z) (next : nat) : res (option ip4_addr) :=
  addrs ← bytes_at buf (next + off_rtm_addrs) 4;
  let addrs := of_le addrs in
  if Z.land addrs RTA_GATEWAY =? 0 then Ok None
  else
    '(dest, gateway) ← addrs_loop RTAX_MAX 0 addrs buf (next + sizeof_rt_msghdr) None None;
    match dest, gateway with Some dest, Some gateway => default_route buf dest gateway | _, _ => Ok None end.
Fixpoint messages_loop (fuel : nat) (buf : list Z) (next : nat) : res (option ip4_addr) :=
  match fuel with
  | O => Fault OutOfFuel
  | S fuel =>
      if decide (next < List.length buf)%nat then
        result ← route_message buf next;
        match result with
        | Some gw_ip => Ok (Some gw_ip)
        | None => rtm_msglen ← bytes_at buf next 2; messages_loop fuel buf (next + Z.to_nat (of_le rtm_msglen))
        end
      else Ok None
  end.
(** [table]: what the two calls of [sysctl] give; the interface is not looked at. *)
Definition macos_get_default_gateway_of_iface (fuel : nat) (table : option (list Z)) (iface : list Z) : res (option ip4_addr) :=
  match table with None => Ok None | Some buf => messages_loop fuel buf 0 end.

(** ** The routing table as a list of messages

    A message has, for each index up to [RTAX_MAX], an address or none.  An address begins with its length; what it takes up in the
    message is the kernel's to say, and only this is asked of it: where another address follows, it is the length rounded
    up to a multiple of eight, [slot] (a kernel that aligns to four bytes agrees for internet addresses, of length 16). *)
Record rt_message := RtMessage { rm_before : list Z; rm_after : list Z; rm_addrs : list (option (list Z)) }.
Definition addr_bits (l : list (option (list Z))) : Z := foldr (λ (a : option (list Z)) v, (if a then 1 else 0) + 2 * v) 0 l.
Definition addr_bytes (l : list (option (list Z))) : list Z := concat (default [] <$> l).
Definition message_length (m : rt_message) : nat := (sizeof_rt_msghdr + List.length (addr_bytes (rm_addrs m)))%nat.
Definition encode_message (m : rt_message) : list Z :=
  le16 (Z.of_nat (message_length m)) ++ rm_before m ++ le32 (addr_bits (rm_addrs m)) ++ rm_after m ++ addr_bytes (rm_addrs m).
Definition slot (len : Z) : nat := if len =? 0 then 8 else 8 * Z.to_nat ((len + 7) / 8).
Fixpoint addrs_ok (l : list (option (list Z))) : Prop :=
  match l with
  | [] => True
  | None :: l => addrs_ok l
  | Some a :: l => (∃ b r, a = b :: r ∧ byte_ok b ∧ (Exists is_Some l → List.length a = slot b)) ∧ addrs_ok l
  end.
Record message_ok (m : rt_message) : Prop := {
  mk_before : (2 + List.length (rm_before m) = off_rtm_addrs)%nat;
  mk_after : (off_rtm_addrs + 4 + List.length (rm_after m) = sizeof_rt_msghdr)%nat;
  mk_addrs : List.length (rm_addrs m) = RTAX_MAX;
  mk_each : addrs_ok (rm_addrs m);
  mk_gateway : ∀ g, rm_addrs m !! RTAX_GATEWAY = Some (Some g) → (8 ≤ List.length g)%nat;
  mk_length : Z.of_nat (message_length m) < 2 ^ 16
}.
(** What the message says of the default route: its destination is the internet address 0. *)
Definition gateway_of (m : rt_message) : option ip4_addr :=
  match rm_addrs m with
  | Some (len :: family :: dest) :: Some gateway :: _ =>
      if (family =? AF_INET) && (0 <? len) && (of_le (take 4 (drop 2 dest)) =? 0) then Some (Ip4Addr (take 4 (drop 4 gateway))) else None
  | _ => None
  end.
Fixpoint first_some {A} (l : list (option A)) : option A :=
  match l with [] => None | Some a :: _ => Some a | None :: l => first_some l end.

(** The code's rounding is to multiples of eight. *)
Lemma roundup_slot b : byte_ok b → roundup b = slot b.
Proof. intros Hb. apply Nat.eqb_eq. by apply (byte_forall (λ b, (roundup b =? slot b)%nat)); [vm_compute|]. Qed.
Lemma slot_ge b : byte_ok b → (8 ≤ slot b)%nat.
Proof. intros [H0 _]. unfold slot. destruct (Z.eqb_spec b 0); [lia|]. assert (1 ≤ (b + 7) / 8) by (Z.div_mod_to_equations; lia). lia. Qed.
Lemma addr_bits_bound l : 0 ≤ addr_bits l < 2 ^ Z.of_nat (List.length l).
Proof.
  induction l as [|a l IH]; [done|]. cbn [addr_bits foldr List.length]. rewrite Nat2Z.inj_succ, Z.pow_succ_r by lia.
  unfold addr_bits in IH. destruct a; lia.
Qed.
Lemma addr_bits_testbit l i : Z.testbit (addr_bits l) (Z.of_nat i) = bool_decide (is_Some (mjoin (l !! i))).
Proof.
  revert i. induction l as [|a l IH]; intros i.
  - rewrite lookup_nil. cbn. by rewrite Z.testbit_0_l.
  - cbn [addr_bits foldr]. fold (addr_bits l).
    replace ((if a then 1 else 0) + 2 * addr_bits l) with (2 * addr_bits l + Z.b2z (if a then true else false)) by (destruct a; cbn; lia).
    destruct i as [|i].
    + change (Z.of_nat 0) with 0. rewrite Z.testbit_0_r. destruct a; [by rewrite bool_decide_true by (by eexists)|by rewrite bool_decide_false by (intros [? Hx]; discriminate Hx)].
    + rewrite Nat2Z.inj_succ, Z.testbit_succ_r by lia. apply IH.
Qed.
Lemma of_le_le32 v : 0 ≤ v < 2 ^ 32 → of_le (le32 v) = v.
Proof. intros Hv. unfold of_le, le32. cbn [foldr]. change (2 ^ 32) with 4294967296 in Hv. Z.div_mod_to_equations; lia. Qed.
Lemma of_le_le16 v : 0 ≤ v < 2 ^ 16 → of_le (le16 v) = v.
Proof. intros Hv. unfold of_le, le16. cbn [foldr]. change (2 ^ 16) with 65536 in Hv. Z.div_mod_to_equations; lia. Qed.

Lemma bytes_at_here pre bs post : bytes_at (pre ++ bs ++ post) (List.length pre) (List.length bs) = Ok bs.
Proof. unfold bytes_at. rewrite decide_True by (rewrite !length_app; lia). by rewrite drop_app_length, take_app_length. Qed.
Lemma byte_at_here pre b post : byte_at (pre ++ b :: post) (List.length pre) = Ok b.
Proof. unfold byte_at. by rewrite list_lookup_middle. Qed.

(** The addresses from index [i] on; beyond the gateway they are only passed over. *)
Definition bits_of (addrs : Z) (i : nat) (l : list (option (list Z))) : Prop :=
  ∀ j, Z.testbit addrs (Z.of_nat (i + j)) = bool_decide (is_Some (mjoin (l !! j))).
Lemma bits_of_cons addrs i a l : bits_of addrs i (a :: l) → Z.testbit addrs (Z.of_nat i) = bool_decide (is_Some a) ∧ bits_of addrs (S i) l.
Proof.
  intros Hb. split; [specialize (Hb 0%nat); by rewrite Nat.add_0_r in Hb|]. intros j. specialize (Hb (S j)).
  cbn [lookup list_lookup] in Hb. by rewrite Nat.add_succ_comm.
Qed.
Lemma addrs_loop_none l : ∀ i addrs buf sa d g, ¬ Exists is_Some l → bits_of addrs i l →
  addrs_loop (List.length l) i addrs buf sa d g = Ok (d, g).
Proof.
  induction l as [|a l IH]; intros i addrs buf sa d g Hn Hb; [done|]. apply bits_of_cons in Hb as [Hb0 Hb]. rewrite Exists_cons in Hn.
  cbn [addrs_loop List.length]. rewrite Hb0, bool_decide_false by tauto. apply IH; tauto.
Qed.
(** Past an address, to where the next is, if there is one. *)
Lemma addrs_loop_past l i addrs pre b r post d g :
  (∀ pre, addrs_loop (List.length l) i addrs (pre ++ addr_bytes l ++ post) (List.length pre) d g = Ok (d, g)) →
  byte_ok b → (Exists is_Some l → S (List.length r) = slot b) → bits_of addrs i l →
  addrs_loop (List.length l) i addrs (pre ++ (b :: r) ++ addr_bytes l ++ post) (List.length pre + roundup b) d g = Ok (d, g).
Proof.
  intros Hl Hbk Hs Hb. destruct (decide (Exists is_Some l)) as [He|He]; [|by apply addrs_loop_none].
  rewrite (roundup_slot b Hbk), <- (Hs He). specialize (Hl (pre ++ b :: r)). by rewrite length_app, <- app_assoc in Hl.
Qed.
Lemma addrs_loop_rest l : ∀ i addrs pre post d g, (2 ≤ i)%nat → bits_of addrs i l → addrs_ok l →
  addrs_loop (List.length l) i addrs (pre ++ addr_bytes l ++ post) (List.length pre) d g = Ok (d, g).
Proof.
  induction l as [|a l IH]; intros i addrs pre post d g Hi Hb Hl; [done|]. apply bits_of_cons in Hb as [Hb0 Hb].
  cbn [addrs_loop List.length]. rewrite Hb0. destruct a as [a|].
  - destruct Hl as [(b & r & -> & Hbk & Hs) Hl].
    rewrite bool_decide_true by (by eexists). rewrite !decide_False by (unfold RTAX_DST, RTAX_GATEWAY; lia).
    change (addr_bytes (Some (b :: r) :: l)) with ((b :: r) ++ addr_bytes l). rewrite <- app_assoc. cbn [app].
    rewrite byte_at_here. cbn [mbind res_bind]. apply (addrs_loop_past l (S i) addrs pre b r post); [|done..].
    intros pre'. apply IH; [lia|done..].
  - rewrite bool_decide_false by (intros [? Hx]; discriminate Hx). change (addr_bytes (None :: l)) with (addr_bytes l). apply IH; [lia|done..].
Qed.

Lemma bytes_at_off pre bs post k n : (k + n ≤ List.length bs)%nat → bytes_at (pre ++ bs ++ post) (List.length pre + k) n = Ok (take n (drop k bs)).
Proof.
  intros Hk. unfold bytes_at. rewrite decide_True by (rewrite !length_app; lia). rewrite drop_app_add, drop_app_le, take_app_le by (rewrite ?length_drop; lia). done.
Qed.
Lemma byte_at_off pre bs post k b : bs !! k = Some b → byte_at (pre ++ bs ++ post) (List.length pre + k) = Ok b.
Proof.
  intros Hk. unfold byte_at. rewrite lookup_app_r, Nat.add_comm, Nat.add_sub by lia.
  by rewrite lookup_app_l, Hk by (by eapply lookup_lt_Some).
Qed.
Lemma land_2 x : (Z.land x RTA_GATEWAY =? 0) = negb (Z.testbit x 1).
Proof.
  unfold RTA_GATEWAY. destruct (Z.testbit x 1) eqn:E; cbn [negb].
  - apply Z.eqb_neq. intros H0. assert (E' : Z.testbit (Z.land x 2) 1 = false) by (rewrite H0; apply Z.testbit_0_l).
    rewrite Z.land_spec, E in E'. discriminate.
  - apply Z.eqb_eq, Z.bits_inj'. intros n Hn. rewrite Z.land_spec, Z.testbit_0_l. change 2 with (2 ^ 1).
    rewrite Z.pow2_bits_eqb by lia. destruct (Z.eqb_spec 1 n) as [<-|]; [by rewrite E|by rewrite andb_false_r].
Qed.

(** The destination [d] and the gateway [g], one after the other in the buffer. *)
Lemma default_route_spec pre d g post : (8 ≤ List.length d)%nat → (8 ≤ List.length g)%nat →
  default_route (pre ++ d ++ g ++ post) (List.length pre) (List.length (pre ++ d)) =
  Ok (match d with
      | len :: family :: dest =>
          if (family =? AF_INET) && (0 <? len) && (of_le (take 4 (drop 2 dest)) =? 0) then Some (Ip4Addr (take 4 (drop 4 g))) else None
      | _ => None
      end).
Proof.
  intros Hl Hlg. destruct d as [|b [|family dest]]; [cbn in Hl; lia..|]. unfold default_route. cbn [List.length] in Hl.
  rewrite (byte_at_off pre (b :: family :: dest) (g ++ post) 1 family) by done. cbn [mbind res_bind].
  destruct (family =? AF_INET); cbn [negb andb]; [|done].
  pose proof (byte_at_off pre (b :: family :: dest) (g ++ post) 0 b eq_refl) as E0. rewrite Nat.add_0_r in E0. rewrite E0. cbn [mbind res_bind].
  destruct (0 <? b); cbn [negb andb]; [|done].
  rewrite (bytes_at_off pre (b :: family :: dest)) by (cbn; lia). cbn [mbind res_bind].
  change (drop 4 (b :: family :: dest)) with (drop 2 dest). destruct (of_le _ =? 0); cbn [negb]; [|done].
  rewrite (app_assoc pre). rewrite (bytes_at_off (pre ++ b :: family :: dest) g) by lia. done.
Qed.

Lemma addrs_loop_S todo i addrs buf sa dest gateway : addrs_loop (S todo) i addrs buf sa dest gateway =
  if Z.testbit addrs (Z.of_nat i) then
    sa_len ← byte_at buf sa;
    addrs_loop todo (S i) addrs buf (sa + roundup sa_len)%nat (if decide (i = RTAX_DST) then Some sa else dest)
      (if decide (i = RTAX_GATEWAY) then Some sa else gateway)
  else addrs_loop todo (S i) addrs buf sa dest gateway.
Proof. done. Qed.

(** The loop over addresses that have a gateway: where it is, and where the destination is. *)
Lemma addrs_loop_gateway a0 g rest hd post :
  let l := a0 :: Some g :: rest in
  List.length l = RTAX_MAX → addrs_ok l →
  addrs_loop RTAX_MAX 0 (addr_bits l) (hd ++ addr_bytes l ++ post) (List.length hd) None None =
  Ok (match a0 with Some _ => Some (List.length hd) | None => None end, Some (List.length (hd ++ default [] a0))).
Proof.
  intros l Hlen Hok. set (bits := addr_bits l).
  assert (Hb : bits_of bits 0 l) by (intros j; apply addr_bits_testbit).
  apply bits_of_cons in Hb as [Hb0 Hb]. apply bits_of_cons in Hb as [Hb1 Hb].
  assert (Hr6 : List.length rest = 6%nat) by (cbn in Hlen; unfold RTAX_MAX in Hlen; lia).
  assert (Hg : addrs_ok (Some g :: rest)) by (destruct a0; [apply Hok|exact Hok]).
  destruct Hg as [(bg & rg & -> & Hbg & Hsg) Hrest]. change RTAX_MAX with 8%nat. rewrite addrs_loop_S, Hb0.
  (* from the gateway on *)
  assert (Hgw : ∀ pre dest, addrs_loop 7 1 bits (pre ++ ((bg :: rg) ++ addr_bytes rest) ++ post) (List.length pre) dest None =
    Ok (dest, Some (List.length pre))).
  { intros pre dest. rewrite addrs_loop_S, Hb1.
    rewrite bool_decide_true by (by eexists). rewrite (decide_False (P := 1%nat = RTAX_DST)), (decide_True (P := 1%nat = RTAX_GATEWAY)) by done.
    rewrite <- app_assoc. cbn [app]. rewrite byte_at_here. cbn [mbind res_bind]. rewrite <- Hr6.
    apply (addrs_loop_past rest 2 bits pre bg rg post); [|done..]. intros pre'. by apply addrs_loop_rest. }
  destruct a0 as [d|].
  - destruct Hok as [(bd & rd & -> & Hbd & Hsd) _]. rewrite bool_decide_true by (by eexists). rewrite (decide_True (P := 0%nat = RTAX_DST)) by done.
    rewrite (decide_False (P := 0%nat = RTAX_GATEWAY)) by done.
    change (addr_bytes l) with ((bd :: rd) ++ (bg :: rg) ++ addr_bytes rest). rewrite <- app_assoc. cbn [app default from_option].
    rewrite byte_at_here. cbn [mbind res_bind]. specialize (Hgw (hd ++ bd :: rd) (Some (List.length hd))).
    assert (Hld : List.length (bd :: rd) = roundup bd) by (rewrite roundup_slot by done; apply Hsd; constructor; by eexists).
    rewrite <- app_assoc, length_app, Hld in Hgw. unfold Datatypes.id. rewrite length_app, Hld. exact Hgw.
  - rewrite bool_decide_false by (intros [? Hx]; discriminate Hx). change (addr_bytes l) with ((bg :: rg) ++ addr_bytes rest).
    cbn [default from_option]. rewrite app_nil_r. apply Hgw.
Qed.

Lemma route_message_spec pre m post : message_ok m →
  route_message (pre ++ encode_message m ++ post) (List.length pre) = Ok (gateway_of m).
Proof.
  intros [Hbe Haf Hlen Heach Hgate Hml]. unfold route_message, gateway_of. pose proof (addr_bits_bound (rm_addrs m)) as Hbits. rewrite Hlen in Hbits.
  set (hd := pre ++ le16 (Z.of_nat (message_length m)) ++ rm_before m).
  assert (Ehd : List.length hd = (List.length pre + off_rtm_addrs)%nat) by (unfold hd; rewrite !length_app; cbn; lia).
  set (bits := addr_bits (rm_addrs m)) in *.
  assert (Eb : pre ++ encode_message m ++ post = hd ++ le32 bits ++ (rm_after m ++ addr_bytes (rm_addrs m) ++ post))
    by (unfold encode_message, hd; by rewrite <- !app_assoc).
  rewrite Eb, <- Ehd. change 4%nat with (List.length (le32 bits)). rewrite bytes_at_here. cbn [mbind res_bind].
  rewrite of_le_le32 by (change (2 ^ 32) with 4294967296; change (2 ^ Z.of_nat RTAX_MAX) with 256 in Hbits; lia).
  set (hd' := hd ++ le32 bits ++ rm_after m).
  assert (Ehd' : List.length hd' = (List.length pre + sizeof_rt_msghdr)%nat) by (unfold hd'; rewrite !length_app, Ehd; cbn; lia).
  assert (Eb' : hd ++ le32 bits ++ (rm_after m ++ addr_bytes (rm_addrs m) ++ post) = hd' ++ addr_bytes (rm_addrs m) ++ post)
    by (unfold hd'; by rewrite <- !app_assoc).
  rewrite Eb', <- Ehd'. clear Eb Eb' Ehd Ehd'. rewrite land_2. change 1 with (Z.of_nat 1).
  pose proof (addr_bits_testbit (rm_addrs m)) as Ht. fold bits in Ht. rewrite (Ht 1%nat).
  destruct (rm_addrs m) as [|a0 [|a1 rest]]; [done|done|].
  change (mjoin ((a0 :: a1 :: rest) !! 1%nat)) with a1. destruct a1 as [g|].
  2:{ rewrite bool_decide_false by (intros [? Hx]; discriminate Hx). cbn [negb]. by destruct a0 as [[|? [|? ?]]|]. }
  rewrite bool_decide_true by (by eexists). cbn [negb].
  pose proof (addrs_loop_gateway a0 g rest hd' post Hlen Heach) as El. fold bits in El. rewrite El. cbn [mbind res_bind].
  destruct a0 as [d|]; [|done].
  change (addr_bytes (Some d :: Some g :: rest)) with (d ++ g ++ addr_bytes rest). rewrite <- !app_assoc.
  apply (default_route_spec hd' d g (addr_bytes rest ++ post)); [|by apply Hgate].
  destruct Heach as [(b & r & -> & Hbk & Hs) _]. rewrite Hs by (constructor; by eexists). by apply slot_ge.
Qed.

(** A table of messages, one after the other. *)
Lemma messages_loop_spec ms : Forall message_ok ms → ∀ pre fuel, (List.length ms < fuel)%nat →
  messages_loop fuel (pre ++ concat (encode_message <$> ms)) (List.length pre) = Ok (first_some (gateway_of <$> ms)).
Proof.
  induction 1 as [|m ms Hm Hms IH]; intros pre fuel Hf; (destruct fuel as [|fuel]; [cbn in Hf; lia|]); cbn [messages_loop].
  - rewrite decide_False; [done|]. cbn. rewrite app_nil_r. lia.
  - change (concat (encode_message <$> m :: ms)) with (encode_message m ++ concat (encode_message <$> ms)).
    assert (Hlm : List.length (encode_message m) = message_length m).
    { destruct Hm as [H1 H2 _ _ _ _]. unfold encode_message, message_length. rewrite !length_app. cbn. lia. }
    pose proof route_layout_law as Hlaw. pose proof (mk_length m Hm) as Hml.
    rewrite decide_True by (rewrite !length_app, Hlm; unfold message_length; lia). rewrite route_message_spec by done. cbn [mbind res_bind].
    cbn [fmap list_fmap first_some]. destruct (gateway_of m) as [gw|]; [done|].
    assert (Eb : ∀ post, bytes_at (pre ++ encode_message m ++ post) (List.length pre) 2 = Ok (le16 (Z.of_nat (message_length m)))).
    { intros post. unfold encode_message. rewrite <- !app_assoc. apply (bytes_at_here pre (le16 (Z.of_nat (message_length m)))). }
    rewrite Eb. cbn [mbind res_bind]. rewrite of_le_le16 by lia. rewrite Nat2Z.id.
    specialize (IH (pre ++ encode_message m) fuel ltac:(cbn in Hf; lia)). rewrite length_app, Hlm, <- app_assoc in IH. exact IH.
Qed.

(** * Properties *)

(** C29: the default gateway is found.  Of the kernel's text of routes the Linux code gives the gateway of the first route of the interface
    whose destination is 0; of a routing table that is a sequence of messages the code for macOS gives the gateway of the first message
    whose destination is the internet address 0, whatever the interface, with as many turns of the loop as there are messages and one.
    This is for messages whose addresses, wherever another one follows, take up their length rounded up to a multiple of eight bytes,
    however the kernel lays out the last, and whose gateways are of eight bytes at least. *)
Theorem default_gateway_found (header : list Z) (rs : list route) (ms : list rt_message) (iface : list Z) (fuel : nat) :
  Forall (λ c, c ≠ 10) header → (List.length header < 1999)%nat → Forall route_ok rs → Forall message_ok ms → (List.length ms < fuel)%nat →
  linux_get_default_gateway_of_iface (Some (header ++ 10 :: concat (route_line <$> rs))) iface =
    Ok ((λ r, Ip4Addr (le32 (rt_gateway r))) <$> List.find (is_default iface) rs) ∧
  macos_get_default_gateway_of_iface fuel (Some (concat (encode_message <$> ms))) iface = Ok (first_some (gateway_of <$> ms)).
Proof.
  intros Hh Hl Hrs Hms Hf. split.
  - unfold linux_get_default_gateway_of_iface. assert (E : fgets 2000 (header ++ 10 :: concat (route_line <$> rs)) = Some (header ++ [10], concat (route_line <$> rs))).
    { unfold fgets. destruct header as [|c h]; [done|]. cbn [app]. f_equal. by apply (take_line_here 1999 (c :: h)). }
    rewrite E. by apply route_loop_lines; [|lia].
  - by apply (messages_loop_spec ms Hms [] fuel).
Qed.

(** A message whose length is 0, and which is not the default route, is looked at for ever. *)
Theorem macos_route_loop_stuck (buf : list Z) (next : nat) :
  (next < List.length buf)%nat → route_message buf next = Ok None → bytes_at buf next 2 = Ok [0; 0] →
  ∀ fuel, messages_loop fuel buf next = Fault OutOfFuel.
Proof.
  intros Hn Hr Hb fuel. induction fuel as [|fuel IH]; [done|]. cbn [messages_loop]. rewrite decide_True, Hr, Hb by done. cbn [mbind res_bind].
  change (Z.to_nat (of_le [0; 0])) with 0%nat. by rewrite Nat.add_0_r.
Qed.

End macos_routes.

(** A default route of eth0 over 192.168.1.1, and one over 192.168.1.254. *)
Definition route_eth0 : route := Route (str "eth0") 0 0x0101A8C0 (str "00000000") (str "0101A8C0") (str "0003").
Lemma route_eth0_ok : route_ok route_eth0.
Proof.
  assert (Hd : ∀ s, Forall (λ c, is_Some (digit_val 16 c)) s ↔ forallb is_hex s = true).
  { intros s. rewrite forallb_forall, List.Forall_forall. unfold is_hex. split; intros Hs c Hc; [by apply bool_decide_true, Hs|].
    by apply (bool_decide_eq_true_1 _), Hs. }
  split; cbn [route_eth0 rt_iface rt_dest rt_gateway rt_dest_text rt_gateway_text rt_rest].
  - split_and!; [done|vm_compute; lia|by repeat (apply Forall_cons_2; [done|])].
  - split; [|lia]. apply (digits_of_scan 16 (str "00000000")); [done|by apply Hd].
  - split; [|lia]. apply (digits_of_scan 16 (str "0101A8C0")); [done|by apply Hd].
  - by repeat (apply Forall_cons_2; [done|]).
  - vm_compute. lia.
Qed.
(** A host's route, with a mask of length 8, and the default route, whose mask the kernel has cut to four bytes. *)
Definition message_host : rt_message :=
  RtMessage (replicate 10 0) (replicate 76 0)
    ([Some ([16; 2; 0; 0; 10; 0; 0; 7] ++ replicate 8 0); Some ([24; 18] ++ replicate 22 0); Some (8 :: replicate 7 0);
      Some ([16; 2; 0; 0; 10; 0; 0; 8] ++ replicate 8 0)] ++ replicate 4 None).
Definition message_default : rt_message :=
  RtMessage (replicate 10 0) (replicate 76 0)
    ([Some (16 :: 2 :: replicate 14 0); Some ([16; 2; 0; 0; 192; 168; 1; 254] ++ replicate 8 0); Some [0; 0; 0; 0]] ++ replicate 5 None).
Lemma messages_ok : Forall message_ok [message_host; message_default].
Proof.
  repeat apply Forall_cons_2; [| |apply Forall_nil_2]; split; try done.
  - cbn. split_and!; try done; by eexists _, _.
  - intros g [= <-]. cbn. lia.
  - cbn. split_and!; try done; eexists _, _; split_and!; try done. intros He. exfalso. revert He. by rewrite !Exists_cons, Exists_nil; intros H; repeat destruct H as [H|H]; try destruct H.
  - intros g [= <-]. cbn. lia.
Qed.
Lemma default_gateway_found_witness :
  linux_get_default_gateway_of_iface (Some (str "Iface Destination Gateway" ++ 10 :: concat (route_line <$> [route_eth0]))) (str "eth0") =
    Ok (Some (Ip4Addr [192; 168; 1; 1])) ∧
  macos_get_default_gateway_of_iface 3 (Some (concat (encode_message <$> [message_host; message_default]))) (str "en0") = Ok (Some (Ip4Addr [192; 168; 1; 254])).
Proof.
  destruct (default_gateway_found (str "Iface Destination Gateway") [route_eth0] [message_host; message_default] (str "eth0") 3) as [H1 H2].
  - by repeat (apply Forall_cons_2; [done|]).
  - vm_compute. lia.
  - apply Forall_singleton, route_eth0_ok.
  - apply messages_ok.
  - cbn. lia.
  - split; [exact H1|exact H2].
Defined.

(** A message at the end of a table laid out in units of four bytes, with a gateway of twenty bytes and a mask of four behind it: the step over the gateway
    is of twenty-four bytes, and the length of the mask is read behind the table. *)
Example macos_walk_overruns :
  macos_get_default_gateway_of_iface 2 (Some (encode_message (RtMessage (replicate 10 0) (replicate 76 0)
    ([Some ([16; 2; 0; 0; 10; 0; 0; 7] ++ replicate 8 0); Some ([20; 18] ++ replicate 18 0); Some [0; 0; 0; 0]] ++ replicate 5 None)))) (str "en0") =
  Fault OutOfBounds.
Proof. vm_compute. reflexivity. Qed.
